(* ===== verification/_CoqProject ===== *)
-Q . S2P
Prelude.v
Apr.v
Errors.v
Url.v
Util.v
Brigade.v
TempFile.v
Param.v
Parser.v
Urlencoded.v
Header.v
Boundary.v
Multipart.v
FormData.v
StreamEnd.v
ParserRun.v
Cookie.v
Module.v
Custom.v
Cgi.v
Filter.v
Apache2.v
FilterRuns.v
Apache1.v
PerlGlue.v
Samples.v
RTable.v
SendBin.v
RState.v
RCalls.v
PostForm.v
Directives.v
InfoPage.v
Engine.v
Handler.v
RTypes.v
Startup.v
Child.v
At.v
UnitTests.v
ParserTests.v
