(* ===== verification/Prelude.v ===== *)
(** * rapache: R inside the Apache web server

    rapache is an Apache module, [src/mod_R.c], that runs R code to answer HTTP
    requests, and a copy of libapreq2, [src/libapreq2/], which parses what a
    request brings: query strings, form bodies and cookies.  This development
    translates both into Rocq functions and proves what they promise.

    ** The program and the files

    A request reaches [AP_hook_request_handler].  It takes the lock of the R
    interpreter, finds the handler its directive names, parses R files that
    changed, evaluates the handler, and ends the request: the output R wrote is
    flushed or, after an error, dropped.  R code calls back into the module for
    headers, parameters, cookies and the body; these calls use libapreq2.
    libapreq2 also has handles of its own, for programs that are not R: each is a
    front end that knows where cookies, query string and body come from.

    - [Prelude]: bytes, C strings, and the lemmas on them all files share.
    - [Apr]: the Apache Portable Runtime as an interface: status codes
      ([AprErrno]), tables ([AprTable], with the concrete [list_table]), buckets
      and brigades; the [APREQ_ERROR_*] codes ([include/apreq_error.h]).
    - [Errors]: the texts of the status codes, the version ([library/error.c],
      [library/version.c]).
    - [Url]: [apreq_decode], [apreq_decodev], [apreq_encode], the charset guess,
      [apreq_cp1252_to_utf8] ([library/util.c]).
    - [Util]: [apreq_index], [apreq_quote], [apreq_join], [apreq_atoi64f],
      [apreq_atoi64t], [apreq_header_attribute] ([library/util.c]).
    - [Brigade]: [apreq_fwritev], [apreq_brigade_fwrite], [apreq_brigade_concat]
      and the inline functions of [include/apreq_util.h]; files are the class
      [AprFile].
    - [TempFile]: [apreq_file_mktemp] and the pool that removes the files
      ([library/util.c]); the file system is the class [AprFs].
    - [Param]: flag words, parameters, [apreq_parse_query_string] and the
      lookups ([include/apreq.h], [include/apreq_param.h], [library/param.c]).
    - [Parser]: hooks, the parser object, the registry and the generic parser
      ([library/parser.c]); hooks of the user and the XML library are classes.
    - [Urlencoded]: the form body parser ([library/parser_urlencoded.c]).
    - [Header]: the parser of header blocks ([library/parser_header.c]).
    - [Boundary], [Multipart], [FormData]: the search for a boundary through
      buckets, the parser of multipart bodies as one definition per state, and
      forms as they are sent ([library/parser_multipart.c]); APR's string matcher
      is the class [AprStrmatch].
    - [ParserRun]: a call of any parser through its object, with what a turn of
      the urlencoded parser does in the middle of a body.
    - [Cookie]: [library/cookie.c] and [include/apreq_cookie.h].
    - [Module]: the table of functions of a front end as a class, the functions on
      handles ([library/module.c]), and [Frontend], what a front end promises.
    - [Custom], [Cgi]: the handles on given data and on the environment of a CGI
      program ([library/module_custom.c], [library/module_cgi.c]).
    - [Filter], [Apache2], [FilterRuns]: the input filter and the handle of Apache 2
      ([module/apache2/]), and runs in which apreq fetches the body while another
      handler reads it; the chain of filters is the class [ApChain].
    - [Apache1]: the handle and the directives of Apache 1 ([module/apache/]); the
      client is the class [ApClient].
    - [PerlGlue]: the methods that Perl programs have for requests, tables, uploads and
      brigades ([glue/perl/xsbuilder/]); Perl is the class [Perl], its objects are a
      heap.
    - [Samples]: the CGI program and the Apache modules that the tests are run against
      ([module/test_cgi.c], [c-modules/]).
    - [RTable], [SendBin]: the lists handed to R, and [sendBin] ([mod_R.c]).
    - [RState]: the globals [MR_*] as the record [world], the monad [M] of
      computations, the console and [ReadRequestBody]; the body is the class
      [ApInput], R the class [REngine].
    - [RCalls]: the functions R code calls ([RApache_*]); the multipart parser is
      the class [MultipartParser], of which [multipart_body] is the instance.
    - [StreamEnd], [PostForm]: the end of the stream behind a multipart body; the path
      of a posted form from the pieces Apache hands out to the list R gets.
    - [Directives]: the configuration commands [AP_cmd_*] and the startup table.
    - [InfoPage], [Engine]: [ParseEval], [EvalExprs], [TearDownRequest],
      [RApacheInfo] with its page, [RApache_getServer]; results of Apache, APR
      and the machine are the class [Platform].
    - [Handler]: [AP_hook_request_handler] and what it calls.
    - [RTypes]: the types of the values that R code gets from the module.
    - [Startup]: [init_R], the environment of the module, child start and exit.
    - [Child]: the configuration, the start and the requests of a child process,
      one after the other.
    - [At], [UnitTests], [ParserTests]: the test harness of libapreq2 and its test
      programs ([library/t/]), run on the definitions above.

    ** How the code is modelled

    A pointer into a string is the list of the bytes from there on; a brigade is
    a list of buckets; a table is an interface with the laws APR documents.
    Functions with an [apr_status_t] yield it with their results.  The module's
    functions are computations on [world] that return, end the process
    ([Exit]), touch memory they must not ([Crash]), or nest evaluations deeper
    than the bound ([TooDeep]).  An R program is a tree ([r_prog]) of calls into
    the module and the console, which ends with a value or an error; [interp]
    runs it, and the calls may themselves run R code.

    ** What the theorems show

    - A child process, from its configuration through the start of R, answers any
      sequence of requests for functions as a specification says
      ([child_serves]); directives of one directory are merged as Apache does it.
    - After a request, whatever R does in it, the record of the request and its
      brigades are cleared, and the lock is not held longer than before; it is as
      before when R leaves the engine as it found it
      ([request_balanced]).  A function that prints and returns is served
      completely ([handler_served]); a refusal sends nothing
      ([refusal_sends_nothing]); files are parsed when they changed and the
      caches stay consistent ([file_parsed_when_newer], [handler_cache_sound]);
      starting R leaves an idle module ([startup_ready]); directives are cut
      where they say ([command_splits]); texts fit their buffers ([texts_fit]).
    - A body is used once, in one way, in any program R runs ([body_used_once],
      [parse_post_once]); reads stay in their buffer ([read_body_prefix]), and a
      body of less than 2^32 bytes is received completely ([receive_whole_body]);
      one of 2^33 bytes overruns the buffer ([receive_overruns]).
    - What R code gets is of the type its function promises, in every program and
      at every depth of evaluation ([calls_well_typed]).
    - What was encoded decodes to what it was: URL encoding, query strings, form
      bodies, cookies, quoted values, binary output, header blocks
      ([header_block_round_trip]), and multipart forms with their fields and files
      ([form_round_trip]).
    - The multipart parser ends on every input ([multipart_terminates]), but the loop
      around it does not ([boundaryless_form_never_ends]).
    - Composed, a posted form reaches R with its fields and files
      ([posted_fields_reach_R], [posted_form_reaches_R]).
    - Pieces make no difference: decoding, boundaries and form bodies give the same
      result however the data is cut ([decodev_chunking],
      [boundary_split_chunking], [urlencoded_chunking]).
    - Front ends answer as one fixed view of the request, whatever is asked in
      whatever order and however the body arrives: the view that parsing each part
      as one string gives ([custom_handle_refines_request],
      [cgi_handle_refines_request], [apache_handle_refines_request]; all three
      through the interface [Frontend] and [questions_refine_view], for form bodies
      that are URL-encoded, within the read limit and without hooks).
    - The filter of Apache 2, when apreq is alone in the chain, shares a body between
      apreq and a handler, URL-encoded or a multipart form: nothing is
      lost, changed or handed out twice ([filter_loses_nothing]), apreq's answer is
      the same at any moment ([apache2_body_any_time]), and a handler that reads on
      comes to the end ([reader_reaches_end]).  [parsed_body] says which bodies these are.
    - A Perl program gets what the front end shows, in every context, or an error object
      that still serves as the request ([methods_refine_view], [error_object_serves]);
      iterating over a table yields every entry with its own value
      ([each_yields_entries]); lines and blocks of an upload are its data
      ([readline_lines], [read_takes], [upload_hook_notes]).
    - The temporary files of a request are removed with its pool, and no others
      ([temp_files_live_with_pool], [spooled_files_removed]).
    - The test harness numbers what a test reports without a gap
      ([run_reports_plan]), the test programs of the library pass on the model
      ([unit_tests_pass], [parser_tests_pass]), and so does the test that splits a form
      in all ways, for every splitting ([parse_multipart_passes]).
    - One-pass scanners agree with plain definitions
      ([parse_query_string_words], [apreq_index_first_match]); buffers suffice
      ([decode_writes_fit], [join_fits], [cookie_format_fits]); data is kept
      when brigades are appended, spooled and written.
    - Examples at the end of [Urlencoded], [Header], [Boundary], [FormData], [Cgi],
      [FilterRuns], [Apache1], [PerlGlue], [UnitTests], [Directives] and [Handler] show runs in which the code does something its
      authors did not mean.

    ** Bounds

    Loops over strings and brigades are structural, or carry fuel that starts at
    the length of what they consume; every turn consumes at least one byte, and
    lemmas show that the fuel never runs out ([url_loop_fuel], [cookie_loop],
    [attr_loop_terminates], [receive_loop_works]).  The states of the multipart
    parser have three turns for each byte that it holds and ten more, which is
    enough: a state uses up bytes or is followed by a state of lower rank
    ([mfd_loop_ends]); a part of type [multipart/mixed] has no such part in it, so
    its parser is the same one without a parser for mixed parts.  The loops of the
    front ends have a number of turns; the theorems ask for at most two more than
    the body has buckets or bytes, since every turn but the last two takes some.
    [interp] has the depth of
    evaluations inside each other, which R itself limits by its stack: results
    about it hold for every depth; those that state that a request is answered
    ask for the depth the run needs.  Integers are [Z]; where their width
    matters (flag words, binary output, the sizes of reads) it is written out.

    ** What is not modelled

    Memory and its lifetime (of pools only the cleanups of temporary files, of R the
    protection of objects), threads other than the one that holds the lock, allocation
    failures.  Of libapreq2: the log lines of the Apache 2 filter, the registration of
    hooks and modules, requests that a redirect makes of a request, the methods of the
    Perl classes that are written in the XS language ([glue/perl/xsbuilder/APR], files
    [.xs], which wrap single functions of the library), and the compatibility header of
    Perl ([ppport.h], generated). *)
From Stdlib Require Export Strings.Byte.

From stdpp Require Export base tactics numbers option list strings gmap.
From Stdlib Require Export ZArith Lia.

(** ** Bytes and C strings *)

Abbreviation bytes := (list Byte.byte).

#[export] Instance byte_eq_dec : EqDecision Byte.byte := Byte.byte_eq_dec.

#[export] Program Instance byte_countable : Countable Byte.byte :=
  inj_countable Byte.to_N Byte.of_N Byte.of_to_N.

Declare Scope c_scope.
Delimit Scope c_scope with c.
Notation "b =b? c" := (Byte.eqb b c) (at level 70, no associativity) : c_scope.
Open Scope c_scope.
Open Scope byte_scope.
Open Scope nat_scope.
Open Scope list_scope.

(** A string literal of the C source. *)
Definition str (s : String.string) : bytes := String.list_byte_of_string s.
Arguments str s%_string_scope.

(** A string literal that contains double quotes, written with back quotes. *)
Definition qstr (s : String.string) : bytes :=
  map (fun b => if b =b? x60 then x22 else b) (str s).
Arguments qstr s%_string_scope.

(** The unsigned value of a byte, and the byte an integer is stored as. *)
Definition zb (b : Byte.byte) : Z := Z.of_N (Byte.to_N b).
Definition bz (z : Z) : Byte.byte :=
  default x00 (Byte.of_N (Z.to_N (z mod 256))).

(** An integer stored in an [int] of 32 bits. *)
Definition int32 (z : Z) : Z := ((z + 2 ^ 31) mod 2 ^ 32 - 2 ^ 31)%Z.

(** An integer stored in an [apr_uint64_t] or [apr_size_t] of 64 bits. *)
Definition u64 (z : Z) : Z := (z mod 2 ^ 64)%Z.

Lemma u64_small z : (0 <= z < 2 ^ 64)%Z -> u64 z = z.
Proof. apply Z.mod_small. Qed.

Lemma int32_small z : (- 2 ^ 31 <= z < 2 ^ 31)%Z -> int32 z = z.
Proof. intros Hz. unfold int32. rewrite Z.mod_small; lia. Qed.

Definition all_bytes : bytes := map (fun n => bz (Z.of_nat n)) (seq 0 256).

Lemma elem_of_all_bytes b : List.In b all_bytes.
Proof.
  assert (H : forall c, existsb (Byte.eqb c) all_bytes = true)
    by (intros c; destruct c; vm_compute; reflexivity).
  specialize (H b). apply List.existsb_exists in H as (c & Hin & Heq).
  apply Byte.byte_dec_bl in Heq. by subst.
Qed.

(** A boolean fact about every byte is one evaluation. *)
Lemma byte_forall (P : Byte.byte -> bool) :
  forallb P all_bytes = true -> forall b, P b = true.
Proof. intros H b. eapply List.forallb_forall in H; [exact H|apply elem_of_all_bytes]. Qed.

Lemma byte_eqb_eq a b : (a =b? b) = true <-> a = b.
Proof. split; [apply Byte.byte_dec_bl|apply Byte.byte_dec_lb]. Qed.

Lemma byte_eqb_neq a b : (a =b? b) = false <-> a <> b.
Proof. rewrite <- byte_eqb_eq. destruct (a =b? b); naive_solver. Qed.

Lemma byte_eqb_refl a : (a =b? a) = true.
Proof. by apply byte_eqb_eq. Qed.

Lemma zb_range b : (0 <= zb b < 256)%Z.
Proof. unfold zb. pose proof (Byte.to_N_bounded b). lia. Qed.

Lemma bz_zb b : bz (zb b) = b.
Proof.
  unfold bz. rewrite Z.mod_small by apply zb_range.
  unfold zb. rewrite N2Z.id, Byte.of_to_N. done.
Qed.

Lemma zb_bz z : zb (bz z) = (z mod 256)%Z.
Proof.
  unfold bz, zb. pose proof (Z.mod_pos_bound z 256 ltac:(lia)) as Hm.
  destruct (Byte.of_N (Z.to_N (z mod 256))) as [b|] eqn:E; cbn [from_option id].
  - apply Byte.to_of_N in E. rewrite E. lia.
  - apply Byte.of_N_None_iff in E. lia.
Qed.

(** Turns boolean byte tests of the context into equations. *)
Ltac byte_eqs :=
  repeat match goal with
  | H : (_ =b? _) = true |- _ => apply byte_eqb_eq in H
  | H : (_ =b? _) = false |- _ => apply byte_eqb_neq in H
  end.

(** Case split on the boolean tests a goal branches on. *)
Ltac bool_cases :=
  repeat match goal with
  | |- context [if ?b then _ else _] =>
      lazymatch b with
      | context [if _ then _ else _] => fail
      | _ => let E := fresh "E" in destruct b eqn:E
      end
  end.

(** Proves a boolean statement about a byte variable by evaluation. *)
Ltac by_bytes b :=
  generalize b; apply byte_forall; vm_compute; reflexivity.

(** Where an element of two lists in a row is. *)
Lemma app_cons_inv {A} (x y a b : list A) e : x ++ y = a ++ e :: b ->
  (exists b', x = a ++ e :: b' /\ b = b' ++ y) \/ (exists a', y = a' ++ e :: b /\ a = x ++ a').
Proof.
  intros [(k & -> & Hk)|(k & -> & ->)]%app_eq_inv; [|right; by exists k].
  destruct k as [|e' k]; simplify_eq/=; rewrite ?app_nil_r.
  - right. exists []. by rewrite app_nil_r.
  - left. by exists k.
Qed.

(** ** The C library's character classes (C locale), on bytes read as
    [unsigned char] *)

Definition byte_in (lo hi : Byte.byte) (b : Byte.byte) : bool :=
  (zb lo <=? zb b)%Z && (zb b <=? zb hi)%Z.
Definition isdigit (b : Byte.byte) : bool := byte_in "0" "9" b.
Definition isupper (b : Byte.byte) : bool := byte_in "A" "Z" b.
Definition islower (b : Byte.byte) : bool := byte_in "a" "z" b.
Definition isalnum (b : Byte.byte) : bool := isdigit b || isupper b || islower b.
Definition isxdigit (b : Byte.byte) : bool :=
  isdigit b || byte_in "A" "F" b || byte_in "a" "f" b.
Definition isspace (b : Byte.byte) : bool := (b =b? " ") || byte_in x09 x0d b.
Definition iscntrl (b : Byte.byte) : bool := byte_in x00 x1f b || (b =b? x7f).
Definition tolower (b : Byte.byte) : Byte.byte :=
  if isupper b then bz (zb b + 32) else b.
Definition toupper (b : Byte.byte) : Byte.byte :=
  if islower b then bz (zb b - 32) else b.

(** [strncasecmp(a, b, n) == 0] on NUL-terminated strings: the lists are the
    characters before the terminator. *)
Fixpoint strncaseeq (a b : bytes) (n : nat) : bool :=
  match n with
  | O => true
  | S n =>
      match a, b with
      | x :: a, y :: b => (tolower x =b? tolower y) && strncaseeq a b n
      | [], [] => true
      | _, _ => false
      end
  end.

(** [strcasecmp(a, b) == 0]. *)
Fixpoint strcaseeq (a b : bytes) : bool :=
  match a, b with
  | x :: a, y :: b => (tolower x =b? tolower y) && strcaseeq a b
  | [], [] => true
  | _, _ => false
  end.

(** The part of a buffer a C string function sees: up to the first NUL. *)
Fixpoint cstr (l : bytes) : bytes :=
  match l with
  | [] => []
  | b :: l => if b =b? x00 then [] else b :: cstr l
  end.

Definition no_nul (l : bytes) : bool := forallb (fun b => negb (b =b? x00)) l.

Lemma cstr_no_nul l : no_nul l = true -> cstr l = l.
Proof.
  induction l as [|b l IH]; cbn; [done|].
  destruct (b =b? x00); cbn; [done|]. intros H. by rewrite IH.
Qed.

Lemma no_nul_cstr l : no_nul (cstr l) = true.
Proof.
  induction l as [|b l IH]; cbn; [done|].
  destruct (b =b? x00) eqn:E; cbn; [done|]. by rewrite E.
Qed.
