(* ===== verification/Apr.v ===== *)
(** * The Apache Portable Runtime, as the code relies on it

    APR is not part of the repository: its status codes are the fields of a
    class, with the documented facts the code depends on as laws, and
    [apr_1_errno] gives the values of APR 1.x.  The [APREQ_ERROR_*] codes are
    libapreq2's own ([src/libapreq2/include/apreq_error.h]). *)
From S2P Require Import Prelude.

Local Open Scope Z_scope.

Definition APR_SUCCESS : Z := 0.

Class AprErrno := {
  APR_INCOMPLETE : Z;
  APR_EOF : Z;
  APR_EBADARG : Z;
  APR_ENOTIMPL : Z;
  APR_EINIT : Z;
  APR_EINVAL : Z;
  APR_OS_START_USERERR : Z;
  (** APR's own codes are positive and lie below the range reserved for
      applications, with room for a charset to be added to them. *)
  apr_errno_range : Forall (fun s => 8 < s /\ s + 8 < APR_OS_START_USERERR)
    [APR_INCOMPLETE; APR_EOF; APR_EBADARG; APR_ENOTIMPL; APR_EINIT; APR_EINVAL];
  apr_errno_distinct :
    NoDup [APR_INCOMPLETE; APR_EOF; APR_EBADARG; APR_ENOTIMPL; APR_EINIT; APR_EINVAL];
  (** [APR_INCOMPLETE] with a charset is not [APR_EINIT], which is a code of
      another range of APR's. *)
  apr_einit_apart : APR_EINIT < APR_INCOMPLETE
}.

#[export] Program Instance apr_1_errno : AprErrno := {|
  APR_INCOMPLETE := 70008;
  APR_EOF := 70014;
  APR_EBADARG := 70013;
  APR_ENOTIMPL := 70023;
  APR_EINIT := 20022;
  APR_EINVAL := 22;
  APR_OS_START_USERERR := 120000
|}.
Next Obligation. repeat constructor. Qed.
Next Obligation. apply (bool_decide_eq_true _). vm_compute. reflexivity. Qed.
Next Obligation. done. Qed.

Section Errors.
Context {E : AprErrno}.

Definition APREQ_ERROR_GENERAL : Z := APR_OS_START_USERERR.
Definition APREQ_ERROR_TAINTED : Z := APREQ_ERROR_GENERAL + 1.
Definition APREQ_ERROR_INTERRUPT : Z := APREQ_ERROR_GENERAL + 2.
Definition APREQ_ERROR_BADDATA : Z := APREQ_ERROR_GENERAL + 10.
Definition APREQ_ERROR_BADCHAR : Z := APREQ_ERROR_BADDATA + 1.
Definition APREQ_ERROR_BADSEQ : Z := APREQ_ERROR_BADDATA + 2.
Definition APREQ_ERROR_BADATTR : Z := APREQ_ERROR_BADDATA + 3.
Definition APREQ_ERROR_BADHEADER : Z := APREQ_ERROR_BADDATA + 4.
Definition APREQ_ERROR_BADUTF8 : Z := APREQ_ERROR_BADDATA + 5.
Definition APREQ_ERROR_NODATA : Z := APREQ_ERROR_GENERAL + 20.
Definition APREQ_ERROR_NOTOKEN : Z := APREQ_ERROR_NODATA + 1.
Definition APREQ_ERROR_NOATTR : Z := APREQ_ERROR_NODATA + 2.
Definition APREQ_ERROR_NOHEADER : Z := APREQ_ERROR_NODATA + 3.
Definition APREQ_ERROR_NOPARSER : Z := APREQ_ERROR_NODATA + 4.
Definition APREQ_ERROR_MISMATCH : Z := APREQ_ERROR_GENERAL + 30.
Definition APREQ_ERROR_OVERLIMIT : Z := APREQ_ERROR_MISMATCH + 1.
Definition APREQ_ERROR_UNDERLIMIT : Z := APREQ_ERROR_MISMATCH + 2.
Definition APREQ_ERROR_NOTEMPTY : Z := APREQ_ERROR_MISMATCH + 3.

Lemma incomplete_range : 8 < APR_INCOMPLETE /\ APR_INCOMPLETE + 8 < APR_OS_START_USERERR.
Proof. pose proof apr_errno_range as H. inversion H; subst. done. Qed.

Lemma ebadarg_range : 8 < APR_EBADARG /\ APR_EBADARG + 8 < APR_OS_START_USERERR.
Proof. pose proof apr_errno_range as H. rewrite !Forall_cons in H. tauto. Qed.

Lemma enotimpl_range : 8 < APR_ENOTIMPL /\ APR_ENOTIMPL + 8 < APR_OS_START_USERERR.
Proof. pose proof apr_errno_range as H. rewrite !Forall_cons in H. tauto. Qed.

Lemma eof_range : 8 < APR_EOF /\ APR_EOF + 8 < APR_OS_START_USERERR.
Proof. pose proof apr_errno_range as H. rewrite !Forall_cons in H. tauto. Qed.

Lemma einit_range : 8 < APR_EINIT /\ APR_EINIT + 8 < APR_OS_START_USERERR.
Proof. pose proof apr_errno_range as H. rewrite !Forall_cons in H. tauto. Qed.

Lemma ebadarg_not_einit : APR_EBADARG <> APR_EINIT.
Proof.
  pose proof apr_errno_distinct as H. do 2 apply NoDup_cons in H as [_ H].
  apply NoDup_cons in H as [H _]. intros Heq. apply H. rewrite Heq. set_solver.
Qed.

Lemma eof_not_incomplete : APR_EOF <> APR_INCOMPLETE.
Proof.
  pose proof apr_errno_distinct as H. apply NoDup_cons in H as [H _].
  intros Heq. apply H. rewrite Heq. set_solver.
Qed.

End Errors.

(** Facts about status codes that [lia] needs. *)
Ltac errno_lia :=
  unfold APREQ_ERROR_GENERAL, APREQ_ERROR_BADCHAR, APREQ_ERROR_BADSEQ,
    APREQ_ERROR_BADDATA, APREQ_ERROR_NOTOKEN, APREQ_ERROR_NOATTR,
    APREQ_ERROR_NODATA, APREQ_ERROR_MISMATCH, APREQ_ERROR_GENERAL, APR_SUCCESS in *;
  pose proof incomplete_range; pose proof ebadarg_range;
  pose proof enotimpl_range; pose proof eof_range; lia.

(** Comparisons of distinct codes, for rewriting. *)
Section Comparisons.
Context {E : AprErrno}.

Lemma eqb_success_badseq : (APR_SUCCESS =? APREQ_ERROR_BADSEQ) = false.
Proof. apply Z.eqb_neq. errno_lia. Qed.
Lemma eqb_success_incomplete : (APR_SUCCESS =? APR_INCOMPLETE) = false.
Proof. apply Z.eqb_neq. errno_lia. Qed.
Lemma eqb_incomplete_success : (APR_INCOMPLETE =? APR_SUCCESS) = false.
Proof. apply Z.eqb_neq. errno_lia. Qed.
Lemma eqb_incomplete_badseq : (APR_INCOMPLETE =? APREQ_ERROR_BADSEQ) = false.
Proof. apply Z.eqb_neq. errno_lia. Qed.
Lemma eqb_badseq_success : (APREQ_ERROR_BADSEQ =? APR_SUCCESS) = false.
Proof. apply Z.eqb_neq. errno_lia. Qed.
Lemma eqb_badseq_incomplete : (APREQ_ERROR_BADSEQ =? APR_INCOMPLETE) = false.
Proof. apply Z.eqb_neq. errno_lia. Qed.

End Comparisons.

Create Rewrite HintDb errno.
#[export] Hint Rewrite @eqb_success_badseq @eqb_success_incomplete @eqb_incomplete_success
  @eqb_incomplete_badseq @eqb_badseq_success @eqb_badseq_incomplete Z.eqb_refl : errno.

(** ** Tables

    An [apr_table_t] keeps its entries in the order of their insertion; keys
    compare without regard to case.  The class lists the operations the code
    calls; the laws are their documentation in [apr_tables.h]. *)

(** [apr_table_do]: the callback runs on the entries (those with the key, when
    one is given) in order, until it returns 0. *)
Fixpoint do_entries {A S} (cb : S -> bytes -> A -> S * bool) (s : S)
    (l : list (bytes * A)) : S :=
  match l with
  | [] => s
  | (k, v) :: l =>
      let '(s, go) := cb s k v in if go : bool then do_entries cb s l else s
  end.

Definition key_filter {A} (key : option bytes) (l : list (bytes * A)) : list (bytes * A) :=
  match key with
  | None => l
  | Some k => List.filter (fun e => strcaseeq k e.1) l
  end.

Class AprTable := {
  apr_table : Type -> Type;
  apr_table_elts : forall {A}, apr_table A -> list (bytes * A);
  apr_table_make : forall {A}, apr_table A;
  apr_table_add : forall {A}, apr_table A -> bytes -> A -> apr_table A;
  apr_table_set : forall {A}, apr_table A -> bytes -> A -> apr_table A;
  apr_table_unset : forall {A}, apr_table A -> bytes -> apr_table A;
  apr_table_get : forall {A}, apr_table A -> bytes -> option A;
  apr_table_do : forall {A S}, (S -> bytes -> A -> S * bool) -> S -> apr_table A ->
                   option bytes -> S;
  elts_make : forall A, apr_table_elts (A := A) apr_table_make = [];
  elts_add : forall A (t : apr_table A) k v,
    apr_table_elts (apr_table_add t k v) = apr_table_elts t ++ [(k, v)];
  get_elts : forall A (t : apr_table A) k,
    apr_table_get t k = snd <$> List.find (fun e => strcaseeq k e.1) (apr_table_elts t);
  get_set : forall A (t : apr_table A) k v k',
    apr_table_get (apr_table_set t k v) k' =
      if strcaseeq k' k then Some v else apr_table_get t k';
  get_unset : forall A (t : apr_table A) k k',
    apr_table_get (apr_table_unset t k) k' =
      if strcaseeq k' k then None else apr_table_get t k';
  elts_unset : forall A (t : apr_table A) k,
    apr_table_elts (apr_table_unset t k) =
      List.filter (fun e => negb (strcaseeq k e.1)) (apr_table_elts t);
  do_elts : forall A S (cb : S -> bytes -> A -> S * bool) s (t : apr_table A) key,
    apr_table_do cb s t key = do_entries cb s (key_filter key (apr_table_elts t))
}.

Lemma strcaseeq_refl a : strcaseeq a a = true.
Proof. induction a as [|x a IH]; cbn; [done|]. by rewrite byte_eqb_refl, IH. Qed.

Lemma strcaseeq_lower a b : strcaseeq a b = true <-> map tolower a = map tolower b.
Proof.
  revert b. induction a as [|x a IH]; intros [|y b]; cbn; try done.
  rewrite andb_true_iff, byte_eqb_eq, IH.
  split; [by intros [-> ->]|by intros [= -> ->]].
Qed.

Lemma strcaseeq_trans_r a b c : strcaseeq a b = true -> strcaseeq c a = strcaseeq c b.
Proof.
  intros H. apply strcaseeq_lower in H. apply eq_true_iff_eq. rewrite !strcaseeq_lower.
  by rewrite H.
Qed.

Lemma strcaseeq_sym a b : strcaseeq a b = strcaseeq b a.
Proof. apply eq_true_iff_eq. rewrite !strcaseeq_lower. done. Qed.

(** The concrete tables the witnesses run on. *)
Section ListTable.

Definition lt_unset {A} (t : list (bytes * A)) (k : bytes) : list (bytes * A) :=
  List.filter (fun e => negb (strcaseeq k e.1)) t.

Fixpoint lt_set {A} (t : list (bytes * A)) (k : bytes) (v : A) : list (bytes * A) :=
  match t with
  | [] => [(k, v)]
  | e :: t => if strcaseeq k e.1 then (k, v) :: lt_unset t k else e :: lt_set t k v
  end.

Lemma lt_get_unset {A} (t : list (bytes * A)) k k' :
  snd <$> List.find (fun e => strcaseeq k' e.1) (lt_unset t k) =
  if strcaseeq k' k then None else snd <$> List.find (fun e => strcaseeq k' e.1) t.
Proof.
  unfold lt_unset. induction t as [|[a v] t IH]; cbn; [by destruct (strcaseeq _ _)|].
  destruct (strcaseeq k a) eqn:Ea; cbn.
  - rewrite IH. rewrite (strcaseeq_trans_r _ _ k' Ea). by destruct (strcaseeq k' a).
  - destruct (strcaseeq k' a) eqn:Eb; cbn; [|done].
    destruct (strcaseeq k' k) eqn:Ek; [|done].
    rewrite strcaseeq_sym, (strcaseeq_trans_r _ _ a Ek), strcaseeq_sym in Eb. congruence.
Qed.

Lemma lt_get_set {A} (t : list (bytes * A)) k v k' :
  snd <$> List.find (fun e => strcaseeq k' e.1) (lt_set t k v) =
  if strcaseeq k' k then Some v else snd <$> List.find (fun e => strcaseeq k' e.1) t.
Proof.
  induction t as [|[a w] t IH]; cbn; [by destruct (strcaseeq k' k)|].
  destruct (strcaseeq k a) eqn:Ea; cbn.
  - rewrite <- (strcaseeq_trans_r _ _ k' Ea).
    destruct (strcaseeq k' k) eqn:Ek; [done|]. rewrite lt_get_unset, Ek. done.
  - destruct (strcaseeq k' a) eqn:Eb; [cbn|by rewrite IH].
    destruct (strcaseeq k' k) eqn:Ek; [|done].
    rewrite strcaseeq_sym, (strcaseeq_trans_r _ _ a Ek), strcaseeq_sym in Eb. congruence.
Qed.

End ListTable.

#[export] Program Instance list_table : AprTable := {|
  apr_table A := list (bytes * A);
  apr_table_elts A t := t;
  apr_table_make A := [];
  apr_table_add A t k v := t ++ [(k, v)];
  apr_table_set A t k v := lt_set t k v;
  apr_table_unset A t k := lt_unset t k;
  apr_table_get A t k := snd <$> List.find (fun e => strcaseeq k e.1) t;
  apr_table_do A S cb s t key := do_entries cb s (key_filter key t)
|}.
Next Obligation. done. Qed.
Next Obligation. done. Qed.
Next Obligation. done. Qed.
Next Obligation. intros. apply lt_get_set. Qed.
Next Obligation. intros. apply lt_get_unset. Qed.
Next Obligation. done. Qed.
Next Obligation. done. Qed.

Local Close Scope Z_scope.

(** ** Buckets and brigades

    A brigade is the list of its buckets.  A bucket is what reading it yields:
    data, an error, a metadata bucket, or [len] bytes of a file from [start];
    [spool] marks libapreq's own bucket type for the temporary file of an upload
    ([spool_bucket_type] of util.c).  A file is only ever appended to, so each
    bucket carries the content its file had when the bucket was made. *)
Inductive apr_bucket :=
  | BData (data : bytes)
  | BEos
  | BFlush
  | BError (status : Z)
  | BFile (spool : bool) (content : bytes) (start len : nat).

Abbreviation brigade := (list apr_bucket).

Definition bucket_is_eos (e : apr_bucket) : bool :=
  match e with BEos => true | _ => false end.

(** [apr_bucket_read]: the status and the data; metadata reads as nothing. *)
Definition apr_bucket_read (e : apr_bucket) : Z * bytes :=
  match e with
  | BData d => (APR_SUCCESS, d)
  | BFile _ f start len => (APR_SUCCESS, take len (drop start f))
  | BEos | BFlush => (APR_SUCCESS, [])
  | BError s => (s, [])
  end.

(** The bytes a brigade holds. *)
Definition brigade_data (bb : brigade) : bytes :=
  flat_map (fun e => (apr_bucket_read e).2) bb.

(** [apr_bucket_split(e, n)]: the two buckets; of a spool bucket the second
    half stays the spool bucket. *)
Definition apr_bucket_split (e : apr_bucket) (n : nat) : apr_bucket * apr_bucket :=
  match e with
  | BData d => (BData (take n d), BData (drop n d))
  | BFile sp f start len => (BFile false f start (Nat.min n len), BFile sp f (start + n) (len - n))
  | _ => (e, BData [])
  end.

(** Reading every bucket of a brigade succeeds. *)
Definition readable (e : apr_bucket) : bool :=
  match e with BError s => (s =? APR_SUCCESS)%Z | _ => true end.

Lemma readable_read e : readable e = true -> (apr_bucket_read e).1 = APR_SUCCESS.
Proof. destruct e; cbn; try done. apply Z.eqb_eq. Qed.

Lemma brigade_data_app a b : brigade_data (a ++ b) = brigade_data a ++ brigade_data b.
Proof. apply flat_map_app. Qed.

Lemma brigade_data_cons e bb :
  brigade_data (e :: bb) = (apr_bucket_read e).2 ++ brigade_data bb.
Proof. done. Qed.

Lemma split_data e n :
  n <= length (apr_bucket_read e).2 ->
  (apr_bucket_read (apr_bucket_split e n).1).2 = take n (apr_bucket_read e).2 /\
  (apr_bucket_read (apr_bucket_split e n).2).2 = drop n (apr_bucket_read e).2.
Proof.
  destruct e as [d| | |s|sp f st ln]; cbn; intros Hn; try (destruct n; [done|lia]); [done|].
  rewrite length_take, length_drop in Hn.
  rewrite take_take, skipn_firstn_comm, drop_drop.
  replace (Nat.min (Nat.min n ln) ln) with (Nat.min n ln) by lia. done.
Qed.

Lemma split_readable e n :
  readable e = true ->
  readable (apr_bucket_split e n).1 = true /\ readable (apr_bucket_split e n).2 = true.
Proof. by destruct e. Qed.

(** Data, or metadata other than EOS: what a body is made of. *)
Definition plain (e : apr_bucket) : bool := readable e && negb (bucket_is_eos e).

Lemma plain_read e : plain e = true ->
  bucket_is_eos e = false /\ apr_bucket_read e = (APR_SUCCESS, (apr_bucket_read e).2).
Proof.
  unfold plain. rewrite andb_true_iff, negb_true_iff. intros [Hr He]. split; [done|].
  apply readable_read in Hr. by rewrite <- Hr, <- surjective_pairing.
Qed.

Lemma split_plain e n : plain e = true ->
  plain (apr_bucket_split e n).1 = true /\ plain (apr_bucket_split e n).2 = true.
Proof. by destruct e. Qed.

(** Kinds of buckets a body may be made of: what splits into the same kind. *)
Class BucketKind (ok : apr_bucket -> bool) := {
  kind_plain : forall e, ok e = true -> plain e = true;
  kind_split : forall e n, ok e = true ->
    ok (apr_bucket_split e n).1 = true /\ ok (apr_bucket_split e n).2 = true;
  kind_data : forall d, ok (BData d) = true
}.

#[export] Instance plain_kind : BucketKind plain := {|
  kind_plain e H := H; kind_split := split_plain; kind_data d := eq_refl
|}.

Lemma kind_read {ok} {K : BucketKind ok} e : ok e = true ->
  bucket_is_eos e = false /\ apr_bucket_read e = (APR_SUCCESS, (apr_bucket_read e).2).
Proof. intros H. by apply plain_read, kind_plain. Qed.

(** Brigades of one kind. *)
Section Kinds.
Context {ok : apr_bucket -> bool} {K : BucketKind ok}.

Definition plains (bb : brigade) : Prop := forallb ok bb = true.

Lemma plains_app a b : plains (a ++ b) <-> plains a /\ plains b.
Proof. unfold plains. by rewrite forallb_app, andb_true_iff. Qed.

Lemma plains_one e : plains [e] <-> ok e = true.
Proof. unfold plains. cbn. by rewrite andb_true_r. Qed.

Lemma plains_cons e bb : plains (e :: bb) <-> ok e = true /\ plains bb.
Proof. apply andb_true_iff. Qed.

Lemma brigade_data_one e : brigade_data [e] = (apr_bucket_read e).2.
Proof. apply app_nil_r. Qed.

Lemma len_app a b :
  length (brigade_data (a ++ b)) = length (brigade_data a) + length (brigade_data b).
Proof. by rewrite brigade_data_app, length_app. Qed.

Lemma len_snoc b e :
  length (brigade_data (b ++ [e])) = length (brigade_data b) + length (apr_bucket_read e).2.
Proof. by rewrite len_app, brigade_data_one. Qed.

(** The data of both halves of a bucket. *)
Lemma kind_split_data e n :
  ok e = true -> n <= length (apr_bucket_read e).2 ->
  let '(e1, e2) := apr_bucket_split e n in
  ok e1 = true /\ ok e2 = true /\ (apr_bucket_read e1).2 = take n (apr_bucket_read e).2 /\
  (apr_bucket_read e2).2 = drop n (apr_bucket_read e).2.
Proof.
  intros He Hn. destruct (split_data e n Hn) as [D1 D2], (kind_split e n He) as [P1 P2].
  by destruct (apr_bucket_split e n).
Qed.

End Kinds.
