(* ===== verification/Errors.v ===== *)
(** * Messages and version ([src/libapreq2/library/error.c], [version.c])

    The texts of the status codes, and the version of the library. *)
From S2P Require Import Prelude Apr.

Section Errors.
Context {E : AprErrno} (APR_OS_START_EAIERR : Z) (apr_strerror : Z -> nat -> bytes).

Definition apreq_error_string (statcode : Z) : bytes :=
  if (statcode =? APREQ_ERROR_GENERAL)%Z then str "Internal apreq error"
  else if (statcode =? APREQ_ERROR_TAINTED)%Z
       then str "Attempt to perform unsafe action with tainted data"
  else if (statcode =? APREQ_ERROR_BADDATA)%Z then str "Malformed input data"
  else if (statcode =? APREQ_ERROR_BADCHAR)%Z then str "Invalid character"
  else if (statcode =? APREQ_ERROR_BADSEQ)%Z then str "Invalid byte sequence"
  else if (statcode =? APREQ_ERROR_BADATTR)%Z then str "Unrecognized attribute"
  else if (statcode =? APREQ_ERROR_BADHEADER)%Z then str "Malformed header string"
  else if (statcode =? APREQ_ERROR_NODATA)%Z then str "Missing input data"
  else if (statcode =? APREQ_ERROR_NOTOKEN)%Z then str "Expected token not present"
  else if (statcode =? APREQ_ERROR_NOATTR)%Z then str "Missing attribute"
  else if (statcode =? APREQ_ERROR_NOHEADER)%Z then str "Missing header"
  else if (statcode =? APREQ_ERROR_NOPARSER)%Z then str "Missing parser"
  else if (statcode =? APREQ_ERROR_MISMATCH)%Z then str "Conflicting information"
  else if (statcode =? APREQ_ERROR_OVERLIMIT)%Z then str "Exceeds configured maximum limit"
  else if (statcode =? APREQ_ERROR_NOTEMPTY)%Z then str "Setting already configured"
  else str "Error string not yet specified by apreq".

(** What is stored in a buffer of [bufsize] bytes ([apr_strerror] says it for
    APR's own codes): [apr_cpystrn] keeps a byte for
    the NUL and stores nothing when there is none. *)
Definition stuffbuffer (bufsize : nat) (s : bytes) : bytes :=
  match bufsize with
  | O => []
  | S n => take n (cstr s) ++ [x00]
  end.

Definition apreq_strerror (statcode : Z) (bufsize : nat) : bytes :=
  if (statcode <? APR_OS_START_USERERR)%Z || (APR_OS_START_EAIERR <=? statcode)%Z
  then apr_strerror statcode bufsize
  else stuffbuffer bufsize (apreq_error_string statcode).

(** ** Version *)

Definition APREQ_MAJOR_VERSION : nat := 2.
Definition APREQ_MINOR_VERSION : nat := 1.
Definition APREQ_PATCH_VERSION : nat := 0.

Definition APREQ_IS_DEV_STRING : bytes := str "-dev".
Definition APREQ_VERSION_STRING : bytes := str "2" ++ str "." ++ str "1" ++ str "." ++ str "0" ++ APREQ_IS_DEV_STRING.

(** [apr_version_t]: major, minor, patch, and whether it is a development version. *)
Definition apreq_version : nat * nat * nat * bool :=
  (APREQ_MAJOR_VERSION, APREQ_MINOR_VERSION, APREQ_PATCH_VERSION, true).

Definition apreq_version_string : bytes := APREQ_VERSION_STRING.

(** ** Properties *)

(** The text fits the buffer and ends with NUL. *)
Lemma stuffbuffer_fits n s :
  length (stuffbuffer n s) <= n /\ (0 < n -> last (stuffbuffer n s) = Some x00).
Proof.
  destruct n as [|n]; cbn [stuffbuffer]; [split; [done|lia]|].
  rewrite length_app, length_take, last_snoc. cbn. split; [lia|done].
Qed.

End Errors.
