(* ===== verification/Url.v ===== *)
(** * URL encoding and decoding ([src/libapreq2/library/util.c])

    A C pointer into the source is the list of the bytes from there to [end];
    [s + k < end] reads as a bound on the length of that list.  The decoder
    writes its result through [d]; a position it steps over without writing is
    a [None] cell: it keeps whatever the destination held. *)
From S2P Require Import Prelude Apr.

Inductive apreq_charset_t :=
  | APREQ_CHARSET_ASCII | APREQ_CHARSET_LATIN1
  | APREQ_CHARSET_CP1252 | APREQ_CHARSET_UTF8.

#[export] Instance charset_eq_dec : EqDecision apreq_charset_t.
Proof. solve_decision. Defined.

Definition charset_val (c : apreq_charset_t) : Z :=
  match c with
  | APREQ_CHARSET_ASCII => 0
  | APREQ_CHARSET_LATIN1 => 1
  | APREQ_CHARSET_CP1252 => 2
  | APREQ_CHARSET_UTF8 => 8
  end%Z.

Abbreviation cell := (option Byte.byte).

(** ** Hexadecimal digits *)

Definition c2x_table : bytes := str "0123456789ABCDEF".

Definition c2x (n : Z) : Byte.byte := nth (Z.to_nat n) c2x_table x00.

(** A [char] compared with ['A']: [char] is signed. *)
Definition schar (b : Byte.byte) : Z :=
  if (zb b <? 128)%Z then zb b else (zb b - 256)%Z.

Definition hex_digit (b : Byte.byte) : Z :=
  (if zb "A" <=? schar b then Z.land (schar b) 0xdf - zb "A" + 10
   else schar b - zb "0")%Z.

Definition hex2_to_char (a b : Byte.byte) : Byte.byte :=
  bz ((hex_digit a * 16) mod 256 + hex_digit b)%Z.

Definition hex4_to_bmp (a b c d : Byte.byte) : Z :=
  (let digit := hex_digit a mod 65536 in
  let digit := digit * 16 mod 65536 in
  let digit := (digit + hex_digit b) mod 65536 in
  let digit := digit * 16 mod 65536 in
  let digit := (digit + hex_digit c) mod 65536 in
  let digit := digit * 16 mod 65536 in
  (digit + hex_digit d) mod 65536)%Z.

(** ** Charset divination *)

Definition is_89AB (c : Byte.byte) : bool :=
  (c =b? "8") || (c =b? "9") || (c =b? "A") || (c =b? "B") || (c =b? "a") || (c =b? "b").

Fixpoint is_enc8 (word : bytes) (wlen : nat) {struct wlen} : bool :=
  match wlen with
  | O => true
  | S wlen =>
      match word with
      | a :: b :: c :: word =>
          if (a =b? "%") && is_89AB b && isxdigit c then is_enc8 word wlen else false
      | _ => false
      end
  end.

(** [word] runs to [end]; the lengths are kept in an [unsigned char]. *)
Definition fragment_charset (word : bytes) : apreq_charset_t :=
  let flen := length word mod 256 in
  let wlen := flen / 3 in
  let last k := nth (length word - k) word x00 in
  if negb (is_enc8 word wlen) then APREQ_CHARSET_LATIN1
  else match flen mod 3 with
  | 2 => if negb (is_89AB (last 1)) then APREQ_CHARSET_LATIN1
         else if negb (last 2 =b? "%") then APREQ_CHARSET_LATIN1
         else APREQ_CHARSET_UTF8
  | 1 => if negb (last 1 =b? "%") then APREQ_CHARSET_LATIN1
         else APREQ_CHARSET_UTF8
  | _ => APREQ_CHARSET_UTF8
  end.

(** ** The decoder *)

(** One iteration of the loop: either cells are written and the scan goes on
    at [rest], or the function returns with [s] at the current position. *)
Inductive url_action :=
  | Emit (charset : apreq_charset_t) (w : list cell) (rest : bytes)
  | Halt (charset : apreq_charset_t) (status : Z).

Record url_result := UrlResult {
  ur_status : Z;
  ur_charset : apreq_charset_t;
  ur_out : list cell;
  ur_rest : bytes
}.

Definition prepend (w : list cell) (r : url_result) : url_result :=
  UrlResult (ur_status r) (ur_charset r) (w ++ ur_out r) (ur_rest r).

Section Decode.
Context {E : AprErrno}.

(** The bytes of the [k] escapes [%xx] that follow a lead byte. *)
Fixpoint hex_triples (k : nat) (s : bytes) : list cell :=
  match k, s with
  | S k, _ :: a :: b :: s => Some (hex2_to_char a b) :: hex_triples k s
  | _, _ => []
  end.

(** The case of a lead byte [c] announcing [k] continuation bytes; [tail] is
    what follows the escape of [c]. *)
Definition utf8_seq (k : nat) (c : Byte.byte) (tail : bytes) : url_action :=
  if length tail <? 3 * k then
    match fragment_charset tail with
    | APREQ_CHARSET_UTF8 => Halt APREQ_CHARSET_UTF8 APR_INCOMPLETE
    | cs => Emit cs [Some c] tail
    end
  else if is_enc8 tail k then
    Emit APREQ_CHARSET_UTF8 (Some c :: hex_triples k tail) (drop (3 * k) tail)
  else Emit APREQ_CHARSET_LATIN1 [Some c] tail.

(** The case [%xx]; [c] is the byte it stands for. *)
Definition url_hex (charset : apreq_charset_t) (c : Byte.byte) (tail : bytes) : url_action :=
  if (zb c <? 0x80)%Z || bool_decide (charset = APREQ_CHARSET_CP1252) then
    Emit charset [Some c] tail
  else if (zb c <? 0xA0)%Z then Emit APREQ_CHARSET_CP1252 [Some c] tail
  else if (zb c <? 0xC0)%Z then Emit APREQ_CHARSET_LATIN1 [Some c] tail
  else if bool_decide (charset = APREQ_CHARSET_LATIN1) then Emit charset [Some c] tail
  else if (zb c <? 0xE0)%Z then utf8_seq 1 c tail
  else if (zb c <? 0xF0)%Z then utf8_seq 2 c tail
  else if (zb c <? 0xF8)%Z then utf8_seq 3 c tail
  else if (zb c <? 0xFC)%Z then utf8_seq 4 c tail
  else if (zb c <? 0xFE)%Z then utf8_seq 5 c tail
  else Emit APREQ_CHARSET_UTF8 [None] tail.

(** The UTF-8 form of a code point below 65536. *)
Definition bmp_to_utf8 (c : Z) : bytes :=
  (if c <? 0x80 then [bz c]
   else if c <? 0x800 then
     [bz (Z.lor 0xC0 (Z.shiftr c 6)); bz (Z.lor 0x80 (Z.land c 0x3F))]
   else
     [bz (Z.lor 0xE0 (Z.shiftr c 12));
      bz (Z.lor 0x80 (Z.land (Z.shiftr c 6) 0x3F));
      bz (Z.lor 0x80 (Z.land c 0x3F))])%Z.

(** The case [%uxxxx]. *)
Definition url_bmp (charset : apreq_charset_t) (c : Z) (tail : bytes) : url_action :=
  match charset with
  | APREQ_CHARSET_ASCII | APREQ_CHARSET_UTF8 =>
      Emit APREQ_CHARSET_UTF8 (map Some (bmp_to_utf8 c)) tail
  | _ => Halt charset APREQ_ERROR_BADSEQ
  end.

Definition is_u (c : Byte.byte) : bool := (c =b? "u") || (c =b? "U").

(** A [%] that starts no escape. *)
Definition url_bad_escape (charset : apreq_charset_t) (r : bytes) : url_action :=
  if (5 <? length r + 1)
     || ((2 <? length r + 1) && negb (isxdigit (nth 1 r x00)))
     || ((1 <? length r + 1) && negb (isxdigit (nth 0 r x00)) && negb (is_u (nth 0 r x00)))
  then Halt charset APREQ_ERROR_BADSEQ
  else Halt charset APR_INCOMPLETE.

Definition url_percent (charset : apreq_charset_t) (r : bytes) : url_action :=
  match r with
  | h1 :: h2 :: tail =>
      if isxdigit h1 && isxdigit h2 then url_hex charset (hex2_to_char h1 h2) tail
      else match tail with
      | h3 :: h4 :: h5 :: tail' =>
          if is_u h1 && isxdigit h2 && isxdigit h3 && isxdigit h4 && isxdigit h5
          then url_bmp charset (hex4_to_bmp h2 h3 h4 h5) tail'
          else url_bad_escape charset r
      | _ => url_bad_escape charset r
      end
  | _ => url_bad_escape charset r
  end.

(** The body of the loop at [*s = b], with [r] after it.  The guard of the
    default case, [if (s > 0)], compares the pointer: it always holds. *)
Definition url_step (charset : apreq_charset_t) (b : Byte.byte) (r : bytes) : url_action :=
  if b =b? "+" then Emit charset [Some " "] r
  else if b =b? "%" then url_percent charset r
  else Emit charset [Some b] r.

Fixpoint url_loop (fuel : nat) (charset : apreq_charset_t) (s : bytes) : url_result :=
  match s with
  | [] => UrlResult APR_SUCCESS charset [] []
  | b :: r =>
      match fuel with
      | O => UrlResult APREQ_ERROR_GENERAL charset [] s
      | S fuel =>
          match url_step charset b r with
          | Emit charset w rest => prepend w (url_loop fuel charset rest)
          | Halt charset status => UrlResult status charset [] s
          end
      end
  end.

Definition url_decode (charset : apreq_charset_t) (src : bytes) : url_result :=
  url_loop (length src) charset src.

(** [apreq_decode]: [same] is the test [s == d].  The in-place entry first
    skips what decodes to itself; a NUL there is an error. *)
Fixpoint skip_plain (s : bytes) : bytes * option bytes :=
  match s with
  | [] => ([], Some [])
  | b :: r =>
      if (b =b? "%") || (b =b? "+") then ([], Some s)
      else if b =b? x00 then ([], None)
      else let '(p, k) := skip_plain r in (b :: p, k)
  end.

Definition apreq_decode (same : bool) (s : bytes) : Z * list cell :=
  if same then
    match skip_plain s with
    | (p, None) => (APREQ_ERROR_BADCHAR, map Some p)
    | (p, Some s) =>
        let r := url_decode APREQ_CHARSET_ASCII s in
        ((ur_status r + charset_val (ur_charset r))%Z, map Some p ++ ur_out r)
    end
  else
    let r := url_decode APREQ_CHARSET_ASCII s in
    ((ur_status r + charset_val (ur_charset r))%Z, ur_out r).

(** The loop of [apreq_decodev]: [carry] is the unfinished tail of the
    previous vector, which the decoder left at [d] and the next vector is
    appended to. *)
Fixpoint decodev_loop (charset : apreq_charset_t) (carry : bytes) (v : list bytes)
  : Z * list cell :=
  match v with
  | [] => ((APR_SUCCESS + charset_val charset)%Z, [])
  | x :: v' =>
      let r := url_decode charset (carry ++ x) in
      if (ur_status r =? APR_SUCCESS)%Z then
        let '(s, out) := decodev_loop (ur_charset r) [] v' in (s, ur_out r ++ out)
      else if (ur_status r =? APR_INCOMPLETE)%Z then
        match v' with
        | [] => ((APR_INCOMPLETE + charset_val (ur_charset r))%Z, ur_out r)
        | _ => let '(s, out) := decodev_loop (ur_charset r) (ur_rest r) v' in
               (s, ur_out r ++ out)
        end
      else (ur_status r, ur_out r)
  end.

Definition apreq_decodev (v : list bytes) : Z * list cell :=
  decodev_loop APREQ_CHARSET_ASCII [] v.

End Decode.

(** ** The encoder *)

Definition is_unreserved (c : Byte.byte) : bool :=
  isalnum c || (c =b? "-") || (c =b? ".") || (c =b? "_") || (c =b? "~").

Definition encode_byte (c : Byte.byte) : bytes :=
  if is_unreserved c then [c]
  else if c =b? " " then [x2b]
  else [x25; c2x (Z.shiftr (zb c) 4); c2x (Z.land (zb c) 0xf)].

Definition apreq_encode (src : bytes) : bytes := flat_map encode_byte src.

(** [apreq_escape], and [apreq_unescape] with the string it leaves: the cells the
    decoder skips keep what they held. *)
Definition apreq_escape (src : option bytes) : option bytes := apreq_encode <$> src.

Definition apreq_unescape {E : AprErrno} (s : bytes) : Z * bytes :=
  let '(rv, out) := apreq_decode true s in
  ((if (rv =? APR_SUCCESS)%Z then Z.of_nat (length out) else -1)%Z,
   imap (fun i c => default (nth i s x00) c) out).

(** ** Windows-1252 *)

Definition cp1252_table : list (Z * Z) :=
  [(0x80, 0x20AC); (0x82, 0x201A); (0x83, 0x192); (0x84, 0x201E); (0x85, 0x2026);
   (0x86, 0x2020); (0x87, 0x2021); (0x88, 0x2C6); (0x89, 0x2030); (0x8A, 0x160);
   (0x8B, 0x2039); (0x8C, 0x152); (0x8E, 0x17D); (0x91, 0x2018); (0x92, 0x2019);
   (0x93, 0x201C); (0x94, 0x201D); (0x95, 0x2022); (0x96, 0x2013); (0x97, 0x2014);
   (0x98, 0x2DC); (0x99, 0x2122); (0x9A, 0x161); (0x9B, 0x203A); (0x9C, 0x153);
   (0x9E, 0x17E); (0x9F, 0x178)]%Z.

Definition cp1252_to_bmp (b : Byte.byte) : Z :=
  let c := zb b in
  if negb (Z.land c 0xE0 =? 0x80)%Z then c
  else match list_find (fun e => e.1 = c) cp1252_table with
  | Some (_, e) => e.2
  | None => c
  end.

Definition apreq_cp1252_to_utf8 (src : bytes) : bytes :=
  flat_map (fun b => bmp_to_utf8 (cp1252_to_bmp b)) src.

(** ** Reference notions the theorems speak about *)

(** The number of continuation bytes a lead byte announces. *)
Definition lead_conts (c : Byte.byte) : option nat :=
  (if zb c <? 0x80 then Some 0%nat
   else if zb c <? 0xC0 then None
   else if zb c <? 0xE0 then Some 1%nat
   else if zb c <? 0xF0 then Some 2%nat
   else if zb c <? 0xF8 then Some 3%nat
   else if zb c <? 0xFC then Some 4%nat
   else if zb c <? 0xFE then Some 5%nat
   else None)%Z.

(** A continuation byte, [10xxxxxx]. *)
Definition is_cont (c : Byte.byte) : bool := (Z.land (zb c) 0xC0 =? 0x80)%Z.

(** Text in the byte patterns listed above [is_89AB] in util.c. *)
Inductive utf8_text : bytes -> Prop :=
  | utf8_nil : utf8_text []
  | utf8_char c ys s :
      lead_conts c = Some (length ys) -> forallb is_cont ys = true ->
      utf8_text s -> utf8_text (c :: ys ++ s).

Definition is_ascii (s : bytes) : bool := forallb (fun c => zb c <? 0x80)%Z s.

(** The code points of UTF-8 text within the basic multilingual plane. *)
Fixpoint utf8_points (s : bytes) : option (list Z) :=
  match s with
  | [] => Some []
  | a :: s1 =>
      if (zb a <? 0x80)%Z then cons (zb a) <$> utf8_points s1
      else match s1 with
      | b :: s2 =>
          if negb (is_cont b) then None
          else if (Z.land (zb a) 0xE0 =? 0xC0)%Z then
            cons (Z.lor (Z.shiftl (Z.land (zb a) 0x1F) 6) (Z.land (zb b) 0x3F))
              <$> utf8_points s2
          else match s2 with
          | c :: s3 =>
              if is_cont c && (Z.land (zb a) 0xF0 =? 0xE0)%Z then
                cons (Z.lor (Z.shiftl (Z.land (zb a) 0x0F) 12)
                       (Z.lor (Z.shiftl (Z.land (zb b) 0x3F) 6) (Z.land (zb c) 0x3F)))
                  <$> utf8_points s3
              else None
          | [] => None
          end
      | [] => None
      end
  end.

(** * Properties *)

(** ** The loop of the decoder *)

Section Facts.
Context {E : AprErrno}.

Lemma skipn_drop {A} n (l : list A) : skipn n l = drop n l.
Proof. done. Qed.

(** Every iteration makes progress, and writes no more than it reads. *)
Definition progress (r : bytes) (a : url_action) : Prop :=
  match a with
  | Emit _ w rest =>
      exists k, rest = drop k r /\ k <= length r /\ 1 <= length w <= S k
  | Halt _ status => status = APREQ_ERROR_BADSEQ \/ status = APR_INCOMPLETE
  end.

Lemma progress_weaken a b r act : progress r act -> progress (a :: b :: r) act.
Proof.
  destruct act; cbn; [|done].
  intros (k & -> & Hk & Hw). exists (S (S k)). cbn. split; [done|lia].
Qed.

(** A single cell written, nothing more read. *)
Lemma progress_here cs w r : length w = 1 -> progress r (Emit cs w r).
Proof. intros H. exists 0. rewrite drop_0. split; [done|lia]. Qed.

Lemma hex_triples_length k s : length (hex_triples k s) <= k.
Proof.
  revert s. induction k as [|k IH]; intros s; [done|].
  destruct s as [|? [|? [|? s]]]; cbn; try lia. specialize (IH s). lia.
Qed.

Lemma utf8_seq_progress k c tail : progress tail (utf8_seq k c tail).
Proof.
  unfold utf8_seq. destruct (length tail <? 3 * k) eqn:El.
  - destruct (fragment_charset tail); try by apply progress_here.
    cbn. auto.
  - apply Nat.ltb_ge in El. destruct (is_enc8 tail k).
    + exists (3 * k). cbn [length]. pose proof (hex_triples_length k tail). split; [done|]. lia.
    + by apply progress_here.
Qed.

Lemma url_hex_progress cs c tail : progress tail (url_hex cs c tail).
Proof.
  unfold url_hex. bool_cases; try apply utf8_seq_progress; by apply progress_here.
Qed.

Lemma url_bad_escape_progress cs r : progress r (url_bad_escape cs r).
Proof. unfold url_bad_escape. bool_cases; cbn; auto. Qed.

Lemma bmp_to_utf8_length c : 1 <= length (bmp_to_utf8 c) <= 3.
Proof. unfold bmp_to_utf8. bool_cases; cbn; lia. Qed.

Lemma url_bmp_progress cs c a b d tail :
  progress (a :: b :: d :: tail) (url_bmp cs c tail).
Proof.
  unfold url_bmp. pose proof (bmp_to_utf8_length c).
  destruct cs; cbn; auto; exists 3; rewrite length_map; cbn; split; auto; lia.
Qed.

Lemma url_percent_progress cs r : progress r (url_percent cs r).
Proof.
  unfold url_percent.
  destruct r as [|h1 [|h2 tail]]; try apply url_bad_escape_progress.
  destruct (isxdigit h1 && isxdigit h2).
  { apply progress_weaken, url_hex_progress. }
  destruct tail as [|h3 [|h4 [|h5 tail]]]; try apply url_bad_escape_progress.
  destruct (_ && _); [|apply url_bad_escape_progress].
  apply progress_weaken, url_bmp_progress.
Qed.

Lemma url_step_progress cs b r : progress r (url_step cs b r).
Proof.
  unfold url_step. bool_cases; try apply url_percent_progress; by apply progress_here.
Qed.

Lemma prepend_nil r : prepend (map Some []) r = r.
Proof. by destruct r. Qed.

Lemma url_loop_fuel f1 f2 cs s :
  length s <= f1 -> length s <= f2 -> url_loop f1 cs s = url_loop f2 cs s.
Proof.
  revert f2 cs s. induction f1 as [|f1 IH]; intros f2 cs [|b r] H1 H2; cbn in *;
    try lia; try (destruct f2; done).
  destruct f2 as [|f2]; [lia|]. cbn.
  pose proof (url_step_progress cs b r) as Hp.
  destruct (url_step cs b r) as [cs' w rest|]; [|done].
  destruct Hp as (k & -> & Hk & _).
  rewrite (IH f2); [done| |]; rewrite length_drop; lia.
Qed.

Lemma url_decode_nil cs : url_decode cs [] = UrlResult APR_SUCCESS cs [] [].
Proof. done. Qed.

Lemma url_decode_cons cs b r :
  url_decode cs (b :: r) =
    match url_step cs b r with
    | Emit cs' w rest => prepend w (url_decode cs' rest)
    | Halt cs' status => UrlResult status cs' [] (b :: r)
    end.
Proof.
  unfold url_decode. cbn [length url_loop].
  pose proof (url_step_progress cs b r) as Hp.
  destruct (url_step cs b r) as [cs' w rest|]; [|done].
  destruct Hp as (k & -> & Hk & _).
  rewrite (url_loop_fuel _ (length (drop k r))); [done| |];
    rewrite ?length_drop; lia.
Qed.

(** Induction that follows the decoder. *)
Lemma url_decode_ind (P : apreq_charset_t -> bytes -> Prop) :
  (forall cs, P cs []) ->
  (forall cs b r cs' w rest, url_step cs b r = Emit cs' w rest ->
     length rest <= length r -> P cs' rest -> P cs (b :: r)) ->
  (forall cs b r cs' st, url_step cs b r = Halt cs' st -> P cs (b :: r)) ->
  forall cs s, P cs s.
Proof.
  intros Hnil Hemit Hhalt cs s.
  remember (length s) as n eqn:Hn. assert (Hle : length s <= n) by lia. clear Hn.
  revert cs s Hle. induction n as [|n IH]; intros cs [|b r] Hle; cbn in Hle; try lia; auto.
  destruct (url_step cs b r) as [cs' w rest|cs' st] eqn:Es; [|by eapply Hhalt].
  pose proof (url_step_progress cs b r) as Hp. rewrite Es in Hp.
  destruct Hp as (k & -> & Hk & _).
  eapply Hemit; [exact Es| |apply IH]; rewrite length_drop; lia.
Qed.

(** The decoder stops at the end, on a bad sequence or on a truncated one. *)
Lemma url_decode_status cs s :
  (ur_status (url_decode cs s) = APR_SUCCESS /\ ur_rest (url_decode cs s) = []) \/
  ur_status (url_decode cs s) = APREQ_ERROR_BADSEQ \/
  ur_status (url_decode cs s) = APR_INCOMPLETE.
Proof.
  revert cs s. apply url_decode_ind.
  - intros cs. by left.
  - intros cs b r cs' w rest Es _ IH. rewrite url_decode_cons, Es. exact IH.
  - intros cs b r cs' st Es. rewrite url_decode_cons, Es. cbn.
    pose proof (url_step_progress cs b r) as Hp. rewrite Es in Hp. cbn in Hp. tauto.
Qed.

(** What a decoding call stores through [d]: the decoded cells, the undecoded
    tail it moves behind them when it is incomplete, and the final NUL. *)
Definition decode_writes (r : url_result) : nat :=
  length (ur_out r) +
  (if (ur_status r =? APR_INCOMPLETE)%Z then length (ur_rest r) else 0) + 1.

Lemma decode_writes_bound cs s : decode_writes (url_decode cs s) <= length s + 1.
Proof.
  revert cs s. apply url_decode_ind.
  - intros cs. cbn. case_match; lia.
  - intros cs b r cs' w rest Es _ IH. rewrite url_decode_cons, Es.
    pose proof (url_step_progress cs b r) as Hp. rewrite Es in Hp.
    destruct Hp as (k & -> & Hk & Hw). rewrite length_drop in IH.
    unfold decode_writes, prepend in *. cbn. rewrite length_app. lia.
  - intros cs b r cs' st Es. rewrite url_decode_cons, Es. cbn.
    unfold decode_writes. cbn. case_match; lia.
Qed.

(** ** Decoding in pieces *)

(** [enc8_prefix s]: [s] could be the beginning of a run of encoded
    continuation bytes. *)
Fixpoint enc8_prefix (s : bytes) : bool :=
  match s with
  | [] => true
  | [a] => a =b? "%"
  | [a; b] => (a =b? "%") && is_89AB b
  | a :: b :: c :: s => (a =b? "%") && is_89AB b && isxdigit c && enc8_prefix s
  end.

(** Induction three bytes at a time. *)
Lemma triple_ind (P : bytes -> Prop) :
  P [] -> (forall a, P [a]) -> (forall a b, P [a; b]) ->
  (forall a b c s, P s -> P (a :: b :: c :: s)) -> forall s, P s.
Proof.
  intros H0 H1 H2 H3.
  fix IH 1. intros [|a [|b [|c s]]]; [exact H0|apply H1|apply H2|apply H3, IH].
Qed.

Lemma enc8_prefix_app s t : enc8_prefix (s ++ t) = true -> enc8_prefix s = true.
Proof.
  induction s as [|a|a b|a b c s IH] using triple_ind; cbn [app]; auto.
  - destruct t as [|x [|y t]]; cbn; auto; rewrite ?andb_true_iff; tauto.
  - destruct t as [|x t]; cbn; auto; rewrite ?andb_true_iff; tauto.
  - cbn. rewrite !andb_true_iff. tauto.
Qed.

Lemma is_enc8_prefix k s :
  3 * k <= length s -> is_enc8 s k = enc8_prefix (take (3 * k) s).
Proof.
  revert s. induction k as [|k IH]; intros s Hl; [done|].
  destruct s as [|a [|b [|c s]]]; cbn [length] in Hl; try lia.
  replace (3 * S k) with (S (S (S (3 * k)))) by lia. cbn [take is_enc8 enc8_prefix].
  rewrite <- IH by lia. by destruct (a =b? "%"), (is_89AB b), (isxdigit c).
Qed.

Lemma fragment_charset_prefix s :
  length s < 256 ->
  fragment_charset s = if enc8_prefix s then APREQ_CHARSET_UTF8 else APREQ_CHARSET_LATIN1.
Proof.
  induction s as [|a|a b|a b c s IH] using triple_ind; intros Hl.
  - done.
  - cbn. by destruct (a =b? "%").
  - cbn. destruct (a =b? "%"), (is_89AB b); done.
  - cbn [length] in Hl. specialize (IH ltac:(lia)).
    unfold fragment_charset in *. cbn [length] in *.
    rewrite Nat.mod_small in * by lia. cbn zeta in *.
    assert (S (S (S (length s))) / 3 = S (length s / 3)) as ->.
    { replace (S (S (S (length s)))) with (1 * 3 + length s) by lia.
      by rewrite Nat.div_add_l by lia. }
    assert (S (S (S (length s))) mod 3 = length s mod 3) as ->.
    { replace (S (S (S (length s)))) with (length s + 1 * 3) by lia.
      apply Nat.Div0.mod_add. }
    cbn [is_enc8 enc8_prefix].
    destruct ((a =b? "%") && is_89AB b && isxdigit c); [|done].
    cbn [andb]. rewrite <- IH. clear IH.
    assert (Hm : length s mod 3 <= length s) by (apply Nat.Div0.mod_le).
    destruct (negb (is_enc8 s (length s / 3))); [done|].
    destruct (length s mod 3) as [|[|[|]]] eqn:Em; try done;
      replace (S (S (S (length s))) - 1) with (3 + (length s - 1)) by lia; [done|].
    replace (S (S (S (length s))) - 2) with (3 + (length s - 2)) by lia. done.
Qed.

(** A step that does not stop for want of input takes the same decision when
    more input follows; one that does leaves a state in which the decision
    is taken afresh. *)
Definition extends (a : url_action) (t : bytes) (a' : url_action) : Prop :=
  match a with
  | Emit cs w rest => a' = Emit cs w (rest ++ t)
  | Halt cs st => st = APREQ_ERROR_BADSEQ -> a' = Halt cs st
  end.

Lemma hex_triples_app k s t :
  3 * k <= length s -> hex_triples k (s ++ t) = hex_triples k s.
Proof.
  revert s. induction k as [|k IH]; intros s Hl; [done|].
  destruct s as [|? [|? [|? s]]]; cbn [length] in Hl; try lia.
  cbn. rewrite IH by lia. done.
Qed.

Lemma incomplete_not_badseq : APR_INCOMPLETE <> APREQ_ERROR_BADSEQ.
Proof. errno_lia. Qed.

Lemma utf8_seq_extends k c tail t :
  k <= 5 -> extends (utf8_seq k c tail) t (utf8_seq k c (tail ++ t)).
Proof.
  intros Hk. unfold utf8_seq.
  destruct (length tail <? 3 * k) eqn:El.
  - apply Nat.ltb_lt in El. rewrite fragment_charset_prefix by lia.
    destruct (enc8_prefix tail) eqn:Ep.
    { cbn. intros H. by destruct incomplete_not_badseq. }
    cbn [extends]. rewrite length_app.
    destruct (length tail + length t <? 3 * k) eqn:El'.
    + apply Nat.ltb_lt in El'. rewrite fragment_charset_prefix by (rewrite length_app; lia).
      destruct (enc8_prefix (tail ++ t)) eqn:Ep'; [|done].
      apply enc8_prefix_app in Ep'. congruence.
    + apply Nat.ltb_ge in El'. rewrite is_enc8_prefix by (rewrite length_app; lia).
      rewrite take_app_ge by lia.
      destruct (enc8_prefix (tail ++ _)) eqn:Ep'; [|done].
      apply enc8_prefix_app in Ep'. congruence.
  - pose proof El as El'. apply Nat.ltb_ge in El. rewrite length_app.
    replace (length tail + length t <? 3 * k) with false
      by (symmetry; apply Nat.ltb_ge; lia).
    rewrite !is_enc8_prefix by (rewrite ?length_app; lia).
    rewrite take_app_le by lia.
    destruct (enc8_prefix (take (3 * k) tail)); cbn; [|done].
    rewrite hex_triples_app, drop_app_le by lia. done.
Qed.

Lemma url_hex_extends cs c tail t :
  extends (url_hex cs c tail) t (url_hex cs c (tail ++ t)).
Proof. unfold url_hex. bool_cases; try done; apply utf8_seq_extends; lia. Qed.

Lemma url_bad_escape_extends cs r t :
  (forall h1 h2 tail, r = h1 :: h2 :: tail -> isxdigit h1 && isxdigit h2 = false) ->
  (forall h1 h2 h3 h4 h5 tail, r = h1 :: h2 :: h3 :: h4 :: h5 :: tail ->
     is_u h1 && isxdigit h2 && isxdigit h3 && isxdigit h4 && isxdigit h5 = false) ->
  extends (url_bad_escape cs r) t (url_percent cs (r ++ t)).
Proof.
  intros H2 H5. unfold url_bad_escape at 1.
  destruct (_ || _ || _) eqn:Eb; cbn [extends];
    [intros _|intros Hs; by destruct incomplete_not_badseq].
  destruct r as [|h1 [|h2 [|h3 [|h4 [|h5 tail]]]]]; cbn in Eb;
    try specialize (H2 _ _ _ eq_refl); try specialize (H5 _ _ _ _ _ _ eq_refl).
  - done.
  - rewrite andb_true_iff, !negb_true_iff in Eb. destruct Eb as [Ex Eu].
    unfold url_percent, url_bad_escape. cbn.
    destruct t as [|? [|? [|? [|? t]]]]; cbn; rewrite ?Ex, ?Eu; cbn;
      rewrite ?orb_true_r; done.
  - unfold url_percent, url_bad_escape. cbn [app]. rewrite H2.
    destruct (isxdigit h1) eqn:Ex1, (isxdigit h2) eqn:Ex2, (is_u h1) eqn:Eu;
      try discriminate Eb; try discriminate H2;
      destruct t as [|? [|? [|? t]]]; cbn; rewrite ?Ex1, ?Ex2, ?Eu; cbn; rewrite ?orb_true_r; done.
  - unfold url_percent, url_bad_escape. cbn [app]. rewrite H2.
    destruct (isxdigit h1) eqn:Ex1, (isxdigit h2) eqn:Ex2, (is_u h1) eqn:Eu;
      try discriminate Eb; try discriminate H2;
      destruct t as [|? [|? t]]; cbn; rewrite ?Ex1, ?Ex2, ?Eu; cbn; rewrite ?orb_true_r; done.
  - unfold url_percent, url_bad_escape. cbn [app]. rewrite H2.
    destruct (isxdigit h1) eqn:Ex1, (isxdigit h2) eqn:Ex2, (is_u h1) eqn:Eu;
      try discriminate Eb; try discriminate H2;
      destruct t as [|? t]; cbn; rewrite ?Ex1, ?Ex2, ?Eu; cbn; rewrite ?orb_true_r; done.
  - unfold url_percent, url_bad_escape. cbn [app]. rewrite H2, H5.
    destruct (5 <? _) eqn:E5; [done|].
    apply Nat.ltb_ge in E5. cbn in E5. lia.
Qed.

Lemma url_percent_extends cs r t :
  extends (url_percent cs r) t (url_percent cs (r ++ t)).
Proof.
  unfold url_percent at 1.
  destruct r as [|h1 [|h2 tail]]; try by apply url_bad_escape_extends.
  destruct (isxdigit h1 && isxdigit h2) eqn:Ex.
  { cbn [app url_percent]. rewrite Ex. apply url_hex_extends. }
  assert (Hx : forall a b l, h1 :: h2 :: tail = a :: b :: l -> isxdigit a && isxdigit b = false).
  { by intros ??? [= <- <- _]. }
  destruct tail as [|h3 [|h4 [|h5 tail]]]; try by apply url_bad_escape_extends.
  destruct (is_u h1 && _ && _ && _ && _) eqn:Eu.
  - cbn [app url_percent]. rewrite Ex, Eu. unfold url_bmp. by destruct cs.
  - apply url_bad_escape_extends; [done|].
    by intros ?????? [= <- <- <- <- <- _].
Qed.

Lemma url_step_extends cs b r t :
  extends (url_step cs b r) t (url_step cs b (r ++ t)).
Proof. unfold url_step. bool_cases; [done|apply url_percent_extends|done]. Qed.

(** An interrupted step resumes with the same outcome. *)
Lemma url_hex_resume cs c tail cs' st tail' :
  url_hex cs c tail = Halt cs' st -> url_hex cs' c tail' = url_hex cs c tail'.
Proof.
  assert (Hs : forall k, utf8_seq k c tail = Halt cs' st -> cs' = APREQ_CHARSET_UTF8).
  { intros k. unfold utf8_seq. bool_cases; [|done|done].
    destruct (fragment_charset tail); congruence. }
  unfold url_hex.
  destruct (_ || bool_decide (cs = _)) eqn:E1; [done|].
  apply orb_false_iff in E1 as [-> E1].
  destruct (zb c <? 0xA0)%Z; [done|]. destruct (zb c <? 0xC0)%Z; [done|].
  destruct (bool_decide (cs = APREQ_CHARSET_LATIN1)) eqn:E2; [done|].
  intros H. assert (cs' = APREQ_CHARSET_UTF8) as ->.
  { revert H. bool_cases; eauto; done. }
  done.
Qed.

Lemma url_step_resume cs b r cs' st t :
  url_step cs b r = Halt cs' st -> url_step cs' b (r ++ t) = url_step cs b (r ++ t).
Proof.
  unfold url_step. destruct (b =b? "+"); [done|].
  destruct (b =b? "%"); [|done].
  unfold url_percent.
  assert (Hb : forall cs cs' r st, url_bad_escape cs r = Halt cs' st -> cs' = cs).
  { intros ????. unfold url_bad_escape. bool_cases; congruence. }
  destruct r as [|h1 [|h2 tail]]; try by intros ->%Hb.
  cbn [app]. destruct (isxdigit h1 && isxdigit h2).
  { apply url_hex_resume. }
  destruct tail as [|h3 [|h4 [|h5 tail]]]; try by intros ->%Hb.
  cbn [app]. destruct (_ && _); [|by intros ->%Hb].
  unfold url_bmp. by destruct cs; intros [= <- _].
Qed.

(** Decoding a concatenation is decoding the first part and going on, with
    its unfinished tail in front. *)
Lemma url_decode_app cs a b :
  url_decode cs (a ++ b) =
    let r := url_decode cs a in
    if (ur_status r =? APREQ_ERROR_BADSEQ)%Z then
      UrlResult (ur_status r) (ur_charset r) (ur_out r) (ur_rest r ++ b)
    else prepend (ur_out r) (url_decode (ur_charset r) (ur_rest r ++ b)).
Proof.
  revert cs a. apply url_decode_ind.
  - intros cs. cbn [app url_decode url_loop length ur_status ur_charset ur_out ur_rest].
    autorewrite with errno. by destruct (url_loop _ _ _).
  - intros cs x r cs' w rest Es _ IH. cbn [app]. rewrite !url_decode_cons.
    pose proof (url_step_extends cs x r b) as He. rewrite Es in He. cbn in He.
    rewrite He, Es, IH. cbn zeta.
    destruct (url_decode cs' rest) as [st1 cs1 o1 r1]. cbn.
    destruct (st1 =? APREQ_ERROR_BADSEQ)%Z; cbn; [done|].
    unfold prepend. cbn. by rewrite app_assoc.
  - intros cs x r cs' st Es. rewrite (url_decode_cons cs x r), Es. cbn [ur_status ur_charset ur_out ur_rest].
    pose proof (url_step_extends cs x r b) as He. rewrite Es in He. cbn [extends] in He.
    destruct (st =? APREQ_ERROR_BADSEQ)%Z eqn:Eb.
    + apply Z.eqb_eq in Eb. cbn [app]. rewrite url_decode_cons, (He Eb). done.
    + cbn [app]. rewrite !url_decode_cons, (url_step_resume _ _ _ _ _ b Es).
      destruct (url_step cs x (r ++ b)); done.
Qed.

(** The value [apreq_decodev] returns for a result of the decoder. *)
Definition decodev_result (r : url_result) : Z * list cell :=
  ((if (ur_status r =? APREQ_ERROR_BADSEQ)%Z then ur_status r
    else ur_status r + charset_val (ur_charset r))%Z, ur_out r).

Lemma decodev_result_prepend w r :
  decodev_result (prepend w r) = (fst (decodev_result r), w ++ snd (decodev_result r)).
Proof. done. Qed.

Lemma decodev_loop_decode cs carry v :
  v <> [] \/ carry = [] ->
  decodev_loop cs carry v = decodev_result (url_decode cs (carry ++ concat v)).
Proof.
  revert cs carry. induction v as [|x v IH]; intros cs carry Hne.
  { destruct Hne as [Hne | ->]; [done|].
    unfold decodev_result. cbn [app concat url_decode url_loop length ur_status ur_charset ur_out].
    by autorewrite with errno. }
  cbn [decodev_loop concat]. rewrite app_assoc, (url_decode_app cs (carry ++ x)). cbn zeta.
  destruct (url_decode_status cs (carry ++ x)) as [[Hs Hr]|[Hs|Hs]];
    rewrite Hs, ?Hr.
  - autorewrite with errno. rewrite IH by auto. cbn [app].
    rewrite decodev_result_prepend. by destruct (decodev_result _).
  - unfold decodev_result. cbn [ur_status ur_out]. by autorewrite with errno.
  - autorewrite with errno. destruct v as [|y v].
    + cbn [concat]. rewrite app_nil_r.
      pose proof (url_decode_app cs (carry ++ x) []) as Ha. cbn zeta in Ha.
      rewrite Hs, !app_nil_r in Ha. autorewrite with errno in Ha. rewrite <- Ha.
      unfold decodev_result. rewrite Hs. by autorewrite with errno.
    + rewrite IH by auto. rewrite decodev_result_prepend.
      by destruct (decodev_result _).
Qed.

(** The pieces do not matter. *)
Lemma decodev_concat v : apreq_decodev v = apreq_decodev [concat v].
Proof.
  unfold apreq_decodev. rewrite (decodev_loop_decode _ _ [concat v]) by auto.
  rewrite decodev_loop_decode by auto. cbn. by rewrite !app_nil_r.
Qed.

(** ** Encoding *)

(** How a byte that is encoded as an escape reads back. *)
Lemma c2x_hex c :
  isxdigit (c2x (Z.shiftr (zb c) 4)) && isxdigit (c2x (Z.land (zb c) 0xf))
  && (hex2_to_char (c2x (Z.shiftr (zb c) 4)) (c2x (Z.land (zb c) 0xf)) =b? c) = true.
Proof. by_bytes c. Qed.

Lemma encode_byte_step cs c tail :
  url_decode cs (encode_byte c ++ tail) =
    match (if is_unreserved c || (c =b? " ") then Emit cs [Some c] tail
           else url_hex cs c tail) with
    | Emit cs' w rest => prepend w (url_decode cs' rest)
    | Halt cs' status => UrlResult status cs' [] (encode_byte c ++ tail)
    end.
Proof.
  unfold encode_byte.
  destruct (is_unreserved c) eqn:Eu.
  - cbn [app orb]. rewrite url_decode_cons. unfold url_step.
    assert (H : negb (is_unreserved c) || (negb (c =b? "+") && negb (c =b? "%")) = true)
      by by_bytes c.
    rewrite Eu in H. cbn in H. rewrite andb_true_iff, !negb_true_iff in H.
    by destruct H as [-> ->].
  - destruct (c =b? " ") eqn:Es; cbn [app orb].
    + apply byte_eqb_eq in Es as ->. by rewrite url_decode_cons.
    + rewrite url_decode_cons. unfold url_step. cbn [url_percent].
      pose proof (c2x_hex c) as H. rewrite !andb_true_iff in H.
      destruct H as [[H1 H2] H3]. apply byte_eqb_eq in H3.
      rewrite H1, H2, H3. cbn. done.
Qed.

Lemma apreq_encode_cons c s : apreq_encode (c :: s) = encode_byte c ++ apreq_encode s.
Proof. done. Qed.

Lemma apreq_encode_app s t : apreq_encode (s ++ t) = apreq_encode s ++ apreq_encode t.
Proof. apply flat_map_app. Qed.

(** A run of encoded continuation bytes stands for as many bytes. *)
Definition cont_shape (c : Byte.byte) : bool :=
  match encode_byte c with
  | p :: h :: l :: nil =>
      (p =b? "%") && is_89AB h && isxdigit l && (hex2_to_char h l =b? c)
  | _ => false
  end.

Lemma cont_shape_cont c : Bool.eqb (cont_shape c) (is_cont c) = true.
Proof. by_bytes c. Qed.

(** An escape is recognised as a continuation byte only when it is one. *)
Definition escape_shape (c : Byte.byte) : bool :=
  match encode_byte c with
  | p :: h :: _ => implb ((p =b? "%") && is_89AB h) (cont_shape c)
  | p :: _ => negb (p =b? "%")
  | _ => false
  end.

Lemma escape_shape_all c : escape_shape c = true.
Proof. by_bytes c. Qed.

Lemma encode_cont c : is_cont c = true ->
  exists h l, encode_byte c = [x25; h; l] /\ is_89AB h = true /\ isxdigit l = true
              /\ hex2_to_char h l = c.
Proof.
  intros Hc. pose proof (cont_shape_cont c) as H. rewrite Hc, Bool.eqb_true_iff in H.
  unfold cont_shape in H.
  destruct (encode_byte c) as [|p [|h [|l [|]]]]; try done.
  rewrite !andb_true_iff in H. destruct H as [[[H1 H2] H3] H4].
  apply byte_eqb_eq in H1 as ->. apply byte_eqb_eq in H4. eauto 6.
Qed.

Lemma encode_not_cont c tail k :
  is_cont c = false -> is_enc8 (encode_byte c ++ tail) (S k) = false.
Proof.
  intros Hc. pose proof (cont_shape_cont c) as H. rewrite Hc, Bool.eqb_true_iff in H.
  pose proof (escape_shape_all c) as He. unfold escape_shape in He. rewrite H in He.
  destruct (encode_byte c) as [|p [|h [|l rest]]]; cbn [app is_enc8]; try done.
  - rewrite negb_true_iff in He. destruct tail as [|? [|? ?]]; try done. by rewrite He.
  - destruct tail as [|? ?]; try done. by destruct ((p =b? "%") && is_89AB h).
  - by destruct ((p =b? "%") && is_89AB h).
Qed.

(** [is_enc8] on encoded text counts continuation bytes. *)
Lemma is_enc8_encode k s :
  is_enc8 (apreq_encode s) k = true ->
  k <= length s /\ forallb is_cont (take k s) = true.
Proof.
  revert s. induction k as [|k IH]; intros s Hs; [cbn; split; [lia|done]|].
  destruct s as [|c s]; [done|]. rewrite apreq_encode_cons in Hs.
  destruct (is_cont c) eqn:Ec.
  - apply encode_cont in Ec as Hc. destruct Hc as (h & l & Hc & H1 & H2 & _).
    rewrite Hc in Hs. cbn [app is_enc8] in Hs. rewrite H1, H2 in Hs. cbn in Hs.
    apply IH in Hs as [Hl Hf]. cbn. rewrite Ec, Hf. split; [lia|done].
  - by rewrite encode_not_cont in Hs.
Qed.

Lemma encode_conts ys s :
  forallb is_cont ys = true ->
  is_enc8 (apreq_encode (ys ++ s)) (length ys) = true /\
  hex_triples (length ys) (apreq_encode (ys ++ s)) = map Some ys /\
  drop (3 * length ys) (apreq_encode (ys ++ s)) = apreq_encode s /\
  3 * length ys <= length (apreq_encode (ys ++ s)).
Proof.
  induction ys as [|y ys IH]; cbn [forallb]; intros Hys.
  { cbn. rewrite drop_0. split_and!; [done..|lia]. }
  apply andb_true_iff in Hys as [Hy Hys]. apply IH in Hys as (I1 & I2 & I3 & I4).
  apply encode_cont in Hy as (h & l & Hc & H1 & H2 & H3).
  cbn [app length]. rewrite apreq_encode_cons, Hc. cbn [app is_enc8 hex_triples map].
  rewrite H1, H2, H3, I1, I2. cbn [length].
  replace (3 * S (length ys)) with (S (S (S (3 * length ys)))) by lia.
  cbn [drop]. rewrite I3. split_and!; [done..|cbn [length]; lia].
Qed.

(** The two byte values for which the decoder writes nothing. *)
Definition is_bom_byte (c : Byte.byte) : bool := (0xFE <=? zb c)%Z.

Lemma utf8_seq_encode k c s :
  k <= 5 ->
  (exists cs', utf8_seq k c (apreq_encode s) = Emit cs' [Some c] (apreq_encode s)) \/
  utf8_seq k c (apreq_encode s) = Halt APREQ_CHARSET_UTF8 APR_INCOMPLETE \/
  (k <= length s /\
   utf8_seq k c (apreq_encode s) =
     Emit APREQ_CHARSET_UTF8 (map Some (c :: take k s)) (apreq_encode (drop k s))).
Proof.
  intros Hk. unfold utf8_seq. destruct (_ <? _) eqn:El.
  - apply Nat.ltb_lt in El. rewrite fragment_charset_prefix by lia.
    destruct (enc8_prefix _); eauto.
  - destruct (is_enc8 (apreq_encode s) k) eqn:Ee; [|eauto].
    apply is_enc8_encode in Ee as [Hl Hc]. right; right. split; [done|].
    pose proof (encode_conts (take k s) (drop k s) Hc) as (_ & H2 & H3 & _).
    rewrite length_take_le, take_drop in H2, H3 by done.
    cbn [map]. by rewrite H2, H3.
Qed.

Lemma url_hex_encode cs c s :
  is_bom_byte c = false ->
  (exists cs', url_hex cs c (apreq_encode s) = Emit cs' [Some c] (apreq_encode s)) \/
  url_hex cs c (apreq_encode s) = Halt APREQ_CHARSET_UTF8 APR_INCOMPLETE \/
  (exists k, k <= length s /\
   url_hex cs c (apreq_encode s) =
     Emit APREQ_CHARSET_UTF8 (map Some (c :: take k s)) (apreq_encode (drop k s))).
Proof.
  unfold is_bom_byte. intros Hb. apply Z.leb_gt in Hb. unfold url_hex.
  assert (Hs : forall k, k <= 5 -> let a := utf8_seq k c (apreq_encode s) in
    (exists cs', a = Emit cs' [Some c] (apreq_encode s)) \/
    a = Halt APREQ_CHARSET_UTF8 APR_INCOMPLETE \/
    (exists k, k <= length s /\
      a = Emit APREQ_CHARSET_UTF8 (map Some (c :: take k s)) (apreq_encode (drop k s)))).
  { intros k Hk. destruct (utf8_seq_encode k c s Hk) as [?|[?|?]]; eauto. }
  bool_cases; try (left; eexists; done); try (apply Hs; lia).
  apply Z.ltb_ge in E7. lia.
Qed.

Local Ltac prefix_done :=
  repeat match goal with |- _ /\ _ => split end; try done; try lia;
  first [left; split; [done|lia] | right; split; [done|lia]].

(** Decoding an encoded text gives back a prefix of it: all of it, or all but
    a truncated multibyte sequence at the end. *)
Lemma url_decode_encode_prefix n cs s :
  length s <= n -> forallb (fun c => negb (is_bom_byte c)) s = true ->
  exists m, let r := url_decode cs (apreq_encode s) in
    m <= length s /\ ur_out r = map Some (take m s) /\
    ur_rest r = apreq_encode (drop m s) /\
    (ur_status r = APR_SUCCESS /\ m = length s \/
     ur_status r = APR_INCOMPLETE /\ m < length s).
Proof.
  revert cs s. induction n as [|n IH]; intros cs [|c s] Hn Hf; cbn [length] in Hn; try lia;
    try (exists 0; cbn; prefix_done).
  cbn [forallb] in Hf. rewrite andb_true_iff, negb_true_iff in Hf. destruct Hf as [Hb Hf].
  assert (Hone : forall cs', exists m,
    let r := prepend [Some c] (url_decode cs' (apreq_encode s)) in
    m <= length (c :: s) /\ ur_out r = map Some (take m (c :: s)) /\
    ur_rest r = apreq_encode (drop m (c :: s)) /\
    (ur_status r = APR_SUCCESS /\ m = length (c :: s) \/
     ur_status r = APR_INCOMPLETE /\ m < length (c :: s))).
  { intros cs'. destruct (IH cs' s ltac:(lia) Hf) as (m & Hm & Ho & Hr & Hs).
    exists (S m). cbn in *. rewrite Ho, Hr.
    destruct Hs as [[-> ->]|[-> ?]]; prefix_done. }
  rewrite apreq_encode_cons, encode_byte_step.
  destruct (is_unreserved c || (c =b? " ")); [apply Hone|].
  destruct (url_hex_encode cs c s Hb) as [[cs' ->]|[->|(k & Hk & ->)]]; [apply Hone| |].
  - exists 0. cbn. prefix_done.
  - assert (Hf' : forallb (fun c => negb (is_bom_byte c)) (drop k s) = true).
    { rewrite <- (take_drop k s), forallb_app, andb_true_iff in Hf. tauto. }
    destruct (IH APREQ_CHARSET_UTF8 (drop k s)) as (m & Hm & Ho & Hr & Hs);
      [rewrite length_drop; lia|done|].
    rewrite length_drop in Hm, Hs. exists (S (k + m)).
    cbn [prepend ur_out ur_rest ur_status length].
    rewrite Ho, Hr, <- map_app. cbn [app drop take].
    rewrite drop_drop, take_take_drop.
    split_and!; [lia|done|f_equal; f_equal; lia|].
    destruct Hs as [[-> ?]|[-> ?]]; prefix_done.
Qed.
Lemma lead_conts_pos c k :
  lead_conts c = Some (S k) -> is_unreserved c || (c =b? " ") = false.
Proof.
  intros H.
  assert (Hc : match lead_conts c with
               | Some (S _) => negb (is_unreserved c || (c =b? " ")) | _ => true end = true)
    by by_bytes c.
  rewrite H in Hc. by apply negb_true_iff in Hc.
Qed.

Lemma url_hex_lead cs c k t :
  lead_conts c = Some (S k) -> cs = APREQ_CHARSET_ASCII \/ cs = APREQ_CHARSET_UTF8 ->
  url_hex cs c t = utf8_seq (S k) c t.
Proof.
  intros Hl Hcs. unfold lead_conts in Hl. unfold url_hex.
  assert (bool_decide (cs = APREQ_CHARSET_CP1252) = false) as -> by (by destruct Hcs as [-> | ->]).
  assert (bool_decide (cs = APREQ_CHARSET_LATIN1) = false) as -> by (by destruct Hcs as [-> | ->]).
  destruct (zb c <? 0x80)%Z eqn:E1; [done|]. cbn [orb].
  destruct (zb c <? 0xC0)%Z eqn:E2; [done|].
  assert ((zb c <? 0xA0)%Z = false) as -> by (apply Z.ltb_ge in E2; apply Z.ltb_ge; lia).
  repeat (case_match; [by injection Hl as <-|]). done.
Qed.

Lemma url_decode_encode_utf8 cs s :
  cs = APREQ_CHARSET_ASCII \/ cs = APREQ_CHARSET_UTF8 -> utf8_text s ->
  url_decode cs (apreq_encode s) =
    UrlResult APR_SUCCESS (if is_ascii s then cs else APREQ_CHARSET_UTF8) (map Some s) [].
Proof.
  intros Hcs Hs. revert cs Hcs. induction Hs as [|c ys s Hl Hys Hs IH]; intros cs Hcs.
  { done. }
  rewrite apreq_encode_cons, encode_byte_step.
  destruct (length ys) as [|k] eqn:El.
  - destruct ys; [|done]. cbn [app].
    assert (Hc : (zb c <? 0x80)%Z = true).
    { revert Hl. unfold lead_conts. by bool_cases. }
    assert (is_ascii (c :: s) = is_ascii s) as -> by (cbn; by rewrite Hc).
    assert (url_hex cs c (apreq_encode s) = Emit cs [Some c] (apreq_encode s)) as ->
      by (unfold url_hex; by rewrite Hc).
    destruct (_ || _); by rewrite IH.
  - rewrite (lead_conts_pos c k Hl).
    assert (is_ascii (c :: ys ++ s) = false) as ->.
    { cbn. revert Hl. unfold lead_conts. by destruct (zb c <? 0x80)%Z. }
    pose proof (encode_conts ys s Hys) as (I1 & I2 & I3 & I4).
    assert (Hu : utf8_seq (length ys) c (apreq_encode (ys ++ s)) =
                 Emit APREQ_CHARSET_UTF8 (map Some (c :: ys)) (apreq_encode s)).
    { unfold utf8_seq. rewrite I1, I2, I3.
      assert ((length (apreq_encode (ys ++ s)) <? 3 * length ys) = false) as ->
        by (apply Nat.ltb_ge; lia).
      done. }
    rewrite El in Hu.
    rewrite (url_hex_lead cs c k) by done. rewrite Hu.
    rewrite IH by auto. unfold prepend. cbn. rewrite map_app. by destruct (is_ascii s).
Qed.

(** The prefix that the in-place entry skips. *)
Lemma skip_plain_decode s p s' :
  skip_plain s = (p, Some s') ->
  url_decode APREQ_CHARSET_ASCII s = prepend (map Some p) (url_decode APREQ_CHARSET_ASCII s').
Proof.
  revert p. induction s as [|b r IH]; intros p; cbn [skip_plain].
  { by intros [= <- <-]. }
  destruct (b =b? "%") eqn:E1; cbn [orb];
    [intros [= <- <-]; by rewrite prepend_nil|].
  destruct (b =b? "+") eqn:E2; [intros [= <- <-]; by rewrite prepend_nil|]. destruct (b =b? x00); [done|].
  destruct (skip_plain r) as [q k]. intros [= <- ->].
  rewrite url_decode_cons. unfold url_step. rewrite E1, E2, (IH q) by done. done.
Qed.

Lemma skip_plain_no_nul s : no_nul s = true -> is_Some (skip_plain s).2.
Proof.
  induction s as [|b r IH]; cbn; [eauto|].
  rewrite andb_true_iff, negb_true_iff. intros [Hb Hr]. rewrite Hb.
  destruct (_ || _); [cbn; eauto|].
  destruct (skip_plain r) as [q k]. by apply IH.
Qed.

(** ** The encoder's output *)

Lemma encode_byte_length c : (1 <=? length (encode_byte c)) && (length (encode_byte c) <=? 3) = true.
Proof. by_bytes c. Qed.

Lemma apreq_encode_length s : length s <= length (apreq_encode s) <= 3 * length s.
Proof.
  induction s as [|c s IH]; [cbn; lia|].
  rewrite apreq_encode_cons, length_app. pose proof (encode_byte_length c) as H.
  rewrite andb_true_iff, !Nat.leb_le in H. cbn [length]. lia.
Qed.

(** A byte that can appear in encoded text. *)
Definition is_encoded_char (c : Byte.byte) : bool :=
  is_unreserved c || (c =b? "+") || (c =b? "%").

Lemma apreq_encode_chars s : forallb is_encoded_char (apreq_encode s) = true.
Proof.
  induction s as [|c s IH]; [done|].
  rewrite apreq_encode_cons, forallb_app, IH, andb_true_r. by_bytes c.
Qed.

Lemma bmp_to_utf8_points b tail :
  utf8_points (bmp_to_utf8 (cp1252_to_bmp b) ++ tail) =
    cons (cp1252_to_bmp b) <$> utf8_points tail.
Proof. destruct b; reflexivity. Qed.

(** ** Claims *)

(** C18: decoding a body or a word that arrives in any number of pieces
    ([apreq_decodev]) gives the status and the bytes that decoding it in one
    piece gives, also when an escape or a multibyte sequence is cut. *)
Theorem decodev_chunking (v : list bytes) :
  apreq_decodev v = apreq_decodev [concat v].
Proof. apply decodev_concat. Qed.

(** C19: url-decoding what [apreq_encode] produced from UTF-8 text succeeds,
    gives the text back and reports ASCII or UTF-8 as the text is. *)
Theorem decode_encode_utf8 (s : bytes) :
  utf8_text s ->
  apreq_decode false (apreq_encode s) =
    ((APR_SUCCESS + charset_val (if is_ascii s then APREQ_CHARSET_ASCII
                                 else APREQ_CHARSET_UTF8))%Z, map Some s).
Proof. intros Hs. unfold apreq_decode. by rewrite url_decode_encode_utf8 by auto. Qed.

(** Whatever the text is (bytes 0xFE and 0xFF apart), decoding its encoding
    never reports a bad sequence and never changes a byte: it gives the whole
    text, or stops before a truncated multibyte sequence with APR_INCOMPLETE. *)
Theorem decode_encode_prefix (s : bytes) :
  forallb (fun c => negb (is_bom_byte c)) s = true ->
  exists m cs,
    snd (apreq_decode false (apreq_encode s)) = map Some (take m s) /\
    (fst (apreq_decode false (apreq_encode s)) = (APR_SUCCESS + charset_val cs)%Z /\ m = length s \/
     fst (apreq_decode false (apreq_encode s)) = (APR_INCOMPLETE + charset_val cs)%Z /\ m < length s).
Proof.
  intros Hf.
  destruct (url_decode_encode_prefix (length s) APREQ_CHARSET_ASCII s ltac:(lia) Hf)
    as (m & _ & Ho & _ & Hs).
  exists m, (ur_charset (url_decode APREQ_CHARSET_ASCII (apreq_encode s))).
  unfold apreq_decode. cbn [fst snd]. split; [done|].
  destruct Hs as [[-> ?]|[-> ?]]; auto.
Qed.

(** Decoding in place is decoding into a fresh buffer, for a C string. *)
Theorem decode_in_place (s : bytes) :
  no_nul s = true -> apreq_decode true s = apreq_decode false s.
Proof.
  intros Hn. apply skip_plain_no_nul in Hn as [s' Hs]. unfold apreq_decode.
  destruct (skip_plain s) as [p k] eqn:Ep. cbn in Hs. subst k.
  by rewrite (skip_plain_decode _ _ _ Ep).
Qed.

(** The decoder stores at most one byte more than its source is long, so a
    destination of [slen + 1] bytes is enough for the text, the unfinished tail
    it may keep there and the final NUL; a text without escapes needs exactly
    that many. *)
Theorem decode_writes_fit (cs : apreq_charset_t) (s : bytes) :
  decode_writes (url_decode cs s) <= length s + 1 /\
  (forallb is_unreserved s = true -> decode_writes (url_decode cs s) = length s + 1).
Proof.
  split; [apply decode_writes_bound|]. intros Hs.
  assert (url_decode cs s = UrlResult APR_SUCCESS cs (map Some s) []) as ->.
  { induction s as [|c s IH]; [done|]. cbn [forallb] in Hs.
    apply andb_true_iff in Hs as [Hc Hs].
    assert (He : encode_byte c = [c]) by (unfold encode_byte; by rewrite Hc).
    change (c :: s) with ([c] ++ s). rewrite <- He, encode_byte_step, Hc.
    cbn [orb]. by rewrite IH, He by done. }
  unfold decode_writes. cbn [ur_status ur_out]. autorewrite with errno.
  rewrite length_map. lia.
Qed.

(** Converting Windows-1252 text to UTF-8 and reading the code points back
    gives each byte's Unicode code point, in order. *)
Theorem cp1252_to_utf8_points (s : bytes) :
  utf8_points (apreq_cp1252_to_utf8 s) = Some (map cp1252_to_bmp s).
Proof.
  induction s as [|b s IH]; [done|].
  change (apreq_cp1252_to_utf8 (b :: s))
    with (bmp_to_utf8 (cp1252_to_bmp b) ++ apreq_cp1252_to_utf8 s).
  by rewrite bmp_to_utf8_points, IH.
Qed.

End Facts.

(** ** Witnesses *)

Lemma decode_encode_utf8_witness :
  let s := str "caf" ++ [xc3; xa9] in
  utf8_text s /\ apreq_decode false (apreq_encode s) = (8%Z, map Some s).
Proof.
  assert (H : utf8_text (str "caf" ++ [xc3; xa9])).
  { apply (utf8_char "c" []); [done..|]. apply (utf8_char "a" []); [done..|].
    apply (utf8_char "f" []); [done..|]. apply (utf8_char xc3 [xa9]); [done..|].
    constructor. }
  split; [exact H|]. exact (decode_encode_utf8 _ H).
Defined.

Lemma decode_encode_prefix_witness :
  exists m cs,
    snd (apreq_decode false (apreq_encode [xe2; x82])) = map Some (take m [xe2; x82]) /\
    (fst (apreq_decode false (apreq_encode [xe2; x82])) = (APR_SUCCESS + charset_val cs)%Z
       /\ m = length [xe2; x82] \/
     fst (apreq_decode false (apreq_encode [xe2; x82])) = (APR_INCOMPLETE + charset_val cs)%Z
       /\ m < length [xe2; x82]).
Proof. apply (decode_encode_prefix [xe2; x82]). reflexivity. Defined.

Lemma decode_in_place_witness :
  apreq_decode true (str "dandy %3Edons") = apreq_decode false (str "dandy %3Edons").
Proof. apply (decode_in_place (str "dandy %3Edons")). reflexivity. Defined.

Lemma decode_writes_fit_witness :
  decode_writes (url_decode APREQ_CHARSET_ASCII (str "abc")) <= 4 /\
  (forallb is_unreserved (str "abc") = true ->
   decode_writes (url_decode APREQ_CHARSET_ASCII (str "abc")) = 4).
Proof. exact (decode_writes_fit APREQ_CHARSET_ASCII (str "abc")). Defined.
