(* ===== verification/Util.v ===== *)
(** * Strings and attributes ([src/libapreq2/library/util.c])

    Search for a boundary, quoting, joining, sizes and offsets with a unit,
    and the attributes of a header value. *)
From S2P Require Import Prelude Apr Url.

(** ** apreq_index *)

Inductive apreq_match_t := APREQ_MATCH_FULL | APREQ_MATCH_PARTIAL.

(** [memchr(hay, c, len)] as an offset; [hay] runs to [end]. *)
Fixpoint memchr (hay : bytes) (c : Byte.byte) : option nat :=
  match hay with
  | [] => None
  | h :: hay => if h =b? c then Some 0 else S <$> memchr hay c
  end.

(** [pos] is [hay - begin]; the fuel is the length of the haystack. *)
Fixpoint index_loop (fuel pos : nat) (hay ndl : bytes) (type : apreq_match_t) : Z :=
  match memchr hay (nth 0 ndl x00) with
  | None => (-1)%Z
  | Some k =>
      let hay := drop k hay in
      let len := length hay in
      let n := Nat.min (length ndl) len in
      if bool_decide (take n hay = take n ndl) then
        match type with
        | APREQ_MATCH_FULL =>
            if len <? length ndl then (-1)%Z else Z.of_nat (pos + k)
        | APREQ_MATCH_PARTIAL => Z.of_nat (pos + k)
        end
      else match fuel with
      | O => (-1)%Z
      | S fuel => index_loop fuel (pos + k + 1) (drop 1 hay) ndl type
      end
  end.

Definition apreq_index (hay ndl : bytes) (type : apreq_match_t) : Z :=
  index_loop (length hay) 0 hay ndl type.

(** ** Quoting *)

Fixpoint quoted_scan (backslash : bool) (p : bytes) : bool :=
  match p with
  | [] => negb backslash
  | c :: p =>
      if c =b? x5c then quoted_scan (negb backslash) p
      else if (c =b? x00) || ((c =b? x22) && negb backslash) then false
      else quoted_scan false p
  end.

Definition is_quoted (p : bytes) : bool :=
  let len := length p in
  if (1 <? len) && (nth 0 p x00 =b? x22) && (nth (len - 1) p x00 =b? x22)
  then quoted_scan false (take (len - 2) (drop 1 p))
  else false.

Definition quote_byte (c : Byte.byte) : bytes :=
  if c =b? x00 then [x5c; x30]
  else if (c =b? x5c) || (c =b? x22) then [x5c; c]
  else [c].

Definition apreq_quote (src : bytes) : bytes :=
  match src with
  | [] => []
  | _ => x22 :: flat_map quote_byte src ++ [x22]
  end.

Definition apreq_quote_once (src : bytes) : bytes :=
  if is_quoted src then src else apreq_quote src.

(** ** Joining *)

Inductive apreq_join_t :=
  | APREQ_JOIN_AS_IS | APREQ_JOIN_ENCODE | APREQ_JOIN_DECODE | APREQ_JOIN_QUOTE.

Section Join.
Context {E : AprErrno}.

(** The bytes allocated for the result ([len] after the switch). *)
Definition join_alloc (sep : bytes) (arr : list bytes) (mode : apreq_join_t) : nat :=
  let len := sum_list_with (fun a => length a + length sep + 1) arr in
  match mode with
  | APREQ_JOIN_ENCODE => len + 2 * len
  | APREQ_JOIN_QUOTE => 2 * (len + length arr)
  | _ => len
  end.

(** What one element contributes; [None]: the function returns NULL. *)
Definition join_elt (mode : apreq_join_t) (a : bytes) : option (list cell) :=
  match mode with
  | APREQ_JOIN_AS_IS => Some (map Some a)
  | APREQ_JOIN_ENCODE => Some (map Some (apreq_encode a))
  | APREQ_JOIN_QUOTE => Some (map Some (apreq_quote_once a))
  | APREQ_JOIN_DECODE =>
      let '(s, out) := apreq_decode false a in
      if (s =? 0)%Z then Some out else None
  end.

Fixpoint join_rest (sep : bytes) (mode : apreq_join_t) (arr : list bytes)
  : option (list cell) :=
  match arr with
  | [] => Some []
  | a :: arr =>
      x ← join_elt mode a; r ← join_rest sep mode arr; Some (map Some sep ++ x ++ r)
  end.

Definition apreq_join (sep : bytes) (arr : list bytes) (mode : apreq_join_t)
  : option (list cell) :=
  match arr with
  | [] => Some []
  | a :: arr => x ← join_elt mode a; r ← join_rest sep mode arr; Some (x ++ r)
  end.

End Join.

(** ** Sizes and offsets *)

Section Atoi.

(** [apr_strtoi64] is APR's: the value and the rest of the string. *)
Context (apr_strtoi64 : bytes -> Z * bytes).

Definition int64 (z : Z) : option Z :=
  if ((- 2 ^ 63 <=? z) && (z <? 2 ^ 63))%Z then Some z else None.

Fixpoint skip_space (p : bytes) : bytes :=
  match p with
  | c :: p' => if isspace c then skip_space p' else p
  | [] => []
  end.

Definition size_unit (c : Byte.byte) : Z :=
  (if (c =b? "G") || (c =b? "g") then 1024 * 1024 * 1024
   else if (c =b? "M") || (c =b? "m") then 1024 * 1024
   else if (c =b? "K") || (c =b? "k") then 1024
   else 1)%Z.

Definition time_unit (c : Byte.byte) : Z :=
  (if (c =b? "Y") || (c =b? "y") then 60 * 60 * 24 * 365
   else if c =b? "M" then 60 * 60 * 24 * 30
   else if (c =b? "D") || (c =b? "d") then 60 * 60 * 24
   else if (c =b? "H") || (c =b? "h") then 60 * 60
   else if c =b? "m" then 60
   else 1)%Z.

(** [None]: the product overflows [apr_int64_t]. *)
Definition atoi_unit (unit : Byte.byte -> Z) (s : option bytes) : option Z :=
  match s with
  | None => Some 0%Z
  | Some s =>
      let '(n, p) := apr_strtoi64 s in
      int64 (n * unit (nth 0 (skip_space p) x00))
  end.

Definition apreq_atoi64f (s : option bytes) : option Z := atoi_unit size_unit s.
Definition apreq_atoi64t (s : option bytes) : option Z := atoi_unit time_unit s.

End Atoi.

(** ** Attributes of a header *)

Section Attr.
Context {E : AprErrno}.

Definition is_2616_token (c : Byte.byte) : bool :=
  if bool_decide (c ∈ str " ;," ++ [x22; x09] ++ str "?=@:\/()<>{}[]") then false
  else negb (iscntrl c).

Inductive attr_result :=
  | AttrFound (val vlen : nat)    (** APR_SUCCESS; [val] is an offset *)
  | AttrNone (status : Z)
  | AttrOutOfBounds               (** a read before the start of the object *)
  | AttrNoFuel.

(** [obj] is the object the header string lies in, up to its final NUL; a
    pointer is an offset into it. *)
Context (obj : bytes).

Definition char_at (i : nat) : Byte.byte := nth i obj x00.

Definition read_at (i : Z) : option Byte.byte :=
  if (i <? 0)%Z then None
  else if (i <=? Z.of_nat (length obj))%Z then Some (char_at (Z.to_nat i)) else None.

Fixpoint count_while (p : Byte.byte -> bool) (l : bytes) : nat :=
  match l with
  | c :: l => if p c then S (count_while p l) else 0
  | [] => 0
  end.

(** [strchr(l, c)] as an offset. *)
Fixpoint strchr (l : bytes) (c : Byte.byte) : option nat :=
  match l with
  | [] => None
  | b :: l =>
      if b =b? c then Some 0 else if b =b? x00 then None else S <$> strchr l c
  end.

(** [while (apr_isspace( *key) && key > hdr + nlen) --key;] *)
Fixpoint back_space (key lim : nat) : nat :=
  match key with
  | O => O
  | S k => if isspace (char_at (S k)) && (lim <? S k) then back_space k lim else S k
  end.

(** [look_for_end_quote]: the offset of the closing quote. *)
Fixpoint end_quote (l : bytes) : option nat :=
  match l with
  | [] => None
  | c :: l1 =>
      if c =b? x22 then Some 0
      else if c =b? x00 then None
      else if c =b? x5c then
        match l1 with
        | [] => None
        | d :: l2 => if d =b? x00 then None else (fun n => S (S n)) <$> end_quote l2
        end
      else S <$> end_quote l1
  end.

Definition is_terminator (c : Byte.byte) : bool :=
  (c =b? x00) || (c =b? " ") || (c =b? ";") || (c =b? ",") || (c =b? x09)
  || (c =b? x0d) || (c =b? x0a).

(** [strncasecmp(key, name, n) == 0]; [None]: a read out of bounds. *)
Fixpoint strncase_at (key : Z) (name : bytes) (n : nat) : option bool :=
  match n with
  | O => Some true
  | S n =>
      match read_at key with
      | None => None
      | Some c =>
          if negb (tolower c =b? tolower (nth 0 name x00)) then Some false
          else if c =b? x00 then Some true
          else strncase_at (key + 1) (drop 1 name) n
      end
  end.

(** The value that starts at [v]: its offset and its end. *)
Definition attr_value (v : nat) : option (nat * nat) :=
  let v := v + count_while isspace (drop v obj) in
  if char_at v =b? x22 then
    (fun n => (S v, S v + n)) <$> end_quote (drop (S v) obj)
  else Some (v, v + count_while (fun c => negb (is_terminator c)) (drop v obj)).

Fixpoint attr_loop (fuel hdr : nat) (name : bytes) : attr_result :=
  match fuel with
  | O => AttrNoFuel
  | S fuel =>
      match strchr (drop hdr obj) "=" with
      | None => AttrNone APREQ_ERROR_NOATTR
      | Some k =>
          let nlen := length name in
          let v := hdr + k + 1 in
          let key := (Z.of_nat (back_space (hdr + k - 1) (hdr + nlen))
                      - (Z.of_nat nlen - 1))%Z in
          match attr_value v with
          | None => AttrNone APREQ_ERROR_BADSEQ
          | Some (val, v) =>
              match strncase_at key name nlen with
              | None => AttrOutOfBounds
              | Some true =>
                  if (key =? Z.of_nat hdr)%Z then AttrFound val (v - val)
                  else match read_at (key - 1) with
                  | None => AttrOutOfBounds
                  | Some c =>
                      if negb (is_2616_token c) then AttrFound val (v - val)
                      else attr_loop fuel v name
                  end
              | Some false => attr_loop fuel v name
              end
          end
      end
  end.

(** [apreq_header_attribute]; [base] is the offset of [hdr] in its object. *)
Definition apreq_header_attribute (base : nat) (name : bytes) : attr_result :=
  let hdr := base + count_while (fun c => c =b? "=") (drop base obj) in
  attr_loop (S (length obj)) hdr name.

End Attr.

(** * Properties *)

(** ** Search *)

(** [ndl] matches at offset [i]: all of it, or, for a partial match, as much of
    it as is left of the haystack. *)
Definition match_at (hay ndl : bytes) (type : apreq_match_t) (i : nat) : Prop :=
  i < length hay /\
  (let n := Nat.min (length ndl) (length hay - i) in
   take n (drop i hay) = take n ndl) /\
  (type = APREQ_MATCH_FULL -> i + length ndl <= length hay).

Lemma memchr_Some hay c k :
  memchr hay c = Some k ->
  k < length hay /\ hay !! k = Some c /\ (forall j, j < k -> hay !! j <> Some c).
Proof.
  revert k. induction hay as [|h hay IH]; intros k; cbn; [done|].
  destruct (h =b? c) eqn:E; byte_eqs.
  - intros [= <-]. subst. split_and!; [lia|done|lia].
  - destruct (memchr hay c) as [k'|]; cbn; [|done]. intros [= <-].
    destruct (IH k' eq_refl) as (H1 & H2 & H3). split_and!; [lia|done|].
    intros [|j] Hj; cbn; [congruence|]. apply H3. lia.
Qed.

Lemma memchr_None hay c j : memchr hay c = None -> hay !! j <> Some c.
Proof.
  revert j. induction hay as [|h hay IH]; intros j; cbn; [done|].
  destruct (h =b? c) eqn:E; byte_eqs; [done|].
  destruct (memchr hay c); [done|]. intros _. destruct j; cbn; [congruence|auto].
Qed.

(** A match starts with the first byte of the needle. *)
Lemma match_at_head hay ndl type i :
  ndl <> [] -> match_at hay ndl type i -> hay !! i = Some (nth 0 ndl x00).
Proof.
  intros Hn (Hi & Hm & _). destruct ndl as [|d ndl]; [done|]. cbn zeta in Hm.
  replace i with (i + 0) by lia. rewrite <- lookup_drop.
  destruct (drop i hay) as [|h t] eqn:Ed.
  { apply (f_equal length) in Ed. rewrite length_drop in Ed. cbn in Ed. lia. }
  destruct (length hay - i) as [|m] eqn:El; [lia|]. cbn in *. congruence.
Qed.

Lemma match_at_drop hay ndl type k i :
  match_at (drop k hay) ndl type i <-> match_at hay ndl type (k + i).
Proof.
  unfold match_at. rewrite length_drop, drop_drop.
  replace (length hay - k - i) with (length hay - (k + i)) by lia.
  split; intros (H1 & H2 & H3); split_and!; try done; try lia; intros Ht; specialize (H3 Ht); lia.
Qed.

Lemma index_loop_spec fuel pos hay ndl type :
  ndl <> [] -> length hay <= fuel ->
  (exists i, index_loop fuel pos hay ndl type = Z.of_nat (pos + i) /\
     match_at hay ndl type i /\ forall j, j < i -> ~ match_at hay ndl type j) \/
  (index_loop fuel pos hay ndl type = (-1)%Z /\ forall j, ~ match_at hay ndl type j).
Proof.
  intros Hn. revert pos hay. induction fuel as [|fuel IH]; intros pos hay Hl; cbn [index_loop].
  { destruct hay; [|cbn in Hl; lia]. right. split; [done|]. intros j (Hj & _). cbn in Hj. lia. }
  destruct (memchr hay (nth 0 ndl x00)) as [k|] eqn:Ek.
  2: { right. split; [done|]. intros j Hj. apply match_at_head in Hj; [|done].
       by apply (memchr_None _ _ j) in Ek. }
  apply memchr_Some in Ek as (Hk & Hc & Hlt).
  assert (Hbefore : forall j, j < k -> ~ match_at hay ndl type j).
  { intros j Hj Hm. apply match_at_head in Hm; [|done]. by apply (Hlt j). }
  cbn zeta. rewrite length_drop. case_bool_decide as Hm.
  - destruct type.
    + destruct (length hay - k <? length ndl) eqn:E.
      * apply Nat.ltb_lt in E. right. split; [done|]. intros j Hj.
        destruct (decide (j < k)) as [Hjk|Hjk]; [by apply (Hbefore j)|].
        destruct Hj as (_ & _ & Hj). specialize (Hj eq_refl). lia.
      * apply Nat.ltb_ge in E. left. exists k. split_and!; [done| |done].
        split_and!; [done|done|lia].
    + left. exists k. split_and!; [done| |done]. by split_and!.
  - assert (Hnk : ~ match_at hay ndl type k) by (intros (_ & Hm' & _); done).
    rewrite drop_drop. destruct (IH (pos + k + 1) (drop (k + 1) hay)) as [(i & Hi & Hmi & Hmin)|[Hi Hmin]].
    { rewrite length_drop. lia. }
    + left. exists (k + 1 + i). rewrite Hi. split; [f_equal; lia|].
      split; [by apply match_at_drop|]. intros j Hj Hmj.
      destruct (decide (j < k)) as [|Hjk]; [by apply (Hbefore j)|].
      destruct (decide (j = k)) as [->|]; [done|].
      apply (Hmin (j - (k + 1))); [lia|]. apply match_at_drop.
      by replace (k + 1 + (j - (k + 1))) with j by lia.
    + right. split; [done|]. intros j Hmj.
      destruct (decide (j < k)) as [|Hjk]; [by apply (Hbefore j)|].
      destruct (decide (j = k)) as [->|]; [done|].
      apply (Hmin (j - (k + 1))). apply match_at_drop.
      by replace (k + 1 + (j - (k + 1))) with j by lia.
Qed.

(** ** Quoting *)

Lemma quoted_scan_quote s rest :
  quoted_scan false (flat_map quote_byte s ++ rest) = quoted_scan false rest.
Proof.
  induction s as [|c s IH]; [done|]. cbn [flat_map]. rewrite <- app_assoc.
  unfold quote_byte. destruct (c =b? x00) eqn:E0; [by cbn|].
  destruct (c =b? x5c) eqn:E1; [byte_eqs; subst; by cbn|].
  destruct (c =b? x22) eqn:E2; [byte_eqs; subst; by cbn|].
  cbn [orb app quoted_scan]. by rewrite E0, E1, E2.
Qed.

Lemma is_quoted_wrap p : is_quoted (x22 :: p ++ [x22]) = quoted_scan false p.
Proof.
  unfold is_quoted. cbn [length]. rewrite length_app. cbn [length].
  assert ((1 <? S (length p + 1)) = true) as -> by (apply Nat.ltb_lt; lia).
  replace (S (length p + 1) - 1) with (S (length p)) by lia. cbn [nth].
  rewrite app_nth2, Nat.sub_diag by lia. cbn.
  rewrite drop_0. replace (length p + 1 - 1) with (length p) by lia.
  by rewrite take_app_length.
Qed.

Lemma quote_byte_length c : (1 <=? length (quote_byte c)) && (length (quote_byte c) <=? 2) = true.
Proof. by_bytes c. Qed.

Lemma apreq_quote_length s : length (apreq_quote s) <= 2 * length s + 2.
Proof.
  assert (H : length (flat_map quote_byte s) <= 2 * length s).
  { induction s as [|c s IH]; [cbn; lia|]. cbn [flat_map]. rewrite length_app.
    pose proof (quote_byte_length c) as Hc. rewrite andb_true_iff, !Nat.leb_le in Hc.
    cbn [length]. lia. }
  destruct s as [|c s]; [cbn; lia|]. unfold apreq_quote.
  cbn [length]. rewrite length_app. cbn [length] in *. lia.
Qed.

Lemma apreq_quote_quoted s : s <> [] -> is_quoted (apreq_quote s) = true.
Proof.
  destruct s as [|c s]; [done|]. intros _. unfold apreq_quote. rewrite is_quoted_wrap.
  rewrite <- (app_nil_r (flat_map _ _)), quoted_scan_quote. done.
Qed.

Lemma apreq_quote_once_length s : length (apreq_quote_once s) <= 2 * length s + 2.
Proof.
  unfold apreq_quote_once. destruct (is_quoted s); [lia|apply apreq_quote_length].
Qed.

(** ** Joining *)

Section JoinFacts.
Context {E : AprErrno}.

(** The room one element and its separator have in the allocation. *)
Definition elt_room (mode : apreq_join_t) (sep a : bytes) : nat :=
  match mode with
  | APREQ_JOIN_ENCODE => 3 * (length a + length sep + 1)
  | APREQ_JOIN_QUOTE => 2 * (length a + length sep + 1) + 2
  | _ => length a + length sep + 1
  end.

Lemma join_alloc_rooms sep arr mode :
  join_alloc sep arr mode = sum_list_with (elt_room mode sep) arr.
Proof.
  unfold join_alloc. destruct mode; induction arr as [|a arr IH]; cbn in *; try lia.
Qed.

Lemma join_elt_length sep mode a x :
  join_elt mode a = Some x -> length x + length sep + 1 <= elt_room mode sep a.
Proof.
  destruct mode; cbn [join_elt elt_room].
  - intros [= <-]. rewrite length_map. lia.
  - intros [= <-]. rewrite length_map. pose proof (apreq_encode_length a). lia.
  - destruct (apreq_decode false a) as [s out] eqn:Ed. destruct (s =? 0)%Z; [|done].
    intros [= ->]. unfold apreq_decode in Ed. injection Ed as _ <-.
    pose proof (decode_writes_bound APREQ_CHARSET_ASCII a) as H.
    unfold decode_writes in H. lia.
  - intros [= <-]. rewrite length_map. pose proof (apreq_quote_once_length a). lia.
Qed.

Lemma join_rest_length sep mode arr r :
  join_rest sep mode arr = Some r -> length r <= sum_list_with (elt_room mode sep) arr.
Proof.
  revert r. induction arr as [|a arr IH]; intros r; cbn [join_rest sum_list_with].
  { intros [= <-]. cbn. lia. }
  destruct (join_elt mode a) as [x|] eqn:Ex; cbn; [|done].
  destruct (join_rest sep mode arr) as [r'|]; cbn; [|done].
  intros [= <-]. specialize (IH r' eq_refl). apply (join_elt_length sep) in Ex.
  rewrite !length_app, length_map. lia.
Qed.

End JoinFacts.

(** ** Attributes *)

Section AttrFacts.
Context {E : AprErrno} (obj : bytes).

Lemma count_while_le p l : count_while p l <= length l.
Proof. induction l as [|c l IH]; cbn; [lia|]. destruct (p c); lia. Qed.

Lemma count_while_inside p l i : i < count_while p l -> p (nth i l x00) = true.
Proof.
  revert i. induction l as [|c l IH]; intros i; cbn; [lia|].
  destruct (p c) eqn:E0; [|lia]. intros Hi. destruct i; cbn; [done|]. apply IH. lia.
Qed.

Lemma count_while_stop p l :
  count_while p l < length l -> p (nth (count_while p l) l x00) = false.
Proof.
  induction l as [|c l IH]; cbn; [lia|].
  destruct (p c) eqn:E0; cbn; [|done]. intros H. apply IH. lia.
Qed.

Lemma nth_drop_char i j : nth i (drop j obj) x00 = char_at obj (j + i).
Proof.
  unfold char_at. revert i j. induction obj as [|c l IH]; intros i j.
  { rewrite drop_nil. by rewrite !nth_overflow by (cbn; lia). }
  destruct j; cbn; [done|]. apply IH.
Qed.

Lemma strchr_Some l c k :
  strchr l c = Some k -> k < length l /\ nth k l x00 = c.
Proof.
  revert k. induction l as [|b l IH]; intros k; cbn; [done|].
  destruct (b =b? c) eqn:E0; byte_eqs; [intros [= <-]; split; [lia|done]|].
  destruct (b =b? x00); [done|]. destruct (strchr l c) as [k'|]; cbn; [|done].
  intros [= <-]. destruct (IH k' eq_refl). split; [lia|done].
Qed.

Lemma back_space_spec key lim :
  back_space obj key lim <= key /\ Nat.min key lim <= back_space obj key lim /\
  forall i, back_space obj key lim < i <= key -> isspace (char_at obj i) = true.
Proof.
  induction key as [|k IH]; cbn [back_space]; [split_and!; [lia..|]; intros; lia|].
  destruct (isspace (char_at obj (S k))) eqn:Es; cbn [andb]; [|split_and!; [lia..|]; intros; lia].
  destruct (lim <? S k) eqn:El; [|split_and!; [lia..|]; intros; lia].
  apply Nat.ltb_lt in El. destruct IH as (H1 & H2 & H3). split_and!; [lia..|].
  intros i Hi. destruct (decide (i = S k)) as [->|]; [done|]. apply H3. lia.
Qed.

Lemma end_quote_Some l n : end_quote l = Some n -> n < length l /\ nth n l x00 = x22.
Proof.
  remember (length l) as m eqn:Hm. assert (Hle : length l <= m) by lia. rewrite Hm. clear Hm.
  revert l n Hle. induction m as [|m IH]; intros [|c l] n Hle; cbn in *; try lia; try done.
  destruct (c =b? x22) eqn:E0; byte_eqs; [intros [= <-]; split; [lia|done]|].
  destruct (c =b? x00); [done|]. destruct (c =b? x5c).
  - destruct l as [|d l]; [done|]. destruct (d =b? x00); [done|]. cbn in Hle.
    destruct (end_quote l) as [n'|] eqn:Eq; cbn; [|done]. intros [= <-].
    destruct (IH l n' ltac:(lia) Eq). split; [lia|done].
  - destruct (end_quote l) as [n'|] eqn:Eq; cbn; [|done]. intros [= <-].
    destruct (IH l n' ltac:(lia) Eq). split; [lia|done].
Qed.

(** Shape of the value found for an equal sign at [eq]. *)
Definition value_at (eq val vend : nat) : Prop :=
  (eq < val /\ (forall i, eq < i < val -> isspace (char_at obj i) = true) /\
   (forall i, val <= i < vend -> is_terminator (char_at obj i) = false) /\
   is_terminator (char_at obj vend) = true) \/
  (S eq < val /\ (forall i, eq < i < val - 1 -> isspace (char_at obj i) = true) /\
   char_at obj (val - 1) = x22 /\ char_at obj vend = x22 /\
   end_quote (drop val obj) = Some (vend - val)).

Lemma attr_value_spec eq val vend :
  eq < length obj -> attr_value obj (eq + 1) = Some (val, vend) ->
  value_at eq val vend /\ eq < val <= vend /\ vend <= length obj.
Proof.
  intros Heq. unfold attr_value.
  set (n := count_while isspace (drop (eq + 1) obj)).
  assert (Hn : n <= length obj - (eq + 1)).
  { unfold n. etrans; [apply count_while_le|]. by rewrite length_drop. }
  assert (Hsp : forall i, eq < i < eq + 1 + n -> isspace (char_at obj i) = true).
  { intros i Hi. replace i with (eq + 1 + (i - (eq + 1))) by lia.
    rewrite <- nth_drop_char. apply count_while_inside. fold n. lia. }
  destruct (char_at obj (eq + 1 + n) =b? x22) eqn:Eq; byte_eqs.
  - destruct (end_quote _) as [k|] eqn:Ek; cbn; [|done]. intros [= <- <-].
    apply end_quote_Some in Ek as Hk. destruct Hk as [Hk1 Hk2].
    rewrite length_drop in Hk1. rewrite nth_drop_char in Hk2.
    split; [|lia]. right.
    replace (S (eq + 1 + n) - 1) with (eq + 1 + n) by lia.
    replace (S (eq + 1 + n + k) - S (eq + 1 + n)) with k by lia.
    split_and!; try done; try lia.
  - intros [= <- <-].
    set (m := count_while _ (drop (eq + 1 + n) obj)).
    assert (Hm : m <= length obj - (eq + 1 + n)).
    { unfold m. etrans; [apply count_while_le|]. by rewrite length_drop. }
    split; [|lia]. left. split_and!; [lia|done| |].
    + intros i Hi. replace i with (eq + 1 + n + (i - (eq + 1 + n))) by lia.
      rewrite <- nth_drop_char. apply negb_true_iff.
      apply (count_while_inside (fun c => negb (is_terminator c))). fold m. lia.
    + rewrite <- nth_drop_char.
      destruct (decide (m = length obj - (eq + 1 + n))) as [->|].
      * rewrite nth_overflow by (rewrite length_drop; lia). done.
      * apply negb_false_iff, (count_while_stop (fun c => negb (is_terminator c))).
        fold m. rewrite length_drop. lia.
Qed.

Lemma value_at_end eq val vend :
  value_at eq val vend -> char_at obj vend <> "=".
Proof. intros [(_ & _ & _ & H)|(_ & _ & _ & H & _)] Hc; by rewrite Hc in H. Qed.

(** The scan position never stands on an equal sign. *)
Lemma attr_step hdr k :
  char_at obj hdr <> "=" -> strchr (drop hdr obj) "=" = Some k ->
  0 < k /\ hdr + k < length obj /\ char_at obj (hdr + k) = "=".
Proof.
  intros Hh Hk. apply strchr_Some in Hk as [H1 H2]. rewrite length_drop in H1.
  rewrite nth_drop_char in H2. split_and!; [|lia|done].
  destruct k; [|lia]. rewrite Nat.add_0_r in H2. done.
Qed.

Lemma attr_start base :
  let hdr := base + count_while (fun c => c =b? "=") (drop base obj) in
  char_at obj hdr <> "=".
Proof.
  cbn zeta. rewrite <- nth_drop_char.
  set (n := count_while _ _). destruct (decide (n < length (drop base obj))) as [Hn|Hn].
  - apply byte_eqb_neq. by apply (count_while_stop (fun c => c =b? "=")).
  - rewrite nth_overflow by lia. done.
Qed.

Lemma attr_loop_terminates fuel hdr name :
  char_at obj hdr <> "=" -> length obj - hdr < fuel ->
  attr_loop obj fuel hdr name <> AttrNoFuel.
Proof.
  revert hdr. induction fuel as [|fuel IH]; intros hdr Hh Hf; [lia|]. cbn [attr_loop].
  destruct (strchr _ _) as [k|] eqn:Ek; [|done].
  apply attr_step in Ek as (Hk & Hl & Hc); [|done].
  destruct (attr_value obj (hdr + k + 1)) as [[val vend]|] eqn:Ev; [|done].
  apply attr_value_spec in Ev as (Hv & Hlt & Hle); [|done].
  assert (Hrec : attr_loop obj fuel vend name <> AttrNoFuel).
  { apply IH; [by eapply value_at_end|lia]. }
  destruct (strncase_at _ _ _ _) as [[]|]; [|done..].
  destruct (_ =? _)%Z; [done|]. destruct (read_at obj _); [|done].
  by destruct (negb _).
Qed.

Lemma read_at_in i : i <= length obj -> read_at obj (Z.of_nat i) = Some (char_at obj i).
Proof.
  intros Hi. unfold read_at.
  assert ((Z.of_nat i <? 0)%Z = false) as -> by (apply Z.ltb_ge; lia).
  assert ((Z.of_nat i <=? Z.of_nat (length obj))%Z = true) as -> by (apply Z.leb_le; lia).
  by rewrite Nat2Z.id.
Qed.

Lemma read_at_Some z c :
  read_at obj z = Some c -> exists i, z = Z.of_nat i /\ i <= length obj /\ c = char_at obj i.
Proof.
  unfold read_at. destruct (z <? 0)%Z eqn:E1; [done|].
  destruct (z <=? _)%Z eqn:E2; [|done]. intros [= <-].
  apply Z.ltb_ge in E1. apply Z.leb_le in E2. exists (Z.to_nat z). split_and!; [lia|lia|done].
Qed.

Lemma strncase_at_in key name n :
  key + n <= S (length obj) -> is_Some (strncase_at obj (Z.of_nat key) name n).
Proof.
  revert key name. induction n as [|n IH]; intros key name Hk; cbn [strncase_at]; [eauto|].
  rewrite read_at_in by lia. destruct (negb _); [eauto|]. destruct (_ =b? _); [eauto|].
  replace (Z.of_nat key + 1)%Z with (Z.of_nat (S key)) by lia. apply IH. lia.
Qed.

Lemma token_tolower c : Bool.eqb (is_2616_token (tolower c)) (is_2616_token c) = true.
Proof. by_bytes c. Qed.

Lemma token_same_lower a b :
  tolower a = tolower b -> is_2616_token b = true -> is_2616_token a = true.
Proof.
  intros Hab Hb. pose proof (token_tolower a) as Ha. pose proof (token_tolower b) as Hb'.
  apply Bool.eqb_prop in Ha, Hb'. congruence.
Qed.

(** The name found at [key] is the one asked for, up to case. *)
Definition name_at (key : nat) (name : bytes) : Prop :=
  forall i c, name !! i = Some c -> tolower (char_at obj (key + i)) = tolower c.

Lemma strncase_at_true z name :
  name <> [] -> forallb is_2616_token name = true ->
  strncase_at obj z name (length name) = Some true ->
  exists key, z = Z.of_nat key /\ name_at key name.
Proof.
  intros Hne Hf H.
  assert (Hz : exists key, z = Z.of_nat key).
  { destruct name as [|d name]; [done|]. cbn in H.
    destruct (read_at obj z) as [c|] eqn:Er; [|done].
    apply read_at_Some in Er as (i & -> & _). eauto. }
  destruct Hz as [key ->]. exists key. split; [done|].
  clear Hne. revert key Hf H. induction name as [|d name IH]; intros key Hf H; [by intros [|]|].
  cbn [length strncase_at] in H. cbn [forallb] in Hf. apply andb_true_iff in Hf as [Hd Hf].
  destruct (read_at obj _) as [c|] eqn:Er; [|done].
  apply read_at_Some in Er as (i & Hi & _ & ->). assert (i = key) as -> by lia.
  cbn [nth] in H. destruct (tolower (char_at obj key) =b? tolower d) eqn:El; [|done].
  apply byte_eqb_eq in El. cbn [negb] in H.
  destruct (char_at obj key =b? x00) eqn:E0.
  { apply byte_eqb_eq in E0. rewrite E0 in El. by apply token_same_lower in El. }
  replace (Z.of_nat key + 1)%Z with (Z.of_nat (S key)) in H by lia.
  cbn [drop] in H. rewrite drop_0 in H.
  intros [|j] x Hx; cbn in Hx.
  - injection Hx as <-. by rewrite Nat.add_0_r.
  - replace (key + S j) with (S key + j) by lia. by apply (IH (S key)).
Qed.

(** What a successful lookup means: the name, blanks, an equal sign, blanks and
    the value, the name starting the text or a token. *)
Definition attr_found (start : nat) (name : bytes) (val vlen : nat) : Prop :=
  exists key eq,
    name_at key name /\ key + length name <= eq /\ char_at obj eq = "=" /\
    (forall i, key + length name <= i < eq -> isspace (char_at obj i) = true) /\
    value_at eq val (val + vlen) /\ val + vlen <= length obj /\
    (key = start \/ is_2616_token (char_at obj (key - 1)) = false).

Lemma attr_loop_found fuel start hdr name val vlen :
  name <> [] -> forallb is_2616_token name = true ->
  char_at obj hdr <> "=" ->
  (hdr = start \/ is_2616_token (char_at obj hdr) = false) ->
  attr_loop obj fuel hdr name = AttrFound val vlen ->
  attr_found start name val vlen.
Proof.
  intros Hne Hf. revert hdr. induction fuel as [|fuel IH]; intros hdr Hh Hs; [done|].
  cbn [attr_loop]. destruct (strchr _ _) as [k|] eqn:Ek; [|done].
  apply attr_step in Ek as (Hk & Hl & Hc); [|done].
  destruct (attr_value obj (hdr + k + 1)) as [[v vend]|] eqn:Ev; [|done].
  apply attr_value_spec in Ev as (Hv & Hlt & Hle); [|done].
  assert (Hrec : attr_loop obj fuel vend name = AttrFound val vlen -> attr_found start name val vlen).
  { apply IH; [by eapply value_at_end|]. right.
    assert (Ht : forall c, implb (is_terminator c || (c =b? x22)) (negb (is_2616_token c)) = true)
      by (intros c; by_bytes c).
    specialize (Ht (char_at obj vend)).
    destruct Hv as [(_ & _ & _ & Hv)|(_ & _ & _ & Hv & _)]; [rewrite Hv in Ht|by rewrite Hv].
    by apply negb_true_iff in Ht. }
  pose proof (back_space_spec (hdr + k - 1) (hdr + length name)) as (B1 & B2 & B3).
  set (back := back_space obj (hdr + k - 1) (hdr + length name)) in *.
  destruct (strncase_at _ _ _ _) as [[]|] eqn:Es; [|done..].
  apply strncase_at_true in Es as (key & Hkey & Hname); [|done..]. rewrite Hkey.
  assert (Hlen : key + length name = S back) by lia.
  assert (Hfound : (key = start \/ is_2616_token (char_at obj (key - 1)) = false) ->
                   attr_found start name v (vend - v)).
  { intros Hw. exists key, (hdr + k). replace (v + (vend - v)) with vend by lia.
    split_and!; try done; try lia.
    intros i Hi. apply B3. lia. }
  destruct (Z.of_nat key =? Z.of_nat hdr)%Z eqn:Eh.
  - apply Z.eqb_eq, Nat2Z.inj in Eh as ->. intros [= <- <-]. apply Hfound.
    destruct Hs as [->|Hs]; [by left|]. exfalso.
    destruct name as [|d name]; [done|]. specialize (Hname 0 d eq_refl).
    rewrite Nat.add_0_r in Hname. cbn [forallb] in Hf. apply andb_true_iff in Hf as [Hd _].
    apply token_same_lower in Hname; congruence.
  - destruct (read_at obj (Z.of_nat key - 1)) as [c|] eqn:Er; [|done].
    apply read_at_Some in Er as (i & Hi & _ & ->). assert (i = key - 1) as -> by lia.
    destruct (negb _) eqn:En; [|done]. apply negb_true_iff in En.
    intros [= <- <-]. apply Hfound. by right.
Qed.

(** There is room for the name in front of the header, or in front of its first
    equal sign. *)
Lemma attr_loop_in_bounds fuel hdr name :
  length name <= hdr \/ (forall k, strchr (drop hdr obj) "=" = Some k -> length name <= k) ->
  hdr <= length obj -> char_at obj hdr <> "=" ->
  attr_loop obj fuel hdr name <> AttrOutOfBounds.
Proof.
  revert hdr. induction fuel as [|fuel IH]; intros hdr Hb Hlo Hh; [done|]. cbn [attr_loop].
  destruct (strchr _ _) as [k|] eqn:Ek; [|done].
  assert (Hroom : length name <= hdr \/ length name <= k) by (destruct Hb; auto).
  apply attr_step in Ek as (Hk & Hl & Hc); [|done].
  destruct (attr_value obj (hdr + k + 1)) as [[v vend]|] eqn:Ev; [|done].
  apply attr_value_spec in Ev as (Hv & Hlt & Hle); [|done].
  assert (Hrec : attr_loop obj fuel vend name <> AttrOutOfBounds).
  { apply IH; [left; lia|lia|by eapply value_at_end]. }
  pose proof (back_space_spec (hdr + k - 1) (hdr + length name)) as (B1 & B2 & _).
  set (back := back_space obj (hdr + k - 1) (hdr + length name)) in *.
  replace (Z.of_nat back - (Z.of_nat (length name) - 1))%Z
    with (Z.of_nat (back + 1 - length name)) by lia.
  destruct (strncase_at_in (back + 1 - length name) name (length name)) as [b Hsome]; [lia|].
  rewrite Hsome. destruct b; [|done].
  destruct (_ =? _)%Z eqn:Eh; [done|]. apply Z.eqb_neq in Eh.
  replace (Z.of_nat (back + 1 - length name) - 1)%Z
    with (Z.of_nat (back - length name)) by lia.
  rewrite read_at_in by lia. by destruct (negb _).
Qed.

(** The name does not fit between the start of the object and the first equal sign. *)
Lemma attr_loop_out_of_bounds fuel hdr name k :
  strchr (drop hdr obj) "=" = Some k -> 0 < k -> hdr + k < length name ->
  attr_value obj (hdr + k + 1) <> None ->
  attr_loop obj (S fuel) hdr name = AttrOutOfBounds.
Proof.
  intros Hk H0 Hlt Hv. cbn [attr_loop]. rewrite Hk.
  destruct (attr_value obj (hdr + k + 1)) as [[v vend]|]; [|done].
  pose proof (back_space_spec (hdr + k - 1) (hdr + length name)) as (B1 & _ & _).
  set (key := (_ - _)%Z). assert (Hneg : (key < 0)%Z) by lia.
  destruct (length name) as [|n] eqn:En; [lia|]. cbn [strncase_at]. unfold read_at.
  by rewrite (proj2 (Z.ltb_lt _ _) Hneg).
Qed.

End AttrFacts.

(** ** Claims *)

Section Claims.
Context {E : AprErrno}.

(** [apreq_index] returns the offset of the first match of the needle, full
    or, when partial matches are asked for, cut by the end of the haystack; it
    returns -1 exactly when there is none. *)
Theorem apreq_index_first_match (hay ndl : bytes) (type : apreq_match_t) :
  ndl <> [] ->
  (exists i, apreq_index hay ndl type = Z.of_nat i /\
     match_at hay ndl type i /\ forall j, j < i -> ~ match_at hay ndl type j) \/
  (apreq_index hay ndl type = (-1)%Z /\ forall j, ~ match_at hay ndl type j).
Proof. intros Hn. unfold apreq_index. by apply (index_loop_spec (length hay) 0). Qed.

(** Quoting is recognised by [is_quoted], and [apreq_quote_once] quotes a
    string at most once: applied to its own result it changes nothing. *)
Theorem quote_once_idempotent (s : bytes) :
  (s <> [] -> is_quoted (apreq_quote_once s) = true) /\
  apreq_quote_once (apreq_quote_once s) = apreq_quote_once s.
Proof.
  assert (H : s <> [] -> is_quoted (apreq_quote_once s) = true).
  { intros Hs. unfold apreq_quote_once. destruct (is_quoted s) eqn:Eq; [done|].
    by apply apreq_quote_quoted. }
  split; [done|]. destruct s as [|c s]; [done|].
  unfold apreq_quote_once at 1. by rewrite H.
Qed.

(** In every mode the text [apreq_join] builds, with its final NUL, fits
    the space it computed and allocated for a non-empty array. *)
Lemma join_fits (sep : bytes) (arr : list bytes) (mode : apreq_join_t) (out : list cell) :
  arr <> [] -> apreq_join sep arr mode = Some out ->
  length out + 1 <= join_alloc sep arr mode.
Proof.
  intros Hne. rewrite join_alloc_rooms. destruct arr as [|a arr]; [done|].
  cbn [apreq_join sum_list_with].
  destruct (join_elt mode a) as [x|] eqn:Ex; cbn; [|done].
  destruct (join_rest sep mode arr) as [r|] eqn:Er; cbn; [|done]. intros [= <-].
  apply (join_elt_length sep) in Ex. apply join_rest_length in Er.
  rewrite length_app. lia.
Qed.

(** The attribute lookup ends on every header and for every name. *)
Theorem header_attribute_terminates (obj : bytes) (base : nat) (name : bytes) :
  apreq_header_attribute obj base name <> AttrNoFuel.
Proof.
  unfold apreq_header_attribute. apply attr_loop_terminates; [apply attr_start|lia].
Qed.

(** An attribute that is found is there: the name, up to case and standing
    at the start of a token, optional blanks, an equal sign, optional blanks,
    and the value returned, which is a token up to its terminator or the text
    between double quotes, and lies within the header. *)
Theorem header_attribute_sound (obj : bytes) (base : nat) (name : bytes) (val vlen : nat) :
  name <> [] -> forallb is_2616_token name = true ->
  apreq_header_attribute obj base name = AttrFound val vlen ->
  attr_found obj (base + count_while (fun c => c =b? "=") (drop base obj)) name val vlen.
Proof.
  intros Hne Hf H. eapply attr_loop_found in H; [exact H|done|done|apply attr_start|by left].
Qed.

(** C30: where the attribute lookup reads.  [hdr] is the header in its object, without
    the equal signs at its start.  When the name is no longer than what precedes the
    header in the object, or than what precedes the first equal sign in the header,
    every read is inside the object.  When it is longer than all that precedes the
    first equal sign in the object, and the value behind the sign is not an
    unterminated quoted string, the lookup reads in front of the object. *)
Theorem header_attribute_in_bounds (obj : bytes) (base : nat) (name : bytes) :
  let hdr := base + count_while (fun c => c =b? "=") (drop base obj) in
  base <= length obj ->
  (length name <= hdr \/ (forall k, strchr (drop hdr obj) "=" = Some k -> length name <= k) ->
     apreq_header_attribute obj base name <> AttrOutOfBounds) /\
  (forall k, strchr (drop hdr obj) "=" = Some k -> hdr + k < length name ->
     attr_value obj (hdr + k + 1) <> None -> apreq_header_attribute obj base name = AttrOutOfBounds).
Proof.
  intros hdr Hb. pose proof (attr_start obj base) as Hs. fold hdr in Hs. cbn zeta in Hs.
  assert (Hc : hdr <= length obj).
  { unfold hdr. pose proof (count_while_le (fun c => c =b? "=") (drop base obj)) as Hc.
    rewrite length_drop in Hc. lia. }
  split; [by intros; apply attr_loop_in_bounds|].
  intros k Hk Hlt Hv. apply (attr_loop_out_of_bounds obj _ hdr name k); try done.
  by apply attr_step in Hk as (? & _).
Qed.

(** A blank between a name at the very start of the header and its equal sign
    makes the attribute invisible, although it is skipped anywhere else: the
    backward skip stops one character early. *)
Example header_attribute_leading_name :
  apreq_header_attribute (str "name =x") 0 (str "name") = AttrNone APREQ_ERROR_NOATTR /\
  apreq_header_attribute (str " name =x") 0 (str "name") = AttrFound 7 1.
Proof. split; reflexivity. Qed.

End Claims.

(** ** Witnesses *)

Lemma apreq_index_first_match_witness :
  let n := apreq_index (str "ab-abd") (str "abc") APREQ_MATCH_PARTIAL in
  n = (-1)%Z /\
  ((exists i, n = Z.of_nat i /\ match_at (str "ab-abd") (str "abc") APREQ_MATCH_PARTIAL i /\
      forall j, j < i -> ~ match_at (str "ab-abd") (str "abc") APREQ_MATCH_PARTIAL j) \/
   (n = (-1)%Z /\ forall j, ~ match_at (str "ab-abd") (str "abc") APREQ_MATCH_PARTIAL j)).
Proof. split; [reflexivity|]. by apply apreq_index_first_match. Defined.

Lemma join_fits_witness :
  length (map Some (qstr "`a\`b`, c")) + 1 <= join_alloc (str ", ") [qstr "`a\`b`"; str "c"] APREQ_JOIN_AS_IS.
Proof. by apply join_fits. Defined.

Lemma header_attribute_sound_witness :
  attr_found (qstr "form-data; name=`f1`") 0 (str "name") 17 2.
Proof.
  apply (header_attribute_sound (qstr "form-data; name=`f1`") 0 (str "name") 17 2);
    [done|reflexivity|reflexivity].
Defined.

Lemma header_attribute_in_bounds_witness :
  apreq_header_attribute (str "multipart/form-data; boundary=x") 20 (str "boundary") <> AttrOutOfBounds /\
  apreq_header_attribute (str "filename=x") 0 (str "name") <> AttrOutOfBounds /\
  apreq_header_attribute (str "n=x") 0 (str "filename") = AttrOutOfBounds.
Proof.
  split; [|split].
  - apply header_attribute_in_bounds; [vm_compute; lia|]. left. vm_compute. lia.
  - apply header_attribute_in_bounds; [vm_compute; lia|]. right. intros k [= <-]. vm_compute. lia.
  - apply (header_attribute_in_bounds (str "n=x") 0 (str "filename")) with (k := 1);
      [vm_compute; lia|reflexivity|vm_compute; lia|vm_compute; discriminate].
Defined.
