(* ===== verification/Brigade.v ===== *)
(** * Brigades and their temporary files
    ([src/libapreq2/library/util.c], [include/apreq_util.h])

    Writing a brigade to a file with gathered, possibly short, writes, and
    appending a brigade to another one that moves to a temporary file when it
    grows past a limit. *)
From S2P Require Import Prelude Apr.

Definition APREQ_DEFAULT_NELTS : nat := 8.

(** ** Copying and moving *)

(** [apr_bucket_copy]; a copy of a spool bucket is a plain file bucket. *)
Definition apr_bucket_copy (e : apr_bucket) : apr_bucket :=
  match e with
  | BFile _ f start len => BFile false f start len
  | _ => e
  end.

Definition apreq_brigade_copy (d s : brigade) : brigade := d ++ map apr_bucket_copy s.

(** [n] is the position of [e] in the source brigade; [APR_RING_UNSPLICE] takes
    the buckets up to and with [e], and [APR_RING_SPLICE_HEAD] puts them first. *)
Definition apreq_brigade_move (d s : brigade) (n : nat) : brigade * brigade :=
  if n <? length s then (take (S n) s ++ d, drop (S n) s) else (d ++ s, []).

(** The file of the spool bucket at the end of a brigade. *)
Definition apreq_brigade_spoolfile (bb : brigade) : option bytes :=
  match last bb with
  | Some (BFile true f _ _) => Some f
  | _ => None
  end.

(** ** Files *)

Record apr_file := File { f_content : bytes; f_pos : nat }.

(** Storing bytes at the current position. *)
Definition file_store (f : apr_file) (d : bytes) : apr_file :=
  File (take (f_pos f) (f_content f) ++ d ++ drop (f_pos f + length d) (f_content f))
    (f_pos f + length d).

(** The operating system behind APR's file calls: each call may fail, and a
    gathered write may stop short. *)
Class AprFile (W : Type) := {
  os_mktemp : W -> Z * W;
  os_seek : W -> Z * W;
  os_writev : W -> list bytes -> Z * nat * W;
  os_writev_le : forall w v s n w', os_writev w v = (s, n, w') -> n <= length (concat v)
}.

Section Files.
Context {E : AprErrno} {W : Type} {F : AprFile W}.

Definition apr_file_writev (w : W) (f : apr_file) (v : list bytes)
  : Z * nat * W * apr_file :=
  let '(s, n, w) := os_writev w v in (s, n, w, file_store f (take n (concat v))).

(** [while (n < *nelts && len >= v[n].iov_len) len -= v[n++].iov_len;] *)
Fixpoint skip_written (v : list bytes) (len : nat) : list bytes * nat :=
  match v with
  | x :: v' => if length x <=? len then skip_written v' (len - length x) else (v, len)
  | [] => ([], len)
  end.

Record fwritev_result := Fwritev {
  fw_status : Z; fw_world : W; fw_file : apr_file;
  fw_vec : list bytes;      (** what is left of [v] *)
  fw_written : nat
}.

Fixpoint fwritev_loop (fuel : nat) (w : W) (f : apr_file) (v : list bytes)
    (written : nat) : fwritev_result :=
  match fuel with
  | O => Fwritev APREQ_ERROR_GENERAL w f v written
  | S fuel =>
      let '(s, len, w, f) := apr_file_writev w f v in
      let written := written + len in
      if negb (s =? APR_SUCCESS)%Z then Fwritev s w f v written
      else
        let '(v', len) := skip_written v len in
        match v' with
        | [] => Fwritev APR_SUCCESS w f [] written
        | x :: rest =>
            let v'' := drop len x :: rest in
            if length v' <? length v then Fwritev APR_SUCCESS w f v'' written
            else if len =? 0 then Fwritev APREQ_ERROR_GENERAL w f v'' written
            else fwritev_loop fuel w f v'' written
        end
  end.

(** Each turn of the loop shortens the first vector. *)
Definition apreq_fwritev (w : W) (f : apr_file) (v : list bytes) : fwritev_result :=
  fwritev_loop (S (length (hd [] v))) w f v 0.

(** [while (n > 0)]: every call removes at least one vector. *)
Fixpoint fwrite_drain (fuel : nat) (w : W) (f : apr_file) (v : list bytes) (wlen : nat)
  : Z * W * apr_file * nat :=
  match v with
  | [] => (APR_SUCCESS, w, f, wlen)
  | _ =>
      match fuel with
      | O => (APREQ_ERROR_GENERAL, w, f, wlen)
      | S fuel =>
          let r := apreq_fwritev w f v in
          if (fw_status r =? APR_SUCCESS)%Z
          then fwrite_drain fuel (fw_world r) (fw_file r) (fw_vec r) (wlen + fw_written r)
          else (fw_status r, fw_world r, fw_file r, wlen)
      end
  end.

Fixpoint fwrite_loop (w : W) (f : apr_file) (v : list bytes) (wlen : nat) (bb : brigade)
  : Z * W * apr_file * nat :=
  match bb with
  | [] => fwrite_drain (length v) w f v wlen
  | e :: bb =>
      let r := if length v =? APREQ_DEFAULT_NELTS then apreq_fwritev w f v
               else Fwritev APR_SUCCESS w f v 0 in
      if (fw_status r =? APR_SUCCESS)%Z then
        let '(s, d) := apr_bucket_read e in
        if (s =? APR_SUCCESS)%Z
        then fwrite_loop (fw_world r) (fw_file r) (fw_vec r ++ [d]) (wlen + fw_written r) bb
        else (s, fw_world r, fw_file r, wlen + fw_written r)
      else (fw_status r, fw_world r, fw_file r, wlen)
  end.

(** The status, the system, the file and [*wlen]. *)
Definition apreq_brigade_fwrite (w : W) (f : apr_file) (bb : brigade)
  : Z * W * apr_file * nat :=
  fwrite_loop w f [] 0 bb.

(** ** apreq_brigade_concat *)

(** [FILE_BUCKET_LIMIT]: the longest a file bucket can be. *)
Context (FILE_BUCKET_LIMIT : nat).

(** The file buckets that stand for [wlen] more bytes of the file. *)
Fixpoint extend_spool (fuel : nat) (sp : bool) (content : bytes) (start len wlen : nat)
  : brigade :=
  if FILE_BUCKET_LIMIT - len <? wlen then
    match fuel with
    | O => []
    | S fuel =>
        BFile false content start FILE_BUCKET_LIMIT ::
        extend_spool fuel false content (start + FILE_BUCKET_LIMIT) 0
          (wlen - (FILE_BUCKET_LIMIT - len))
    end
  else [BFile sp content start (len + wlen)].

Record concat_result := Concat {
  cr_status : Z; cr_world : W; cr_out : brigade; cr_in : brigade
}.

Definition last_is_eos (bb : brigade) : bool :=
  match last bb with Some e => bucket_is_eos e | None => false end.

(** The last steps, with the spool bucket [start, len] of file [f] at the end
    of [out]. *)
Definition concat_spooled (w : W) (out : brigade) (f : apr_file) (start len : nat)
    (in_bb : brigade) : concat_result :=
  let eos := last_is_eos in_bb in
  let body := if eos then removelast in_bb else in_bb in
  let '(s, w, f, wlen) := apreq_brigade_fwrite w f body in
  if (s =? APR_SUCCESS)%Z then
    Concat s w (out ++ extend_spool (S (S wlen)) true (f_content f) start len wlen
                  ++ (if eos then [BEos] else [])) []
  else Concat s w (out ++ [BFile true (f_content f) start len]) [].

(** The spool bucket at the end of [out], as what precedes it, its file and its
    bounds: the one that is there, or a new one after writing [out] to a new
    temporary file. *)
Definition open_spool (w : W) (out : brigade) : Z * W * brigade * apr_file * nat * nat :=
  match last out with
  | Some (BFile true content start len) =>
      let '(s, w) := os_seek w in
      (s, w, removelast out, File content (start + len), start, len)
  | _ =>
      let '(s, w) := os_mktemp w in
      if negb (s =? APR_SUCCESS)%Z then (s, w, out, File [] 0, 0, 0)
      else
        let '(s, w, f, wlen) := apreq_brigade_fwrite w (File [] 0) out in
        (s, w, out, f, wlen, 0)
  end.

(** [same]: the brigades [out] and [in] are one. *)
Definition apreq_brigade_concat (same : bool) (w : W) (heap_limit : nat)
    (out in_bb : brigade) : concat_result :=
  if last_is_eos out then Concat APR_EOF w out in_bb
  else
    let out_len := length (brigade_data out) in
    let in_len := length (brigade_data in_bb) in
    if (out_len <? heap_limit) && (in_len <? heap_limit - out_len) then
      Concat APR_SUCCESS w (out ++ in_bb) []
    else
      let '(s, w, pre, f, start, len) := open_spool w out in
      if negb (s =? APR_SUCCESS)%Z then Concat s w out in_bb
      else if same then
        let out := pre ++ [BFile true (f_content f) start len] in Concat APR_SUCCESS w out out
      else concat_spooled w pre f start len in_bb.

End Files.
Arguments Fwritev {W}.
Arguments Concat {W}.

(** * Properties *)

(** What a file holds up to its current position. *)
Definition file_prefix (f : apr_file) : bytes := take (f_pos f) (f_content f).
Definition file_ok (f : apr_file) : Prop := f_pos f <= length (f_content f).

Lemma file_store_ok f d :
  file_ok f -> file_ok (file_store f d) /\ file_prefix (file_store f d) = file_prefix f ++ d.
Proof.
  unfold file_ok, file_prefix, file_store. intros Hf. cbn [f_pos f_content].
  rewrite !length_app, length_take_le by done. split; [lia|].
  rewrite app_assoc, take_app_le by (rewrite length_app, length_take_le; lia).
  rewrite take_ge; [done|]. rewrite length_app, length_take_le; lia.
Qed.

Lemma skip_written_spec v len v' k :
  skip_written v len = (v', k) -> len <= length (concat v) ->
  exists pre, v = pre ++ v' /\ concat pre ++ take k (concat v') = take len (concat v) /\
    len = length (concat pre) + k /\ (forall x r, v' = x :: r -> k < length x).
Proof.
  revert len. induction v as [|x v IH]; intros len; cbn [skip_written concat].
  { intros [= <- <-] Hl. cbn in Hl. exists []. cbn. split_and!; [done|by destruct len|lia|done]. }
  rewrite length_app. destruct (length x <=? len) eqn:El.
  - apply Nat.leb_le in El. intros H Hl.
    destruct (IH _ H ltac:(lia)) as (pre & -> & Hp & Hk & Hx).
    exists (x :: pre). cbn [app concat]. split_and!; [done| | |done].
    + rewrite <- app_assoc, Hp, take_app_ge by done. done.
    + rewrite length_app. lia.
  - apply Nat.leb_gt in El. intros [= <- <-] Hl. exists []. cbn. split_and!; [done..|lia|].
    by intros ? ? [= <- <-].
Qed.

Section Facts.
Context {E : AprErrno} {W : Type} {F : AprFile W}.

(** A write call that succeeds stores the first bytes of its vectors. *)
Lemma fwritev_loop_spec fuel w f v written :
  file_ok f -> v <> [] ->
  let r := fwritev_loop fuel w f v written in
  fw_status r = APR_SUCCESS ->
  exists d, concat v = d ++ concat (fw_vec r) /\
    file_prefix (fw_file r) = file_prefix f ++ d /\ file_ok (fw_file r) /\
    fw_written r = written + length d /\ length (fw_vec r) < length v.
Proof.
  revert w f v written. induction fuel as [|fuel IH]; intros w f v written Hf Hv; cbn zeta.
  { cbn. intros H. exfalso. errno_lia. }
  cbn [fwritev_loop]. unfold apr_file_writev.
  destruct (os_writev w v) as [[s len] w'] eqn:Ew. apply os_writev_le in Ew.
  destruct (negb (s =? APR_SUCCESS)%Z) eqn:Es.
  { cbn. intros ->. done. }
  destruct (skip_written v len) as [v' k] eqn:Ek.
  destruct (skip_written_spec _ _ _ _ Ek Ew) as (pre & Hp & Ht & Hl & Hx).
  destruct (file_store_ok f (take len (concat v)) Hf) as [Hf' Hpf].
  assert (Hlen : length (take len (concat v)) = len) by (rewrite length_take; lia).
  destruct v' as [|x rest].
  - intros _. exists (concat v). cbn [fw_vec fw_file fw_written concat length].
    rewrite app_nil_r in Hp. subst pre. cbn [concat] in Ht. rewrite take_nil, app_nil_r in Ht.
    rewrite <- Ht in *. rewrite app_nil_r. split_and!; [done..|lia|].
    destruct v; [done|cbn; lia].
  - specialize (Hx _ _ eq_refl).
    assert (Hcat : concat v = take len (concat v) ++ concat (drop k x :: rest)).
    { rewrite <- Ht at 1. subst v. rewrite concat_app. cbn [concat].
      rewrite take_app_le by lia. rewrite <- app_assoc. f_equal.
      rewrite app_assoc, take_drop. done. }
    destruct (length (x :: rest) <? length v) eqn:Eln.
    + intros _. exists (take len (concat v)). cbn [fw_vec fw_file fw_written].
      apply Nat.ltb_lt in Eln. cbn [length] in *. split_and!; try done; lia.
    + destruct (k =? 0); [cbn; intros H; exfalso; errno_lia|].
      intros Hs. destruct (IH _ (file_store f (take len (concat v))) (drop k x :: rest)
        (written + len) Hf' ltac:(done) Hs) as (d & Hc & Hpr & Hok & Hw & Hlt).
      exists (take len (concat v) ++ d). rewrite Hpr, Hpf, <- !app_assoc. rewrite Hcat at 1.
      rewrite Hc. split_and!; [done..| |].
      * rewrite Hw, length_app. lia.
      * apply Nat.ltb_ge in Eln. subst v. rewrite length_app in *. cbn [length] in *. lia.
Qed.

Lemma apreq_fwritev_spec w f v :
  file_ok f -> v <> [] ->
  let r := apreq_fwritev w f v in
  fw_status r = APR_SUCCESS ->
  exists d, concat v = d ++ concat (fw_vec r) /\
    file_prefix (fw_file r) = file_prefix f ++ d /\ file_ok (fw_file r) /\
    fw_written r = length d /\ length (fw_vec r) < length v.
Proof. intros Hf Hv. apply (fwritev_loop_spec _ w f v 0 Hf Hv). Qed.

(** The result of writing [d] at the end of [f]. *)
Definition appended (f : apr_file) (d : bytes) (wlen : nat) (r : Z * W * apr_file * nat) : Prop :=
  let '(s, _, f', wlen') := r in
  s = APR_SUCCESS ->
  file_prefix f' = file_prefix f ++ d /\ file_ok f' /\ wlen' = wlen + length d.

Lemma fwrite_drain_spec fuel w f v wlen :
  file_ok f -> appended f (concat v) wlen (fwrite_drain fuel w f v wlen).
Proof.
  revert w f v wlen. induction fuel as [|fuel IH]; intros w f [|x v] wlen Hf;
    cbn [fwrite_drain appended].
  1, 3: intros _; cbn; rewrite app_nil_r; split_and!; [done..|lia].
  { intros H. exfalso. errno_lia. }
  set (r := apreq_fwritev w f (x :: v)).
  destruct (fw_status r =? APR_SUCCESS)%Z eqn:Es; [apply Z.eqb_eq in Es|apply Z.eqb_neq in Es; by intros ?].
  destruct (apreq_fwritev_spec w f (x :: v) Hf ltac:(done) Es) as (d & Hc & Hp & Hok & Hw & _).
  fold r in Hc, Hp, Hok, Hw.
  specialize (IH (fw_world r) (fw_file r) (fw_vec r) (wlen + fw_written r) Hok).
  unfold appended in *. destruct (fwrite_drain _ _ _ _ _) as [[[s w'] f'] wl].
  intros Hs. destruct (IH Hs) as (H1 & H2 & H3). rewrite H1, Hp, Hc, <- app_assoc.
  split_and!; [done..|]. rewrite length_app. lia.
Qed.

Lemma fwrite_loop_spec w f v wlen bb :
  file_ok f -> appended f (concat v ++ brigade_data bb) wlen (fwrite_loop w f v wlen bb).
Proof.
  revert w f v wlen. induction bb as [|e bb IH]; intros w f v wlen Hf; cbn [fwrite_loop].
  { cbn [brigade_data flat_map]. rewrite app_nil_r. by apply fwrite_drain_spec. }
  set (r := if length v =? APREQ_DEFAULT_NELTS then apreq_fwritev w f v
            else Fwritev APR_SUCCESS w f v 0).
  destruct (fw_status r =? APR_SUCCESS)%Z eqn:Es; [apply Z.eqb_eq in Es|apply Z.eqb_neq in Es; by intros ?].
  assert (Hr : exists d, concat v = d ++ concat (fw_vec r) /\
    file_prefix (fw_file r) = file_prefix f ++ d /\ file_ok (fw_file r) /\
    fw_written r = length d).
  { subst r. destruct (length v =? APREQ_DEFAULT_NELTS) eqn:El.
    - apply Nat.eqb_eq in El.
      destruct (apreq_fwritev_spec w f v Hf ltac:(by intros ->) Es) as (d & ? & ? & ? & ? & _).
      eauto.
    - exists []. cbn. rewrite app_nil_r. done. }
  destruct Hr as (d & Hc & Hp & Hok & Hw).
  rewrite brigade_data_cons. destruct (apr_bucket_read e) as [s x]. cbn [snd].
  destruct (s =? APR_SUCCESS)%Z eqn:Ess; [|apply Z.eqb_neq in Ess; by intros ?].
  specialize (IH (fw_world r) (fw_file r) (fw_vec r ++ [x]) (wlen + fw_written r) Hok).
  unfold appended in *. destruct (fwrite_loop _ _ _ _ _) as [[[s' w'] f'] wl].
  intros Hs. destruct (IH Hs) as (H1 & H2 & H3).
  rewrite concat_app in *. cbn [concat] in *. rewrite app_nil_r, <- app_assoc in *.
  rewrite H1, Hp, Hc, <- !app_assoc. split_and!; [done..|].
  rewrite H3, !length_app, Hw. lia.
Qed.

(** The writes of the operating system succeed and make progress. *)
Definition os_works : Prop :=
  forall (w : W) v, exists n w', os_writev w v = (APR_SUCCESS, n, w') /\ (concat v <> [] -> 0 < n).

Lemma fwritev_loop_works fuel w f v written :
  os_works -> v <> [] -> length (hd [] v) < fuel ->
  fw_status (fwritev_loop fuel w f v written) = APR_SUCCESS.
Proof.
  intros Hos. revert w f v written. induction fuel as [|fuel IH]; intros w f v written Hv Hl; [lia|].
  cbn [fwritev_loop]. unfold apr_file_writev.
  destruct (Hos w v) as (n & w' & Ew & Hn). rewrite Ew. cbn [negb Z.eqb APR_SUCCESS].
  apply os_writev_le in Ew.
  destruct (skip_written v n) as [v' k] eqn:Ek.
  destruct (skip_written_spec _ _ _ _ Ek Ew) as (pre & Hp & Ht & Hk & Hx).
  destruct v' as [|x rest]; [done|]. specialize (Hx _ _ eq_refl).
  destruct (length (x :: rest) <? length v) eqn:Eln; [done|].
  apply Nat.ltb_ge in Eln. subst v. rewrite length_app in Eln.
  destruct pre; [|cbn in Eln; lia]. cbn [app hd concat length] in *.
  assert (0 < n) by (apply Hn; destruct x; [cbn in Hx; lia|done]).
  assert ((k =? 0) = false) as -> by (apply Nat.eqb_neq; lia).
  apply IH; [done|]. cbn [hd]. rewrite length_drop. lia.
Qed.

Lemma fwrite_drain_works fuel w f v wlen :
  os_works -> file_ok f -> length v <= fuel ->
  (fwrite_drain fuel w f v wlen).1.1.1 = APR_SUCCESS.
Proof.
  intros Hos. revert w f v wlen. induction fuel as [|fuel IH]; intros w f [|x v] wlen Hf Hl;
    cbn [length] in Hl; try lia; try done.
  cbn [fwrite_drain]. set (r := apreq_fwritev w f (x :: v)).
  assert (Hs : fw_status r = APR_SUCCESS) by (apply fwritev_loop_works; [done..|cbn; lia]).
  destruct (apreq_fwritev_spec w f (x :: v) Hf ltac:(done) Hs) as (d & _ & _ & Hok & _ & Hlt).
  fold r in Hok, Hlt. rewrite Hs. cbn [Z.eqb APR_SUCCESS]. apply IH; [done|]. cbn [length] in Hlt. lia.
Qed.

Lemma fwrite_loop_works w f v wlen bb :
  os_works -> file_ok f -> forallb readable bb = true ->
  (fwrite_loop w f v wlen bb).1.1.1 = APR_SUCCESS.
Proof.
  intros Hos. revert w f v wlen. induction bb as [|e bb IH]; intros w f v wlen Hf Hr;
    cbn [fwrite_loop]; [by apply fwrite_drain_works|].
  cbn [forallb] in Hr. apply andb_true_iff in Hr as [He Hr].
  apply readable_read in He. destruct (apr_bucket_read e) as [s d]. cbn [fst] in He. subst s.
  set (r := if length v =? APREQ_DEFAULT_NELTS then apreq_fwritev w f v
            else Fwritev APR_SUCCESS w f v 0).
  assert (Hsr : fw_status r = APR_SUCCESS /\ file_ok (fw_file r)).
  { subst r. destruct (length v =? APREQ_DEFAULT_NELTS) eqn:El; [|done].
    apply Nat.eqb_eq in El. assert (v <> []) by (by intros ->).
    assert (Hs : fw_status (apreq_fwritev w f v) = APR_SUCCESS)
      by (apply fwritev_loop_works; [done..|lia]).
    split; [done|]. by destruct (apreq_fwritev_spec w f v Hf ltac:(done) Hs) as (? & _ & _ & ? & _). }
  destruct Hsr as [-> Hok]. cbn [Z.eqb APR_SUCCESS]. by apply IH.
Qed.

(** ** Concatenation *)

Context (FILE_BUCKET_LIMIT : nat).
Abbreviation concat_bb := (apreq_brigade_concat FILE_BUCKET_LIMIT).

Lemma extend_spool_data fuel sp c start len wlen :
  len <= FILE_BUCKET_LIMIT -> wlen < fuel -> (len = FILE_BUCKET_LIMIT -> S wlen < fuel) ->
  0 < FILE_BUCKET_LIMIT ->
  brigade_data (extend_spool FILE_BUCKET_LIMIT fuel sp c start len wlen) =
    take (len + wlen) (drop start c).
Proof.
  intros Hl Hw Hw' HL. revert sp start len wlen Hl Hw Hw'.
  induction fuel as [|fuel IH]; intros sp start len wlen Hl Hw Hw'; [lia|].
  cbn [extend_spool]. destruct (FILE_BUCKET_LIMIT - len <? wlen) eqn:El.
  - apply Nat.ltb_lt in El. rewrite brigade_data_cons, IH by lia. cbn [apr_bucket_read snd].
    replace (len + wlen) with (FILE_BUCKET_LIMIT + (0 + (wlen - (FILE_BUCKET_LIMIT - len)))) by lia.
    rewrite <- drop_drop. by rewrite take_take_drop.
  - by cbn; rewrite app_nil_r.
Qed.

(** A brigade whose last bucket is a spool bucket has all its data in the file,
    up to the end of that bucket. *)
Definition spool_ok (bb : brigade) : Prop :=
  match last bb with
  | Some (BFile true c start len) =>
      take (start + len) c = brigade_data bb /\ start + len <= length c /\
      len <= FILE_BUCKET_LIMIT
  | _ => True
  end.

(** A spool bucket lies within its file.  That is what is left when the front of
    a brigade was taken off. *)
Definition spool_open (bb : brigade) : Prop :=
  match last bb with
  | Some (BFile true c start len) => start + len <= length c /\ len <= FILE_BUCKET_LIMIT
  | _ => True
  end.

Lemma spool_ok_open bb : spool_ok bb -> spool_open bb.
Proof. unfold spool_ok, spool_open. destruct (last bb) as [[]|]; try done. case_match; tauto. Qed.

Lemma last_is_eos_snoc bb : last_is_eos (bb ++ [BEos]) = true.
Proof. unfold last_is_eos. by rewrite last_snoc. Qed.

Lemma last_is_eos_removelast bb :
  last_is_eos bb = true -> bb = removelast bb ++ [BEos].
Proof.
  unfold last_is_eos. intros H. destruct (last bb) as [e|] eqn:El; [|done].
  apply last_Some in El as [l ->]. rewrite removelast_last. by destruct e.
Qed.

(** The data, without the end-of-stream bucket that is moved aside. *)
Lemma body_data bb :
  brigade_data (if last_is_eos bb then removelast bb else bb) = brigade_data bb.
Proof.
  destruct (last_is_eos bb) eqn:El; [|done].
  rewrite (last_is_eos_removelast bb El) at 2. rewrite brigade_data_app. cbn.
  by rewrite app_nil_r.
Qed.

(** What is true of a successful concatenation that spools: the data, and, when
    the file held [all] of it so far, the file of the spool bucket, which is there
    unless the bucket limit is passed. *)
Definition spooled_result (all : Prop) (data : bytes) (eos : bool) (r : concat_result (W := W)) : Prop :=
  cr_status r = APR_SUCCESS ->
  brigade_data (cr_out r) = data /\ cr_in r = [] /\ spool_open (cr_out r) /\
  (all -> spool_ok (cr_out r) /\
   (eos = false -> length data <= FILE_BUCKET_LIMIT ->
    exists c, apreq_brigade_spoolfile (cr_out r) = Some c /\ take (length data) c = data)).

(** A bucket that is no spool bucket. *)
Definition not_spool (e : apr_bucket) : bool :=
  match e with BFile true _ _ _ => false | _ => true end.

Lemma spool_ok_not_spool bb e : last bb = Some e -> not_spool e = true -> spool_ok bb.
Proof. unfold spool_ok. intros ->. by destruct e as [| | | |[] ? ? ?]. Qed.

Lemma extend_spool_not_spool fuel c start len wlen :
  forallb not_spool (extend_spool FILE_BUCKET_LIMIT fuel false c start len wlen) = true.
Proof.
  revert start len wlen. induction fuel as [|fuel IH]; intros start len wlen;
    cbn [extend_spool]; destruct (_ <? _); try done. cbn [forallb not_spool andb]. apply IH.
Qed.

Lemma last_not_spool bb e : forallb not_spool bb = true -> last bb = Some e -> not_spool e = true.
Proof.
  intros Hb [l ->]%last_Some. rewrite forallb_app in Hb. cbn in Hb.
  rewrite andb_true_r, andb_true_iff in Hb. tauto.
Qed.

(** The end of a spooled brigade: the spool bucket that still covers the file,
    or plain file buckets. *)
Lemma extend_spool_last out c start len wlen :
  len <= FILE_BUCKET_LIMIT ->
  (exists e, last (out ++ extend_spool FILE_BUCKET_LIMIT (S (S wlen)) true c start len wlen) = Some e /\
     not_spool e = true) \/
  len + wlen <= FILE_BUCKET_LIMIT /\
  extend_spool FILE_BUCKET_LIMIT (S (S wlen)) true c start len wlen = [BFile true c start (len + wlen)].
Proof.
  intros Hlen. cbn [extend_spool]. destruct (FILE_BUCKET_LIMIT - len <? wlen) eqn:El.
  - left. set (l := BFile _ _ _ _ :: _). assert (Hl : forallb not_spool l = true).
    { unfold l. cbn [forallb not_spool andb].
      exact (extend_spool_not_spool (S wlen) c _ 0 _). }
    destruct (last l) as [e|] eqn:E2; [|by apply last_None in E2].
    exists e. by rewrite last_app, E2, (last_not_spool l e Hl E2).
  - right. apply Nat.ltb_ge in El. split; [lia|done].
Qed.

Lemma spool_open_not_spool bb e : last bb = Some e -> not_spool e = true -> spool_open bb.
Proof. unfold spool_open. intros ->. by destruct e as [| | | |[] ? ? ?]. Qed.

(** Writing at the end of the file keeps the part that a bucket shows. *)
Lemma written_data f f' start len d :
  file_ok f -> file_ok f' -> f_pos f = start + len -> file_prefix f' = file_prefix f ++ d ->
  f_pos f' = start + (len + length d) /\
  take (len + length d) (drop start (f_content f')) = take len (drop start (f_content f)) ++ d.
Proof.
  intros Hf Hf' Hpos Hp. unfold file_ok, file_prefix in *.
  assert (Hpos' : f_pos f' = start + (len + length d)).
  { apply (f_equal length) in Hp. rewrite length_app, !length_take_le in Hp by done. lia. }
  split; [done|]. rewrite Hpos, Hpos' in *.
  rewrite !take_drop_commute, Hp, drop_app_le by (rewrite length_take; lia). done.
Qed.

Lemma concat_spooled_spec w out f start len in_bb data :
  file_ok f -> f_pos f = start + len -> len <= FILE_BUCKET_LIMIT -> 0 < FILE_BUCKET_LIMIT ->
  brigade_data out ++ take len (drop start (f_content f)) = data ->
  spooled_result (file_prefix f = data) (data ++ brigade_data in_bb) (last_is_eos in_bb)
    (concat_spooled FILE_BUCKET_LIMIT w out f start len in_bb).
Proof.
  intros Hf Hpos Hlen HL Hout. unfold spooled_result, concat_spooled.
  pose proof (fwrite_loop_spec w f [] 0 (if last_is_eos in_bb then removelast in_bb else in_bb) Hf)
    as Hw.
  change (fwrite_loop w f [] 0) with (apreq_brigade_fwrite w f) in Hw.
  destruct (apreq_brigade_fwrite w f _) as [[[s w'] f'] wlen]. unfold appended in Hw.
  destruct (s =? APR_SUCCESS)%Z eqn:Es; cbn [cr_status cr_out cr_in];
    [apply Z.eqb_eq in Es; intros _|apply Z.eqb_neq in Es; by intros ?].
  destruct (Hw Es) as (Hp & Hok & ->). cbn [concat app] in Hp |- *. rewrite body_data in Hp |- *.
  cbn [Nat.add]. set (d := brigade_data in_bb) in *.
  destruct (written_data f f' start len d Hf Hok Hpos Hp) as [Hpos' Hdata].
  unfold file_ok in Hok. rewrite Hpos' in Hok.
  destruct (extend_spool_last out (f_content f') start len (length d) Hlen) as [(e & He & Hns)|[Hll He]].
  - split_and!; [|done| |].
    + rewrite !brigade_data_app, extend_spool_data, Hdata, <- Hout, <- !app_assoc by lia.
      destruct (last_is_eos in_bb); cbn; by rewrite !app_nil_r.
    + destruct (last_is_eos in_bb); [apply (spool_open_not_spool _ BEos)|
        apply (spool_open_not_spool _ e)]; try done;
        by rewrite ?app_assoc, ?last_snoc, ?app_nil_r.
    + intros Hpre. split.
      * destruct (last_is_eos in_bb); [apply (spool_ok_not_spool _ BEos)|
          apply (spool_ok_not_spool _ e)]; try done;
          by rewrite ?app_assoc, ?last_snoc, ?app_nil_r.
      * intros -> Hlim. exfalso. revert He Hns. cbn [extend_spool].
        apply (f_equal length) in Hpre. unfold file_prefix in Hpre.
        rewrite length_take_le, length_app in * by done.
        assert ((FILE_BUCKET_LIMIT - len <? length d) = false) as -> by (apply Nat.ltb_ge; lia).
        rewrite last_snoc. by intros [= <-].
  - rewrite He. assert (Hall : brigade_data (out ++ [BFile true (f_content f') start (len + length d)])
      = data ++ d).
    { rewrite brigade_data_app. cbn. by rewrite app_nil_r, Hdata, <- Hout, <- app_assoc. }
    split_and!; [|done| |].
    + rewrite app_assoc, brigade_data_app, Hall. destruct (last_is_eos in_bb); apply app_nil_r.
    + destruct (last_is_eos in_bb).
      * apply (spool_open_not_spool _ BEos); [by rewrite app_assoc, last_snoc|done].
      * unfold spool_open. rewrite app_nil_r, last_snoc. lia.
    + intros Hpre. assert (Ht : take (start + (len + length d)) (f_content f') = data ++ d)
        by (by rewrite <- Hpos', <- Hpre, <- Hp).
      split.
      * destruct (last_is_eos in_bb).
        -- apply (spool_ok_not_spool _ BEos); [by rewrite app_assoc, last_snoc|done].
        -- unfold spool_ok. rewrite app_nil_r, last_snoc, Hall. by split_and!.
      * intros -> _. exists (f_content f'). unfold apreq_brigade_spoolfile.
        rewrite app_nil_r, last_snoc. split; [done|].
        assert (length (data ++ d) = start + (len + length d)) as ->; [|done].
        rewrite <- Ht, length_take_le; lia.
Qed.

Lemma last_split {A} (l : list A) x : last l = Some x -> l = removelast l ++ [x].
Proof. intros [l' ->]%last_Some. by rewrite removelast_last. Qed.

Lemma open_spool_spec w out s w' pre f start len :
  spool_open out -> open_spool w out = (s, w', pre, f, start, len) -> s = APR_SUCCESS ->
  file_ok f /\ f_pos f = start + len /\ len <= FILE_BUCKET_LIMIT /\
  brigade_data pre ++ take len (drop start (f_content f)) = brigade_data out /\
  (spool_ok out -> file_prefix f = brigade_data out).
Proof.
  unfold open_spool. intros Hok H Hs.
  assert (Hnew : forall sm wm, (if negb (sm =? APR_SUCCESS)%Z then (sm, wm, out, File [] 0, 0, 0)
      else let '(s, w, f, wlen) := apreq_brigade_fwrite wm (File [] 0) out in
        (s, w, out, f, wlen, 0)) = (s, w', pre, f, start, len) ->
    file_ok f /\ f_pos f = start + len /\ len <= FILE_BUCKET_LIMIT /\
    brigade_data pre ++ take len (drop start (f_content f)) = brigade_data out /\
    (spool_ok out -> file_prefix f = brigade_data out)).
  { intros sm wm. destruct (negb _) eqn:En.
    { intros [= -> _ _ _ _ _]. by rewrite Hs in En. }
    pose proof (fwrite_loop_spec wm (File [] 0) [] 0 out) as Hw. unfold appended in Hw.
    change (fwrite_loop wm (File [] 0) [] 0) with (apreq_brigade_fwrite wm (File [] 0)) in Hw.
    destruct (apreq_brigade_fwrite _ _ _) as [[[s1 w1] f1] wl].
    intros [= -> -> <- -> -> <-].
    destruct (Hw ltac:(unfold file_ok; cbn; lia) Hs) as (Hp & Hfo & Hwl). cbn in Hp, Hwl.
    split_and!; [done| |lia|by rewrite take_0, app_nil_r|done].
    assert (length (file_prefix f) = f_pos f) by (apply length_take_le; done).
    rewrite Hp in H0. lia. }
  unfold spool_open, spool_ok in *.
  destruct (last out) as [[d| | |st|[|] c st ln]|] eqn:El;
    try (destruct (os_mktemp w) as [sm wm]; by apply Hnew in H).
  destruct (os_seek w) as [sm wm]. injection H as -> -> <- <- -> ->.
  destruct Hok as (H2 & H3). split_and!; [done..| |by intros [? _]].
  rewrite (last_split _ _ El) at 2. rewrite brigade_data_app. cbn. by rewrite app_nil_r.
Qed.

(** After a concatenation that is successful. *)
Lemma concat_bb_data (w : W) (heap_limit : nat) (out in_bb : brigade) :
  0 < FILE_BUCKET_LIMIT -> spool_open out -> forallb not_spool in_bb = true ->
  let r := concat_bb false w heap_limit out in_bb in
  let data := brigade_data out ++ brigade_data in_bb in
  cr_status r = APR_SUCCESS ->
  brigade_data (cr_out r) = data /\ cr_in r = [] /\ spool_open (cr_out r) /\
  (spool_ok out -> spool_ok (cr_out r) /\
   (heap_limit <= length data -> last_is_eos in_bb = false -> length data <= FILE_BUCKET_LIMIT ->
    exists c, apreq_brigade_spoolfile (cr_out r) = Some c /\ take (length data) c = data)).
Proof.
  intros HL Hok Hns. cbn zeta. unfold apreq_brigade_concat.
  destruct (last_is_eos out); [cbn; intros H; exfalso; errno_lia|].
  destruct (_ && _) eqn:Eh.
  { cbn. intros _. rewrite brigade_data_app. rewrite andb_true_iff, !Nat.ltb_lt in Eh.
    destruct (last in_bb) as [e|] eqn:El.
    - assert (He : last (out ++ in_bb) = Some e) by (by rewrite last_app, El).
      pose proof (last_not_spool in_bb e Hns El).
      split_and!; [done..|by eapply spool_open_not_spool|intros _].
      split; [by eapply spool_ok_not_spool|rewrite length_app; lia].
    - apply last_None in El as ->. rewrite !app_nil_r. split_and!; [done..|]. cbn in Eh.
      intros ?. split; [done|lia]. }
  destruct (open_spool w out) as [[[[[s w'] pre] f] start] len] eqn:Eo.
  destruct (negb (s =? APR_SUCCESS)%Z) eqn:Es; [cbn; intros H; by rewrite H in Es|].
  apply negb_false_iff, Z.eqb_eq in Es.
  destruct (open_spool_spec _ _ _ _ _ _ _ _ Hok Eo Es) as (H1 & H2 & H3 & H4 & H5).
  intros Hs.
  destruct (concat_spooled_spec w' pre f start len in_bb _ H1 H2 H3 HL H4 Hs) as (R1 & R2 & R3 & R4).
  split_and!; [done..|]. intros Hall. destruct (R4 (H5 Hall)) as [R5 R6]. split; [done|]. intros _. exact R6.
Qed.

Lemma concat_bb_spec (w : W) (heap_limit : nat) (out in_bb : brigade) :
  0 < FILE_BUCKET_LIMIT -> spool_ok out -> forallb not_spool in_bb = true ->
  let r := concat_bb false w heap_limit out in_bb in
  let data := brigade_data out ++ brigade_data in_bb in
  cr_status r = APR_SUCCESS ->
  brigade_data (cr_out r) = data /\ cr_in r = [] /\ spool_ok (cr_out r) /\
  (heap_limit <= length data -> last_is_eos in_bb = false -> length data <= FILE_BUCKET_LIMIT ->
   exists c, apreq_brigade_spoolfile (cr_out r) = Some c /\ take (length data) c = data).
Proof.
  intros HL Hok Hns r data Hs.
  destruct (concat_bb_data w heap_limit out in_bb HL (spool_ok_open _ Hok) Hns Hs) as (H1 & H2 & _ & H3).
  destruct (H3 Hok) as [H4 H5]. by split_and!.
Qed.

(** *** Spooling works when the system does *)

(** No call of the operating system fails. *)
Definition os_reliable : Prop :=
  os_works /\ forall w : W, (os_mktemp w).1 = APR_SUCCESS /\ (os_seek w).1 = APR_SUCCESS.

Lemma plain_readable (bb : brigade) : forallb plain bb = true -> forallb readable bb = true.
Proof.
  induction bb as [|e bb IH]; [done|]. cbn [forallb]. unfold plain at 1.
  rewrite !andb_true_iff. intros [[He _] Hb]. auto.
Qed.

Lemma plain_last (bb : brigade) : forallb plain bb = true -> last_is_eos bb = false.
Proof.
  unfold last_is_eos. intros Hp. destruct (last bb) as [e|] eqn:El; [|done].
  apply last_Some in El as [l ->]. rewrite forallb_app in Hp. cbn in Hp.
  rewrite andb_true_r, andb_true_iff in Hp. destruct Hp as [_ Hp]. by destruct e.
Qed.

(** Kinds of buckets that can be read, which file buckets are. *)
Section Kind.
Context (Q : apr_bucket -> bool) (HQ : forall e, Q e = true -> readable e = true)
        (HF : forall sp c start len, Q (BFile sp c start len) = true).

Lemma kind_readable bb : forallb Q bb = true -> forallb readable bb = true.
Proof. rewrite !forallb_forall. auto. Qed.

Lemma extend_spool_kind fuel sp c start len wlen :
  forallb Q (extend_spool FILE_BUCKET_LIMIT fuel sp c start len wlen) = true.
Proof.
  revert sp start len wlen. induction fuel as [|fuel IH]; intros sp start len wlen;
    cbn [extend_spool]; destruct (_ <? _); try done; cbn [forallb]; by rewrite HF, ?IH.
Qed.

Lemma open_spool_works w out :
  os_reliable -> forallb Q out = true ->
  let '(s, _, pre, _, _, _) := open_spool w out in s = APR_SUCCESS /\ forallb Q pre = true.
Proof.
  intros [Hos Hm] Hp. unfold open_spool.
  assert (Hnew : let '(s, _, pre, _, _, _) :=
      (let '(s, w) := os_mktemp w in
       if negb (s =? APR_SUCCESS)%Z then (s, w, out, File [] 0, 0, 0)
       else let '(s, w, f, wlen) := apreq_brigade_fwrite w (File [] 0) out in
         (s, w, out, f, wlen, 0)) in s = APR_SUCCESS /\ forallb Q pre = true).
  { destruct (Hm w) as [Hmk _]. destruct (os_mktemp w) as [s w']. cbn [fst] in Hmk. subst s.
    cbn [negb Z.eqb].
    pose proof (fwrite_loop_works w' (File [] 0) [] 0 out Hos (le_n 0) (kind_readable _ Hp)) as Hw.
    unfold apreq_brigade_fwrite. by destruct (fwrite_loop _ _ _ _ _) as [[[s1 w1] f1] wl]. }
  destruct (last out) as [[d| | |st|[|] c st ln]|] eqn:El; try done.
  destruct (Hm w) as [_ Hsk]. destruct (os_seek w) as [s w']. cbn [fst] in Hsk. split; [done|].
  apply last_split in El. rewrite El, forallb_app in Hp. by apply andb_true_iff in Hp as [? _].
Qed.

(** Every concatenation is successful. *)
Lemma concat_bb_runs (w : W) (heap_limit : nat) (out in_bb : brigade) :
  os_reliable -> spool_open out -> last_is_eos out = false -> forallb Q out = true ->
  forallb Q in_bb = true ->
  let r := concat_bb false w heap_limit out in_bb in
  cr_status r = APR_SUCCESS /\ forallb Q (cr_out r) = true.
Proof.
  intros Hos Hok Heos Hout Hin. unfold apreq_brigade_concat. rewrite Heos.
  destruct (_ && _).
  { cbn [cr_status cr_out]. by rewrite forallb_app, Hout, Hin. }
  pose proof (open_spool_works w out Hos Hout) as Hop.
  pose proof (open_spool_spec w out) as Hsp.
  destruct (open_spool w out) as [[[[[s w'] pre] f] start] len]. destruct Hop as [-> Hpre].
  destruct (Hsp _ _ _ _ _ _ Hok eq_refl eq_refl) as (Hf & _). cbn [negb Z.eqb].
  unfold concat_spooled.
  assert (Hbody : forallb Q (if last_is_eos in_bb then removelast in_bb else in_bb) = true /\
    forallb Q (if last_is_eos in_bb then [BEos] else []) = true).
  { destruct (last_is_eos in_bb) eqn:El; [|done]. apply last_is_eos_removelast in El.
    rewrite El, forallb_app in Hin. by apply andb_true_iff. }
  destruct Hbody as [Hb He].
  pose proof (fwrite_loop_works w' f [] 0 _ (proj1 Hos) Hf (kind_readable _ Hb)) as Hw.
  unfold apreq_brigade_fwrite. destruct (fwrite_loop _ _ _ _ _) as [[[s1 w1] f1] wl].
  cbn [fst] in Hw. subst s1. cbn [Z.eqb]. rewrite !Z.eqb_refl. cbn [negb cr_out cr_status]. split; [done|].
  by rewrite !forallb_app, Hpre, extend_spool_kind, He.
Qed.

End Kind.

(** The buckets before the spool bucket are those of the brigade. *)
Lemma open_spool_prefix w out s w' pre f start len :
  open_spool w out = (s, w', pre, f, start, len) -> exists x, out = pre ++ x.
Proof.
  unfold open_spool.
  assert (Hnew : forall sm wm, (if negb (sm =? APR_SUCCESS)%Z then (sm, wm, out, File [] 0, 0, 0)
      else let '(s, w, f, wlen) := apreq_brigade_fwrite wm (File [] 0) out in
        (s, w, out, f, wlen, 0)) = (s, w', pre, f, start, len) -> exists x, out = pre ++ x).
  { intros sm wm. exists []. rewrite app_nil_r. destruct (negb _); [by simplify_eq|].
    destruct (apreq_brigade_fwrite _ _ _) as [[[]]]. by simplify_eq. }
  destruct (last out) as [[d| | |st|[|] c st ln]|] eqn:El;
    try (destruct (os_mktemp w) as [sm wm]; by apply Hnew).
  destruct (os_seek w) as [sm wm]. intros [= _ _ <- _ _ _]. apply last_split in El. eauto.
Qed.

(** An EOS bucket of the result was one before. *)
Lemma concat_bb_eos (w : W) (heap_limit : nat) (out in_bb : brigade) a b :
  let r := concat_bb false w heap_limit out in_bb in
  cr_status r = APR_SUCCESS -> cr_out r = a ++ BEos :: b ->
  (exists b', out = a ++ BEos :: b') \/ (exists a', in_bb = a' ++ BEos :: b).
Proof.
  unfold apreq_brigade_concat. destruct (last_is_eos out); [cbn; intros H; exfalso; errno_lia|].
  destruct (_ && _).
  { intros _ [(b' & -> & _)|(a' & -> & _)]%app_cons_inv; eauto. }
  destruct (open_spool w out) as [[[[[s w'] pre] f] start] len] eqn:Eo.
  destruct (negb (s =? APR_SUCCESS)%Z) eqn:Es; [cbn; intros H; by rewrite H in Es|].
  apply open_spool_prefix in Eo as [x ->]. unfold concat_spooled.
  destruct (apreq_brigade_fwrite _ _ _) as [[[s1 w1] f1] wl].
  destruct (s1 =? APR_SUCCESS)%Z eqn:Es1; cbn [cr_status cr_out];
    [|apply Z.eqb_neq in Es1; by intros ?].
  intros _ [(b' & -> & _)|(a' & Ha & _)]%app_cons_inv; [left; rewrite <- app_assoc; by eexists|].
  apply app_cons_inv in Ha as [(b' & Hx & _)|(a2 & Hx & _)].
  - exfalso. pose proof (extend_spool_kind plain (fun _ _ _ _ => eq_refl) (S (S wl)) true (f_content f1)
      start len wl) as Hk. rewrite Hx, forallb_app in Hk. by apply andb_true_iff in Hk as [_ Hk].
  - right. destruct (last_is_eos in_bb) eqn:El; [|by destruct a2].
    apply last_is_eos_removelast in El. exists (removelast in_bb).
    assert (b = []) as ->; [|done]. by destruct a2 as [|? [|]]; injection Hx.
Qed.

(** What a brigade is that uploads are collected in. *)
Definition upload_inv (bb : brigade) : Prop := spool_ok bb /\ forallb plain bb = true.

Lemma concat_bb_works (w : W) (heap_limit : nat) (out in_bb : brigade) :
  os_reliable -> 0 < FILE_BUCKET_LIMIT -> upload_inv out ->
  forallb plain in_bb = true -> forallb not_spool in_bb = true ->
  let r := concat_bb false w heap_limit out in_bb in
  cr_status r = APR_SUCCESS /\ cr_in r = [] /\ upload_inv (cr_out r) /\
  brigade_data (cr_out r) = brigade_data out ++ brigade_data in_bb.
Proof.
  intros Hos HL [Hok Hout] Hin Hns. cbn zeta.
  destruct (concat_bb_runs plain (fun e H => proj1 (andb_prop _ _ H)) (fun _ _ _ _ => eq_refl)
    w heap_limit out in_bb Hos (spool_ok_open _ Hok) (plain_last out Hout) Hout Hin) as [Hs Hp].
  destruct (concat_bb_spec w heap_limit out in_bb HL Hok Hns Hs) as (Hd & Hi & Hsok & _).
  by split_and!.
Qed.

(** ** Claims *)

(** Writing a brigade to a file with [apreq_brigade_fwrite] stores exactly
    the brigade's data at the file's position and reports its length, however
    short the single writes fall; and it succeeds when every bucket can be
    read and the writes succeed and make progress. *)
Theorem brigade_fwrite_complete (w : W) (f : apr_file) (bb : brigade) :
  file_ok f ->
  (let '(s, _, f', wlen) := apreq_brigade_fwrite w f bb in
   s = APR_SUCCESS ->
   file_prefix f' = file_prefix f ++ brigade_data bb /\ wlen = length (brigade_data bb)) /\
  (os_works -> forallb readable bb = true -> (apreq_brigade_fwrite w f bb).1.1.1 = APR_SUCCESS).
Proof.
  intros Hf. split; [|intros Hos Hr; by apply fwrite_loop_works].
  pose proof (fwrite_loop_spec w f [] 0 bb Hf) as H. unfold appended in H.
  unfold apreq_brigade_fwrite. destruct (fwrite_loop _ _ _ _ _) as [[[s w'] f'] wlen].
  intros Hs. by destruct (H Hs) as (H1 & _ & H3).
Qed.

(** C23: appending to a brigade loses nothing: after a successful
    [apreq_brigade_concat] the destination holds its data followed by the
    source's, the source is empty, and once the heap limit is reached the
    temporary file at the end of the destination holds all of it. *)
Theorem brigade_concat_complete (w : W) (heap_limit : nat) (out in_bb : brigade) :
  0 < FILE_BUCKET_LIMIT -> spool_ok out -> forallb not_spool in_bb = true ->
  let r := concat_bb false w heap_limit out in_bb in
  let data := brigade_data out ++ brigade_data in_bb in
  cr_status r = APR_SUCCESS ->
  brigade_data (cr_out r) = data /\ cr_in r = [] /\ spool_ok (cr_out r) /\
  (heap_limit <= length data -> last_is_eos in_bb = false -> length data <= FILE_BUCKET_LIMIT ->
   exists c, apreq_brigade_spoolfile (cr_out r) = Some c /\ take (length data) c = data).
Proof. apply concat_bb_spec. Qed.

End Facts.

(** Buckets that carry data or pass, none of them a spool bucket: what a body is
    made of before an upload is spooled. *)
Definition clean (e : apr_bucket) : bool := plain e && not_spool e.

#[export] Instance clean_kind : BucketKind clean.
Proof.
  split; unfold clean.
  - intros e H. by apply andb_true_iff in H as [H _].
  - intros e n H. by destruct e as [| | | |[]].
  - done.
Qed.

(** ** Witnesses *)

(** An operating system whose writes take at most three bytes at a time. *)
#[export] Program Instance short_writes : AprFile unit := {|
  os_mktemp w := (APR_SUCCESS, w);
  os_seek w := (APR_SUCCESS, w);
  os_writev w v := (APR_SUCCESS, Nat.min 3 (length (concat v)), w)
|}.
Next Obligation.
  intros w v s n w' H. assert (n = Nat.min 3 (length (concat v))) as -> by congruence. lia.
Qed.

Lemma brigade_fwrite_complete_witness :
  let bb := [BData (str "hello "); BFlush; BData (str "world"); BEos] in
  (apreq_brigade_fwrite tt (File [] 0) bb).1.1.1 = APR_SUCCESS /\
  file_prefix (apreq_brigade_fwrite tt (File [] 0) bb).1.2 = str "hello world".
Proof.
  cbn zeta.
  destruct (brigade_fwrite_complete tt (File [] 0)
    [BData (str "hello "); BFlush; BData (str "world"); BEos]) as [H1 H2];
    [unfold file_ok; cbn; lia|].
  split; [|vm_compute; reflexivity].
  apply H2; [|reflexivity]. intros w v.
  exists (Nat.min 3 (length (concat v))), tt. destruct w. split; [reflexivity|].
  intros Hv. destruct (concat v); [done|cbn; lia].
Defined.

Lemma brigade_concat_complete_witness :
  let r := apreq_brigade_concat 1000 false tt 4 [BData (str "abc")] [BData (str "defg")] in
  brigade_data (cr_out r) = str "abcdefg" /\
  exists c, apreq_brigade_spoolfile (cr_out r) = Some c /\ take 7 c = str "abcdefg".
Proof.
  cbn zeta.
  destruct (brigade_concat_complete 1000 tt 4 [BData (str "abc")] [BData (str "defg")]
    ltac:(lia) I eq_refl ltac:(vm_compute; reflexivity)) as (H1 & _ & _ & H3).
  split; [exact H1|].
  destruct H3 as (c & Hc & Ht); [apply Nat.leb_le; vm_compute; reflexivity|reflexivity|apply Nat.leb_le; vm_compute; reflexivity|].
  by exists c.
Defined.

(** ** apr_brigade_partition *)

(** [apr_brigade_partition(bb, point, &e)] finds the bucket after the first [point]
    bytes and splits one where it must: the status, the brigade as it is then, and
    the position of [e] (its length: the sentinel). *)
Class AprPartition {E : AprErrno} := {
  apr_brigade_partition : brigade -> nat -> Z * brigade * nat;
  partition_split : forall bb point s bb' n, apr_brigade_partition bb point = (s, bb', n) ->
    n <= length bb' /\
    (bb' = bb \/
     exists a e k c, bb = a ++ e :: c /\ 0 < k < length (apr_bucket_read e).2 /\
       bb' = a ++ (apr_bucket_split e k).1 :: (apr_bucket_split e k).2 :: c /\ n = S (length a));
  partition_success : forall bb point bb' n,
    apr_brigade_partition bb point = (APR_SUCCESS, bb', n) ->
    length (brigade_data (take n bb')) = point;
  partition_incomplete : forall bb point bb' n, forallb readable bb = true ->
    apr_brigade_partition bb point = (APR_INCOMPLETE, bb', n) ->
    n = length bb' /\ length (brigade_data bb') < point;
  partition_works : forall bb point, forallb readable bb = true ->
    (apr_brigade_partition bb point).1.1 = APR_SUCCESS \/
    (apr_brigade_partition bb point).1.1 = APR_INCOMPLETE
}.

(** The partition the witnesses run on. *)
Section ListPartition.
Context {E : AprErrno}.

Fixpoint list_partition (bb : brigade) (point : nat) : Z * brigade * nat :=
  match point, bb with
  | O, _ => (APR_SUCCESS, bb, 0)
  | _, [] => (APR_INCOMPLETE, [], 0)
  | _, e :: bb =>
      let '(s, d) := apr_bucket_read e in
      if negb (s =? APR_SUCCESS)%Z then (s, e :: bb, 0)
      else if point <? length d
      then (APR_SUCCESS, (apr_bucket_split e point).1 :: (apr_bucket_split e point).2 :: bb, 1)
      else let '(s, bb', n) := list_partition bb (point - length d) in (s, e :: bb', S n)
  end.

#[export] Program Instance list_partitions : AprPartition := {|
  apr_brigade_partition := list_partition
|}.
Next Obligation.
  induction bb as [|e bb IH]; intros [|point] s bb' n; cbn [list_partition];
    try (intros [= <- <- <-]; split; [cbn; lia|by left]).
  pose proof (split_data e) as Hsp.
  destruct (apr_bucket_read e) as [s0 d] eqn:Er. cbn [snd] in *.
  destruct (negb _); [intros [= <- <- <-]; split; [cbn; lia|by left]|].
  destruct (_ <? _) eqn:El.
  - apply Nat.ltb_lt in El. intros [= <- <- <-]. split; [cbn; lia|right].
    exists [], e, (S point), bb. rewrite Er. cbn [app length snd]. split_and!; first [done|lia].
  - destruct (list_partition bb _) as [[s1 b1] n1] eqn:Ep. intros [= <- <- <-].
    destruct (IH _ _ _ _ Ep) as [Hn Hs]. split; [cbn; lia|].
    destruct Hs as [->|(a & e' & k & c & -> & Hk & -> & ->)]; [by left|right].
    exists (e :: a), e', k, c. split_and!; first [done|lia].
Qed.
Next Obligation.
  induction bb as [|e bb IH]; intros [|point] bb' n; cbn [list_partition]; try (by intros [= <- <-]).
  - intros [= H _ _]. exfalso. errno_lia.
  - pose proof (split_data e) as Hsp. pose proof (brigade_data_one e) as H1.
    destruct (apr_bucket_read e) as [s0 d] eqn:Er. cbn [snd] in *.
    destruct (s0 =? APR_SUCCESS)%Z eqn:Es; cbn [negb]; [|apply Z.eqb_neq in Es; by intros [= ]].
    destruct (_ <? _) eqn:El.
    + apply Nat.ltb_lt in El. intros [= <- <-]. destruct (Hsp (S point)) as [D _]; [lia|].
      cbn [take]. rewrite brigade_data_one, D, length_take. lia.
    + apply Nat.ltb_ge in El. destruct (list_partition bb _) as [[s1 b1] n1] eqn:Ep.
      intros [= -> <- <-]. apply IH in Ep. cbn [take]. rewrite brigade_data_cons, Er, length_app, Ep.
      cbn. lia.
Qed.
Next Obligation.
  induction bb as [|e bb IH]; intros [|point] bb' n Hr; cbn [list_partition].
  1, 3: intros [= H _ _]; exfalso; errno_lia.
  - intros [= <- <-]. cbn. lia.
  - cbn [forallb] in Hr. rewrite andb_true_iff in Hr. destruct Hr as [He Hr].
    apply readable_read in He. destruct (apr_bucket_read e) as [s0 d] eqn:Er. cbn [fst snd] in *.
    subst s0. cbn [negb Z.eqb APR_SUCCESS].
    destruct (_ <? _) eqn:El; [intros [= H _ _]; exfalso; errno_lia|]. apply Nat.ltb_ge in El.
    destruct (list_partition bb _) as [[s1 b1] n1] eqn:Ep. intros [= -> <- <-].
    destruct (IH _ _ _ Hr Ep) as [-> Hl]. rewrite brigade_data_cons, Er, length_app. cbn. lia.
Qed.
Next Obligation.
  induction bb as [|e bb IH]; intros [|point] Hr; cbn [list_partition]; [by left|by right|by left|].
  cbn [forallb] in Hr. rewrite andb_true_iff in Hr. destruct Hr as [He Hr].
  apply readable_read in He. destruct (apr_bucket_read e) as [s0 d]. cbn [fst snd] in *.
  subst s0. cbn [negb Z.eqb APR_SUCCESS]. destruct (_ <? _); [by left|].
  specialize (IH (S point - length d) Hr). by destruct (list_partition bb _) as [[s1 b1] n1].
Qed.

End ListPartition.
