(* ===== verification/TempFile.v ===== *)
(** * Temporary files ([apreq_file_mktemp] of [library/util.c])

    A temporary file belongs to a pool, which closes and removes it when it is
    destroyed.  [AprFs] is the file system; a pool is the world with the stack of the
    cleanups that were registered.  With such a pool as the system behind the files
    ([pool_files]), the spooling of brigades takes its files from this function. *)
From S2P Require Import Prelude Apr Url Util Brigade.

(** The file system as APR shows it; [files] are the names in it. *)
Class AprFs (W : Type) := {
  files : W -> gset bytes;
  apr_temp_dir_get : W -> Z * bytes;
  apr_filepath_merge : bytes -> bytes -> Z * bytes;
  os_create : W -> bytes -> Z * bytes * W;     (** a new file with a name after the template *)
  apr_file_close : W -> bytes -> W;
  apr_file_remove : W -> bytes -> W;
  create_fresh : forall w t n w', os_create w t = (APR_SUCCESS, n, w') ->
    (n ∉ files w) /\ files w' = {[n]} ∪ files w;
  create_fails : forall w t s n w', os_create w t = (s, n, w') -> s <> APR_SUCCESS -> files w' = files w;
  close_files : forall w n, files (apr_file_close w n) = files w;
  remove_files : forall w n, files (apr_file_remove w n) = files w ∖ {[n]}
}.

Section TempFile.
Context {W : Type} {F : AprFs W}.

(** What is to be done when a pool ends: a file is closed, or the file that
    [cleanup_data] names is removed. *)
Inductive cleanup :=
  | CloseFile (name : bytes)
  | apreq_file_cleanup (fname : option bytes).

(** The last cleanup comes first. *)
Record pool := Pool { p_world : W; p_cleanups : list cleanup }.

Definition apr_pool_cleanup_register (c : cleanup) (p : pool) : pool :=
  Pool (p_world p) (c :: p_cleanups p).
Definition apr_pool_cleanup_kill (p : pool) : pool := Pool (p_world p) (tail (p_cleanups p)).

(** The file that APR makes is closed with the pool. *)
Definition apr_file_mktemp (tmpl : bytes) (p : pool) : Z * bytes * pool :=
  let '(s, n, w) := os_create (p_world p) tmpl in
  (s, n, Pool w (if (s =? APR_SUCCESS)%Z then CloseFile n :: p_cleanups p else p_cleanups p)).

(** [data->fname = name] for the cleanup below that of the file. *)
Definition set_fname (name : bytes) (p : pool) : pool :=
  Pool (p_world p)
    (match p_cleanups p with
     | c :: apreq_file_cleanup _ :: cs => c :: apreq_file_cleanup (Some name) :: cs
     | cs => cs
     end).

Definition apreq_file_mktemp (path : option bytes) (p : pool) : Z * option bytes * pool :=
  let '(rc, path) :=
    match path with None => apr_temp_dir_get (p_world p) | Some path => (APR_SUCCESS, path) end in
  if negb (rc =? APR_SUCCESS)%Z then (rc, None, p)
  else
    let '(rc, tmpl) := apr_filepath_merge path (str "apreqXXXXXX") in
    if negb (rc =? APR_SUCCESS)%Z then (rc, None, p)
    else
      let p := apr_pool_cleanup_register (apreq_file_cleanup None) p in
      let '(rc, name, p) := apr_file_mktemp tmpl p in
      if (rc =? APR_SUCCESS)%Z then (rc, Some name, set_fname name p)
      else (rc, None, apr_pool_cleanup_kill p).

(** The cleanups run from the last to the first; one whose [cleanup_data] was never
    filled reads memory that nobody set. *)
Fixpoint run_cleanups (cs : list cleanup) (w : W) : option W :=
  match cs with
  | [] => Some w
  | CloseFile n :: cs => run_cleanups cs (apr_file_close w n)
  | apreq_file_cleanup (Some n) :: cs => run_cleanups cs (apr_file_remove w n)
  | apreq_file_cleanup None :: _ => None
  end.

Definition apr_pool_destroy (p : pool) : option W := run_cleanups (p_cleanups p) (p_world p).

(** Before another program is run the same cleanups run, and the pool lives on:
    [apreq_file_cleanup] is registered for both. *)
Definition apr_pool_cleanup_for_exec (p : pool) : option pool :=
  (fun w => Pool w (p_cleanups p)) <$> run_cleanups (p_cleanups p) (p_world p).

(** Some calls, one after the other: the names of the files that were made. *)
Fixpoint mktemps (paths : list (option bytes)) (p : pool) : list bytes * pool :=
  match paths with
  | [] => ([], p)
  | path :: paths =>
      let '(_, name, p) := apreq_file_mktemp path p in
      let '(names, p) := mktemps paths p in
      (option_list name ++ names, p)
  end.

(** ** Properties *)

(** The cleanups of the files with these names, the last file first. *)
Definition file_cleanups (names : list bytes) : list cleanup :=
  flat_map (fun n => [CloseFile n; apreq_file_cleanup (Some n)]) (rev names).

(** A call makes a file that was not there and leaves the two cleanups for it, the one
    that closes it in front, or it fails and leaves no trace. *)
Lemma mktemp_cleanups path p rc name p' : apreq_file_mktemp path p = (rc, name, p') ->
  p_cleanups p' = file_cleanups (option_list name) ++ p_cleanups p /\
  files (p_world p') = list_to_set (option_list name) ∪ files (p_world p) /\
  Forall (fun n => n ∉ files (p_world p)) (option_list name) /\
  (rc = APR_SUCCESS <-> is_Some name).
Proof.
  unfold apreq_file_mktemp.
  destruct (match path with None => _ | Some path => _ end) as [rc1 dir].
  destruct (rc1 =? APR_SUCCESS)%Z eqn:E1; cbn [negb].
  2: { apply Z.eqb_neq in E1. intros [= <- <- <-]. cbn. split_and!; [done|set_solver|constructor|].
       split; [done|by intros []]. }
  destruct (apr_filepath_merge dir _) as [rc2 tmpl].
  destruct (rc2 =? APR_SUCCESS)%Z eqn:E2; cbn [negb].
  2: { apply Z.eqb_neq in E2. intros [= <- <- <-]. cbn. split_and!; [done|set_solver|constructor|].
       split; [done|by intros []]. }
  unfold apr_file_mktemp. cbn [apr_pool_cleanup_register p_world p_cleanups].
  destruct (os_create (p_world p) tmpl) as [[s n] w] eqn:Eo.
  destruct (s =? APR_SUCCESS)%Z eqn:E3; intros [= <- <- <-]; cbn.
  - apply Z.eqb_eq in E3. subst s. destruct (create_fresh _ _ _ _ Eo) as [Hn ->].
    split_and!; [done|set_solver|by repeat constructor|by split; eauto].
  - apply Z.eqb_neq in E3. rewrite (create_fails _ _ _ _ _ Eo E3).
    split_and!; [done|set_solver|constructor|]. split; [done|by intros []].
Qed.

Definition remove_all (names : list bytes) (w : W) : W :=
  fold_right (fun n w => apr_file_remove (apr_file_close w n) n) w names.

Lemma run_file_cleanups names cs w :
  run_cleanups (file_cleanups names ++ cs) w = run_cleanups cs (remove_all names w).
Proof.
  unfold file_cleanups, remove_all. revert w.
  induction names as [|n names IH] using rev_ind; intros w; [done|].
  rewrite rev_app_distr, fold_right_app. cbn. by rewrite IH.
Qed.

Lemma remove_all_files names w : files (remove_all names w) = files w ∖ list_to_set names.
Proof.
  unfold remove_all. induction names as [|n names IH]; cbn; [set_solver|].
  rewrite remove_files, close_files, IH. set_solver.
Qed.

Lemma file_cleanups_app a b : file_cleanups (a ++ b) = file_cleanups b ++ file_cleanups a.
Proof. unfold file_cleanups. by rewrite rev_app_distr, flat_map_app. Qed.

Lemma mktemps_files paths p : let '(names, p') := mktemps paths p in
  p_cleanups p' = file_cleanups names ++ p_cleanups p /\
  files (p_world p') = list_to_set names ∪ files (p_world p) /\
  Forall (fun n => n ∉ files (p_world p)) names.
Proof.
  revert p. induction paths as [|path paths IH]; intros p; cbn [mktemps].
  - cbn. split_and!; [done|set_solver|constructor].
  - destruct (apreq_file_mktemp path p) as [[rc name] p1] eqn:Em.
    destruct (mktemp_cleanups _ _ _ _ _ Em) as (Hc & Hf & Hn & _).
    specialize (IH p1). destruct (mktemps paths p1) as [names p2]. destruct IH as (Hc2 & Hf2 & Hn2).
    rewrite Hc2, Hc, file_cleanups_app, app_assoc. rewrite Hf2, Hf, list_to_set_app_L.
    split_and!; [done|set_solver|]. apply Forall_app. split; [done|].
    eapply Forall_impl; [exact Hn2|]. cbn. rewrite Hf. set_solver.
Qed.

(** Temporary files live exactly as long as their pool: whatever calls for them
    were made, with those that failed at any point, each file that was made was new and
    is there, no cleanup runs with a name that was never set, and when the pool is
    destroyed the files are closed and removed and every other file is left. *)
Theorem temp_files_live_with_pool paths w :
  let '(names, p) := mktemps paths (Pool w []) in
  files (p_world p) = list_to_set names ∪ files w /\
  Forall (fun n => n ∉ files w) names /\
  exists w', apr_pool_destroy p = Some w' /\ files w' = files w.
Proof.
  pose proof (mktemps_files paths (Pool w [])) as Hm.
  destruct (mktemps paths (Pool w [])) as [names p]. cbn [p_cleanups p_world] in Hm.
  destruct Hm as (Hc & Hf & Hn). split_and!; [done..|]. unfold apr_pool_destroy. rewrite Hc, run_file_cleanups.
  eexists. split; [done|]. rewrite remove_all_files, Hf. rewrite Forall_forall in Hn. set_solver.
Qed.

(** Running another program removes the files of a pool that is still in use. *)
Lemma exec_removes_files paths w :
  let '(names, p) := mktemps paths (Pool w []) in
  exists p', apr_pool_cleanup_for_exec p = Some p' /\ p_cleanups p' = p_cleanups p /\
    files (p_world p') = files w.
Proof.
  pose proof (mktemps_files paths (Pool w [])) as Hm.
  destruct (mktemps paths (Pool w [])) as [names p]. cbn [p_cleanups p_world] in Hm.
  destruct Hm as (Hc & Hf & Hn). unfold apr_pool_cleanup_for_exec. rewrite Hc, run_file_cleanups.
  eexists. split; [done|]. split; [done|]. cbn. rewrite remove_all_files, Hf.
  rewrite Forall_forall in Hn. set_solver.
Qed.

End TempFile.

(** ** Spooling with a pool *)

(** What the calls of the system keep, appending brigades keeps. *)
Section Kept.
Context {E : AprErrno} {W : Type} {F : AprFile W} (FILE_BUCKET_LIMIT : nat) (I : W -> Prop).
Context (mktemp_kept : forall w, I w -> I (os_mktemp w).2) (seek_kept : forall w, I w -> I (os_seek w).2)
        (writev_kept : forall w v, I w -> I (os_writev w v).2).

Lemma fwritev_loop_kept fuel w f v n : I w -> I (fw_world (fwritev_loop fuel w f v n)).
Proof.
  revert w f v n. induction fuel as [|fuel IH]; intros w f v n Hw; cbn [fwritev_loop]; [done|].
  unfold apr_file_writev. pose proof (writev_kept w v Hw) as Hw'.
  destruct (os_writev w v) as [[s len] w']. cbn [snd] in Hw'.
  destruct (negb _); [done|]. destruct (skip_written v len) as [[|x rest] len']; [done|].
  destruct (_ <? _); [done|]. destruct (_ =? _); [done|]. by apply IH.
Qed.

Lemma fwritev_kept w f v : I w -> I (fw_world (apreq_fwritev w f v)).
Proof. apply fwritev_loop_kept. Qed.

Lemma fwrite_drain_kept fuel w f v n : I w -> I (fwrite_drain fuel w f v n).1.1.2.
Proof.
  revert w f v n. induction fuel as [|fuel IH]; intros w f [|x v] n Hw; cbn [fwrite_drain]; try done.
  pose proof (fwritev_kept w f (x :: v) Hw) as Hw'. destruct (_ =? _)%Z; [by apply IH|done].
Qed.

Lemma fwrite_kept w f bb : I w -> I (apreq_brigade_fwrite w f bb).1.1.2.
Proof.
  unfold apreq_brigade_fwrite. generalize (@nil bytes) as v, 0 as n. revert w f.
  induction bb as [|e bb IH]; intros w f v n Hw; cbn [fwrite_loop]; [by apply fwrite_drain_kept|].
  assert (Hr : I (fw_world (if length v =? APREQ_DEFAULT_NELTS then apreq_fwritev w f v
                            else Fwritev APR_SUCCESS w f v 0)))
    by (destruct (_ =? _); [by apply fwritev_kept|done]).
  destruct (fw_status _ =? APR_SUCCESS)%Z; [|done]. destruct (apr_bucket_read e) as [s d].
  destruct (s =? APR_SUCCESS)%Z; [by apply IH|done].
Qed.

Lemma concat_kept same w limit out bb :
  I w -> I (cr_world (apreq_brigade_concat FILE_BUCKET_LIMIT same w limit out bb)).
Proof.
  intros Hw. unfold apreq_brigade_concat. destruct (last_is_eos out); [done|].
  destruct (_ && _); [done|].
  assert (Ho : I (open_spool w out).1.1.1.1.2).
  { assert (Hnew : I (let '(s, w) := os_mktemp w in
      if negb (s =? APR_SUCCESS)%Z then (s, w, out, File [] 0, 0, 0)
      else let '(s, w, f, wlen) := apreq_brigade_fwrite w (File [] 0) out in (s, w, out, f, wlen, 0)).1.1.1.1.2).
    { pose proof (mktemp_kept w Hw) as Hm. destruct (os_mktemp w) as [s w1]. cbn [snd] in Hm.
      destruct (negb _); [done|]. pose proof (fwrite_kept w1 (File [] 0) out Hm) as Hf.
      by destruct (apreq_brigade_fwrite w1 (File [] 0) out) as [[[s2 w2] f] n]. }
    unfold open_spool. destruct (last out) as [[| | | |[|] ? ? ?]|]; try exact Hnew.
    pose proof (seek_kept w Hw) as Hs. by destruct (os_seek w). }
  destruct (open_spool w out) as [[[[[s w1] pre] f] start] len]. cbn [fst snd] in Ho.
  destruct (negb _); [done|]. destruct same; [done|]. unfold concat_spooled.
  pose proof (fwrite_kept w1 f (if last_is_eos bb then removelast bb else bb) Ho) as Hf.
  destruct (apreq_brigade_fwrite w1 f _) as [[[s2 w2] f2] n]. by destruct (s2 =? APR_SUCCESS)%Z.
Qed.

End Kept.

Section Spool.
Context {E : AprErrno} {W : Type} {FS : AprFs W} (FILE_BUCKET_LIMIT : nat) (temp_dir : option bytes).
(** Seeking and writing: they may fail, and leave the names of the files alone. *)
Context (seek : W -> Z * W) (writev : W -> list bytes -> Z * nat * W).
Context (writev_le : forall w v s n w', writev w v = (s, n, w') -> n <= length (concat v)).
Context (seek_names : forall w, files (seek w).2 = files w)
        (writev_names : forall w v, files (writev w v).2 = files w).

Definition with_world (w : W) (p : pool (W := W)) : pool := Pool w (p_cleanups p).

Definition pool_writev (p : pool (W := W)) (v : list bytes) : Z * nat * pool :=
  let '(s, n, w) := writev (p_world p) v in (s, n, with_world w p).

Lemma pool_writev_le p v s n p' : pool_writev p v = (s, n, p') -> n <= length (concat v).
Proof.
  unfold pool_writev. destruct (writev (p_world p) v) as [[s0 n0] w0] eqn:Ew.
  intros [= _ <- _]. by eapply writev_le.
Qed.

Definition pool_files : AprFile (pool (W := W)) := {|
  os_mktemp p := let '(s, _, p) := apreq_file_mktemp temp_dir p in (s, p);
  os_seek p := let '(s, w) := seek (p_world p) in (s, with_world w p);
  os_writev := pool_writev;
  os_writev_le := pool_writev_le
|}.
#[local] Existing Instance pool_files.

(** The pool has made files of its own since [fs] was all there was. *)
Definition owns (fs : gset bytes) (p : pool (W := W)) : Prop :=
  exists names, p_cleanups p = file_cleanups names /\
    files (p_world p) = list_to_set names ∪ fs /\ Forall (fun n => n ∉ fs) names.

Lemma owns_with_world fs p w : files w = files (p_world p) -> owns fs p -> owns fs (with_world w p).
Proof. intros Hw (names & Hc & Hf & Hn). exists names. cbn. by rewrite Hw. Qed.

Lemma owns_mktemp fs p : owns fs p -> owns fs (os_mktemp p).2.
Proof.
  intros (names & Hc & Hf & Hn). cbn.
  destruct (apreq_file_mktemp temp_dir p) as [[rc name] p'] eqn:Em. cbn [snd].
  destruct (mktemp_cleanups _ _ _ _ _ Em) as (Hc' & Hf' & Hn' & _).
  exists (names ++ option_list name). rewrite Hc', Hf', Hc, Hf, file_cleanups_app, list_to_set_app_L.
  split_and!; [done|set_solver|]. apply Forall_app. split; [done|].
  eapply Forall_impl; [exact Hn'|]. cbn. rewrite Hf. set_solver.
Qed.

(** Some appendings to a brigade, one after the other, whatever they return. *)
Fixpoint spool_all (p : pool (W := W)) (out : brigade) (ins : list (nat * brigade)) : pool * brigade :=
  match ins with
  | [] => (p, out)
  | (limit, bb) :: ins =>
      let r := apreq_brigade_concat FILE_BUCKET_LIMIT false p limit out bb in
      spool_all (cr_world r) (cr_out r) ins
  end.

(** C40: the temporary files that brigades are spooled to live as long as their pool:
    whatever is appended to a brigade, with whatever limits and whichever calls of the
    system fail, the pool has only made files that were not there, and when it is
    destroyed they are removed, and every other file is left. *)
Theorem spooled_files_removed w out ins :
  let '(p, _) := spool_all (Pool w []) out ins in
  owns (files w) p /\
  exists w', apr_pool_destroy p = Some w' /\ files w' = files w.
Proof.
  assert (Hall : forall ins p out, owns (files w) p -> owns (files w) (spool_all p out ins).1).
  { clear ins out. induction ins as [|[limit bb] ins IH]; intros p out Hp; [done|]. cbn [spool_all].
    apply IH, concat_kept; [intros p'; apply owns_mktemp|..|done].
    - intros p' Hp'. cbn. pose proof (seek_names (p_world p')) as Hs.
      destruct (seek (p_world p')) as [s w']. by apply owns_with_world.
    - intros p' v Hp'. cbn [os_writev pool_files]. unfold pool_writev. pose proof (writev_names (p_world p') v) as Hs.
      destruct (writev (p_world p') v) as [[s n] w']. by apply owns_with_world. }
  specialize (Hall ins (Pool w []) out). destruct (spool_all (Pool w []) out ins) as [p out'].
  assert (Ho : owns (files w) p).
  { apply Hall. exists []. cbn. split_and!; [done|set_solver|constructor]. }
  split; [done|]. destruct Ho as (names & Hc & Hf & Hn). unfold apr_pool_destroy.
  rewrite Hc, <- (app_nil_r (file_cleanups names)), run_file_cleanups. eexists. split; [done|].
  rewrite remove_all_files, Hf. rewrite Forall_forall in Hn. set_solver.
Qed.

End Spool.

(** ** Witnesses *)

#[local] Instance byte_inhabited : Inhabited Byte.byte := populate x00.

(** A file system that is the set of its names. *)
Program Definition set_fs : AprFs (gset bytes) := {|
  files fs := fs;
  apr_temp_dir_get _ := (APR_SUCCESS, str "/tmp");
  apr_filepath_merge dir name := (APR_SUCCESS, dir ++ str "/" ++ name);
  os_create fs tmpl := let n := fresh fs in (APR_SUCCESS, n, {[n]} ∪ fs);
  apr_file_close fs _ := fs;
  apr_file_remove fs n := fs ∖ {[n]}
|}.
Next Obligation. cbn. intros fs t n fs' [= <- <-]. split; [apply is_fresh|done]. Qed.
Next Obligation. cbn. by intros fs t s n fs' [= <- _ _]. Qed.
Next Obligation. done. Qed.
Next Obligation. done. Qed.

Definition whole_writev (fs : gset bytes) (v : list bytes) : Z * nat * gset bytes :=
  (APR_SUCCESS, length (concat v), fs).
Lemma whole_writev_le w v s n w' : whole_writev w v = (s, n, w') -> n <= length (concat v).
Proof. intros [= _ <- _]. done. Qed.

Lemma spooled_files_removed_witness :
  let '(p, _) := spool_all (FS := set_fs) 1000 None (fun w => (APR_SUCCESS, w))
    whole_writev whole_writev_le
    (Pool {[str "/etc/passwd"]} []) [] [(3, [BData (str "some data")]); (3, [BData (str "more"); BEos])] in
  exists fs, apr_pool_destroy (F := set_fs) p = Some fs /\ files (AprFs := set_fs) fs = {[str "/etc/passwd"]}.
Proof.
  pose proof (spooled_files_removed (FS := set_fs) 1000 None (fun w => (APR_SUCCESS, w))
    whole_writev whole_writev_le
    (fun w => eq_refl) (fun w v => eq_refl)
    {[str "/etc/passwd"]} [] [(3, [BData (str "some data")]); (3, [BData (str "more"); BEos])]) as Hs.
  destruct (spool_all _ _ _ _ _ _ _ _) as [p out]. apply Hs.
Defined.
