(* ===== verification/Param.v ===== *)
(** * Parameters and query strings
    ([src/libapreq2/include/apreq.h], [apreq_param.h], [library/param.c]) *)
From S2P Require Import Prelude Apr Url Util.

(** ** Flag fields ([APREQ_FLAGS_*]): an [unsigned] word, a field being a bit
    position and a mask *)

Definition FLAGS_OFF (f bit mask : Z) : Z := Z.land f (Z.lnot (Z.shiftl mask bit)).
Definition FLAGS_ON (f bit mask : Z) : Z := Z.lor f (Z.shiftl mask bit).
Definition FLAGS_GET (f bit mask : Z) : Z := Z.land (Z.shiftr f bit) mask.
Definition FLAGS_SET (f bit mask value : Z) : Z :=
  Z.lor (Z.land f (Z.lnot (Z.shiftl mask bit))) (Z.shiftl (Z.land mask value) bit).

(** The fields, as bit position and width: the masks are 255, 1, 3 and 1. *)
Inductive flag_field := CHARSET | TAINTED | COOKIE_VERSION | COOKIE_SECURE.

Definition field_bit (x : flag_field) : Z :=
  match x with CHARSET => 0 | TAINTED => 8 | COOKIE_VERSION => 11 | COOKIE_SECURE => 13 end%Z.
Definition field_mask (x : flag_field) : Z :=
  match x with CHARSET => 255 | TAINTED => 1 | COOKIE_VERSION => 3 | COOKIE_SECURE => 1 end%Z.

Definition flags_off (x : flag_field) (f : Z) : Z := FLAGS_OFF f (field_bit x) (field_mask x).
Definition flags_on (x : flag_field) (f : Z) : Z := FLAGS_ON f (field_bit x) (field_mask x).
Definition flags_get (x : flag_field) (f : Z) : Z := FLAGS_GET f (field_bit x) (field_mask x).
Definition flags_set (x : flag_field) (v f : Z) : Z :=
  FLAGS_SET f (field_bit x) (field_mask x) v.

(** ** Parameters *)

Section Params.
Context {E : AprErrno} {T : AprTable}.

Record apreq_param_t := Param {
  p_info : option (apr_table bytes);
  p_upload : option brigade;
  p_flags : Z;
  p_name : bytes;    (** [v.name], [v.nlen] bytes *)
  p_data : bytes     (** [v.data], [v.dlen] bytes *)
}.

Definition apreq_param_is_tainted (p : apreq_param_t) : Z := flags_get TAINTED (p_flags p).
Definition set_flags (f : Z -> Z) (p : apreq_param_t) : apreq_param_t :=
  Param (p_info p) (p_upload p) (f (p_flags p)) (p_name p) (p_data p).
Definition apreq_param_tainted_on : apreq_param_t -> apreq_param_t := set_flags (flags_on TAINTED).
Definition apreq_param_tainted_off : apreq_param_t -> apreq_param_t := set_flags (flags_off TAINTED).
(** The argument is an [unsigned char]. *)
Definition apreq_param_charset_set (c : Z) : apreq_param_t -> apreq_param_t :=
  set_flags (flags_set CHARSET (c mod 256)%Z).
Definition apreq_param_charset_get (p : apreq_param_t) : Z := flags_get CHARSET (p_flags p).

Definition apreq_param_make (name val : bytes) : apreq_param_t := Param None None 0 name val.

(** [hole i] is the byte offset [i] of the block allocated for a parameter
    happens to hold; a cell the decoder did not write reads as that. *)
Definition resolve (hole : nat -> Byte.byte) (base : nat) (cells : list cell) : bytes :=
  imap (fun i c => default (hole (base + i)) c) cells.

(** The charset of a parameter from those of its value and of its name. *)
Definition merge_charset (charset status : Z) : Z :=
  (if status =? 8 then (if charset =? 0 then 8 else charset)
   else if status =? 1 then (if charset =? 2 then charset else 1)
   else if status =? 2 then 2
   else charset)%Z.

(** [word] holds the encoded name, one more byte, and the encoded value. *)
Definition apreq_param_decode (hole : nat -> Byte.byte) (word : bytes) (nlen vlen : nat)
  : Z * option apreq_param_t :=
  if nlen =? 0 then (APR_EBADARG, None)
  else
    let '(status, data) :=
      if 0 <? vlen then apreq_decode false (take vlen (drop (nlen + 1) word))
      else (0%Z, []) in
    if (APR_SUCCESS + charset_val APREQ_CHARSET_UTF8 <? status)%Z then (status, None)
    else
      let charset := status in
      let '(status, name) := apreq_decode false (take nlen word) in
      if (APR_SUCCESS + charset_val APREQ_CHARSET_UTF8 <? status)%Z then (status, None)
      else
        let p := Param None None 0 (resolve hole (vlen + 1) name) (resolve hole 0 data) in
        (APR_SUCCESS, Some (apreq_param_charset_set (merge_charset charset status) p)).

Definition apreq_param_encode (p : apreq_param_t) : bytes :=
  apreq_encode (p_name p) ++ str "=" ++ apreq_encode (p_data p).

(** The table takes the C string [v->name] as key. *)
Definition apreq_value_table_add (p : apreq_param_t) (t : apr_table apreq_param_t)
  : apr_table apreq_param_t :=
  apr_table_add t (cstr (p_name p)) p.

(** ** apreq_parse_query_string *)

(** The word of [n] bytes at [start] ends: decode it and add it. *)
Definition qs_word (hole : nat -> Byte.byte) (t : apr_table apreq_param_t)
    (start : bytes) (n nlen : nat) : Z * apr_table apreq_param_t :=
  if 0 <? n then
    let '(nlen, vlen) := if nlen =? 0 then (n, 0) else (nlen, n - nlen - 1) in
    match apreq_param_decode hole start nlen vlen with
    | (s, Some param) =>
        if (s =? APR_SUCCESS)%Z
        then (s, apreq_value_table_add (apreq_param_tainted_on param) t) else (s, t)
    | (s, None) => (s, t)
    end
  else (APR_SUCCESS, t).

(** [rest] is the string at [qs], [n] is [qs - start]. *)
Fixpoint qs_loop (hole : nat -> Byte.byte) (t : apr_table apreq_param_t)
    (start : bytes) (n nlen : nat) (rest : bytes) : Z * apr_table apreq_param_t :=
  match rest with
  | [] => qs_word hole t start n nlen
  | c :: rest =>
      if c =b? "=" then
        qs_loop hole t start (S n) (if nlen =? 0 then n else nlen) rest
      else if c =b? x00 then qs_word hole t start n nlen
      else if (c =b? "&") || (c =b? ";") then
        let '(s, t) := qs_word hole t start n nlen in
        if (s =? APR_SUCCESS)%Z then qs_loop hole t rest 0 0 rest else (s, t)
      else qs_loop hole t start (S n) nlen rest
  end.

Definition apreq_parse_query_string (hole : nat -> Byte.byte)
    (t : apr_table apreq_param_t) (qs : bytes) : Z * apr_table apreq_param_t :=
  qs_loop hole t qs 0 0 qs.

(** ** Reading parameters back *)

Definition param_push (arr : list apreq_param_t) (key : bytes) (val : apreq_param_t)
  : list apreq_param_t * bool := (arr ++ [val], true).

Definition apreq_params_as_array (t : apr_table apreq_param_t) (key : bytes)
  : list apreq_param_t :=
  apr_table_do param_push [] t (Some key).

Definition apreq_params_as_string (t : apr_table apreq_param_t) (key : bytes)
    (mode : apreq_join_t) : option (list cell) :=
  match apreq_params_as_array t key with
  | [] => Some []
  | arr => apreq_join (str ", ") (map p_data arr) mode
  end.

Definition upload_push (t : apr_table apreq_param_t) (key : bytes) (p : apreq_param_t)
  : apr_table apreq_param_t * bool :=
  (match p_upload p with Some _ => apreq_value_table_add p t | None => t end, true).

Definition apreq_uploads (body : apr_table apreq_param_t) : apr_table apreq_param_t :=
  apr_table_do upload_push apr_table_make body None.

Definition upload_set (q : option apreq_param_t) (key : bytes) (p : apreq_param_t)
  : option apreq_param_t * bool :=
  match p_upload p with Some _ => (Some p, false) | None => (q, true) end.

Definition apreq_upload (body : apr_table apreq_param_t) (name : bytes)
  : option apreq_param_t :=
  apr_table_do upload_set None body (Some name).

End Params.

(** * Properties *)

(** ** Flag fields *)

Definition field_width (x : flag_field) : Z :=
  match x with CHARSET => 8 | TAINTED => 1 | COOKIE_VERSION => 2 | COOKIE_SECURE => 1 end%Z.

Lemma field_mask_width x : field_mask x = Z.ones (field_width x).
Proof. by destruct x. Qed.

Lemma mask_testbit x i :
  (0 <= i)%Z -> Z.testbit (field_mask x) i = (i <? field_width x)%Z.
Proof.
  intros Hi. rewrite field_mask_width, Z.testbit_ones by (by destruct x).
  assert ((0 <=? i)%Z = true) as -> by (apply Z.leb_le; lia). done.
Qed.

(** Bit [j] belongs to field [x]. *)
Definition in_field (x : flag_field) (j : Z) : bool :=
  ((field_bit x <=? j) && (j <? field_bit x + field_width x))%Z.

Lemma shifted_mask_testbit x j :
  (0 <= j)%Z -> Z.testbit (Z.shiftl (field_mask x) (field_bit x)) j = in_field x j.
Proof.
  intros Hj. rewrite Z.shiftl_spec by done. unfold in_field.
  destruct (field_bit x <=? j)%Z eqn:Eb.
  - apply Z.leb_le in Eb. rewrite mask_testbit by lia. cbn [andb].
    apply eq_true_iff_eq. rewrite !Z.ltb_lt. lia.
  - apply Z.leb_gt in Eb. by rewrite Z.testbit_neg_r by lia.
Qed.

Lemma fields_disjoint x y j : x <> y -> in_field x j = true -> in_field y j = false.
Proof.
  intros Hne. unfold in_field. rewrite andb_true_iff, Z.leb_le, Z.ltb_lt.
  intros Hx. apply andb_false_iff. rewrite Z.leb_gt, Z.ltb_ge.
  destruct x, y; cbn in *; try done; lia.
Qed.

Lemma flags_get_testbit x f i :
  (0 <= i)%Z ->
  Z.testbit (flags_get x f) i = Z.testbit f (i + field_bit x) && (i <? field_width x)%Z.
Proof.
  intros Hi. unfold flags_get, FLAGS_GET.
  rewrite Z.land_spec, Z.shiftr_spec, mask_testbit by done. done.
Qed.

Lemma flags_set_testbit x v f j :
  (0 <= j)%Z ->
  Z.testbit (flags_set x v f) j =
    if in_field x j then Z.testbit v (j - field_bit x) else Z.testbit f j.
Proof.
  intros Hj. unfold flags_set, FLAGS_SET.
  rewrite Z.lor_spec, Z.land_spec, Z.lnot_spec, shifted_mask_testbit by done.
  rewrite Z.shiftl_spec, Z.land_spec by done.
  destruct (in_field x j) eqn:Ef; unfold in_field in Ef.
  - rewrite andb_true_iff, Z.leb_le, Z.ltb_lt in Ef.
    rewrite mask_testbit by lia.
    assert ((j - field_bit x <? field_width x)%Z = true) as -> by (apply Z.ltb_lt; lia).
    by rewrite andb_false_r.
  - rewrite andb_true_r.
    destruct (Z_lt_dec (j - field_bit x) 0) as [Hneg|Hpos].
    + by rewrite (Z.testbit_neg_r (field_mask x)), orb_false_r by lia.
    + rewrite mask_testbit by lia.
      apply andb_false_iff in Ef. rewrite Z.leb_gt, Z.ltb_ge in Ef.
      assert ((j - field_bit x <? field_width x)%Z = false) as ->
        by (apply Z.ltb_ge; destruct x; cbn in *; lia).
      by rewrite orb_false_r.
Qed.

Lemma flags_on_testbit x f j :
  (0 <= j)%Z -> Z.testbit (flags_on x f) j = Z.testbit f j || in_field x j.
Proof. intros Hj. unfold flags_on, FLAGS_ON. by rewrite Z.lor_spec, shifted_mask_testbit. Qed.

Lemma flags_off_testbit x f j :
  (0 <= j)%Z -> Z.testbit (flags_off x f) j = Z.testbit f j && negb (in_field x j).
Proof.
  intros Hj. unfold flags_off, FLAGS_OFF.
  by rewrite Z.land_spec, Z.lnot_spec, shifted_mask_testbit.
Qed.

Lemma in_field_shift x i :
  (0 <= i < field_width x)%Z -> in_field x (i + field_bit x) = true.
Proof. intros Hi. unfold in_field. rewrite andb_true_iff, Z.leb_le, Z.ltb_lt. lia. Qed.

Lemma field_bit_nonneg x : (0 <= field_bit x)%Z.
Proof. by destruct x. Qed.

Lemma flags_get_set x v f :
  flags_get x (flags_set x v f) = Z.land v (field_mask x).
Proof.
  apply Z.bits_inj'. intros i Hi. pose proof (field_bit_nonneg x).
  rewrite flags_get_testbit, flags_set_testbit, Z.land_spec, mask_testbit by lia.
  destruct (i <? field_width x)%Z eqn:Ew; [|by rewrite !andb_false_r].
  apply Z.ltb_lt in Ew. rewrite in_field_shift by lia.
  by replace (i + field_bit x - field_bit x)%Z with i by lia.
Qed.

Lemma flags_get_set_ne x y v f :
  x <> y -> flags_get x (flags_set y v f) = flags_get x f.
Proof.
  intros Hne. apply Z.bits_inj'. intros i Hi. pose proof (field_bit_nonneg x).
  rewrite !flags_get_testbit, flags_set_testbit by lia.
  destruct (i <? field_width x)%Z eqn:Ew; [|by rewrite !andb_false_r].
  apply Z.ltb_lt in Ew.
  by rewrite (fields_disjoint x y) by (done || by apply in_field_shift).
Qed.

Lemma flags_get_on x f : flags_get x (flags_on x f) = field_mask x.
Proof.
  apply Z.bits_inj'. intros i Hi. pose proof (field_bit_nonneg x).
  rewrite flags_get_testbit, flags_on_testbit, mask_testbit by lia.
  destruct (i <? field_width x)%Z eqn:Ew; [|by rewrite !andb_false_r].
  apply Z.ltb_lt in Ew. rewrite in_field_shift by lia. by rewrite orb_true_r.
Qed.

Lemma flags_get_on_ne x y f : x <> y -> flags_get x (flags_on y f) = flags_get x f.
Proof.
  intros Hne. apply Z.bits_inj'. intros i Hi. pose proof (field_bit_nonneg x).
  rewrite !flags_get_testbit, flags_on_testbit by lia.
  destruct (i <? field_width x)%Z eqn:Ew; [|by rewrite !andb_false_r].
  apply Z.ltb_lt in Ew.
  rewrite (fields_disjoint x y) by (done || by apply in_field_shift). by rewrite orb_false_r.
Qed.

Lemma flags_get_off x f : flags_get x (flags_off x f) = 0%Z.
Proof.
  apply Z.bits_inj'. intros i Hi. pose proof (field_bit_nonneg x).
  rewrite flags_get_testbit, flags_off_testbit, Z.bits_0 by lia.
  destruct (i <? field_width x)%Z eqn:Ew; [|by rewrite !andb_false_r].
  apply Z.ltb_lt in Ew. rewrite in_field_shift by lia. by rewrite andb_false_r.
Qed.

Lemma flags_get_off_ne x y f : x <> y -> flags_get x (flags_off y f) = flags_get x f.
Proof.
  intros Hne. apply Z.bits_inj'. intros i Hi. pose proof (field_bit_nonneg x).
  rewrite !flags_get_testbit, flags_off_testbit by lia.
  destruct (i <? field_width x)%Z eqn:Ew; [|by rewrite !andb_false_r].
  apply Z.ltb_lt in Ew.
  rewrite (fields_disjoint x y) by (done || by apply in_field_shift). by rewrite andb_true_r.
Qed.

(** ** Query strings *)

Section Facts.
Context {E : AprErrno} {T : AprTable}.

(** The words of a query string: up to its NUL, cut at every [&] and [;]. *)
Fixpoint qs_words (w l : bytes) : list bytes :=
  match l with
  | [] => [w]
  | c :: l =>
      if c =b? x00 then [w]
      else if (c =b? "&") || (c =b? ";") then w :: qs_words [] l
      else qs_words (w ++ [c]) l
  end.

(** The equal sign that separates name from value: the first one that is not
    the first character. *)
Definition word_eq (w : bytes) : option nat :=
  match w with
  | [] => None
  | _ :: w => S <$> memchr w "="
  end.

Definition word_param (hole : nat -> Byte.byte) (w : bytes) : Z * option apreq_param_t :=
  match word_eq w with
  | Some j => apreq_param_decode hole w j (length w - j - 1)
  | None => apreq_param_decode hole w (length w) 0
  end.

(** Adds the parameters of the non-empty words, up to the first error. *)
Fixpoint add_words (hole : nat -> Byte.byte) (t : apr_table apreq_param_t)
    (ws : list bytes) : Z * apr_table apreq_param_t :=
  match ws with
  | [] => (APR_SUCCESS, t)
  | [] :: ws => add_words hole t ws
  | w :: ws =>
      match word_param hole w with
      | (s, Some p) =>
          if (s =? APR_SUCCESS)%Z
          then add_words hole (apreq_value_table_add (apreq_param_tainted_on p) t) ws
          else (s, t)
      | (s, None) => (s, t)
      end
  end.

Lemma memchr_lt l c k : memchr l c = Some k -> k < length l.
Proof. intros H. by apply memchr_Some in H as [H _]. Qed.

Lemma memchr_snoc l c d :
  memchr (l ++ [d]) c =
    match memchr l c with
    | Some k => Some k
    | None => if d =b? c then Some (length l) else None
    end.
Proof.
  induction l as [|b l IH]; cbn; [done|].
  destruct (b =b? c); [done|]. rewrite IH.
  destruct (memchr l c); [done|]. by destruct (d =b? c).
Qed.

Lemma word_eq_lt w j : word_eq w = Some j -> 0 < j < length w.
Proof.
  destruct w as [|b w]; [done|]. cbn. destruct (memchr w "=") as [k|] eqn:Ek; cbn; [|done].
  intros [= <-]. apply memchr_lt in Ek. lia.
Qed.

Lemma word_eq_snoc w c :
  word_eq (w ++ [c]) =
    match word_eq w with
    | Some j => Some j
    | None => if (c =b? "=") && (0 <? length w) then Some (length w) else None
    end.
Proof.
  destruct w as [|b w]; cbn; [by rewrite andb_false_r|].
  rewrite memchr_snoc. destruct (memchr w "="); cbn; [done|].
  rewrite andb_true_r. by destruct (c =b? "=").
Qed.

Lemma param_decode_app hole w rest nlen vlen :
  nlen <= length w -> (vlen = 0 \/ nlen + 1 + vlen <= length w) ->
  apreq_param_decode hole (w ++ rest) nlen vlen = apreq_param_decode hole w nlen vlen.
Proof.
  intros Hn Hv. unfold apreq_param_decode. destruct (nlen =? 0); [done|].
  assert ((if 0 <? vlen then apreq_decode false (take vlen (drop (nlen + 1) (w ++ rest)))
           else (0%Z, [])) =
          (if 0 <? vlen then apreq_decode false (take vlen (drop (nlen + 1) w))
           else (0%Z, []))) as ->.
  { destruct (0 <? vlen) eqn:E0; [|done]. apply Nat.ltb_lt in E0.
    rewrite drop_app_le, take_app_le by (rewrite ?length_drop; lia). done. }
  by rewrite take_app_le by lia.
Qed.

Lemma param_decode_some hole w n v : apreq_param_decode hole w n v <> (APR_SUCCESS, None).
Proof.
  unfold apreq_param_decode. destruct (n =? 0); [intros [= H]; errno_lia|].
  destruct (if 0 <? v then _ else _) as [s1 d1].
  destruct (_ <? s1)%Z eqn:E1; [intros [= ->]; apply Z.ltb_lt in E1; cbn in E1; lia|].
  destruct (apreq_decode _ _) as [s2 d2].
  destruct (_ <? s2)%Z eqn:E2; [intros [= ->]; apply Z.ltb_lt in E2; cbn in E2; lia|done].
Qed.

Lemma qs_word_spec hole t w rest ws :
  (let '(s, t') := qs_word hole t (w ++ rest) (length w) (default 0 (word_eq w)) in
   if (s =? APR_SUCCESS)%Z then add_words hole t' ws else (s, t')) =
  add_words hole t (w :: ws).
Proof.
  unfold qs_word. destruct w as [|b w']; [done|].
  set (w := b :: w') in *. cbn [add_words]. fold w.
  assert ((0 <? length w) = true) as -> by done.
  assert (Hd : (let '(nlen, vlen) :=
                  if default 0 (word_eq w) =? 0 then (length w, 0)
                  else (default 0 (word_eq w), length w - default 0 (word_eq w) - 1) in
                apreq_param_decode hole (w ++ rest) nlen vlen) = word_param hole w).
  { unfold word_param. destruct (word_eq w) as [j|] eqn:Ej; cbn [from_option id].
    - apply word_eq_lt in Ej.
      assert ((j =? 0) = false) as -> by (apply Nat.eqb_neq; lia).
      cbn beta iota. by rewrite param_decode_app by lia.
    - cbn beta iota delta [Nat.eqb]. by rewrite param_decode_app by lia. }
  destruct (if default 0 (word_eq w) =? 0 then _ else _) as [nlen vlen].
  rewrite Hd. destruct (word_param hole w) as [s [p|]] eqn:Ew.
  - by destruct (s =? APR_SUCCESS)%Z eqn:Es; rewrite ?Es.
  - destruct (s =? APR_SUCCESS)%Z eqn:Es; [|done].
    exfalso. clear Hd. apply Z.eqb_eq in Es as ->.
    unfold word_param in Ew. destruct (word_eq w); by eapply param_decode_some.
Qed.

Lemma qs_word_end hole t w rest :
  qs_word hole t (w ++ rest) (length w) (default 0 (word_eq w)) = add_words hole t [w].
Proof.
  rewrite <- (qs_word_spec hole t w rest []). cbn [add_words].
  destruct (qs_word _ _ _ _ _) as [s t']. destruct (s =? APR_SUCCESS)%Z eqn:Es; [|done].
  by apply Z.eqb_eq in Es as ->.
Qed.

Lemma qs_loop_words hole t w rest :
  qs_loop hole t (w ++ rest) (length w) (default 0 (word_eq w)) rest =
    add_words hole t (qs_words w rest).
Proof.
  revert t w. induction rest as [|c rest IH]; intros t w; cbn [qs_loop qs_words].
  { apply qs_word_end. }
  assert (Hsnoc : forall c, w ++ c :: rest = (w ++ [c]) ++ rest) by (intros; by rewrite <- app_assoc).
  assert (Hlen : forall c, S (length w) = length (w ++ [c])) by (intros; rewrite length_app; cbn; lia).
  destruct (c =b? "=") eqn:Ee.
  - apply byte_eqb_eq in Ee as ->. rewrite Hsnoc, (Hlen "="). cbn [orb].
    assert ((if default 0 (word_eq w) =? 0 then length w else default 0 (word_eq w)) =
            default 0 (word_eq (w ++ ["="]))) as ->.
    { rewrite word_eq_snoc. destruct (word_eq w) as [j|] eqn:Ej; cbn.
      - apply word_eq_lt in Ej. destruct j; [lia|done].
      - by destruct w. }
    apply IH.
  - destruct (c =b? x00); [apply qs_word_end|].
    destruct (_ || _).
    + rewrite <- (qs_word_spec hole t w (c :: rest)).
      destruct (qs_word _ _ _ _ _) as [s t']. destruct (s =? APR_SUCCESS)%Z; [|done].
      apply (IH t' []).
    + rewrite Hsnoc, (Hlen c).
      assert (default 0 (word_eq w) = default 0 (word_eq (w ++ [c]))) as ->.
      { rewrite word_eq_snoc, Ee. by destruct (word_eq w). }
      apply IH.
Qed.

(** *** Encoded parameters *)

Lemma resolve_some hole base l : resolve hole base (map Some l) = l.
Proof.
  unfold resolve. revert base. induction l as [|b l IH]; intros base; [done|].
  cbn. f_equal. rewrite <- (IH (S base)) at 2. apply imap_ext. intros i x _.
  cbn. by replace (base + S i) with (S (base + i)) by lia.
Qed.

Definition is_word_char (c : Byte.byte) : bool := is_encoded_char c || (c =b? "=").

Lemma word_char_plain c :
  implb (is_word_char c)
    (negb (c =b? x00) && negb ((c =b? "&") || (c =b? ";"))) = true.
Proof. by_bytes c. Qed.

Lemma qs_words_app w a l :
  forallb is_word_char a = true -> qs_words w (a ++ l) = qs_words (w ++ a) l.
Proof.
  revert w. induction a as [|c a IH]; intros w; cbn [forallb app]; [by rewrite app_nil_r|].
  rewrite andb_true_iff. intros [Hc Ha]. pose proof (word_char_plain c) as Hp.
  rewrite Hc in Hp. cbn [implb] in Hp. rewrite andb_true_iff, !negb_true_iff in Hp.
  destruct Hp as [Hp1 Hp2]. cbn [qs_words]. rewrite Hp1, Hp2, IH by done.
  by rewrite <- app_assoc.
Qed.

Lemma encoded_not_eq c : implb (is_encoded_char c) (negb (c =b? "=")) = true.
Proof. by_bytes c. Qed.

Lemma memchr_encoded a l :
  forallb is_encoded_char a = true -> memchr (a ++ str "=" ++ l) "=" = Some (length a).
Proof.
  induction a as [|c a IH]; cbn [forallb app]; [done|].
  rewrite andb_true_iff. intros [Hc Ha]. pose proof (encoded_not_eq c) as Hp.
  rewrite Hc in Hp. apply negb_true_iff in Hp. cbn [memchr]. by rewrite Hp, IH.
Qed.

Lemma encode_ne name : name <> [] -> exists c l, apreq_encode name = c :: l.
Proof.
  intros Hn. pose proof (apreq_encode_length name) as Hl.
  destruct (apreq_encode name); [|eauto]. destruct name; [done|cbn in Hl; lia].
Qed.

Lemma word_eq_encoded name l :
  name <> [] ->
  word_eq (apreq_encode name ++ str "=" ++ l) = Some (length (apreq_encode name)).
Proof.
  intros Hn. pose proof (apreq_encode_chars name) as Hc.
  destruct (encode_ne name Hn) as (c & a & Ha). rewrite Ha in *. cbn [forallb] in Hc.
  apply andb_true_iff in Hc as [_ Hc]. cbn [app word_eq]. by rewrite memchr_encoded.
Qed.

(** The charset a decoded parameter is marked with. *)
Definition text_charset (name data : bytes) : Z :=
  (if is_ascii name && is_ascii data then 0 else 8)%Z.

Lemma word_param_encoded hole p :
  p_name p <> [] -> utf8_text (p_name p) -> utf8_text (p_data p) ->
  word_param hole (apreq_param_encode p) =
    (APR_SUCCESS, Some (apreq_param_charset_set (text_charset (p_name p) (p_data p))
       (Param None None 0 (p_name p) (p_data p)))).
Proof.
  intros Hn Un Ud. unfold word_param, apreq_param_encode. rewrite word_eq_encoded by done.
  set (nm := apreq_encode (p_name p)). set (da := apreq_encode (p_data p)).
  rewrite !length_app.
  replace (length nm + (length (str "=") + length da) - length nm - 1)
    with (length da) by (cbn; lia).
  unfold apreq_param_decode.
  assert ((length nm =? 0) = false) as ->.
  { apply Nat.eqb_neq. pose proof (apreq_encode_length (p_name p)).
    assert (0 < length (p_name p)) by (destruct (p_name p); [done|cbn; lia]).
    unfold nm. lia. }
  assert (drop (length nm + 1) (nm ++ str "=" ++ da) = da) as ->.
  { rewrite <- drop_drop, drop_app_length. done. }
  rewrite take_app_length. unfold nm, da.
  assert (Hdata : (if 0 <? length (apreq_encode (p_data p))
     then apreq_decode false (take (length (apreq_encode (p_data p))) (apreq_encode (p_data p)))
     else (0%Z, [])) =
     ((if is_ascii (p_data p) then 0 else 8)%Z, map Some (p_data p))).
  { rewrite firstn_all. destruct (0 <? _) eqn:E0.
    - rewrite decode_encode_utf8 by done. by destruct (is_ascii _).
    - apply Nat.ltb_ge in E0. pose proof (apreq_encode_length (p_data p)).
      by destruct (p_data p); [|cbn in *; lia]. }
  rewrite Hdata, decode_encode_utf8, !resolve_some by done.
  unfold text_charset. by destruct (is_ascii (p_name p)), (is_ascii (p_data p)).
Qed.

(** The parameters joined by [&]. *)
Fixpoint query_string (ps : list apreq_param_t) : bytes :=
  match ps with
  | [] => []
  | [p] => apreq_param_encode p
  | p :: ps => apreq_param_encode p ++ str "&" ++ query_string ps
  end.

Lemma param_encode_chars p : forallb is_word_char (apreq_param_encode p) = true.
Proof.
  assert (H : forall s, forallb is_word_char (apreq_encode s) = true).
  { intros s. pose proof (apreq_encode_chars s) as Hs.
    induction (apreq_encode s) as [|c l IH]; [done|]. cbn in *.
    apply andb_true_iff in Hs as [Hc Hs].
    assert (is_word_char c = true) as -> by (unfold is_word_char; by rewrite Hc).
    by apply IH. }
  unfold apreq_param_encode. by rewrite !forallb_app, !H.
Qed.

Lemma qs_words_query ps :
  ps <> [] -> qs_words [] (query_string ps) = map apreq_param_encode ps.
Proof.
  induction ps as [|p ps IH]; [done|]. intros _. pose proof (param_encode_chars p) as Hp.
  destruct ps as [|q ps].
  - cbn [query_string map]. rewrite <- (app_nil_r (apreq_param_encode p)) at 1.
    by rewrite qs_words_app.
  - change (query_string (p :: q :: ps))
      with (apreq_param_encode p ++ x26 :: query_string (q :: ps)).
    rewrite qs_words_app by done. cbn [app].
    change (qs_words (apreq_param_encode p) (x26 :: query_string (q :: ps)))
      with (apreq_param_encode p :: qs_words [] (query_string (q :: ps))).
    by rewrite IH.
Qed.

(** What parsing makes of an encoded parameter. *)
Definition parsed_param (p : apreq_param_t) : apreq_param_t :=
  apreq_param_tainted_on
    (apreq_param_charset_set (text_charset (p_name p) (p_data p))
       (Param None None 0 (p_name p) (p_data p))).

Definition encodable (p : apreq_param_t) : Prop :=
  p_name p <> [] /\ utf8_text (p_name p) /\ utf8_text (p_data p).

Lemma add_words_encoded hole t ps :
  Forall encodable ps ->
  let r := add_words hole t (map apreq_param_encode ps) in
  r.1 = APR_SUCCESS /\
  apr_table_elts r.2 =
    apr_table_elts t ++ map (fun p => (cstr (p_name p), parsed_param p)) ps.
Proof.
  intros Hps. revert t. induction Hps as [|p ps (Hn & Un & Ud) _ IH]; intros t.
  { cbn. by rewrite app_nil_r. }
  cbn [map add_words].
  pose proof (word_param_encoded hole p Hn Un Ud) as Hw.
  destruct (apreq_param_encode p) as [|b l] eqn:Ee.
  { unfold apreq_param_encode in Ee. destruct (encode_ne _ Hn) as (? & ? & He).
    by rewrite He in Ee. }
  rewrite Hw. rewrite Z.eqb_refl.
  destruct (IH (apreq_value_table_add (parsed_param p) t)) as [IH1 IH2].
  split; [exact IH1|].
  cbn zeta in IH2. unfold parsed_param in IH2 at 1. rewrite IH2.
  unfold apreq_value_table_add. rewrite elts_add, <- app_assoc. done.
Qed.

(** ** Claims *)

(** C22: [apreq_parse_query_string] is: cut the string at [&] and [;] up to its
    NUL, skip empty words, split each other word at its first equal sign that
    is not its first character, decode name and value, mark the parameter
    tainted and append it to the table, and stop at the first word that does
    not decode, keeping the parameters already added. *)
Theorem parse_query_string_words (hole : nat -> Byte.byte)
    (t : apr_table apreq_param_t) (qs : bytes) :
  apreq_parse_query_string hole t qs = add_words hole t (qs_words [] qs).
Proof. apply (qs_loop_words hole t [] qs). Qed.

(** C20: parameters with UTF-8 names and values, encoded by
    [apreq_param_encode] and joined by [&], parse back to the same names and
    values in the same order, each tainted and marked ASCII or UTF-8. *)
Theorem query_string_round_trip (hole : nat -> Byte.byte)
    (t : apr_table apreq_param_t) (ps : list apreq_param_t) :
  Forall encodable ps ->
  let r := apreq_parse_query_string hole t (query_string ps) in
  r.1 = APR_SUCCESS /\
  apr_table_elts r.2 =
    apr_table_elts t ++ map (fun p => (cstr (p_name p), parsed_param p)) ps.
Proof.
  intros Hps. rewrite parse_query_string_words.
  destruct ps as [|p ps]; [cbn; by rewrite app_nil_r|].
  rewrite qs_words_query by done. by apply add_words_encoded.
Qed.

(** The lookups by name and the upload list select entries of the table:
    [apreq_params_as_array] all the parameters of a name in order,
    [apreq_uploads] the parameters that carry an upload, and [apreq_upload]
    the first such parameter of a name. *)
Theorem param_selection (t : apr_table apreq_param_t) (key : bytes) :
  apreq_params_as_array t key =
    map snd (List.filter (fun e => strcaseeq key e.1) (apr_table_elts t)) /\
  map snd (apr_table_elts (apreq_uploads t)) =
    map snd (List.filter (fun e => bool_decide (p_upload e.2 <> None)) (apr_table_elts t)) /\
  apreq_upload t key =
    snd <$> List.find (fun e => strcaseeq key e.1 && bool_decide (p_upload e.2 <> None))
              (apr_table_elts t).
Proof.
  unfold apreq_params_as_array, apreq_uploads, apreq_upload. rewrite !do_elts.
  cbn [key_filter]. split_and!.
  - generalize (List.filter (fun e => strcaseeq key e.1) (apr_table_elts t)). intros l.
    rewrite <- (app_nil_l (map snd l)). generalize (@nil apreq_param_t).
    induction l as [|[k v] l IH]; intros acc; cbn; [by rewrite app_nil_r|].
    rewrite IH. by rewrite <- app_assoc.
  - assert (H : forall acc l, map snd (apr_table_elts (do_entries upload_push acc l)) =
      map snd (apr_table_elts acc) ++
      map snd (List.filter (fun e => bool_decide (p_upload e.2 <> None)) l)).
    { intros acc l. revert acc. induction l as [|[k v] l IH]; intros acc; cbn.
      { by rewrite app_nil_r. }
      rewrite IH. destruct (p_upload v) as [u|]; cbn; [|done].
      unfold apreq_value_table_add. rewrite elts_add, map_app, <- app_assoc. done. }
    rewrite H, elts_make. done.
  - induction (apr_table_elts t) as [|[k v] l IH]; cbn; [done|].
    destruct (strcaseeq key k) eqn:Ek; cbn; [|done].
    unfold upload_set at 1. by destruct (p_upload v) as [u|].
Qed.

End Facts.

(** The four fields kept in a [flags] word are independent: setting,
    switching on or switching off one of them gives that field its value (cut
    to its mask) and leaves the others as they were. *)
Theorem flag_fields_independent (x y : flag_field) (v f : Z) :
  flags_get x (flags_set x v f) = Z.land v (field_mask x) /\
  flags_get x (flags_on x f) = field_mask x /\
  flags_get x (flags_off x f) = 0%Z /\
  (x <> y ->
   flags_get x (flags_set y v f) = flags_get x f /\
   flags_get x (flags_on y f) = flags_get x f /\
   flags_get x (flags_off y f) = flags_get x f).
Proof.
  split_and!; [apply flags_get_set|apply flags_get_on|apply flags_get_off|].
  intros Hne. split_and!; [by apply flags_get_set_ne|by apply flags_get_on_ne|by apply flags_get_off_ne].
Qed.

(** ** Witnesses *)

Lemma query_string_round_trip_witness :
  let hole := fun _ => x00 in
  let ps := [Param (T := list_table) None None 0 (str "a b") (str "1&2"); Param None None 0 (str "c") []] in
  let r := apreq_parse_query_string (T := list_table) hole apr_table_make (query_string ps) in
  r.1 = APR_SUCCESS /\
  apr_table_elts r.2 =
    apr_table_elts (A := apreq_param_t) apr_table_make
      ++ map (fun p => (cstr (p_name p), parsed_param p)) ps.
Proof.
  apply (query_string_round_trip (T := list_table) (fun _ => x00) apr_table_make).
  assert (Ha : forall s, is_ascii s = true -> utf8_text s).
  { induction s as [|c s IH]; [constructor|]. cbn. rewrite andb_true_iff. intros [Hc Hs].
    apply (utf8_char c []); [unfold lead_conts; by rewrite Hc|done|by apply IH]. }
  repeat constructor; try done; by apply Ha.
Defined.

Lemma flag_fields_independent_witness :
  flags_get TAINTED (flags_set CHARSET 8 0x100) = 1%Z.
Proof.
  destruct (flag_fields_independent TAINTED CHARSET 8 0x100) as (_ & _ & _ & H).
  destruct H as [H _]; [done|]. rewrite H. reflexivity.
Defined.
