(* ===== verification/Parser.v ===== *)
(** * Parsers and hooks ([src/libapreq2/library/parser.c],
    [include/apreq_parser.h])

    The parser object and its chain of hooks, the registry that finds the
    parser of a content type, and the generic parser, which keeps the body. *)
From S2P Require Import Prelude Apr Url Brigade Param.

(** [PARSER_STATUS_CHECK]: what a parser returns at once, given its state. *)
Definition parser_status_check {E : AprErrno} (error complete no_bb : bool) : option Z :=
  if error then Some APREQ_ERROR_GENERAL
  else if complete then Some APR_SUCCESS
  else if no_bb then Some APR_INCOMPLETE
  else None.

(** The functions [parser->parser] can point to. *)
Inductive apreq_parser_function_t :=
  | apreq_parse_headers_f | apreq_parse_urlencoded_f | apreq_parse_multipart_f
  | apreq_parse_generic_f | user_parser_f (n : nat).

#[export] Instance parser_function_eq_dec : EqDecision apreq_parser_function_t.
Proof. solve_decision. Defined.

(** ** Hooks *)

Class AprXml (X : Type) := {
  xml_create : X;
  xml_feed : X -> bytes -> Z * X;
  xml_done : X -> Z * X
}.

Section Hooks.
Context {E : AprErrno} {T : AprTable} {X : Type} {XP : AprXml X}.

Inductive xml_status := XML_INCOMPLETE | XML_COMPLETE | XML_ERROR.

(** [hook->ctx]. *)
Inductive hook_ctx :=
  | CtxNull
  | CtxKey (key : bytes)               (** a C string *)
  | CtxParam (p : apreq_param_t)       (** the parameter that was found *)
  | CtxXml (x : X) (status : xml_status).

Inductive hook_fn :=
  | HookDisableUploads | HookDiscardBrigade | HookFindParam | HookXmlParser
  | HookUser (n : nat).

Record apreq_hook_t := Hook { h_hook : hook_fn; h_ctx : hook_ctx }.

(** A hook with the list [next] leads to; running it yields the status and the
    hooks, the parameter and the brigade as the calls left them. *)
Abbreviation hooks := (list apreq_hook_t).
(** No hook at all is success: the code tests [parser->hook != NULL] first. *)
Abbreviation hook_result := (Z * hooks * apreq_param_t * option brigade)%type.

(** The hooks of applications, and the bytes of a parameter's structure when it
    is read as a string. *)
Class HookEnv := {
  user_hook : nat -> hook_ctx -> (apreq_param_t -> option brigade -> hook_result) ->
              apreq_param_t -> option brigade -> hook_ctx * hook_result;
  struct_bytes : apreq_param_t -> bytes
}.
Context {H : HookEnv}.

Definition apreq_hook_make (hook : hook_fn) (next : hooks) (ctx : hook_ctx) : hooks :=
  Hook hook ctx :: next.

Definition apreq_hook_disable_uploads (bb : option brigade) : Z :=
  match bb with None => APR_SUCCESS | Some _ => APREQ_ERROR_GENERAL end.

(** The buckets that [apreq_hook_apr_xml_parser] feeds to the XML parser, until
    [EOS] or an error: the context and, when the loop returned, the status. *)
Fixpoint xml_feed_loop (x : X) (bb : brigade) : X * xml_status * option Z :=
  match bb with
  | [] => (x, XML_INCOMPLETE, None)
  | BEos :: _ =>
      let '(s, x) := xml_done x in
      (x, if (s =? APR_SUCCESS)%Z then XML_COMPLETE else XML_ERROR, Some s)
  | BFlush :: bb => xml_feed_loop x bb
  | e :: bb =>
      let '(s, d) := apr_bucket_read e in
      if negb (s =? APR_SUCCESS)%Z then (x, XML_ERROR, Some s)
      else
        let '(s, x) := xml_feed x d in
        if negb (s =? APR_SUCCESS)%Z then (x, XML_ERROR, Some s) else xml_feed_loop x bb
  end.

Definition is_final (bb : option brigade) : bool :=
  match bb with None => true | Some bb => last_is_eos bb end.

Fixpoint apreq_hook_run (hs : hooks) (param : apreq_param_t) (bb : option brigade)
  : hook_result :=
  match hs with
  | [] => (APR_SUCCESS, [], param, bb)
  | h :: next =>
      let run_next p b := apreq_hook_run next p b in
      match h_hook h with
      | HookDisableUploads => (apreq_hook_disable_uploads bb, hs, param, bb)
      | HookDiscardBrigade =>
          let '(s, next, param, bb) := run_next param bb in
          (s, h :: next, param, match bb with None => None | Some _ => Some [] end)
      | HookFindParam =>
          let key := match h_ctx h with
                     | CtxKey k => k | CtxParam p => cstr (struct_bytes p) | _ => [] end in
          let final := is_final bb in
          let '(s, next, param, bb) := run_next param bb in
          (s, (if final && strcaseeq key (cstr (p_name param))
               then Hook (h_hook h) (CtxParam param) else h) :: next, param, bb)
      | HookXmlParser =>
          let '(x, st) := match h_ctx h with CtxXml x st => (x, st)
                          | _ => (xml_create, XML_INCOMPLETE) end in
          let set x st next := Hook (h_hook h) (CtxXml x st) :: next in
          match parser_status_check (match st with XML_ERROR => true | _ => false end)
                  (match st with XML_COMPLETE => true | _ => false end)
                  (match bb with None => true | _ => false end), bb with
          | Some s, _ => (s, set x st next, param, bb)
          | None, None => (APR_INCOMPLETE, set x st next, param, bb)
          | None, Some buckets =>
              let '(x, st, s) := xml_feed_loop x buckets in
              match st, s with
              | XML_COMPLETE, _ | _, None =>
                  let '(s, next, param, bb) := run_next param bb in
                  (s, set x st next, param, bb)
              | _, Some s => (s, set x st next, param, bb)
              end
          end
      | HookUser n =>
          let '(c, (s, next, param, bb)) := user_hook n (h_ctx h) run_next param bb in
          (s, Hook (h_hook h) c :: next, param, bb)
      end
  end.

(** ** Parser objects *)

Record apreq_parser_t (C : Type) := Parser {
  ps_content_type : bytes;
  ps_parser : apreq_parser_function_t;
  ps_hook : hooks;
  ps_brigade_limit : nat;
  ps_temp_dir : option bytes;   (** [None]: NULL *)
  ps_ctx : option C
}.
Arguments Parser {C}.
Arguments ps_content_type {C}.
Arguments ps_parser {C}.
Arguments ps_hook {C}.
Arguments ps_brigade_limit {C}.
Arguments ps_temp_dir {C}.
Arguments ps_ctx {C}.

Definition apreq_parser_make {C} (content_type : bytes) (pfn : apreq_parser_function_t)
    (brigade_limit : nat) (temp_dir : option bytes) (hook : hooks) (ctx : option C)
  : apreq_parser_t C :=
  Parser content_type pfn hook brigade_limit temp_dir ctx.

Definition set_ctx {C} (p : apreq_parser_t C) (c : C) : apreq_parser_t C :=
  Parser (ps_content_type p) (ps_parser p) (ps_hook p) (ps_brigade_limit p) (ps_temp_dir p)
    (Some c).

Definition set_hook {C} (p : apreq_parser_t C) (hs : hooks) : apreq_parser_t C :=
  Parser (ps_content_type p) (ps_parser p) hs (ps_brigade_limit p) (ps_temp_dir p) (ps_ctx p).

(** [last->next = p->hook; p->hook = h] *)
Definition apreq_parser_add_hook {C} (p : apreq_parser_t C) (h : hooks) : Z * apreq_parser_t C :=
  (APR_SUCCESS, set_hook p (h ++ ps_hook p)).

(** ** The generic parser *)

Inductive gen_status := GEN_INCOMPLETE | GEN_COMPLETE | GEN_ERROR.
Record gen_ctx := GenCtx { g_param : apreq_param_t; g_status : gen_status }.

Definition set_upload (p : apreq_param_t) (bb : brigade) : apreq_param_t :=
  Param (p_info p) (Some bb) (p_flags p) (p_name p) (p_data p).

Definition gen_make : gen_ctx :=
  GenCtx (Param (Some apr_table_make) (Some []) 0 (str "_dummy_") []) GEN_INCOMPLETE.

Context {W : Type} {F : AprFile W} (FILE_BUCKET_LIMIT : nat).

Abbreviation generic := (apreq_parser_t gen_ctx).

(** The status, the system, the parser and the brigade; [None]: the last bucket
    of a NULL brigade is looked at. *)
Definition apreq_parse_generic (w : W) (psr : generic) (bb : option brigade)
  : option (Z * W * generic * option brigade) :=
  match bb with
  | None => None
  | Some buckets =>
      let ctx := default gen_make (ps_ctx psr) in
      let stop s st w param psr bb := Some (s, w, set_ctx psr (GenCtx param st), bb) in
      match parser_status_check (match g_status ctx with GEN_ERROR => true | _ => false end)
              (match g_status ctx with GEN_COMPLETE => true | _ => false end) false with
      | Some s => stop s (g_status ctx) w (g_param ctx) psr bb
      | None =>
          let saw_eos := existsb bucket_is_eos buckets in
          let '(s, hs, param, bb) := apreq_hook_run (ps_hook psr) (g_param ctx) bb in
          let psr := set_hook psr hs in
          if negb (s =? APR_SUCCESS)%Z then stop s GEN_ERROR w param psr bb
          else
            let r := apreq_brigade_concat FILE_BUCKET_LIMIT false w (ps_brigade_limit psr)
                       (default [] (p_upload param)) (default [] bb) in
            let param := set_upload param (cr_out r) in
            let s := cr_status r in
            if negb (s =? APR_SUCCESS)%Z then stop s GEN_ERROR (cr_world r) param psr (Some (cr_in r))
            else if saw_eos then stop APR_SUCCESS GEN_COMPLETE (cr_world r) param psr (Some (cr_in r))
            else stop APR_INCOMPLETE GEN_INCOMPLETE (cr_world r) param psr (Some (cr_in r))
      end
  end.

End Hooks.
Arguments Parser {T X C}.
Arguments ps_content_type {T X C}.
Arguments ps_parser {T X C}.
Arguments ps_hook {T X C}.
Arguments ps_brigade_limit {T X C}.
Arguments ps_temp_dir {T X C}.
Arguments ps_ctx {T X C}.
Arguments HookEnv {T} X.

(** ** The registry *)

Section Registry.
Context {E : AprErrno}.

(** [default_parsers_lock], and [default_parsers] with [default_parser_pool]:
    both are NULL or both are set. *)
Record registry := Registry {
  default_parsers_lock : bool;
  default_parser_pool : bool;
  default_parsers : option (gmap bytes apreq_parser_function_t)
}.

Definition registry_start : registry := Registry false false None.

(** [apreq_parsers_cleanup]: the pool is destroyed. *)
Definition apreq_parsers_cleanup (g : registry) : registry := registry_start.

Definition apreq_register_parser (g : registry) (enctype : option bytes)
    (pfn : option apreq_parser_function_t) : Z * registry :=
  match default_parsers g with
  | None => (APR_EINIT, g)
  | Some m =>
      match enctype with
      | None => (APR_EINVAL, g)
      | Some k =>
          if default_parsers_lock g then (APREQ_ERROR_GENERAL, g)
          else (APR_SUCCESS,
                Registry (default_parsers_lock g) (default_parser_pool g)
                  (Some (match pfn with Some f => <[k := f]> m | None => delete k m end)))
      end
  end.

(** [pool_status] is what [apr_pool_create] returns. *)
Definition apreq_pre_initialize (pool_status : Z) (g : registry) : Z * registry :=
  if default_parser_pool g then (APR_SUCCESS, g)
  else if default_parsers_lock g then (APREQ_ERROR_GENERAL, g)
  else if negb (pool_status =? APR_SUCCESS)%Z then (pool_status, g)
  else
    let g := Registry (default_parsers_lock g) true (Some ∅) in
    let g := (apreq_register_parser g (Some (str "application/x-www-form-urlencoded"))
                (Some apreq_parse_urlencoded_f)).2 in
    let g := (apreq_register_parser g (Some (str "multipart/form-data"))
                (Some apreq_parse_multipart_f)).2 in
    let g := (apreq_register_parser g (Some (str "multipart/related"))
                (Some apreq_parse_multipart_f)).2 in
    (APR_SUCCESS, g).

Definition apreq_post_initialize (g : registry) : Z * registry :=
  if negb (default_parser_pool g) then (APREQ_ERROR_GENERAL, g)
  else (APR_SUCCESS, Registry true (default_parser_pool g) (default_parsers g)).

Definition apreq_initialize (pool_status : Z) (g : registry) : Z * registry :=
  let '(s, g) := apreq_pre_initialize pool_status g in
  if negb (s =? APR_SUCCESS)%Z then (s, g) else apreq_post_initialize g.

(** The length of the media type: up to a semicolon or the end. *)
Fixpoint media_type (enctype : bytes) : bytes :=
  match enctype with
  | [] => []
  | c :: enctype =>
      if (c =b? x00) || (c =b? ";") then [] else c :: media_type enctype
  end.

Definition apreq_parser (g : registry) (enctype : option bytes)
  : option apreq_parser_function_t :=
  match enctype with
  | None => None
  | Some enctype =>
      if negb (default_parsers_lock g) then None
      else m ← default_parsers g; m !! media_type enctype
  end.

(** The calls of a process, in any order. *)
Inductive registry_op :=
  | OpPre (pool_status : Z) | OpPost
  | OpRegister (enctype : option bytes) (pfn : option apreq_parser_function_t)
  | OpCleanup.

Definition registry_step (g : registry) (o : registry_op) : registry :=
  match o with
  | OpPre s => (apreq_pre_initialize s g).2
  | OpPost => (apreq_post_initialize g).2
  | OpRegister k f => (apreq_register_parser g k f).2
  | OpCleanup => apreq_parsers_cleanup g
  end.

End Registry.

(** * Properties *)

Section RegistryFacts.
Context {E : AprErrno}.

(** The registry's invariant: the table exists exactly while its pool does, and
    it is locked only then. *)
Definition registry_ok (g : registry) : Prop :=
  (default_parser_pool g = true <-> is_Some (default_parsers g)) /\
  (default_parsers_lock g = true -> default_parser_pool g = true).

Lemma register_ok g k f : registry_ok g -> registry_ok (apreq_register_parser g k f).2.
Proof.
  unfold registry_ok, apreq_register_parser. intros [H1 H2].
  destruct (default_parsers g) as [m|] eqn:Em, k as [k|]; cbn; rewrite ?Em; try done.
  destruct (default_parsers_lock g) eqn:El; cbn; rewrite ?Em, ?El; [done|].
  split; [|done]. rewrite H1. split; intros _; eauto.
Qed.

Lemma pre_initialize_ok s g : registry_ok g -> registry_ok (apreq_pre_initialize s g).2.
Proof.
  intros Hok. unfold apreq_pre_initialize. destruct (default_parser_pool g) eqn:Ep; [done|].
  destruct (default_parsers_lock g) eqn:El; [done|].
  destruct (negb _); [done|]. cbn [snd].
  repeat apply register_ok. split; cbn; [split; eauto|done].
Qed.

Lemma registry_step_ok g o : registry_ok g -> registry_ok (registry_step g o).
Proof.
  intros Hok. destruct o; cbn [registry_step].
  - by apply pre_initialize_ok.
  - unfold apreq_post_initialize. destruct (default_parser_pool g) eqn:Ep; cbn; [|done].
    destruct Hok as [H1 _]. split; cbn; [rewrite <- H1, Ep; done|done].
  - by apply register_ok.
  - split; cbn; [split; [done|by intros [? ?]]|done].
Qed.

Lemma registry_steps_ok ops g : registry_ok g -> registry_ok (foldl registry_step g ops).
Proof. revert g. induction ops as [|o ops IH]; cbn; auto using registry_step_ok. Qed.

Lemma registry_start_ok : registry_ok registry_start.
Proof. split; cbn; [split; [done|by intros [? ?]]|done]. Qed.

(** A locked registry does not change but for a cleanup. *)
Lemma locked_step g o :
  registry_ok g -> default_parsers_lock g = true -> o <> OpCleanup -> registry_step g o = g.
Proof.
  intros [H1 H2] Hl Ho. specialize (H2 Hl).
  destruct o as [s| |k f|]; cbn [registry_step]; [| | |done].
  - unfold apreq_pre_initialize. by rewrite H2.
  - unfold apreq_post_initialize. by destruct g; cbn in *; subst.
  - unfold apreq_register_parser. destruct (default_parsers g), k; cbn; [|done..].
    by rewrite Hl.
Qed.

Lemma media_type_no_semicolon k rest :
  forallb (fun c => negb ((c =b? x00) || (c =b? ";"))) k = true ->
  media_type (k ++ rest) = k ++ media_type rest.
Proof.
  induction k as [|c k IH]; cbn; [done|].
  rewrite andb_true_iff, negb_true_iff. intros [-> Hk]. by rewrite IH.
Qed.

(** C31: in every run of the registry calls from the start of a process, the
    table of parsers is there exactly while its pool is; no parser is found
    before the registry is locked; and from then on, until the pool goes away,
    no call changes which parser a content type finds. *)
Theorem registry_locked_is_fixed (ops later : list registry_op) (ct : option bytes) :
  let g := foldl registry_step registry_start ops in
  registry_ok g /\
  (default_parsers_lock g = false -> apreq_parser g ct = None) /\
  (default_parsers_lock g = true -> OpCleanup ∉ later ->
   apreq_parser (foldl registry_step g later) ct = apreq_parser g ct).
Proof.
  cbn zeta. set (g := foldl registry_step registry_start ops).
  assert (Hok : registry_ok g) by apply registry_steps_ok, registry_start_ok.
  split_and!; [done| |].
  - intros Hl. unfold apreq_parser. rewrite Hl. by destruct ct.
  - intros Hl Hc. f_equal. induction later as [|o later IH]; [done|]. cbn [foldl].
    rewrite locked_step by (try done; set_solver). apply IH. set_solver.
Qed.

(** After a successful [apreq_initialize] from a fresh start, a content type
    finds the parser registered for its media type, whatever parameters follow
    the semicolon, and nothing for any other media type. *)
Theorem initialized_lookup (ct params : bytes) :
  no_nul ct = true -> forallb (fun c => negb (c =b? ";")) ct = true ->
  apreq_parser (apreq_initialize APR_SUCCESS registry_start).2 (Some (ct ++ str ";" ++ params)) =
    (if bool_decide (ct = str "application/x-www-form-urlencoded")
     then Some apreq_parse_urlencoded_f
     else if bool_decide (ct = str "multipart/form-data" \/ ct = str "multipart/related")
     then Some apreq_parse_multipart_f else None).
Proof.
  intros Hn Hs. cbn [apreq_initialize apreq_pre_initialize apreq_post_initialize
    apreq_register_parser registry_start default_parser_pool default_parsers_lock
    default_parsers negb Z.eqb APR_SUCCESS fst snd apreq_parser mbind option_bind].
  rewrite media_type_no_semicolon.
  2: { unfold no_nul in Hn. induction ct as [|c ct IH]; [done|]. cbn in *.
       rewrite !andb_true_iff, !negb_true_iff in *. destruct Hn as [Hn1 Hn2], Hs as [Hs1 Hs2].
       rewrite Hn1, Hs1. auto. }
  change (media_type (str ";" ++ params)) with (@nil Byte.byte). rewrite app_nil_r.
  destruct (decide (ct = str "multipart/related")) as [->|H1]; [reflexivity|].
  rewrite lookup_insert_ne by done.
  destruct (decide (ct = str "multipart/form-data")) as [->|H2]; [reflexivity|].
  rewrite lookup_insert_ne by done.
  destruct (decide (ct = str "application/x-www-form-urlencoded")) as [->|H3]; [reflexivity|].
  rewrite lookup_insert_ne by done. rewrite lookup_empty.
  rewrite !bool_decide_false; [done|tauto|done].
Qed.

End RegistryFacts.

Lemma initialized_lookup_witness :
  apreq_parser (apreq_initialize APR_SUCCESS registry_start).2
    (Some (str "multipart/form-data; boundary=xyz")) = Some apreq_parse_multipart_f.
Proof. exact (initialized_lookup (str "multipart/form-data") (str " boundary=xyz") eq_refl eq_refl). Defined.

Lemma registry_locked_is_fixed_witness :
  let g := foldl registry_step registry_start [OpPre APR_SUCCESS; OpPost] in
  apreq_parser (foldl registry_step g [OpRegister (Some (str "a/b")) (Some apreq_parse_generic_f)])
    (Some (str "a/b")) = apreq_parser g (Some (str "a/b")).
Proof.
  destruct (registry_locked_is_fixed [OpPre APR_SUCCESS; OpPost]
    [OpRegister (Some (str "a/b")) (Some apreq_parse_generic_f)] (Some (str "a/b"))) as (_ & _ & H).
  apply H; [reflexivity|set_solver].
Defined.

(** ** The generic parser keeps the body *)

Section GenericFacts.
Context {E : AprErrno} {T : AprTable} {X : Type} {XP : AprXml X} {H : HookEnv X}
        {W : Type} {F : AprFile W} (FILE_BUCKET_LIMIT : nat).

Abbreviation generic := (apreq_parser_t (X := X) gen_ctx).
Abbreviation parse := (apreq_parse_generic FILE_BUCKET_LIMIT).

Definition gen_state (psr : generic) : gen_ctx := default gen_make (ps_ctx psr).
Definition gen_upload (psr : generic) : brigade := default [] (p_upload (g_param (gen_state psr))).

(** A run of calls, each with the next brigade of the body. *)
Fixpoint gen_calls (w : W) (psr : generic) (s : Z) (bbs : list brigade) : option (Z * W * generic) :=
  match bbs with
  | [] => Some (s, w, psr)
  | bb :: bbs => '(s, w, psr, _) ← parse w psr (Some bb); gen_calls w psr s bbs
  end.

(** Without hooks: the parser failed for good, or has kept [data]. *)
Definition gen_keeps (data : bytes) (psr : generic) : Prop :=
  ps_hook psr = [] /\
  (g_status (gen_state psr) = GEN_ERROR \/
   g_status (gen_state psr) = GEN_INCOMPLETE /\
   brigade_data (gen_upload psr) = data /\ spool_ok FILE_BUCKET_LIMIT (gen_upload psr)).

Lemma gen_step data w psr bb :
  0 < FILE_BUCKET_LIMIT -> gen_keeps data psr -> forallb not_spool bb = true ->
  exists s w' psr' bb', parse w psr (Some bb) = Some (s, w', psr', bb') /\
    (if existsb bucket_is_eos bb then
       s = APR_SUCCESS -> g_status (gen_state psr') = GEN_COMPLETE /\
         brigade_data (gen_upload psr') = data ++ brigade_data bb
     else gen_keeps (data ++ brigade_data bb) psr').
Proof.
  intros HL [Hh Hk] Hb. unfold apreq_parse_generic.
  change (default gen_make (ps_ctx psr)) with (gen_state psr).
  change (default [] (p_upload (g_param (gen_state psr)))) with (gen_upload psr).
  destruct Hk as [He|(Hi & Hd & Hs)].
  - rewrite He. cbn [parser_status_check]. eexists _, _, _, _. split; [done|].
    destruct (existsb _ _); [intros Hx; exfalso; errno_lia|]. split; [done|by left].
  - rewrite Hi, Hh. cbn [parser_status_check apreq_hook_run negb Z.eqb APR_SUCCESS ps_brigade_limit
      set_hook from_option id]. 
    pose proof (concat_bb_spec FILE_BUCKET_LIMIT w (ps_brigade_limit psr) (gen_upload psr) bb HL Hs Hb)
      as Hc. cbn zeta in Hc.
    change (default [] (p_upload (g_param (gen_state psr)))) with (gen_upload psr).
    set (r := apreq_brigade_concat _ _ _ _ _ _) in *.
    destruct (cr_status r =? APR_SUCCESS)%Z eqn:Es; cbn [negb].
    + apply Z.eqb_eq in Es. destruct (Hc Es) as (H1 & _ & H3 & _). rewrite Hd in H1.
      destruct (existsb bucket_is_eos bb); eexists _, _, _, _; (split; [done|]).
      * intros _. by split.
      * split; [done|]. right. by split_and!.
    + apply Z.eqb_neq in Es. eexists _, _, _, _. split; [done|].
      destruct (existsb _ _); [by intros ?|]. split; [done|by left].
Qed.

Lemma gen_calls_keep data w psr s bbs :
  0 < FILE_BUCKET_LIMIT -> gen_keeps data psr ->
  forallb (forallb not_spool) bbs = true -> forallb (fun bb => negb (existsb bucket_is_eos bb)) bbs = true ->
  exists s' w' psr', gen_calls w psr s bbs = Some (s', w', psr') /\
    gen_keeps (data ++ brigade_data (concat bbs)) psr'.
Proof.
  intros HL. revert data w psr s. induction bbs as [|bb bbs IH]; intros data w psr s Hk Hn He.
  { cbn. rewrite app_nil_r. eauto. }
  cbn [forallb] in Hn, He. rewrite andb_true_iff in Hn, He. destruct Hn as [Hn Hn'], He as [He He'].
  destruct (gen_step data w psr bb HL Hk Hn) as (s1 & w1 & p1 & b1 & Hp & Hs).
  rewrite negb_true_iff in He. rewrite He in Hs.
  destruct (IH _ w1 p1 s1 Hs Hn' He') as (s2 & w2 & p2 & Hg & Hk2).
  eexists _, _, _. split; [cbn [gen_calls]; rewrite Hp; exact Hg|].
  cbn [concat]. by rewrite brigade_data_app, app_assoc.
Qed.

Lemma gen_calls_app w psr s a b :
  gen_calls w psr s (a ++ b) = '(s, w, psr) ← gen_calls w psr s a; gen_calls w psr s b.
Proof.
  revert w psr s. induction a as [|bb a IH]; intros w psr s; [done|]. cbn [app gen_calls].
  destruct (parse w psr (Some bb)) as [[[[s1 w1] p1] b1]|]; [|done]. apply IH.
Qed.

(** Given a body in any number of brigades, the last one ending with EOS,
    the generic parser without hooks accepts every call, and when its last call
    reports success it has kept exactly the data of the whole body, whatever
    part of it moved to a temporary file. *)
Lemma generic_keeps_body (w : W) (psr : generic) (bbs : list brigade) (fin : brigade) :
  0 < FILE_BUCKET_LIMIT -> ps_hook psr = [] -> ps_ctx psr = None ->
  forallb (forallb not_spool) (bbs ++ [fin]) = true ->
  forallb (fun bb => negb (existsb bucket_is_eos bb)) (bbs ++ [fin]) = true ->
  exists s w' psr',
    gen_calls w psr APR_INCOMPLETE (bbs ++ [fin ++ [BEos]]) = Some (s, w', psr') /\
    (s = APR_SUCCESS ->
     g_status (gen_state psr') = GEN_COMPLETE /\
     brigade_data (gen_upload psr') = brigade_data (concat bbs ++ fin)).
Proof.
  intros HL Hh Hc Hn He. rewrite !forallb_app, !andb_true_iff in Hn, He.
  destruct Hn as [Hn Hn'], He as [He He']. cbn [forallb] in Hn'. rewrite andb_true_r in Hn'.
  assert (Hk : gen_keeps [] psr).
  { split; [done|]. right. unfold gen_upload, gen_state. rewrite Hc. by split_and!. }
  destruct (gen_calls_keep [] w psr APR_INCOMPLETE bbs HL Hk Hn He) as (s1 & w1 & p1 & Hg & Hk1).
  destruct (gen_step _ w1 p1 (fin ++ [BEos]) HL Hk1) as (s2 & w2 & p2 & b2 & Hp & Hs).
  { by rewrite forallb_app, Hn'. }
  eexists _, _, _. split.
  { rewrite gen_calls_app, Hg. cbn [mbind option_bind gen_calls]. by rewrite Hp. }
  rewrite existsb_app, orb_true_r in Hs. intros ->. destruct (Hs eq_refl) as [-> Hd].
  split; [done|]. rewrite Hd, !brigade_data_app. cbn. by rewrite app_nil_r.
Qed.

End GenericFacts.

#[export] Instance no_xml : AprXml unit := {|
  xml_create := tt; xml_feed x d := (APR_SUCCESS, x); xml_done x := (APR_SUCCESS, x)
|}.
#[export] Instance no_user_hooks : HookEnv (T := list_table) unit := {|
  user_hook n c run p bb := (c, run p bb); struct_bytes p := []
|}.

Lemma generic_keeps_body_witness :
  exists s w' psr',
    gen_calls (T := list_table) 100 tt (apreq_parser_make [] apreq_parse_generic_f 2 None [] None)
      APR_INCOMPLETE [[BData (str "ab")]; [BData (str "cd"); BEos]] = Some (s, w', psr') /\
    (s = APR_SUCCESS ->
     g_status (gen_state psr') = GEN_COMPLETE /\
     brigade_data (gen_upload psr') = str "abcd").
Proof.
  apply (generic_keeps_body (T := list_table) 100 tt
    (apreq_parser_make [] apreq_parse_generic_f 2 None [] None)
    [[BData (str "ab")]] [BData (str "cd")]); try reflexivity. lia.
Defined.
