(* ===== verification/Urlencoded.v ===== *)
(** * The parser of [application/x-www-form-urlencoded] bodies
    ([src/libapreq2/library/parser_urlencoded.c])

    A body arrives in brigades.  The parser keeps what it has not used yet in
    its own brigade, scans that from the front on every call, cuts the bucket
    at each separator and decodes a name and a value from the vectors before
    it. *)
From S2P Require Import Prelude Apr Url Util Brigade Param Parser.

Section Urlencoded.
Context {E : AprErrno} {T : AprTable} {X : Type} {XP : AprXml X} {H : HookEnv X}.

Inductive url_status := URL_NAME | URL_VALUE | URL_COMPLETE | URL_ERROR.
Record url_ctx := UrlCtx { u_bb : brigade; u_status : url_status }.

(** ** split_urlword *)

(** One of the two loops: buckets are read until [n] bytes are; the last byte
    read, the separator, is left out.  Yields the status, the vectors and the
    brigade from [e]. *)
Fixpoint url_vec (bb : brigade) (n : Z) : Z * list bytes * brigade :=
  match bb with
  | [] => (APR_SUCCESS, [], [])
  | e :: bb' =>
      if bucket_is_eos e then (APR_SUCCESS, [], bb)
      else
        let '(s, d) := apr_bucket_read e in
        if negb (s =? APR_SUCCESS)%Z then (s, [], bb)
        else
          let n := (n - Z.of_nat (length d))%Z in
          if (n =? 0)%Z then (APR_SUCCESS, [removelast d], bb')
          else let '(s, v, r) := url_vec bb' n in (s, d :: v, r)
  end.

(** The status, the parameter, and the brigade without the buckets used. *)
Definition split_urlword (hole : nat -> Byte.byte) (bb : brigade) (nlen vlen : nat)
  : Z * option apreq_param_t * brigade :=
  if nlen =? 0 then (APR_EBADARG, None, bb)
  else
    let '(s, nvec, e) := url_vec bb (Z.of_nat nlen + 1) in
    if negb (s =? APR_SUCCESS)%Z then (s, None, bb)
    else
      let '(s, vvec, e) := url_vec e (Z.of_nat vlen + 1) in
      if negb (s =? APR_SUCCESS)%Z then (s, None, bb)
      else
        let '(s, data) := apreq_decodev vvec in
        if (APR_SUCCESS + charset_val APREQ_CHARSET_UTF8 <? s)%Z then (s, None, bb)
        else
          let charset := s in
          let '(s, name) := apreq_decodev nvec in
          if (APR_SUCCESS + charset_val APREQ_CHARSET_UTF8 <? s)%Z then (s, None, bb)
          else
            let p := Param None None 0 (resolve hole (length data + 1) name)
                       (resolve hole 0 data) in
            (APR_SUCCESS,
             Some (apreq_param_charset_set (merge_charset charset s) (apreq_param_tainted_on p)), e).

(** ** The scan *)

(** [data[off++]] up to [&] or [;]: how many bytes precede it. *)
Fixpoint value_end (d : bytes) : option nat :=
  match d with
  | [] => None
  | c :: d => if (c =b? "&") || (c =b? ";") then Some 0 else S <$> value_end d
  end.

(** How the scan of the brigade ends; the brigade is the one with the buckets
    that were split. *)
Inductive url_event :=
  | UrlMore (st : url_status) (bb : brigade)               (** the sentinel *)
  | UrlEos (st : url_status) (nlen vlen : nat) (bb : brigade)
  | UrlRead (s : Z) (bb : brigade)                         (** a read failed *)
  | UrlPair (nlen vlen : nat) (bb : brigade).              (** a separator *)

(** [pre]: the buckets before [e]. *)
Fixpoint url_scan (pre : brigade) (st : url_status) (nlen vlen : nat) (bb : brigade)
  : url_event :=
  match bb with
  | [] => UrlMore st pre
  | e :: bb' =>
      if bucket_is_eos e then UrlEos st nlen vlen (pre ++ bb)
      else
        let '(s, d) := apr_bucket_read e in
        if negb (s =? APR_SUCCESS)%Z then UrlRead s (pre ++ bb)
        else
          let in_value pre e d nlen :=
            match value_end d with
            | Some j =>
                let '(e1, e2) := apr_bucket_split e (S j) in
                UrlPair nlen (vlen + j) (pre ++ e1 :: e2 :: bb')
            | None => url_scan (pre ++ [e]) URL_VALUE nlen (vlen + length d) bb'
            end in
          match st with
          | URL_NAME =>
              match memchr d "=" with
              | Some k =>
                  let '(e1, e2) := apr_bucket_split e (S k) in
                  in_value (pre ++ [e1]) e2 (drop (S k) d) (nlen + k)
              | None => url_scan (pre ++ [e]) URL_NAME (nlen + length d) vlen bb'
              end
          | _ => in_value pre e d nlen
          end
  end.

(** ** The parser *)

Record urlenc_result := UrlParsed {
  ue_status : Z; ue_table : apr_table apreq_param_t; ue_ctx : url_ctx;
  ue_hooks : list (apreq_hook_t (X := X));
  ue_bb : brigade     (** what the caller's brigade holds *)
}.

(** [split_urlword], then the hooks. *)
Definition url_word (hole : nat -> Byte.byte) (hs : list (apreq_hook_t (X := X))) (bb : brigade)
    (nlen vlen : nat) : Z * option apreq_param_t * brigade * list (apreq_hook_t (X := X)) :=
  match split_urlword hole bb nlen vlen with
  | (s, Some p, bb) =>
      let '(s, hs, p, _) := apreq_hook_run hs p None in (s, Some p, bb, hs)
  | (s, None, bb) => (s, None, bb, hs)
  end.

(** From [parse_url_brigade]; each turn uses up at least the two bytes of its
    separators. *)
Fixpoint url_brigade (fuel : nat) (hole : nat -> Byte.byte) (t : apr_table apreq_param_t)
    (hs : list (apreq_hook_t (X := X))) (bb : brigade) : urlenc_result :=
  match url_scan [] URL_NAME 0 0 bb with
  | UrlMore st bb => UrlParsed APR_INCOMPLETE t (UrlCtx bb st) hs []
  | UrlRead s bb => UrlParsed s t (UrlCtx bb URL_ERROR) hs []
  | UrlEos URL_NAME _ _ bb => UrlParsed APR_SUCCESS t (UrlCtx [] URL_NAME) hs bb
  | UrlEos _ nlen vlen bb =>
      match url_word hole hs bb nlen vlen with
      | (s, Some p, bb, hs) =>
          if (s =? APR_SUCCESS)%Z
          then UrlParsed s (apreq_value_table_add p t) (UrlCtx [] URL_COMPLETE) hs bb
          else UrlParsed s t (UrlCtx [] URL_ERROR) hs bb
      | (s, None, bb, hs) => UrlParsed s t (UrlCtx [] URL_ERROR) hs bb
      end
  | UrlPair nlen vlen bb =>
      match url_word hole hs bb nlen vlen, fuel with
      | (s, Some p, bb, hs), S fuel =>
          if (s =? APR_SUCCESS)%Z
          then url_brigade fuel hole (apreq_value_table_add p t) hs bb
          else UrlParsed s t (UrlCtx bb URL_ERROR) hs []
      | (s, _, bb, hs), _ => UrlParsed s t (UrlCtx bb URL_ERROR) hs []
      end
  end.

(** The status, the parser, the table and the caller's brigade. *)
Definition apreq_parse_urlencoded (hole : nat -> Byte.byte) (psr : apreq_parser_t (X := X) url_ctx)
    (t : apr_table apreq_param_t) (bb : option brigade)
  : Z * apreq_parser_t (X := X) url_ctx * apr_table apreq_param_t * option brigade :=
  let ctx := default (UrlCtx [] URL_NAME) (ps_ctx psr) in
  match parser_status_check (match u_status ctx with URL_ERROR => true | _ => false end)
          (match u_status ctx with URL_COMPLETE => true | _ => false end)
          (match bb with None => true | _ => false end) with
  | Some s => (s, set_ctx psr ctx, t, bb)
  | None =>
      let all := u_bb ctx ++ default [] bb in
      let r := url_brigade (length (brigade_data all)) hole t (ps_hook psr) all in
      (ue_status r, set_ctx (set_hook psr (ue_hooks r)) (ue_ctx r), ue_table r, Some (ue_bb r))
  end.

End Urlencoded.

(** * Properties *)

(** ** The reference: the body as one string *)

Section Facts.
Context {E : AprErrno} {T : AprTable} {X : Type} {XP : AprXml X} {H : HookEnv X}.

(** The first name and value of a text in which both are complete, and what
    follows them. *)
Definition next_pair (l : bytes) : option (bytes * bytes * bytes) :=
  k ← memchr l "="; j ← value_end (drop (S k) l);
  Some (take k l, take j (drop (S k) l), drop (S j) (drop (S k) l)).

(** The parameter of an encoded name and value. *)
Definition pair_param (hole : nat -> Byte.byte) (name value : bytes) : Z * option apreq_param_t :=
  if length name =? 0 then (APR_EBADARG, None)
  else
    let '(s, data) := apreq_decodev [value] in
    if (APR_SUCCESS + charset_val APREQ_CHARSET_UTF8 <? s)%Z then (s, None)
    else
      let '(s', nm) := apreq_decodev [name] in
      if (APR_SUCCESS + charset_val APREQ_CHARSET_UTF8 <? s')%Z then (s', None)
      else (APR_SUCCESS, Some (apreq_param_charset_set (merge_charset s s')
             (apreq_param_tainted_on
               (Param None None 0 (resolve hole (length data + 1) nm) (resolve hole 0 data))))).

(** All complete pairs of a text: the status if one does not decode, the table,
    and what is left. *)
Fixpoint form_pairs (fuel : nat) (hole : nat -> Byte.byte) (t : apr_table apreq_param_t)
    (l : bytes) : option Z * apr_table apreq_param_t * bytes :=
  match next_pair l, fuel with
  | None, _ => (None, t, l)
  | Some (n, v, r), S fuel =>
      match pair_param hole n v with
      | (s, Some p) => form_pairs fuel hole (apreq_value_table_add p t) r
      | (s, None) => (Some s, t, l)
      end
  | Some _, O => (Some APREQ_ERROR_GENERAL, t, l)
  end.

Definition pairs_of (hole : nat -> Byte.byte) (t : apr_table apreq_param_t) (l : bytes) :=
  form_pairs (length l) hole t l.

(** The last pair: its value ends with the body; a rest without an equal sign
    is dropped. *)
Definition form_end (hole : nat -> Byte.byte) (t : apr_table apreq_param_t) (l : bytes)
  : Z * apr_table apreq_param_t :=
  match memchr l "=" with
  | None => (APR_SUCCESS, t)
  | Some k =>
      match pair_param hole (take k l) (drop (S k) l) with
      | (s, Some p) => (s, apreq_value_table_add p t)
      | (s, None) => (s, t)
      end
  end.

Definition urlencoded_form (hole : nat -> Byte.byte) (t : apr_table apreq_param_t) (l : bytes)
  : Z * apr_table apreq_param_t :=
  match pairs_of hole t l with
  | (None, t, r) => form_end hole t r
  | (Some s, t, _) => (s, t)
  end.

(** ** Texts *)

Lemma memchr_app_Some l x c k : memchr l c = Some k -> memchr (l ++ x) c = Some k.
Proof.
  revert k. induction l as [|b l IH]; intros k; cbn; [done|].
  destruct (b =b? c); [done|]. destruct (memchr l c) as [k'|]; cbn; [|done].
  intros [= <-]. by rewrite (IH k').
Qed.

Lemma memchr_app_None l x c :
  memchr l c = None -> memchr (l ++ x) c = (fun k => length l + k) <$> memchr x c.
Proof.
  induction l as [|b l IH]; cbn; [intros _; by destruct (memchr x c)|].
  destruct (b =b? c); [done|]. destruct (memchr l c); cbn; [done|].
  intros _. rewrite IH by done. by destruct (memchr x c).
Qed.

Lemma value_end_app_Some l x k : value_end l = Some k -> value_end (l ++ x) = Some k.
Proof.
  revert k. induction l as [|b l IH]; intros k; cbn; [done|].
  destruct (_ || _); [done|]. destruct (value_end l) as [k'|]; cbn; [|done].
  intros [= <-]. by rewrite (IH k').
Qed.

Lemma value_end_app_None l x :
  value_end l = None -> value_end (l ++ x) = (fun k => length l + k) <$> value_end x.
Proof.
  induction l as [|b l IH]; cbn; [intros _; by destruct (value_end x)|].
  destruct (_ || _); [done|]. destruct (value_end l); cbn; [done|].
  intros _. rewrite IH by done. by destruct (value_end x).
Qed.

Lemma value_end_lt l k : value_end l = Some k -> k < length l.
Proof.
  revert k. induction l as [|b l IH]; intros k; cbn; [done|].
  destruct (_ || _); [intros [= <-]; lia|]. destruct (value_end l) as [k'|]; cbn; [|done].
  intros [= <-]. specialize (IH k' eq_refl). lia.
Qed.

Lemma next_pair_app l x n v r : next_pair l = Some (n, v, r) -> next_pair (l ++ x) = Some (n, v, r ++ x).
Proof.
  unfold next_pair. destruct (memchr l "=") as [k|] eqn:Ek; cbn; [|done].
  apply memchr_lt in Ek as Hk. rewrite (memchr_app_Some _ _ _ _ Ek). cbn.
  rewrite skipn_app, (proj2 (Nat.sub_0_le (S k) (length l))) by lia. cbn [skipn].
  destruct (value_end (drop (S k) l)) as [j|] eqn:Ej; cbn; [|done].
  apply value_end_lt in Ej as Hj. rewrite length_drop in Hj.
  change (drop 0 x) with x. rewrite (value_end_app_Some _ _ _ Ej). cbn.
  intros [= <- <- <-].
  rewrite (take_app_le l), (take_app_le (drop (S k) l)), (drop_app_le (drop (S k) l))
    by (rewrite ?length_drop; lia). done.
Qed.

Lemma next_pair_shorter l n v r : next_pair l = Some (n, v, r) -> length r < length l.
Proof.
  unfold next_pair. destruct (memchr l "=") as [k|] eqn:Ek; cbn; [|done].
  destruct (value_end _) as [j|] eqn:Ej; cbn; [|done]. intros [= _ _ <-].
  apply memchr_lt in Ek. rewrite length_drop, length_drop. lia.
Qed.

Lemma form_pairs_fuel f1 f2 hole t l :
  length l <= f1 -> length l <= f2 -> form_pairs f1 hole t l = form_pairs f2 hole t l.
Proof.
  revert f2 t l. induction f1 as [|f1 IH]; intros f2 t l H1 H2.
  - destruct l; [|cbn in H1; lia]. destruct f2; done.
  - destruct f2 as [|f2]; [destruct l; [done|cbn in H2; lia]|]. cbn [form_pairs].
    destruct (next_pair l) as [[[n v] r]|] eqn:En; [|done].
    destruct (pair_param hole n v) as [s [p|]]; [|done].
    apply next_pair_shorter in En. apply IH; lia.
Qed.

Lemma pairs_of_unfold hole t l :
  pairs_of hole t l =
    match next_pair l with
    | None => (None, t, l)
    | Some (n, v, r) =>
        match pair_param hole n v with
        | (s, Some p) => pairs_of hole (apreq_value_table_add p t) r
        | (s, None) => (Some s, t, l)
        end
    end.
Proof.
  unfold pairs_of. destruct l as [|c l]; [done|]. cbn [length form_pairs].
  destruct (next_pair (c :: l)) as [[[n v] r]|] eqn:En; [|done].
  destruct (pair_param hole n v) as [s [p|]]; [|done].
  apply next_pair_shorter in En. cbn in En. apply form_pairs_fuel; lia.
Qed.

Lemma pairs_of_app hole t l x :
  pairs_of hole t (l ++ x) =
    match pairs_of hole t l with
    | (None, t, r) => pairs_of hole t (r ++ x)
    | (Some s, t, r) => (Some s, t, r ++ x)
    end.
Proof.
  remember (length l) as n eqn:Hn. assert (Hl : length l <= n) by lia. clear Hn.
  revert t l Hl. induction n as [|n IH]; intros t l Hl.
  { destruct l; [done|cbn in Hl; lia]. }
  rewrite (pairs_of_unfold hole t l).
  destruct (next_pair l) as [[[nm v] r]|] eqn:En; [|done].
  rewrite (pairs_of_unfold hole t (l ++ x)), (next_pair_app _ x _ _ _ En).
  destruct (pair_param hole nm v) as [s [p|]]; [|done].
  apply next_pair_shorter in En. apply IH. lia.
Qed.

Lemma pairs_of_rest hole t l t' r : pairs_of hole t l = (None, t', r) -> next_pair r = None.
Proof.
  remember (length l) as n eqn:Hn. assert (Hl : length l <= n) by lia. clear Hn.
  revert t l Hl. induction n as [|n IH]; intros t l Hl.
  { destruct l; [by intros [= _ <-]|cbn in Hl; lia]. }
  rewrite (pairs_of_unfold hole t l).
  destruct (next_pair l) as [[[nm v] r']|] eqn:En; [|by intros [= _ <-]].
  destruct (pair_param hole nm v) as [s [p|]]; [|done].
  apply next_pair_shorter in En. apply IH. lia.
Qed.

(** ** Brigades *)

(** The vectors up to and with the separator that ends bucket [e]. *)
Lemma url_vec_exact bb e rest :
  forallb plain (bb ++ [e]) = true -> (apr_bucket_read e).2 <> [] ->
  exists v, url_vec (bb ++ e :: rest) (Z.of_nat (length (brigade_data (bb ++ [e])))) =
      (APR_SUCCESS, v, rest) /\ concat v = removelast (brigade_data (bb ++ [e])).
Proof.
  intros Hp He. induction bb as [|b bb IH]; cbn [app forallb] in *; rewrite andb_true_iff in Hp;
    destruct Hp as [Hb Hp]; destruct (plain_read _ Hb) as [Hne Hr];
    cbn [url_vec]; rewrite Hne, Hr; cbn [negb Z.eqb APR_SUCCESS]; rewrite brigade_data_cons.
  - cbn [brigade_data flat_map]. rewrite app_nil_r, Z.sub_diag. cbn [Z.eqb].
    eexists. split; [done|]. cbn. by rewrite app_nil_r.
  - destruct (IH Hp) as (v & Hv & Hc).
    assert (Hd : brigade_data (bb ++ [e]) <> []).
    { rewrite brigade_data_app. cbn. rewrite app_nil_r. by destruct (brigade_data bb). }
    rewrite length_app. replace (Z.of_nat (_ + _) - _)%Z
      with (Z.of_nat (length (brigade_data (bb ++ [e])))) by lia.
    assert ((Z.of_nat (length (brigade_data (bb ++ [e]))) =? 0)%Z = false) as ->.
    { apply Z.eqb_neq. destruct (brigade_data (bb ++ [e])); [done|cbn; lia]. }
    rewrite Hv. eexists. split; [done|]. cbn [concat]. by rewrite Hc, removelast_app.
Qed.

(** The vectors up to the end of the stream. *)
Lemma url_vec_eos bb n rest :
  forallb plain bb = true -> (Z.of_nat (length (brigade_data bb)) < n)%Z ->
  exists v, url_vec (bb ++ BEos :: rest) n = (APR_SUCCESS, v, BEos :: rest) /\
    concat v = brigade_data bb.
Proof.
  revert n. induction bb as [|b bb IH]; intros n Hp Hn; [by exists []|].
  cbn [app forallb url_vec] in *. rewrite andb_true_iff in Hp. destruct Hp as [Hb Hp].
  destruct (plain_read _ Hb) as [Hne Hr]. rewrite Hne, Hr. cbn [negb Z.eqb APR_SUCCESS].
  rewrite brigade_data_cons, length_app in Hn.
  destruct (IH (n - Z.of_nat (length (apr_bucket_read b).2))%Z Hp ltac:(lia)) as (v & Hv & Hc).
  assert ((n - Z.of_nat (length (apr_bucket_read b).2) =? 0)%Z = false) as ->
    by (apply Z.eqb_neq; lia).
  rewrite Hv. eexists. split; [done|]. rewrite brigade_data_cons. cbn [concat]. by rewrite Hc.
Qed.

(** The scan of a value, up to the separator or through all the buckets. *)
Lemma scan_value pre nlen vlen bb tail :
  forallb plain bb = true ->
  match value_end (brigade_data bb) with
  | None => url_scan pre URL_VALUE nlen vlen (bb ++ tail) =
              url_scan (pre ++ bb) URL_VALUE nlen (vlen + length (brigade_data bb)) tail
  | Some j => exists b1 e1 b2,
      url_scan pre URL_VALUE nlen vlen (bb ++ tail) =
        UrlPair nlen (vlen + j) (pre ++ b1 ++ e1 :: b2 ++ tail) /\
      forallb plain (b1 ++ [e1]) = true /\ forallb plain b2 = true /\
      (apr_bucket_read e1).2 <> [] /\
      brigade_data (b1 ++ [e1]) = take (S j) (brigade_data bb) /\
      brigade_data b2 = drop (S j) (brigade_data bb)
  end.
Proof.
  revert pre vlen. induction bb as [|e bb IH]; intros pre vlen Hp.
  { cbn. by rewrite app_nil_r, Nat.add_0_r. }
  cbn [forallb] in Hp. rewrite andb_true_iff in Hp. destruct Hp as [He Hp].
  destruct (plain_read _ He) as [Hne Hr]. rewrite brigade_data_cons.
  cbn [app url_scan]. rewrite Hne, Hr. cbn [negb Z.eqb APR_SUCCESS].
  set (d := (apr_bucket_read e).2) in *.
  destruct (value_end d) as [j|] eqn:Ej.
  - rewrite (value_end_app_Some _ _ _ Ej). apply value_end_lt in Ej.
    destruct (split_data e (S j) ltac:(fold d; lia)) as [D1 D2]. fold d in D1, D2.
    destruct (split_plain e (S j) He) as [P1 P2].
    destruct (apr_bucket_split e (S j)) as [e1 e2]. cbn [fst snd] in *.
    exists [], e1, (e2 :: bb). cbn [app forallb]. rewrite P1, P2, D1, !brigade_data_cons, D1, D2.
    split_and!; [done..| | |].
    + destruct d; [cbn in Ej; lia|done].
    + cbn [brigade_data flat_map]. rewrite app_nil_r, take_app_le by lia. done.
    + rewrite drop_app_le by lia. done.
  - rewrite (value_end_app_None _ _ Ej). specialize (IH (pre ++ [e]) (vlen + length d) Hp).
    destruct (value_end (brigade_data bb)) as [j|]; cbn.
    + destruct IH as (b1 & e1 & b2 & Hs & P1 & P2 & Hd & D1 & D2).
      exists (e :: b1), e1, b2. rewrite Hs. cbn [app forallb].
      rewrite He, P1, brigade_data_cons, D1, D2. fold d.
      split_and!; [|done..| |].
      * f_equal; [lia|by rewrite <- app_assoc].
      * replace (S (length d + j)) with (length d + S j) by lia. by rewrite take_app_add.
      * replace (S (length d + j)) with (length d + S j) by lia. by rewrite drop_app_add.
    + rewrite IH, <- app_assoc. f_equal. rewrite length_app. lia.
Qed.

(** The scan of a name, up to the equal sign or through all the buckets. *)
Lemma scan_name pre nlen vlen bb tail :
  forallb plain bb = true ->
  match memchr (brigade_data bb) "=" with
  | None => url_scan pre URL_NAME nlen vlen (bb ++ tail) =
              url_scan (pre ++ bb) URL_NAME (nlen + length (brigade_data bb)) vlen tail
  | Some k => exists b1 e1 b2,
      url_scan pre URL_NAME nlen vlen (bb ++ tail) =
        url_scan (pre ++ b1 ++ [e1]) URL_VALUE (nlen + k) vlen (b2 ++ tail) /\
      forallb plain (b1 ++ [e1]) = true /\ forallb plain b2 = true /\
      (apr_bucket_read e1).2 <> [] /\
      brigade_data (b1 ++ [e1]) = take (S k) (brigade_data bb) /\
      brigade_data b2 = drop (S k) (brigade_data bb)
  end.
Proof.
  revert pre nlen. induction bb as [|e bb IH]; intros pre nlen Hp.
  { cbn. by rewrite app_nil_r, Nat.add_0_r. }
  cbn [forallb] in Hp. rewrite andb_true_iff in Hp. destruct Hp as [He Hp].
  destruct (plain_read _ He) as [Hne Hr]. rewrite brigade_data_cons.
  cbn [app url_scan]. rewrite Hne, Hr. cbn [negb Z.eqb APR_SUCCESS].
  set (d := (apr_bucket_read e).2) in *.
  destruct (memchr d "=") as [k|] eqn:Ek.
  - rewrite (memchr_app_Some _ _ _ _ Ek). apply memchr_lt in Ek.
    destruct (split_data e (S k) ltac:(fold d; lia)) as [D1 D2]. fold d in D1, D2.
    destruct (split_plain e (S k) He) as [P1 P2].
    destruct (apr_bucket_split e (S k)) as [e1 e2]. cbn [fst snd] in *.
    destruct (plain_read _ P2) as [N2 R2].
    exists [], e1, (e2 :: bb). cbn [app forallb url_scan]. rewrite N2, R2, D2.
    cbn [negb Z.eqb APR_SUCCESS]. rewrite P1, P2, !brigade_data_cons, D1, D2.
    split_and!; [done..| | |].
    + destruct d; [cbn in Ek; lia|done].
    + cbn [brigade_data flat_map]. rewrite app_nil_r, take_app_le by lia. done.
    + rewrite drop_app_le by lia. done.
  - rewrite (memchr_app_None _ _ _ Ek). specialize (IH (pre ++ [e]) (nlen + length d) Hp).
    destruct (memchr (brigade_data bb) "=") as [k|]; cbn.
    + destruct IH as (b1 & e1 & b2 & Hs & P1 & P2 & Hd & D1 & D2).
      exists (e :: b1), e1, b2. rewrite Hs. cbn [app forallb].
      rewrite He, P1, brigade_data_cons, D1, D2. fold d.
      split_and!; [|done..| |].
      * f_equal; [by rewrite <- app_assoc|lia].
      * replace (S (length d + k)) with (length d + S k) by lia. by rewrite take_app_add.
      * replace (S (length d + k)) with (length d + S k) by lia. by rewrite drop_app_add.
    + rewrite IH, <- app_assoc. f_equal. rewrite length_app. lia.
Qed.

(** What [split_urlword] makes of the two vectors. *)
Lemma split_urlword_vec hole bb nlen vlen name value nv vv e1 e2 :
  url_vec bb (Z.of_nat nlen + 1) = (APR_SUCCESS, nv, e1) ->
  url_vec e1 (Z.of_nat vlen + 1) = (APR_SUCCESS, vv, e2) ->
  concat nv = name -> concat vv = value -> nlen = length name ->
  split_urlword hole bb nlen vlen =
    match pair_param hole name value with
    | (s, Some p) => (s, Some p, e2)
    | (s, None) => (s, None, bb)
    end.
Proof.
  intros H1 H2 <- <- ->. unfold split_urlword, pair_param.
  destruct (length (concat nv) =? 0); [done|]. rewrite H1, H2. cbn [negb Z.eqb APR_SUCCESS].
  rewrite (decodev_concat vv), (decodev_concat nv).
  destruct (apreq_decodev [concat vv]) as [s data]. destruct (_ <? s)%Z; [done|].
  destruct (apreq_decodev [concat nv]) as [s' nm]. by destruct (_ <? s')%Z.
Qed.

Lemma removelast_take_S {A} k (l : list A) : k < length l -> removelast (take (S k) l) = take k l.
Proof. apply removelast_firstn. Qed.

(** The vectors of a piece of the brigade that holds a text and a separator. *)
Lemma url_vec_piece b e rest k l :
  forallb plain (b ++ [e]) = true -> (apr_bucket_read e).2 <> [] ->
  brigade_data (b ++ [e]) = take (S k) l -> k < length l ->
  exists v, url_vec (b ++ e :: rest) (Z.of_nat k + 1) = (APR_SUCCESS, v, rest) /\ concat v = take k l.
Proof.
  intros Hp He Hd Hk. destruct (url_vec_exact b e rest Hp He) as (v & Hv & Hc).
  rewrite Hd, length_take_le in Hv by lia. exists v. rewrite Hc, Hd, removelast_take_S by done.
  split; [|done]. by replace (Z.of_nat k + 1)%Z with (Z.of_nat (S k)) by lia.
Qed.

(** The scan and [split_urlword] on a brigade that holds a complete pair. *)
Lemma scan_pair hole bb tail n v r :
  forallb plain bb = true -> next_pair (brigade_data bb) = Some (n, v, r) ->
  exists bb' b2, url_scan [] URL_NAME 0 0 (bb ++ tail) = UrlPair (length n) (length v) bb' /\
    brigade_data b2 = r /\ forallb plain b2 = true /\
    split_urlword hole bb' (length n) (length v) =
      match pair_param hole n v with
      | (s, Some p) => (s, Some p, b2 ++ tail)
      | (s, None) => (s, None, bb')
      end.
Proof.
  intros Hp. unfold next_pair. pose proof (scan_name [] 0 0 bb tail Hp) as Hn.
  destruct (memchr (brigade_data bb) "=") as [k|] eqn:Ek; cbn [mbind option_bind]; [|done].
  apply memchr_lt in Ek. destruct Hn as (b1 & e1 & b2 & Hs & P1 & P2 & Hne & D1 & D2).
  pose proof (scan_value (b1 ++ [e1]) (0 + k) 0 b2 tail P2) as Hv. rewrite D2 in Hv.
  destruct (value_end (drop (S k) (brigade_data bb))) as [j|] eqn:Ej;
    cbn [mbind option_bind]; [|done].
  apply value_end_lt in Ej. intros [= <- <- <-].
  destruct Hv as (b3 & e3 & b4 & Hs' & P3 & P4 & Hne3 & D3 & D4).
  rewrite Hs. cbn [app Nat.add] in *. rewrite Hs'.
  rewrite length_take_le by lia. rewrite (length_take_le _ j) by lia.
  eexists _, b4. split_and!; [done..|].
  destruct (url_vec_piece b1 e1 (b3 ++ e3 :: b4 ++ tail) k _ P1 Hne D1 Ek) as (nv & Hv1 & Hc1).
  destruct (url_vec_piece b3 e3 (b4 ++ tail) j _ P3 Hne3 D3 Ej) as (vv & Hv2 & Hc2).
  rewrite <- app_assoc. cbn [app].
  rewrite (split_urlword_vec hole _ k j _ _ nv vv _ _ Hv1 Hv2 Hc1 Hc2); [done|].
  by rewrite length_take_le by lia.
Qed.

(** The scan of a brigade without a complete pair. *)
Lemma scan_more bb :
  forallb plain bb = true -> next_pair (brigade_data bb) = None ->
  exists st bb', url_scan [] URL_NAME 0 0 bb = UrlMore st bb' /\
    st <> URL_ERROR /\ st <> URL_COMPLETE /\
    forallb plain bb' = true /\ brigade_data bb' = brigade_data bb.
Proof.
  intros Hp. unfold next_pair. pose proof (scan_name [] 0 0 bb [] Hp) as Hn.
  rewrite app_nil_r in Hn.
  destruct (memchr (brigade_data bb) "=") as [k|] eqn:Ek; cbn [mbind option_bind].
  - destruct Hn as (b1 & e1 & b2 & Hs & P1 & P2 & Hne & D1 & D2). rewrite app_nil_r in Hs.
    pose proof (scan_value (b1 ++ [e1]) (0 + k) 0 b2 [] P2) as Hv. rewrite D2, app_nil_r in Hv.
    destruct (value_end (drop (S k) (brigade_data bb))) as [j|]; cbn [mbind option_bind]; [done|].
    intros _. rewrite Hs. cbn [app]. rewrite Hv. eexists _, _. split_and!; [done..| |].
    + rewrite forallb_app, P1, P2. done.
    + rewrite brigade_data_app, D1, D2, take_drop. done.
  - intros _. rewrite Hn. eexists _, _. by split_and!.
Qed.

(** The scan of the last brigade, without a complete pair before its EOS. *)
Lemma scan_eos hole bb :
  forallb plain bb = true -> next_pair (brigade_data bb) = None ->
  match memchr (brigade_data bb) "=" with
  | None => exists n, url_scan [] URL_NAME 0 0 (bb ++ [BEos]) = UrlEos URL_NAME n 0 (bb ++ [BEos])
  | Some k => exists bb', url_scan [] URL_NAME 0 0 (bb ++ [BEos]) =
      UrlEos URL_VALUE k (length (brigade_data bb) - S k) bb' /\
      split_urlword hole bb' k (length (brigade_data bb) - S k) =
        match pair_param hole (take k (brigade_data bb)) (drop (S k) (brigade_data bb)) with
        | (s, Some p) => (s, Some p, [BEos])
        | (s, None) => (s, None, bb')
        end
  end.
Proof.
  intros Hp. unfold next_pair. pose proof (scan_name [] 0 0 bb [BEos] Hp) as Hn.
  destruct (memchr (brigade_data bb) "=") as [k|] eqn:Ek; cbn [mbind option_bind].
  - apply memchr_lt in Ek. destruct Hn as (b1 & e1 & b2 & Hs & P1 & P2 & Hne & D1 & D2).
    pose proof (scan_value (b1 ++ [e1]) (0 + k) 0 b2 [BEos] P2) as Hv. rewrite D2 in Hv.
    destruct (value_end (drop (S k) (brigade_data bb))) as [j|]; cbn [mbind option_bind]; [done|].
    intros _. rewrite Hs. cbn [app Nat.add] in *. rewrite Hv, length_drop. cbn [url_scan bucket_is_eos].
    eexists. split; [done|].
    destruct (url_vec_piece b1 e1 (b2 ++ [BEos]) k _ P1 Hne D1 Ek) as (nv & Hv1 & Hc1).
    destruct (url_vec_eos b2 (Z.of_nat (length (brigade_data bb) - S k) + 1) [] P2) as (vv & Hv2 & Hc2).
    { rewrite D2, length_drop. lia. }
    rewrite <- !app_assoc. cbn [app]. rewrite D2 in Hc2.
    rewrite (split_urlword_vec hole _ k _ _ _ nv vv _ _ Hv1 Hv2 Hc1 Hc2); [done|].
    by rewrite length_take_le by lia.
  - intros _. rewrite Hn. cbn [app url_scan bucket_is_eos]. eauto.
Qed.

Lemma pair_param_success hole n v s p : pair_param hole n v = (s, Some p) -> s = APR_SUCCESS.
Proof.
  unfold pair_param. destruct (_ =? _); [done|]. destruct (apreq_decodev [v]) as [s1 d1].
  destruct (_ <? s1)%Z; [done|]. destruct (apreq_decodev [n]) as [s2 d2].
  destruct (_ <? s2)%Z; [done|]. by intros [= <- _].
Qed.

Lemma url_word_nohook hole bb nlen vlen :
  url_word hole [] bb nlen vlen =
    let '(s, p, bb) := split_urlword hole bb nlen vlen in
    (match p with Some _ => APR_SUCCESS | None => s end, p, bb, []).
Proof. unfold url_word. by destruct (split_urlword hole bb nlen vlen) as [[s [p|]] bb']. Qed.

Lemma pair_param_error hole n v s : pair_param hole n v = (s, None) -> s <> APR_SUCCESS.
Proof.
  unfold pair_param. destruct (_ =? _); [intros [= <-]; errno_lia|].
  destruct (apreq_decodev [v]) as [s1 d1].
  destruct (_ <? s1)%Z eqn:E1; [intros [= <-]; apply Z.ltb_lt in E1; cbn in *; unfold APR_SUCCESS in *; lia|].
  destruct (apreq_decodev [n]) as [s2 d2].
  destruct (_ <? s2)%Z eqn:E2; [intros [= <-]; apply Z.ltb_lt in E2; cbn in *; unfold APR_SUCCESS in *; lia|done].
Qed.

Lemma pairs_of_error hole t l s t' r : pairs_of hole t l = (Some s, t', r) -> s <> APR_SUCCESS.
Proof.
  remember (length l) as n eqn:Hn. assert (Hl : length l <= n) by lia. clear Hn.
  revert t l Hl. induction n as [|n IH]; intros t l Hl.
  { by destruct l; [|cbn in Hl; lia]. }
  rewrite (pairs_of_unfold hole t l).
  destruct (next_pair l) as [[[nm v] r']|] eqn:En; [|done].
  destruct (pair_param hole nm v) as [s1 [p|]] eqn:Ep.
  - apply next_pair_shorter in En. apply IH. lia.
  - intros [= <- _ _]. by apply pair_param_error in Ep.
Qed.

(** The loop of the parser is the reference on the data of its brigade. *)
Lemma url_brigade_more fuel hole t bb :
  forallb plain bb = true -> length (brigade_data bb) <= fuel ->
  let r := url_brigade fuel hole t [] bb in
  ue_hooks r = [] /\ ue_bb r = [] /\
  match pairs_of hole t (brigade_data bb) with
  | (None, t', rest) =>
      ue_status r = APR_INCOMPLETE /\ ue_table r = t' /\ u_status (ue_ctx r) <> URL_ERROR /\ u_status (ue_ctx r) <> URL_COMPLETE /\
      forallb plain (u_bb (ue_ctx r)) = true /\ brigade_data (u_bb (ue_ctx r)) = rest
  | (Some s, t', _) => ue_status r = s /\ ue_table r = t' /\ u_status (ue_ctx r) = URL_ERROR
  end.
Proof.
  revert t bb. induction fuel as [|fuel IH]; intros t bb Hp Hf; cbn zeta;
    rewrite pairs_of_unfold; destruct (next_pair (brigade_data bb)) as [[[n v] r]|] eqn:En.
  - apply next_pair_shorter in En. lia.
  - destruct (scan_more bb Hp En) as (st & bb' & Hs & H1 & H2 & H3 & H4).
    cbn [url_brigade]. rewrite Hs. cbn. by split_and!.
  - destruct (scan_pair hole bb [] n v r Hp En) as (bb' & b2 & Hs & Hd & P2 & Hw).
    rewrite app_nil_r in Hs. cbn [url_brigade]. rewrite Hs, url_word_nohook, Hw.
    apply next_pair_shorter in En.
    destruct (pair_param hole n v) as [s [p|]] eqn:Ep; [|by split_and!].
    apply pair_param_success in Ep as ->. cbn [Z.eqb APR_SUCCESS].
    rewrite app_nil_r, <- Hd. apply IH; [done|]. rewrite Hd. lia.
  - destruct (scan_more bb Hp En) as (st & bb' & Hs & H1 & H2 & H3 & H4).
    cbn [url_brigade]. rewrite Hs. cbn. by split_and!.
Qed.

(** A parser that ignores what is still to come. *)
Definition url_done (c : url_ctx) : Prop := u_status c = URL_ERROR \/ u_status c = URL_COMPLETE.

Lemma url_brigade_eos fuel hole t bb :
  forallb plain bb = true -> length (brigade_data bb) <= fuel ->
  let r := url_brigade fuel hole t [] (bb ++ [BEos]) in
  (ue_status r, ue_table r) = urlencoded_form hole t (brigade_data bb) /\
  (last_is_eos (ue_bb r) = true \/ url_done (ue_ctx r)) /\
  (ue_status r = APR_SUCCESS \/ u_status (ue_ctx r) = URL_ERROR) /\ ue_hooks r = [].
Proof.
  unfold urlencoded_form.
  revert t bb. induction fuel as [|fuel IH]; intros t bb Hp Hf; cbn zeta;
    rewrite pairs_of_unfold; destruct (next_pair (brigade_data bb)) as [[[n v] r]|] eqn:En.
  - apply next_pair_shorter in En. lia.
  - destruct bb as [|e bb]; [by split_and!; [|left|left|]|].
    pose proof (scan_eos hole _ Hp En) as Hs. unfold form_end. cbn [url_brigade].
    destruct (memchr (brigade_data (e :: bb)) "=") as [k|] eqn:Ek.
    + apply memchr_lt in Ek. lia.
    + destruct Hs as (n & ->). split_and!; [done|left|by left|done]. apply last_is_eos_snoc.
  - destruct (scan_pair hole bb [BEos] n v r Hp En) as (bb' & b2 & Hs & Hd & P2 & Hw).
    cbn [url_brigade]. rewrite Hs, url_word_nohook, Hw. apply next_pair_shorter in En.
    destruct (pair_param hole n v) as [s [p|]] eqn:Ep; [|by split_and!; [|right; left|right|]].
    apply pair_param_success in Ep as ->. cbn [Z.eqb APR_SUCCESS].
    rewrite <- Hd. apply IH; [done|]. rewrite Hd. lia.
  - pose proof (scan_eos hole _ Hp En) as Hs. unfold form_end. cbn [url_brigade].
    destruct (memchr (brigade_data bb) "=") as [k|] eqn:Ek.
    + destruct Hs as (bb' & -> & Hw). rewrite url_word_nohook, Hw.
      destruct (pair_param hole _ _) as [s [p|]] eqn:Ep; [|by split_and!; [|right; left|right|]].
      apply pair_param_success in Ep as ->. by split_and!; [|right; right|left|].
    + destruct Hs as (n & ->). split_and!; [done|left|by left|done]. apply last_is_eos_snoc.
Qed.

(** A run of calls, each with the next brigade of the body. *)
Fixpoint url_calls (hole : nat -> Byte.byte) (psr : apreq_parser_t (X := X) url_ctx)
    (t : apr_table apreq_param_t) (s : Z) (bbs : list brigade)
  : Z * apreq_parser_t (X := X) url_ctx * apr_table apreq_param_t :=
  match bbs with
  | [] => (s, psr, t)
  | bb :: bbs =>
      let '(s, psr, t, _) := apreq_parse_urlencoded hole psr t (Some bb) in
      url_calls hole psr t s bbs
  end.

(** The parser between two calls: it has failed, or keeps the bytes [rest]. *)
Definition url_pending (psr : apreq_parser_t (X := X) url_ctx) (rest : bytes) : Prop :=
  let ctx := default (UrlCtx [] URL_NAME) (ps_ctx psr) in
  ps_hook psr = [] /\ u_status ctx <> URL_ERROR /\ u_status ctx <> URL_COMPLETE /\
  forallb plain (u_bb ctx) = true /\ brigade_data (u_bb ctx) = rest.

Definition url_failed (psr : apreq_parser_t (X := X) url_ctx) : Prop :=
  u_status (default (UrlCtx [] URL_NAME) (ps_ctx psr)) = URL_ERROR.

Lemma url_call_failed hole psr t bb :
  url_failed psr -> exists psr', apreq_parse_urlencoded hole psr t bb =
    (APREQ_ERROR_GENERAL, psr', t, bb) /\ url_failed psr' /\ ps_hook psr' = ps_hook psr.
Proof.
  unfold url_failed, apreq_parse_urlencoded. intros Hf. rewrite Hf. cbn [parser_status_check].
  eexists. split; [done|]. split; [exact Hf|done].
Qed.

(** The state check lets a pending parser through. *)
Lemma url_call_pending hole psr rest t bb :
  url_pending psr rest ->
  exists b0, brigade_data b0 = rest /\ forallb plain b0 = true /\ ps_hook psr = [] /\
    apreq_parse_urlencoded hole psr t (Some bb) =
      let r := url_brigade (length (brigade_data (b0 ++ bb))) hole t [] (b0 ++ bb) in
      (ue_status r, set_ctx (set_hook psr (ue_hooks r)) (ue_ctx r), ue_table r, Some (ue_bb r)).
Proof.
  intros (Hh & H1 & H2 & H3 & H4). eexists. split_and!; [exact H4|done|done|].
  unfold apreq_parse_urlencoded. rewrite Hh.
  destruct (u_status (default _ (ps_ctx psr))); done.
Qed.

Lemma url_calls_failed hole psr t s bbs :
  url_failed psr -> bbs <> [] ->
  exists psr', url_calls hole psr t s bbs = (APREQ_ERROR_GENERAL, psr', t).
Proof.
  revert psr s. induction bbs as [|bb bbs IH]; intros psr s Hf Hne; [done|].
  cbn [url_calls]. destruct (url_call_failed hole psr t (Some bb) Hf) as (psr' & -> & Hf' & _).
  destruct bbs as [|bb' bbs]; [by eexists|]. by apply IH.
Qed.

Lemma url_calls_spec hole psr rest t s bbs fin :
  url_pending psr rest -> forallb (forallb plain) (bbs ++ [fin]) = true ->
  let '(s', _, t') := url_calls hole psr t s (bbs ++ [fin ++ [BEos]]) in
  let '(s0, t0) := urlencoded_form hole t (rest ++ brigade_data (concat bbs ++ fin)) in
  t' = t0 /\ (s' = s0 \/ s' = APREQ_ERROR_GENERAL /\ s0 <> APR_SUCCESS).
Proof.
  revert psr rest t s. induction bbs as [|bb bbs IH]; intros psr rest t s Hpsr Hp.
  - cbn [app concat url_calls] in *. cbn [forallb] in Hp. rewrite andb_true_r in Hp.
    destruct (url_call_pending hole psr rest t (fin ++ [BEos]) Hpsr) as (b0 & Hd & P0 & _ & ->).
    cbn zeta. rewrite app_assoc.
    pose proof (url_brigade_eos (length (brigade_data ((b0 ++ fin) ++ [BEos]))) hole t (b0 ++ fin))
      as Hr. cbn zeta in Hr.
    rewrite <- Hd, <- brigade_data_app. destruct Hr as [<- _].
    3: { split; [done|by left]. }
    + by rewrite forallb_app, P0.
    + rewrite (brigade_data_app (b0 ++ fin)), length_app. lia.
  - cbn [app concat url_calls] in *. cbn [forallb] in Hp. rewrite andb_true_iff in Hp.
    destruct Hp as [Hb Hp].
    destruct (url_call_pending hole psr rest t bb Hpsr) as (b0 & Hd & P0 & Hh & ->). cbn zeta.
    assert (Pall : forallb plain (b0 ++ bb) = true) by (by rewrite forallb_app, P0).
    destruct (url_brigade_more (length (brigade_data (b0 ++ bb))) hole t (b0 ++ bb) Pall ltac:(lia))
      as (Hhk & _ & Hr).
    set (r := url_brigade _ _ _ _ _) in *.
    assert (Hform : rest ++ brigade_data ((bb ++ concat bbs) ++ fin) =
                    brigade_data (b0 ++ bb) ++ brigade_data (concat bbs ++ fin)).
    { rewrite !brigade_data_app, Hd, !app_assoc. done. }
    rewrite Hform. unfold urlencoded_form. rewrite pairs_of_app.
    destruct (pairs_of hole t (brigade_data (b0 ++ bb))) as [[[e|] t'] l'] eqn:Epo.
    + destruct Hr as (Hs & Ht & Hst).
      destruct (url_calls_failed hole (set_ctx (set_hook psr (ue_hooks r)) (ue_ctx r)) (ue_table r)
        (ue_status r) (bbs ++ [fin ++ [BEos]])) as (psr' & ->); [done|by destruct bbs|].
      split; [done|]. right. split; [done|].
      apply pairs_of_error in Epo. done.
    + destruct Hr as (_ & Ht & H1 & H2 & H3 & H4). rewrite Ht.
      specialize (IH (set_ctx (set_hook psr (ue_hooks r)) (ue_ctx r)) l' t' (ue_status r)).
      unfold urlencoded_form in IH. apply IH; [|done].
      unfold url_pending. cbn. by split_and!.
Qed.

(** ** What the parameters and statuses of a form look like *)

Lemma decodev_status v :
  let s := (apreq_decodev v).1 in
  (0 <= s <= 8)%Z \/ s = APREQ_ERROR_BADSEQ \/ (APR_INCOMPLETE <= s <= APR_INCOMPLETE + 8)%Z.
Proof.
  cbn zeta. unfold apreq_decodev. rewrite decodev_loop_decode by auto. cbn [app].
  unfold decodev_result. cbn [fst].
  assert (0 <= charset_val (ur_charset (url_decode APREQ_CHARSET_ASCII (concat v))) <= 8)%Z
    by (destruct (ur_charset _); cbn; lia).
  destruct (url_decode_status APREQ_CHARSET_ASCII (concat v)) as [[-> _]|[-> | ->]];
    autorewrite with errno; unfold APR_SUCCESS; [left; lia|by right; left|right; right; lia].
Qed.

Lemma pair_param_status hole n v s o : pair_param hole n v = (s, o) -> s <> APR_EINIT.
Proof.
  assert (Hbad : (APREQ_ERROR_BADSEQ > APR_EINIT + 8)%Z)
    by (pose proof einit_range; unfold APREQ_ERROR_BADSEQ, APREQ_ERROR_BADDATA, APREQ_ERROR_GENERAL; lia).
  assert (Hdec : forall v, (APR_SUCCESS + charset_val APREQ_CHARSET_UTF8 <? (apreq_decodev v).1)%Z = true ->
    (apreq_decodev v).1 <> APR_EINIT).
  { intros w Hw. pose proof (decodev_status w) as Hs. apply Z.ltb_lt in Hw. cbn in Hw.
    pose proof apr_einit_apart. unfold APR_SUCCESS in *. cbn zeta in Hs. lia. }
  unfold pair_param. destruct (_ =? 0); [intros [= <- _]; apply ebadarg_not_einit|].
  specialize (Hdec [v]) as H1. destruct (apreq_decodev [v]) as [s1 d1]. cbn [fst] in H1.
  destruct (_ <? s1)%Z; [intros [= <- _]; by apply H1|].
  specialize (Hdec [n]) as H2. destruct (apreq_decodev [n]) as [s2 d2]. cbn [fst] in H2.
  destruct (_ <? s2)%Z; [intros [= <- _]; by apply H2|].
  intros [= <- _]. pose proof einit_range. unfold APR_SUCCESS. lia.
Qed.

Lemma pair_param_info hole n v s p : pair_param hole n v = (s, Some p) -> p_info p = None.
Proof.
  unfold pair_param. destruct (_ =? 0); [done|]. destruct (apreq_decodev [v]) as [s1 d1].
  destruct (_ <? s1)%Z; [done|]. destruct (apreq_decodev [n]) as [s2 d2].
  destruct (_ <? s2)%Z; [done|]. by intros [= _ <-].
Qed.

(** What holds of all pairs holds of the form. *)
Lemma form_pairs_ind hole (P : apr_table apreq_param_t -> Prop) (Q : Z -> Prop) t l :
  Q APR_SUCCESS -> P t ->
  (forall n v s p t, pair_param hole n v = (s, Some p) -> P t -> P (apreq_value_table_add p t)) ->
  (forall n v s o, pair_param hole n v = (s, o) -> Q s) ->
  Q (urlencoded_form hole t l).1 /\ P (urlencoded_form hole t l).2.
Proof.
  intros Q0 Ht HP HQ. remember (length l) as k eqn:Hk. assert (Hl : length l <= k) by lia. clear Hk.
  unfold urlencoded_form. revert t l Ht Hl. induction k as [|k IH]; intros t l Ht Hl.
  { by destruct l; [|cbn in Hl; lia]. }
  rewrite pairs_of_unfold. destruct (next_pair l) as [[[n v] r]|] eqn:En.
  - apply next_pair_shorter in En. destruct (pair_param hole n v) as [s [p|]] eqn:Ep.
    + apply IH; [by eapply HP|lia].
    + split; [by eapply HQ|done].
  - unfold form_end. destruct (memchr l "=") as [j|]; [|done].
    destruct (pair_param hole _ _) as [s [p|]] eqn:Ep;
      (split; [by eapply HQ|]); [by eapply HP|done].
Qed.

Lemma form_status hole t l : (urlencoded_form hole t l).1 <> APR_EINIT.
Proof.
  apply (form_pairs_ind hole (fun _ => True) (fun s => s <> APR_EINIT)); [|done|done|apply pair_param_status].
  pose proof einit_range. unfold APR_SUCCESS. lia.
Qed.

Lemma form_info hole l :
  Forall (fun e => p_info e.2 = None) (apr_table_elts (urlencoded_form hole apr_table_make l).2).
Proof.
  apply (form_pairs_ind hole (fun t => Forall (fun e => p_info e.2 = None) (apr_table_elts t)) (fun _ => True));
    [done|by rewrite elts_make| |done].
  intros n v s p t Hp Ht. unfold apreq_value_table_add. rewrite elts_add, Forall_app, Forall_singleton.
  split; [done|]. by eapply pair_param_info.
Qed.

(** Encoded parameters, joined by [&], as the text of a body. *)
Lemma decodev_encoded s :
  utf8_text s -> apreq_decodev [apreq_encode s] =
    ((if is_ascii s then 0 else 8)%Z, map Some s).
Proof.
  intros Hs. unfold apreq_decodev. rewrite decodev_loop_decode by auto. cbn [app concat].
  rewrite app_nil_r, url_decode_encode_utf8 by auto. unfold decodev_result.
  cbn [ur_status ur_charset ur_out]. rewrite eqb_success_badseq. by destruct (is_ascii s).
Qed.

Lemma value_end_encoded s x :
  value_end (apreq_encode s ++ x26 :: x) = Some (length (apreq_encode s)).
Proof.
  pose proof (apreq_encode_chars s) as Hc. induction (apreq_encode s) as [|c l IH]; [done|].
  cbn [forallb app value_end] in *. rewrite andb_true_iff in Hc. destruct Hc as [Hc Hl].
  assert (Hn : implb (is_encoded_char c) (negb ((c =b? "&") || (c =b? ";"))) = true) by by_bytes c.
  rewrite Hc in Hn. cbn [implb] in Hn. rewrite negb_true_iff in Hn. by rewrite Hn, IH.
Qed.

Lemma pair_param_encoded hole p :
  encodable p ->
  pair_param hole (apreq_encode (p_name p)) (apreq_encode (p_data p)) =
    (APR_SUCCESS, Some (apreq_param_charset_set (text_charset (p_name p) (p_data p))
       (apreq_param_tainted_on (Param None None 0 (p_name p) (p_data p))))).
Proof.
  intros (Hn & Un & Ud). unfold pair_param.
  assert ((length (apreq_encode (p_name p)) =? 0) = false) as ->.
  { destruct (encode_ne _ Hn) as (c & l & ->). done. }
  rewrite !decodev_encoded, !resolve_some by done. unfold text_charset.
  by destruct (is_ascii (p_name p)), (is_ascii (p_data p)).
Qed.

(** The entry of an encoded parameter. *)
Definition body_param (p : apreq_param_t) : apreq_param_t :=
  apreq_param_charset_set (text_charset (p_name p) (p_data p))
    (apreq_param_tainted_on (Param None None 0 (p_name p) (p_data p))).

Lemma next_pair_encoded p x :
  next_pair (apreq_param_encode p ++ x26 :: x) =
    Some (apreq_encode (p_name p), apreq_encode (p_data p), x).
Proof.
  unfold next_pair, apreq_param_encode. rewrite <- !app_assoc.
  rewrite memchr_encoded by apply apreq_encode_chars. cbn [mbind option_bind].
  assert (Hd : drop (S (length (apreq_encode (p_name p))))
    (apreq_encode (p_name p) ++ str "=" ++ apreq_encode (p_data p) ++ x26 :: x) =
    apreq_encode (p_data p) ++ x26 :: x).
  { rewrite <- Nat.add_1_r, drop_app_add. done. }
  rewrite Hd, value_end_encoded. cbn [mbind option_bind].
  rewrite !take_app_length. rewrite <- Nat.add_1_r, drop_app_add. done.
Qed.

Lemma value_end_none s : value_end (apreq_encode s) = None.
Proof.
  pose proof (apreq_encode_chars s) as Hc. induction (apreq_encode s) as [|c l IH]; [done|].
  cbn [forallb value_end] in *. rewrite andb_true_iff in Hc. destruct Hc as [Hc Hl].
  assert (Hn : implb (is_encoded_char c) (negb ((c =b? "&") || (c =b? ";"))) = true) by by_bytes c.
  rewrite Hc in Hn. cbn [implb] in Hn. rewrite negb_true_iff in Hn. by rewrite Hn, IH.
Qed.

Lemma memchr_param p :
  memchr (apreq_param_encode p) "=" = Some (length (apreq_encode (p_name p))).
Proof. unfold apreq_param_encode. rewrite memchr_encoded by apply apreq_encode_chars. done. Qed.

Lemma drop_param p :
  drop (S (length (apreq_encode (p_name p)))) (apreq_param_encode p) = apreq_encode (p_data p).
Proof. unfold apreq_param_encode. rewrite <- Nat.add_1_r, drop_app_add. done. Qed.

Lemma form_encoded hole t ps :
  ps <> [] -> Forall encodable ps ->
  let r := urlencoded_form hole t (query_string ps) in
  r.1 = APR_SUCCESS /\
  apr_table_elts r.2 = apr_table_elts t ++ map (fun p => (cstr (p_name p), body_param p)) ps.
Proof.
  revert t. induction ps as [|p ps IH]; intros t Hne Hps; [done|]. inversion Hps as [|? ? Hp Hps']; subst.
  cbn zeta. unfold urlencoded_form. destruct ps as [|q ps].
  - cbn [query_string]. rewrite pairs_of_unfold. unfold next_pair.
    rewrite memchr_param. cbn [mbind option_bind]. rewrite drop_param, value_end_none.
    cbn [mbind option_bind]. unfold form_end. rewrite memchr_param, drop_param.
    assert (take (length (apreq_encode (p_name p))) (apreq_param_encode p) = apreq_encode (p_name p)) as ->
      by (unfold apreq_param_encode; by rewrite take_app_length).
    rewrite pair_param_encoded by done. cbn [fst snd map]. split; [done|].
    unfold apreq_value_table_add. rewrite elts_add. done.
  - change (query_string (p :: q :: ps)) with (apreq_param_encode p ++ x26 :: query_string (q :: ps)).
    rewrite pairs_of_unfold, next_pair_encoded, pair_param_encoded by done.
    destruct (IH (apreq_value_table_add (body_param p) t) ltac:(done) Hps') as [H1 H2].
    unfold urlencoded_form in H1, H2. fold (body_param p). split; [done|].
    rewrite H2. unfold apreq_value_table_add. rewrite elts_add, <- app_assoc. done.
Qed.

Lemma fresh_pending psr : ps_hook psr = [] -> ps_ctx psr = None -> url_pending psr [].
Proof. intros Hh Hc. unfold url_pending. rewrite Hh, Hc. by split_and!. Qed.

(** ** Claims *)

(** C17: a urlencoded body parses the same however it is cut into buckets and
    brigades: after the call that sees EOS, the table holds the parameters that
    the body holds as one string, and the status is that of the string (or the
    general error, when a call before the last one had reported the failure). *)
Theorem urlencoded_chunking (hole : nat -> Byte.byte) (psr : apreq_parser_t (X := X) url_ctx)
    (t : apr_table apreq_param_t) (bbs : list brigade) (fin : brigade) :
  ps_hook psr = [] -> ps_ctx psr = None -> forallb (forallb plain) (bbs ++ [fin]) = true ->
  let '(s', _, t') := url_calls hole psr t APR_INCOMPLETE (bbs ++ [fin ++ [BEos]]) in
  let '(s0, t0) := urlencoded_form hole t (brigade_data (concat bbs ++ fin)) in
  t' = t0 /\ (s' = s0 \/ s' = APREQ_ERROR_GENERAL /\ s0 <> APR_SUCCESS).
Proof. intros Hh Hc Hp. by apply (url_calls_spec hole psr []); [apply fresh_pending|]. Qed.

(** Encoded parameters sent as a urlencoded body, however the body is cut,
    parse back to their names and values in order, tainted and with their
    charset. *)
Theorem urlencoded_round_trip (hole : nat -> Byte.byte) (psr : apreq_parser_t (X := X) url_ctx)
    (t : apr_table apreq_param_t) (ps : list apreq_param_t) (bbs : list brigade) (fin : brigade) :
  ps_hook psr = [] -> ps_ctx psr = None -> forallb (forallb plain) (bbs ++ [fin]) = true ->
  ps <> [] -> Forall encodable ps -> brigade_data (concat bbs ++ fin) = query_string ps ->
  let '(s, _, t') := url_calls hole psr t APR_INCOMPLETE (bbs ++ [fin ++ [BEos]]) in
  s = APR_SUCCESS /\
  apr_table_elts t' = apr_table_elts t ++ map (fun p => (cstr (p_name p), body_param p)) ps.
Proof.
  intros Hh Hc Hp Hne Hps Hd.
  pose proof (url_calls_spec hole psr [] t APR_INCOMPLETE bbs fin (fresh_pending _ Hh Hc) Hp) as Hr.
  destruct (url_calls _ _ _ _ _) as [[s' psr'] t']. cbn [app] in Hr. rewrite Hd in Hr.
  destruct (form_encoded hole t ps Hne Hps) as [H1 H2].
  destruct (urlencoded_form hole t (query_string ps)) as [s0 t0]. cbn [fst snd] in *. subst s0.
  destruct Hr as [-> [->|[_ ?]]]; done.
Qed.

End Facts.

(** ** Witnesses *)

Definition fresh_parser : apreq_parser_t (T := list_table) (X := unit) url_ctx :=
  apreq_parser_make [] apreq_parse_urlencoded_f 0 None [] None.

Lemma urlencoded_chunking_witness :
  let '(s', _, t') := url_calls (T := list_table) (fun _ => x00) fresh_parser apr_table_make APR_INCOMPLETE
    [[BData (str "a=1%"); BFlush; BData (str "32&b")]; [BData (str "=x"); BEos]] in
  let '(s0, t0) := urlencoded_form (T := list_table) (fun _ => x00) apr_table_make (str "a=1%32&b=x") in
  t' = t0 /\ (s' = s0 \/ s' = APREQ_ERROR_GENERAL /\ s0 <> APR_SUCCESS).
Proof.
  exact (urlencoded_chunking (fun _ => x00) fresh_parser apr_table_make
    [[BData (str "a=1%"); BFlush; BData (str "32&b")]] [BData (str "=x")] eq_refl eq_refl eq_refl).
Defined.

Lemma urlencoded_round_trip_witness :
  let p := Param (T := list_table) None None 0 (str "a") (str "1 2") in
  let '(s, _, t') := url_calls (T := list_table) (fun _ => x00) fresh_parser apr_table_make APR_INCOMPLETE
    [[BData (str "a")]; [BData (str "=1+2"); BEos]] in
  s = APR_SUCCESS /\ apr_table_elts t' = [(str "a", body_param p)].
Proof.
  apply (urlencoded_round_trip (fun _ => x00) fresh_parser apr_table_make
    [Param (T := list_table) None None 0 (str "a") (str "1 2")] [[BData (str "a")]] [BData (str "=1+2")]);
    try reflexivity; [done|].
  repeat constructor; [done|..]; cbn;
    repeat (apply (utf8_char _ []); [reflexivity|reflexivity|]); constructor.
Defined.

(** A name without a value at the end of the body is dropped, where the parser
    of query strings keeps it. *)
Example nameless_value_dropped :
  (urlencoded_form (T := list_table) (fun _ => x00) apr_table_make (str "flag")).2 = [] /\
  map fst (apreq_parse_query_string (T := list_table) (fun _ => x00) apr_table_make (str "flag")).2 =
    [str "flag"].
Proof. split; vm_compute; reflexivity. Qed.
