(* ===== verification/Header.v ===== *)
(** * The parser of header blocks ([src/libapreq2/library/parser_header.c])

    The headers of a body part arrive in brigades.  The parser scans its brigade
    from the front, cuts buckets where a name and a value begin and where a
    line ends, turns each line that is known to be complete into a parameter,
    and hands back what follows the empty line. *)
From S2P Require Import Prelude Apr Url Util Brigade Param Parser.

Section Header.
Context {E : AprErrno} {T : AprTable} {X : Type} {XP : AprXml X} {H : HookEnv X}.

Inductive hdr_status :=
  HDR_NAME | HDR_GAP | HDR_VALUE | HDR_NEWLINE | HDR_CONTINUE | HDR_COMPLETE | HDR_ERROR.
Record hdr_ctx := HdrCtx { h_bb : brigade; h_status : hdr_status }.

(** ** split_header_line *)

(** One of the three loops: buckets are read from [e] until [n] bytes are.
    Yields the status, the data and the buckets that follow; [None]: a bucket
    reaches past [n] (the assertion) or there is none. *)
Fixpoint hdr_take (bb : brigade) (n : nat) : option (Z * bytes * brigade) :=
  match n, bb with
  | O, _ => Some (APR_SUCCESS, [], bb)
  | S _, [] => None
  | S _, e :: bb' =>
      let '(s, d) := apr_bucket_read e in
      if negb (s =? APR_SUCCESS)%Z then Some (s, [], bb)
      else if n <? length d then None
      else '(s, d', r) ← hdr_take bb' (n - length d); Some (s, d ++ d', r)
  end.

Inductive hdr_split :=
  | HdrFails (s : Z)
  | HdrParam (p : apreq_param_t) (bb : brigade)   (** and the rest of the brigade *)
  | HdrAbort.                                     (** an assertion fails *)

(** The value without its line end: [dest[-1]] must be a line feed; a carriage
    return before it goes too. *)
Definition drop_line_end (v : bytes) : option bytes :=
  match last v with
  | Some x0a =>
      let v := removelast v in
      Some (match last v with Some x0d => removelast v | _ => v end)
  | _ => None
  end.

Definition split_header_line (bb : brigade) (nlen glen vlen : nat) : hdr_split :=
  if nlen =? 0 then HdrFails APR_EBADARG
  else
    match hdr_take bb nlen with
    | None => HdrAbort
    | Some (s, name, e) =>
        if negb (s =? APR_SUCCESS)%Z then HdrFails s
        else
          match hdr_take e glen with
          | None => HdrAbort
          | Some (s, _, e) =>
              if negb (s =? APR_SUCCESS)%Z then HdrFails s
              else if vlen =? 0 then HdrAbort
              else
                match hdr_take e vlen with
                | None => HdrAbort
                | Some (s, data, e) =>
                    if negb (s =? APR_SUCCESS)%Z then HdrFails s
                    else
                      match drop_line_end data with
                      | None => HdrAbort
                      | Some v => HdrParam (apreq_param_tainted_on (apreq_param_make name v)) e
                      end
                end
          end
    end.

(** ** The scan *)

Definition is_blank (c : Byte.byte) : bool := (c =b? " ") || (c =b? x09).

(** [if (off > 1) apr_bucket_split(e, off - 1)]: the buckets before the current
    one and the current one, in which the byte at [off] is now the first. *)
Definition hdr_cut (pre : brigade) (e : apr_bucket) (off : nat) : brigade * apr_bucket :=
  if 0 <? off then let '(e1, e2) := apr_bucket_split e off in (pre ++ [e1], e2) else (pre, e).

(** How the scan of a bucket ends. *)
Inductive hdr_step :=
  | StepNext (pre : brigade) (st : hdr_status) (nlen glen vlen : nat)
  | StepEnd (e : brigade)                         (** an empty line; what is left *)
  | StepLine (bb : brigade) (nlen glen vlen : nat).

(** [pre]: the buckets before [e]; [d]: the data of [e] from [off] on. *)
Fixpoint hdr_bucket (pre : brigade) (e : apr_bucket) (off : nat) (st : hdr_status)
    (nlen glen vlen : nat) (d : bytes) : hdr_step :=
  match d with
  | [] => StepNext (pre ++ [e]) st nlen glen vlen
  | c :: d' =>
      match st with
      | HDR_NAME =>
          if c =b? x0a then
            StepEnd (if 0 <? length d' then [(apr_bucket_split e (S off)).2] else [])
          else if c =b? ":" then
            let '(pre, e) := hdr_cut pre e off in
            hdr_bucket pre e 1 HDR_GAP nlen (S glen) vlen d'
          else hdr_bucket pre e (S off) HDR_NAME (S nlen) glen vlen d'
      | HDR_GAP =>
          if is_blank c then hdr_bucket pre e (S off) HDR_GAP nlen (S glen) vlen d'
          else if c =b? x0a then hdr_bucket pre e (S off) HDR_NEWLINE nlen glen vlen d'
          else
            let '(pre, e) := hdr_cut pre e off in
            hdr_bucket pre e 1 HDR_VALUE nlen glen (S vlen) d'
      | HDR_VALUE =>
          hdr_bucket pre e (S off) (if c =b? x0a then HDR_NEWLINE else HDR_VALUE)
            nlen glen (S vlen) d'
      | HDR_NEWLINE =>
          if is_blank c then hdr_bucket pre e (S off) HDR_CONTINUE nlen glen (vlen + 2) d'
          else let '(pre, e) := hdr_cut pre e off in StepLine (pre ++ [e]) nlen glen vlen
      | HDR_CONTINUE =>
          if is_blank c then hdr_bucket pre e (S off) HDR_CONTINUE nlen glen (S vlen) d'
          else if c =b? x0a then hdr_bucket pre e (S off) HDR_NEWLINE nlen glen vlen d'
          else hdr_bucket pre e (S off) HDR_VALUE nlen glen (S vlen) d'
      | HDR_COMPLETE | HDR_ERROR => StepNext (pre ++ [e]) st nlen glen vlen
      end
  end.

Inductive hdr_event :=
  | HdrMore (st : hdr_status) (bb : brigade)      (** the sentinel *)
  | HdrEos (bb : brigade)
  | HdrRead (s : Z) (bb : brigade)                (** a read failed *)
  | HdrEnd (bb : brigade)                         (** what follows the empty line *)
  | HdrLine (bb : brigade) (nlen glen vlen : nat).

Fixpoint hdr_scan (pre : brigade) (st : hdr_status) (nlen glen vlen : nat) (bb : brigade)
  : hdr_event :=
  match bb with
  | [] => HdrMore st pre
  | e :: bb' =>
      if bucket_is_eos e then HdrEos (pre ++ bb)
      else
        let '(s, d) := apr_bucket_read e in
        if negb (s =? APR_SUCCESS)%Z then HdrRead s (pre ++ bb)
        else
          match hdr_bucket pre e 0 st nlen glen vlen d with
          | StepNext pre st nlen glen vlen => hdr_scan pre st nlen glen vlen bb'
          | StepEnd e => HdrEnd (e ++ bb')
          | StepLine cur nlen glen vlen => HdrLine (cur ++ bb') nlen glen vlen
          end
  end.

(** ** The parser *)

Record header_result := HdrParsed {
  hd_status : Z; hd_table : apr_table apreq_param_t; hd_ctx : hdr_ctx;
  hd_hooks : list (apreq_hook_t (X := X));
  hd_bb : brigade     (** what the caller's brigade holds *)
}.

(** From [parse_hdr_brigade]; each turn uses up at least the bytes of a name.
    [None]: an assertion ends the process. *)
Fixpoint hdr_brigade (fuel : nat) (t : apr_table apreq_param_t)
    (hs : list (apreq_hook_t (X := X))) (bb : brigade) : option header_result :=
  match hdr_scan [] HDR_NAME 0 0 0 bb with
  | HdrMore st bb => Some (HdrParsed APR_INCOMPLETE t (HdrCtx bb st) hs [])
  | HdrRead s bb => Some (HdrParsed s t (HdrCtx bb HDR_ERROR) hs [])
  | HdrEos bb | HdrEnd bb => Some (HdrParsed APR_SUCCESS t (HdrCtx [] HDR_COMPLETE) hs bb)
  | HdrLine bb nlen glen vlen =>
      match split_header_line bb nlen glen vlen, fuel with
      | HdrAbort, _ => None
      | HdrFails s, _ => Some (HdrParsed s t (HdrCtx bb HDR_ERROR) hs [])
      | HdrParam p bb, O => Some (HdrParsed APREQ_ERROR_GENERAL t (HdrCtx bb HDR_ERROR) hs [])
      | HdrParam p bb, S fuel =>
          let '(s, hs, p, _) := apreq_hook_run hs p None in
          if (s =? APR_SUCCESS)%Z then hdr_brigade fuel (apreq_value_table_add p t) hs bb
          else Some (HdrParsed s t (HdrCtx bb HDR_ERROR) hs [])
      end
  end.

(** The status, the parser, the table and the caller's brigade. *)
Definition apreq_parse_headers (psr : apreq_parser_t (X := X) hdr_ctx)
    (t : apr_table apreq_param_t) (bb : option brigade)
  : option (Z * apreq_parser_t (X := X) hdr_ctx * apr_table apreq_param_t * option brigade) :=
  let ctx := default (HdrCtx [] HDR_NAME) (ps_ctx psr) in
  match parser_status_check (match h_status ctx with HDR_ERROR => true | _ => false end)
          (match h_status ctx with HDR_COMPLETE => true | _ => false end)
          (match bb with None => true | _ => false end) with
  | Some s => Some (s, set_ctx psr ctx, t, bb)
  | None =>
      let all := h_bb ctx ++ default [] bb in
      r ← hdr_brigade (length (brigade_data all)) t (ps_hook psr) all;
      Some (hd_status r, set_ctx (set_hook psr (hd_hooks r)) (hd_ctx r), hd_table r,
            Some (hd_bb r))
  end.

End Header.

(** * Properties *)

Section Facts.
Context {E : AprErrno} {T : AprTable} {X : Type} {XP : AprXml X} {H : HookEnv X}
        {ok : apr_bucket -> bool} {K : BucketKind ok}.
Abbreviation plains := (plains (ok := ok)).

(** ** Lines that are not folded *)

(** From this state and counts, the text completes a line with counts [N], [G]
    and [V]: it does not end before its first colon, the value starts on the
    line of the name, and no line that starts with a blank follows. *)
Inductive runs (N G V : nat) : hdr_status -> nat -> nat -> nat -> bytes -> Prop :=
  | runs_name c n l : (c =b? x0a) = false -> (c =b? ":") = false ->
      runs N G V HDR_NAME (S n) 0 0 l -> runs N G V HDR_NAME n 0 0 (c :: l)
  | runs_colon n l : runs N G V HDR_GAP n 1 0 l -> runs N G V HDR_NAME n 0 0 (":"%byte :: l)
  | runs_gap c n g l : is_blank c = true ->
      runs N G V HDR_GAP n (S g) 0 l -> runs N G V HDR_GAP n g 0 (c :: l)
  | runs_first c n g l : is_blank c = false -> (c =b? x0a) = false ->
      runs N G V HDR_VALUE n g 1 l -> runs N G V HDR_GAP n g 0 (c :: l)
  | runs_value c n g v l : (c =b? x0a) = false ->
      runs N G V HDR_VALUE n g (S v) l -> runs N G V HDR_VALUE n g v (c :: l)
  | runs_newline n g v l :
      runs N G V HDR_NEWLINE n g (S v) l -> runs N G V HDR_VALUE n g v (x0a :: l)
  | runs_done c l : is_blank c = false -> runs N G V HDR_NEWLINE N G V (c :: l).

(** The buckets up to the first [k] bytes of the current one are cut where the
    parts of a line begin. *)
Definition cut_at (pre : brigade) (k : nat) (st : hdr_status) (n g v : nat) : Prop :=
  let len b := length (brigade_data b) in
  match st with
  | HDR_NAME => n = len pre + k
  | HDR_GAP => exists b c, pre = b ++ c /\ n = len b /\ g = len c + k
  | HDR_VALUE | HDR_NEWLINE =>
      exists a b c, pre = a ++ b ++ c /\ n = len a /\ g = len b /\ v = len c + k
  | _ => False
  end.

(** The parser is in the middle of a block. *)
Definition waiting (st : hdr_status) : bool :=
  match st with HDR_COMPLETE | HDR_ERROR => false | _ => true end.

(** A brigade cut into a name, a gap, a value and the rest. *)
Definition cut_line (bb : brigade) (n g v : nat) : Prop :=
  exists a b c r, bb = a ++ b ++ c ++ r /\ length (brigade_data a) = n /\
    length (brigade_data b) = g /\ length (brigade_data c) = v.

(** What cutting the current bucket does. *)
Lemma hdr_cut_spec pre e off c d :
  plains (pre ++ [e]) -> drop off (apr_bucket_read e).2 = c :: d ->
  exists b e', hdr_cut pre e off = (pre ++ b, e') /\ length (brigade_data b) = off /\
    (apr_bucket_read e').2 = c :: d /\ plains ((pre ++ b) ++ [e']) /\
    brigade_data ((pre ++ b) ++ [e']) = brigade_data (pre ++ [e]).
Proof.
  rewrite plains_app, plains_one. intros [Hp He] Hd.
  assert (Hl : off <= length (apr_bucket_read e).2).
  { apply (f_equal length) in Hd. rewrite length_drop in Hd. cbn in Hd. lia. }
  unfold hdr_cut. destruct (0 <? off) eqn:E0.
  - destruct (split_data e off Hl) as [D1 D2], (kind_split e off He) as [P1 P2].
    destruct (apr_bucket_split e off) as [e1 e2]. cbn [fst snd] in *.
    exists [e1], e2.
    rewrite !brigade_data_app, !brigade_data_one, !plains_app, !plains_one, D1, D2, <- app_assoc,
      take_drop, length_take_le by done.
    by split_and!.
  - apply Nat.ltb_ge in E0. assert (off = 0) as -> by lia. rewrite drop_0 in Hd.
    exists [], e. rewrite app_nil_r, plains_app, plains_one. done.
Qed.

(** One bucket of a line that [runs]. *)
Lemma hdr_bucket_runs N G V y d pre e off st n g v :
  runs N G V st n g v (d ++ y) -> cut_at pre off st n g v -> plains (pre ++ [e]) ->
  off <= length (apr_bucket_read e).2 -> drop off (apr_bucket_read e).2 = d ->
  match hdr_bucket pre e off st n g v d with
  | StepNext pre' st' n' g' v' =>
      runs N G V st' n' g' v' y /\ cut_at pre' 0 st' n' g' v' /\ plains pre' /\
      brigade_data pre' = brigade_data (pre ++ [e])
  | StepLine bb n' g' v' =>
      (n', g', v') = (N, G, V) /\ plains bb /\ cut_line bb N G V /\
      brigade_data bb = brigade_data (pre ++ [e])
  | StepEnd _ => False
  end.
Proof.
  revert pre e off st n g v. induction d as [|c d IH]; intros pre e off st n g v Hr Hc Hp Hl Hd.
  { cbn [hdr_bucket app] in *. apply (f_equal length) in Hd. rewrite length_drop in Hd. cbn in Hd.
    split_and!; [done| |done|done]. destruct st; cbn [cut_at] in *; try done.
    - rewrite len_snoc. lia.
    - destruct Hc as (b & k & -> & -> & ->). exists b, (k ++ [e]).
      rewrite app_assoc, len_snoc. split_and!; try done; lia.
    - destruct Hc as (a & b & k & -> & -> & -> & ->). exists a, b, (k ++ [e]).
      rewrite <- !app_assoc, len_snoc. split_and!; try done; lia.
    - destruct Hc as (a & b & k & -> & -> & -> & ->). exists a, b, (k ++ [e]).
      rewrite <- !app_assoc, len_snoc. split_and!; try done; lia. }
  assert (Hd' : drop (S off) (apr_bucket_read e).2 = d).
  { replace (S off) with (off + 1) by lia. rewrite <- drop_drop, Hd. done. }
  assert (Hl' : S off <= length (apr_bucket_read e).2).
  { apply (f_equal length) in Hd. rewrite length_drop in Hd. cbn in Hd. lia. }
  destruct (hdr_cut_spec pre e off c d Hp Hd) as (b & e' & Hcut & Hb & He' & Hp' & Hdata).
  assert (H1 : 1 <= length (apr_bucket_read e').2) by (rewrite He'; cbn; lia).
  assert (Hd1 : drop 1 (apr_bucket_read e').2 = d) by (by rewrite He').
  cbn [hdr_bucket]. clear Hd He'. rewrite ?Hcut.
  inversion Hr; subst c; clear Hr; subst;
    repeat match goal with
    | Hb : ?b = _ |- context [if ?b then _ else _] => rewrite Hb
    end.
  all: try (apply IH; [done| |done..]; cbn [cut_at] in *; (lia || naive_solver lia)).
  - rewrite <- Hdata. apply IH; [done| |done..].
    exists (pre ++ b), []. rewrite app_nil_r, len_app. cbn in *. split_and!; [done|lia..].
  - rewrite <- Hdata. apply IH; [done| |done..]. destruct Hc as (b0 & c & -> & -> & ->).
    exists b0, (c ++ b), []. rewrite app_nil_r, len_app, <- app_assoc. cbn. split_and!; [done..|lia].
  - split_and!; [done..| |done]. destruct Hc as (a & b0 & c & -> & -> & -> & ->).
    exists a, b0, (c ++ b), [e']. rewrite len_app, <- !app_assoc. by split_and!.
Qed.

(** A scan of a line that [runs]: it needs more, or it finds the line and the
    brigade is cut into its parts. *)
Lemma hdr_scan_runs N G V y bb pre st n g v :
  runs N G V st n g v (brigade_data bb ++ y) -> cut_at pre 0 st n g v -> plains (pre ++ bb) ->
  match hdr_scan pre st n g v bb with
  | HdrMore st' bb' => y <> [] /\ waiting st' = true /\ plains bb' /\ brigade_data bb' = brigade_data (pre ++ bb)
  | HdrLine bb' n' g' v' =>
      (n', g', v') = (N, G, V) /\ plains bb' /\ cut_line bb' N G V /\
      brigade_data bb' = brigade_data (pre ++ bb)
  | _ => False
  end.
Proof.
  revert pre st n g v. induction bb as [|e bb IH]; intros pre st n g v Hr Hc Hp; cbn [hdr_scan].
  { rewrite app_nil_r in *. split_and!; [|by destruct st|done..]. intros ->. by inversion Hr. }
  apply plains_app in Hp as [Hp1 Hp2]. change (e :: bb) with ([e] ++ bb) in Hp2.
  apply plains_app in Hp2 as [He Hbb].
  destruct (kind_read e) as [-> Hs]; [by apply plains_one|].
  destruct (apr_bucket_read e) as [s d] eqn:Ee. cbn [snd] in Hs. injection Hs as ->. cbn [negb Z.eqb].
  rewrite brigade_data_cons, Ee, <- app_assoc in Hr.
  assert (Hpe : plains (pre ++ [e])) by by apply plains_app.
  pose proof (hdr_bucket_runs N G V _ d pre e 0 st n g v Hr Hc Hpe) as Hb.
  rewrite Ee, drop_0 in Hb. specialize (Hb ltac:(lia) eq_refl).
  assert (Hdata : forall l, brigade_data l = brigade_data (pre ++ [e]) ->
    brigade_data (l ++ bb) = brigade_data (pre ++ e :: bb)).
  { intros l Hl. rewrite brigade_data_app, Hl, <- brigade_data_app, <- app_assoc. done. }
  destruct (hdr_bucket _ _ _ _ _ _ _ _) as [pre' st' n' g' v'|?|cur n' g' v']; [|done|].
  - destruct Hb as (Hr' & Hc' & Hp' & Hd'). rewrite <- (Hdata _ Hd').
    apply IH; [done..|by apply plains_app].
  - destruct Hb as (? & Hp' & (a & b & c & r & -> & ? & ? & ?) & Hd').
    split_and!; [done|by apply plains_app| |by apply Hdata].
    exists a, b, c, (r ++ bb). rewrite <- !app_assoc. by split_and!.
Qed.

(** ** The parameter of a line *)

Lemma hdr_take_exact a r :
  plains a ->
  exists z, brigade_data z = [] /\ plains z /\
    hdr_take (a ++ r) (length (brigade_data a)) = Some (APR_SUCCESS, brigade_data a, z ++ r).
Proof.
  induction a as [|e a IH]; intros Hp.
  { exists []. by destruct r. }
  destruct (length (brigade_data (e :: a))) as [|n] eqn:Hn.
  { apply length_zero_iff_nil in Hn. exists (e :: a). by rewrite Hn. }
  change (e :: a) with ([e] ++ a) in Hp. apply plains_app in Hp as [He Ha].
  destruct (IH Ha) as (z & Hz & Hpz & Ht). exists z. split_and!; [done..|].
  cbn [app hdr_take]. destruct (kind_read e) as [_ Hs]; [by apply plains_one|].
  rewrite brigade_data_cons, length_app in Hn. rewrite brigade_data_cons.
  destruct (apr_bucket_read e) as [s d]. cbn [snd] in *. injection Hs as ->. cbn [negb Z.eqb].
  assert ((S n <? length d) = false) as -> by (apply Nat.ltb_ge; lia).
  replace (S n - length d) with (length (brigade_data a)) by lia. by rewrite Ht.
Qed.

Lemma split_header_line_cut bb n g v p :
  plains bb -> cut_line bb n g v -> 0 < n -> 0 < v ->
  let data := brigade_data bb in
  drop_line_end (take v (drop (n + g) data)) = Some p ->
  exists bb', split_header_line bb n g v =
      HdrParam (apreq_param_tainted_on (apreq_param_make (take n data) p)) bb' /\
    plains bb' /\ brigade_data bb' = drop (n + g + v) data.
Proof.
  intros Hp (a & b & c & r & -> & <- & <- & <-) Hn Hv data Hd. subst data.
  apply plains_app in Hp as [Ha Hp]. apply plains_app in Hp as [Hb Hp].
  apply plains_app in Hp as [Hc Hr].
  rewrite !brigade_data_app in *. rewrite <- drop_drop, drop_app_length, drop_app_length,
    take_app_length in Hd.
  unfold split_header_line. apply Nat.lt_neq, not_eq_sym, Nat.eqb_neq in Hn, Hv. rewrite Hn.
  destruct (hdr_take_exact a (b ++ c ++ r) Ha) as (z & Hz & Pz & ->). cbn [negb Z.eqb].
  assert (Pzb : plains (z ++ b)) by by apply plains_app.
  destruct (hdr_take_exact (z ++ b) (c ++ r) Pzb) as (z2 & Hz2 & Pz2 & Ht).
  rewrite brigade_data_app, Hz, <- app_assoc in Ht. cbn [app] in Ht. rewrite Ht. cbn [negb Z.eqb].
  rewrite Hv.
  assert (Pzc : plains (z2 ++ c)) by by apply plains_app.
  destruct (hdr_take_exact (z2 ++ c) r Pzc) as (z3 & Hz3 & Pz3 & Ht3).
  rewrite brigade_data_app, Hz2, <- app_assoc in Ht3. cbn [app] in Ht3. rewrite Ht3.
  cbn [negb Z.eqb]. rewrite Hd, take_app_length. exists (z3 ++ r).
  split_and!; [done|by apply plains_app|].
  rewrite brigade_data_app, Hz3, <- !drop_drop, !drop_app_length. done.
Qed.

(** ** Header blocks *)

(** A header line: its name, the blanks after the colon, its value, its end. *)
Record hdr_line := HLine {
  hl_name : bytes; hl_gap : bytes; hl_value : bytes; hl_crlf : bool
}.

Definition hl_end (h : hdr_line) : bytes := if hl_crlf h then [x0d; x0a] else [x0a].
Definition hl_text (h : hdr_line) : bytes :=
  hl_name h ++ str ":" ++ hl_gap h ++ hl_value h ++ hl_end h.

Definition starts_blank (l : bytes) : bool :=
  match l with c :: _ => is_blank c | [] => false end.
Definition no_lf (l : bytes) : bool := forallb (fun c => negb (c =b? x0a)) l.
Definition no_colon_lf (l : bytes) : bool :=
  forallb (fun c => negb (c =b? x0a) && negb (c =b? ":")) l.

(** A value may be empty only before CRLF, and end in CR only before CRLF. *)
Definition hl_ok (h : hdr_line) : bool :=
  negb (length (hl_name h) =? 0) && negb (starts_blank (hl_name h)) && no_colon_lf (hl_name h) &&
  forallb is_blank (hl_gap h) && negb (starts_blank (hl_value h)) && no_lf (hl_value h) &&
  (hl_crlf h || match last (hl_value h) with
                | None => false | Some c => negb (c =b? x0d) end).

Definition hl_param (h : hdr_line) : apreq_param_t :=
  apreq_param_tainted_on (apreq_param_make (hl_name h) (hl_value h)).

Lemma no_lf_cons c l : no_lf (c :: l) = true -> (c =b? x0a) = false /\ no_lf l = true.
Proof. unfold no_lf. cbn. by rewrite andb_true_iff, negb_true_iff. Qed.

Lemma runs_val N G V n g vs y :
  no_lf vs = true -> starts_blank y = false -> y <> [] ->
  forall v, N = n -> G = g -> V = v + length vs + 1 ->
  runs N G V HDR_VALUE n g v (vs ++ x0a :: y).
Proof.
  intros Hv Hy Hne. induction vs as [|c vs IH]; intros v -> -> ->; cbn [app length].
  - apply runs_newline. replace (v + 0 + 1) with (S v) by lia.
    destruct y; [done|]. by apply runs_done.
  - apply no_lf_cons in Hv as [Hc Hv]. apply runs_value; [done|]. apply IH; try done; cbn [length]; lia.
Qed.

Lemma runs_gap_text N G V n gap c vs y :
  forallb is_blank gap = true -> is_blank c = false -> no_lf (c :: vs) = true ->
  starts_blank y = false -> y <> [] -> forall g,
  N = n -> G = g + length gap -> V = length vs + 2 ->
  runs N G V HDR_GAP n g 0 (gap ++ c :: vs ++ x0a :: y).
Proof.
  intros Hg Hc Hv Hy Hne. apply no_lf_cons in Hv as [Hc' Hv].
  induction gap as [|b gap IH]; intros g -> -> ->; cbn [app length].
  - apply runs_first; [done..|]. apply runs_val; try done; lia.
  - cbn in Hg. apply andb_true_iff in Hg as [Hb Hg]. apply runs_gap; [done|].
    apply IH; try done; cbn [length]; lia.
Qed.

Lemma runs_name_text N G V nm gap c vs y :
  no_colon_lf nm = true -> forallb is_blank gap = true -> is_blank c = false ->
  no_lf (c :: vs) = true -> starts_blank y = false -> y <> [] -> forall n,
  N = n + length nm -> G = 1 + length gap -> V = length vs + 2 ->
  runs N G V HDR_NAME n 0 0 (nm ++ ":"%byte :: gap ++ c :: vs ++ x0a :: y).
Proof.
  intros Hn Hg Hc Hv Hy Hne. induction nm as [|b nm IH]; intros n -> -> ->; cbn [app length].
  - apply runs_colon. apply runs_gap_text; try done; lia.
  - unfold no_colon_lf in Hn. cbn in Hn. rewrite !andb_true_iff, !negb_true_iff in Hn.
    destruct Hn as [[H1 H2] Hn]. apply runs_name; [done..|].
    apply IH; try done; cbn [length]; lia.
Qed.

Lemma no_lf_app a b : no_lf (a ++ b) = no_lf a && no_lf b.
Proof. apply forallb_app. Qed.

(** Where the value of a line begins and ends. *)
Lemma hl_value_shape h :
  hl_ok h = true ->
  exists c vs, hl_value h ++ hl_end h = c :: vs ++ [x0a] /\ no_lf (c :: vs) = true /\
    is_blank c = false.
Proof.
  unfold hl_ok, hl_end. rewrite !andb_true_iff, !negb_true_iff. intros [[[_ Hb] Hl] He].
  destruct (hl_crlf h).
  - destruct (hl_value h) as [|c vs]; [by exists x0d, []|].
    exists c, (vs ++ [x0d]). change (c :: vs ++ [x0d]) with ((c :: vs) ++ [x0d]).
    rewrite no_lf_app, Hl. by rewrite <- app_assoc.
  - destruct (hl_value h) as [|c vs]; [done|]. by exists c, vs.
Qed.

Lemma last_snoc_byte (l : bytes) c : last (l ++ [c]) = Some c /\ removelast (l ++ [c]) = l.
Proof. split; [apply last_snoc|apply removelast_last]. Qed.

Lemma hl_value_kept h : hl_ok h = true -> drop_line_end (hl_value h ++ hl_end h) = Some (hl_value h).
Proof.
  unfold hl_ok, hl_end, drop_line_end. rewrite !andb_true_iff. intros [_ He].
  destruct (hl_crlf h).
  - change [x0d; x0a] with ([x0d] ++ [x0a]). rewrite app_assoc.
    destruct (last_snoc_byte (hl_value h ++ [x0d]) x0a) as [-> ->].
    destruct (last_snoc_byte (hl_value h) x0d) as [-> ->]. done.
  - destruct (last_snoc_byte (hl_value h) x0a) as [-> ->]. cbn [orb] in He.
    destruct (last (hl_value h)) as [c|]; [|done]. by destruct c.
Qed.

Lemma hl_runs h y :
  hl_ok h = true -> starts_blank y = false -> y <> [] ->
  runs (length (hl_name h)) (1 + length (hl_gap h)) (length (hl_value h ++ hl_end h))
    HDR_NAME 0 0 0 (hl_text h ++ y).
Proof.
  intros Hok Hy Hne. destruct (hl_value_shape h Hok) as (c & vs & Hv & Hlf & Hb).
  unfold hl_ok in Hok. rewrite !andb_true_iff in Hok. destruct Hok as [[[[[_ Hn] Hg] _] _] _].
  unfold hl_text. rewrite Hv, <- !app_assoc. cbn [app str String.list_byte_of_string].
  change (str ":") with [":"%byte]. cbn [app]. rewrite <- app_assoc. cbn [app].
  apply runs_name_text; try done. cbn [length]. rewrite length_app. cbn. lia.
Qed.

(** A bucket of the empty line. *)
Lemma hdr_bucket_end body y d pre e off n f :
  no_colon_lf f = true -> d ++ y = f ++ x0a :: body ->
  ok e = true -> drop off (apr_bucket_read e).2 = d ->
  match hdr_bucket pre e off HDR_NAME n 0 0 d with
  | StepNext pre' st' n' g' v' =>
      pre' = pre ++ [e] /\ st' = HDR_NAME /\ g' = 0 /\ v' = 0 /\
      exists f', y = f' ++ x0a :: body /\ no_colon_lf f' = true
  | StepEnd r => plains r /\ brigade_data r ++ y = body
  | StepLine _ _ _ _ => False
  end.
Proof.
  revert off n f. induction d as [|c d IH]; intros off n f Hf Hy He Hd; cbn [hdr_bucket].
  { split_and!; [done..|]. by exists f. }
  assert (Hd' : drop (S off) (apr_bucket_read e).2 = d).
  { replace (S off) with (off + 1) by lia. rewrite <- drop_drop, Hd. done. }
  assert (Hl : S off <= length (apr_bucket_read e).2).
  { apply (f_equal length) in Hd. rewrite length_drop in Hd. cbn in Hd. lia. }
  destruct f as [|c' f]; injection Hy as -> Hy.
  - rewrite byte_eqb_refl, <- Hy. destruct (0 <? length d) eqn:E0.
    + destruct (split_data e (S off) Hl) as [_ D], (kind_split e (S off) He) as [_ P].
      rewrite plains_one, brigade_data_one, D, Hd'. done.
    + by destruct d.
  - unfold no_colon_lf in Hf. cbn in Hf. rewrite !andb_true_iff, !negb_true_iff in Hf.
    destruct Hf as [[-> ->] Hf]. by apply (IH _ _ f).
Qed.

Lemma hdr_scan_end body y bb pre n f :
  no_colon_lf f = true -> brigade_data bb ++ y = f ++ x0a :: body -> plains (pre ++ bb) ->
  match hdr_scan pre HDR_NAME n 0 0 bb with
  | HdrMore st bb' => y <> [] /\ waiting st = true /\ bb' = pre ++ bb
  | HdrEnd bb' => plains bb' /\ brigade_data bb' ++ y = body
  | _ => False
  end.
Proof.
  revert pre n f. induction bb as [|e bb IH]; intros pre n f Hf Hy Hp; cbn [hdr_scan].
  { rewrite app_nil_r. split; [|done]. intros ->. by destruct f. }
  change (e :: bb) with ([e] ++ bb) in *. apply plains_app in Hp as [Hp1 Hp2].
  apply plains_app in Hp2 as [He Hbb]. apply plains_one in He as He1.
  rewrite brigade_data_app, brigade_data_one, <- app_assoc in Hy.
  destruct (kind_read e He1) as [-> Hs].
  destruct (apr_bucket_read e) as [s d] eqn:Ee. cbn [snd] in *. injection Hs as ->.
  cbn [negb Z.eqb].
  pose proof (hdr_bucket_end body _ d pre e 0 n f Hf Hy He1) as Hb. rewrite Ee in Hb.
  specialize (Hb eq_refl).
  destruct (hdr_bucket _ _ _ _ _ _ _ _) as [pre' st' n' g' v'|r|]; [|  |done].
  - destruct Hb as (-> & -> & -> & -> & f' & Hy' & Hf'). rewrite app_assoc.
    apply (IH (pre ++ [e]) n' f'); [done..|]. rewrite !plains_app. done.
  - destruct Hb as [Hr <-]. cbn beta iota delta [negb Z.eqb APR_SUCCESS].
    rewrite plains_app, brigade_data_app, <- app_assoc. done.
Qed.

(** The text of a block: its lines, an empty line (or any other line that has no
    colon), and what follows. *)
Definition block_text (hs : list hdr_line) (fin body : bytes) : bytes :=
  flat_map hl_text hs ++ fin ++ x0a :: body.

Definition fin_ok (fin : bytes) : bool := no_colon_lf fin && negb (starts_blank fin).

Lemma block_text_starts hs fin body :
  forallb hl_ok hs = true -> fin_ok fin = true ->
  starts_blank (block_text hs fin body) = false /\ block_text hs fin body <> [].
Proof.
  unfold fin_ok. intros Hh Hf. apply andb_true_iff in Hf as [_ Hf]. apply negb_true_iff in Hf.
  destruct hs as [|h hs]; unfold block_text; cbn [flat_map app].
  - by destruct fin.
  - cbn in Hh. apply andb_true_iff in Hh as [Hh _]. unfold hl_ok in Hh.
    rewrite !andb_true_iff, !negb_true_iff in Hh. destruct Hh as [[[[[[Hn Hb] _] _] _] _] _].
    unfold hl_text. by destruct (hl_name h).
Qed.

Definition add_lines (t : apr_table apreq_param_t) (hs : list hdr_line) : apr_table apreq_param_t :=
  fold_left (fun t h => apreq_value_table_add (hl_param h) t) hs t.

Lemma add_lines_elts t hs :
  apr_table_elts (add_lines t hs) =
    apr_table_elts t ++ map (fun h => (cstr (hl_name h), hl_param h)) hs.
Proof.
  revert t. induction hs as [|h hs IH]; intros t; cbn; [by rewrite app_nil_r|].
  unfold add_lines in IH. rewrite IH. unfold apreq_value_table_add. rewrite elts_add, <- app_assoc.
  done.
Qed.

Lemma app_longer (a b d y : bytes) :
  a ++ b = d ++ y -> length a <= length d -> exists q, d = a ++ q /\ b = q ++ y.
Proof.
  intros Heq Hl. exists (drop (length a) d).
  assert (Ht : take (length a) d = a).
  { apply (f_equal (take (length a))) in Heq. by rewrite take_app_length, take_app_le in Heq. }
  split; [rewrite <- (take_drop (length a) d) at 1; by rewrite Ht|].
  apply (f_equal (drop (length a))) in Heq. by rewrite drop_app_length, drop_app_le in Heq.
Qed.

(** The first line of a block that is not at its end. *)
Lemma hdr_scan_line h hs fin body bb y :
  forallb hl_ok (h :: hs) = true -> fin_ok fin = true -> plains bb ->
  brigade_data bb ++ y = block_text (h :: hs) fin body ->
  match hdr_scan [] HDR_NAME 0 0 0 bb with
  | HdrMore st bb' => y <> [] /\ waiting st = true /\ plains bb' /\ brigade_data bb' = brigade_data bb
  | HdrLine bb' n g v =>
      exists bb2, split_header_line bb' n g v = HdrParam (hl_param h) bb2 /\ plains bb2 /\
        brigade_data bb2 ++ y = block_text hs fin body /\
        length (brigade_data bb2) < length (brigade_data bb)
  | _ => False
  end.
Proof.
  intros Hh Hf Hp Hd. cbn in Hh. apply andb_true_iff in Hh as [Hok Hh].
  destruct (block_text_starts hs fin body Hh Hf) as [Hb Hne].
  pose proof (hl_runs h (block_text hs fin body) Hok Hb Hne) as Hr.
  assert (Heq : hl_text h ++ block_text hs fin body = brigade_data bb ++ y).
  { rewrite Hd. unfold block_text. cbn [flat_map]. by rewrite <- app_assoc. }
  rewrite Heq in Hr.
  pose proof (hdr_scan_runs _ _ _ y bb [] _ 0 0 0 Hr eq_refl Hp) as Hs.
  destruct (hdr_scan _ _ _ _ _ _) as [st bb'| | | |bb' n g v]; try done.
  destruct Hs as ([= -> -> ->] & Hp' & Hc & Hd'). cbn [app] in Hd'.
  assert (Hlen : length (hl_text h) <= length (brigade_data bb)).
  { rewrite <- Hd'. destruct Hc as (a & b & c & r & -> & Ha & Hb2 & Hc). rewrite !len_app.
    unfold hl_text. rewrite !length_app in *. cbn. lia. }
  destruct (app_longer _ _ _ _ Heq Hlen) as (q & Hq & Hrest).
  assert (0 < length (hl_name h)).
  { unfold hl_ok in Hok. rewrite !andb_true_iff, negb_true_iff, Nat.eqb_neq in Hok. lia. }
  assert (Hvl : 0 < length (hl_value h ++ hl_end h)).
  { rewrite length_app. unfold hl_end. destruct (hl_crlf h); cbn; lia. }
  assert (Ht : brigade_data bb' =
    hl_name h ++ (":"%byte :: hl_gap h) ++ (hl_value h ++ hl_end h) ++ q).
  { rewrite Hd', Hq. unfold hl_text. by rewrite <- !app_assoc. }
  change (1 + length (hl_gap h)) with (length (":"%byte :: hl_gap h)) in Hc.
  destruct (split_header_line_cut bb' _ _ _ (hl_value h) Hp' Hc ltac:(done) Hvl)
    as (bb2 & Hs & Hp2 & Hd2); rewrite Ht in *; rewrite <- !drop_drop, !drop_app_length in *.
  { rewrite take_app_length. by apply hl_value_kept. }
  rewrite take_app_length in Hs. exists bb2. rewrite Hd2.
  split_and!; [done..|]. rewrite Hq, length_app. unfold hl_text. rewrite length_app. lia.
Qed.

(** What a call leaves when it got the part [bb] of a block with lines [hs]. *)
Definition block_parsed (hs : list hdr_line) (fin body : bytes) (t : apr_table apreq_param_t)
    (y : bytes) (r : header_result (X := X)) : Prop :=
  hd_hooks r = [] /\
  ((hd_status r = APR_INCOMPLETE /\ y <> [] /\ waiting (h_status (hd_ctx r)) = true /\
    plains (h_bb (hd_ctx r)) /\ hd_bb r = [] /\
    exists hs1 hs2, hs = hs1 ++ hs2 /\ hd_table r = add_lines t hs1 /\
      brigade_data (h_bb (hd_ctx r)) ++ y = block_text hs2 fin body) \/
   (hd_status r = APR_SUCCESS /\ hd_table r = add_lines t hs /\ plains (hd_bb r) /\
    brigade_data (hd_bb r) ++ y = body)).

Lemma hdr_brigade_block hs fin body fuel t bb y :
  forallb hl_ok hs = true -> fin_ok fin = true -> plains bb ->
  brigade_data bb ++ y = block_text hs fin body -> length (brigade_data bb) <= fuel ->
  exists r, hdr_brigade fuel t [] bb = Some r /\ block_parsed hs fin body t y r.
Proof.
  revert fuel t bb. induction hs as [|h hs IH]; intros fuel t bb Hh Hf Hp Hd Hfuel.
  - unfold fin_ok in Hf. apply andb_true_iff in Hf as [Hf _].
    pose proof (hdr_scan_end body y bb [] 0 fin Hf Hd Hp) as Hs.
    destruct fuel; cbn [hdr_brigade]; destruct (hdr_scan _ _ _ _ _ _) as [st bb'| | |bb'|]; try done;
      (eexists; split; [reflexivity|split; [reflexivity|]]); cbn.
    1, 3: left; destruct Hs as (Hy & Hw & ->); split_and!; [done..|by exists [], []].
    1, 2: right; by destruct Hs.
  - pose proof (hdr_scan_line h hs fin body bb y Hh Hf Hp Hd) as Hs.
    destruct fuel as [|fuel]; cbn [hdr_brigade];
      destruct (hdr_scan _ _ _ _ _ _) as [st bb'| | |bb'|bb' n g v]; try done.
    1, 3: destruct Hs as (Hy & Hw & Hp' & Hd'); eexists; split; [reflexivity|split; [reflexivity|]];
      left; cbn [hd_status hd_ctx hd_table h_bb h_status]; split_and!; [done..|]; exists [], (h :: hs); by rewrite Hd'.
    { destruct Hs as (bb2 & _ & _ & _ & ?). lia. }
    destruct Hs as (bb2 & -> & Hp2 & Hd2 & Hlt). cbn [apreq_hook_run]. rewrite Z.eqb_refl.
    cbn in Hh. apply andb_true_iff in Hh as [_ Hh].
    destruct (IH fuel (apreq_value_table_add (hl_param h) t) bb2 Hh Hf Hp2 Hd2 ltac:(lia))
      as (r & -> & Hk & [(? & ? & ? & ? & ? & hs1 & hs2 & -> & ? & ?)|Hr]); exists r; split; try done;
      (split; [done|]); [left|by right].
    split_and!; [done..|]. by exists (h :: hs1), hs2.
Qed.

(** ** What any call keeps *)

Lemma hdr_cut_data pre e off c d :
  drop off (apr_bucket_read e).2 = c :: d ->
  let '(pre', e') := hdr_cut pre e off in
  brigade_data (pre' ++ [e']) = brigade_data (pre ++ [e]) /\ (apr_bucket_read e').2 = c :: d.
Proof.
  intros Hd. unfold hdr_cut. destruct (0 <? off) eqn:E0.
  - assert (Hl : off <= length (apr_bucket_read e).2).
    { apply (f_equal length) in Hd. rewrite length_drop in Hd. cbn in Hd. lia. }
    destruct (split_data e off Hl) as [D1 D2]. destruct (apr_bucket_split e off) as [e1 e2].
    cbn [fst snd] in *. rewrite !brigade_data_app, !brigade_data_one, D1, D2, <- app_assoc, take_drop.
    done.
  - apply Nat.ltb_ge in E0. assert (off = 0) as -> by lia. by rewrite drop_0 in Hd.
Qed.

Lemma hdr_bucket_keeps d pre e off st n g v :
  drop off (apr_bucket_read e).2 = d ->
  let all := brigade_data (pre ++ [e]) in
  match hdr_bucket pre e off st n g v d with
  | StepNext pre' _ _ _ _ => brigade_data pre' = all
  | StepLine bb _ _ _ => brigade_data bb = all
  | StepEnd r => length (brigade_data r) <= length all
  end.
Proof.
  revert pre e off st n g v. induction d as [|c d IH]; intros pre e off st n g v Hd all; [done|].
  assert (Hd' : drop (S off) (apr_bucket_read e).2 = d).
  { replace (S off) with (off + 1) by lia. rewrite <- drop_drop, Hd. done. }
  pose proof (hdr_cut_data pre e off c d Hd) as Hcut.
  assert (Hc : let '(pre', e') := hdr_cut pre e off in
    drop 1 (apr_bucket_read e').2 = d /\ brigade_data (pre' ++ [e']) = all).
  { destruct (hdr_cut pre e off). destruct Hcut as [? ->]. done. }
  destruct st; cbn [hdr_bucket]; bool_cases; try (by apply IH);
    try (destruct (hdr_cut pre e off) as [pre' e']; destruct Hc as [Hc1 Hc2];
         first [done | rewrite <- Hc2; by apply IH]); try done.
  - assert (Hl : S off <= length (apr_bucket_read e).2).
    { apply (f_equal length) in Hd. rewrite length_drop in Hd. cbn in Hd. lia. }
    destruct (split_data e (S off) Hl) as [_ D].
    rewrite brigade_data_one, D, length_drop. unfold all. rewrite len_snoc. lia.
  - cbn. lia.
Qed.

Lemma hdr_scan_keeps bb pre st n g v :
  let all := brigade_data (pre ++ bb) in
  match hdr_scan pre st n g v bb with
  | HdrMore _ bb' | HdrEos bb' | HdrRead _ bb' | HdrLine bb' _ _ _ => brigade_data bb' = all
  | HdrEnd bb' => length (brigade_data bb') <= length all
  end.
Proof.
  revert pre st n g v. induction bb as [|e bb IH]; intros pre st n g v all; cbn [hdr_scan].
  { by rewrite <- (app_nil_r pre). }
  destruct (bucket_is_eos e); [done|].
  pose proof (hdr_bucket_keeps (apr_bucket_read e).2 pre e 0 st n g v) as Hb.
  destruct (apr_bucket_read e) as [s d]. cbn [snd] in Hb. destruct (negb _); [done|].
  specialize (Hb eq_refl). cbn zeta in Hb. unfold all. rewrite (cons_middle e pre bb), app_assoc.
  destruct (hdr_bucket _ _ _ _ _ _ _ _) as [pre' st' n' g' v'|r|cur n' g' v'].
  - specialize (IH pre' st' n' g' v'). cbn zeta in IH.
    by rewrite (brigade_data_app pre'), Hb, <- brigade_data_app in IH.
  - rewrite !brigade_data_app, !length_app in *. lia.
  - by rewrite !brigade_data_app, Hb, brigade_data_app.
Qed.

Lemma hdr_take_keeps bb n s d r :
  hdr_take bb n = Some (s, d, r) -> length (brigade_data r) <= length (brigade_data bb).
Proof.
  revert n s d r. induction bb as [|e bb IH]; intros [|n] s d r; cbn [hdr_take]; try done.
  1, 2: by intros [= _ _ <-].
  destruct (apr_bucket_read e) as [s0 d0]. destruct (negb _); [by intros [= _ _ <-]|].
  destruct (_ <? _); [done|]. destruct (hdr_take bb _) as [[[s1 d1] r1]|] eqn:Ht; cbn; [|done].
  intros [= -> _ ->]. apply IH in Ht.
    rewrite length_app. unfold brigade_data in *. lia.
Qed.

Lemma split_header_line_keeps bb n g v p r :
  split_header_line bb n g v = HdrParam p r -> length (brigade_data r) <= length (brigade_data bb).
Proof.
  unfold split_header_line. destruct (n =? 0); [done|].
  destruct (hdr_take bb n) as [[[s1 d1] r1]|] eqn:E1; [|done]. destruct (negb _); [done|].
  destruct (hdr_take r1 g) as [[[s2 d2] r2]|] eqn:E2; [|done]. destruct (negb _); [done|].
  destruct (v =? 0); [done|].
  destruct (hdr_take r2 v) as [[[s3 d3] r3]|] eqn:E3; [|done]. destruct (negb _); [done|].
  destruct (drop_line_end d3); [|done]. intros [= _ <-].
  apply hdr_take_keeps in E1, E2, E3. lia.
Qed.

Lemma hdr_brigade_keeps fuel t hs bb r :
  hdr_brigade fuel t hs bb = Some r ->
  length (brigade_data (h_bb (hd_ctx r))) + length (brigade_data (hd_bb r)) <=
    length (brigade_data bb).
Proof.
  revert t hs bb. induction fuel as [|fuel IH]; intros t hs bb; cbn [hdr_brigade];
    pose proof (hdr_scan_keeps bb [] HDR_NAME 0 0 0) as Hk; cbn [app] in Hk; cbn zeta in Hk;
    destruct (hdr_scan _ _ _ _ _ _) as [st bb'|bb'|s bb'|bb'|bb' n g v];
    try (intros [= <-]; cbn [hd_ctx h_bb hd_bb]; rewrite ?Hk; cbn; lia).
  all: pose proof (split_header_line_keeps bb' n g v) as Hs;
    destruct (split_header_line bb' n g v) as [s|p bb2|];
    try (intros [= <-]; cbn [hd_ctx h_bb hd_bb]; rewrite ?Hk; cbn; lia); try done;
    specialize (Hs _ _ eq_refl); rewrite Hk in Hs.
  1: intros [= <-]; cbn [hd_ctx h_bb hd_bb]; cbn; lia.
  destruct (apreq_hook_run hs p None) as [[[s hs'] p'] ?]. destruct (s =? APR_SUCCESS)%Z.
  - intros Hr. apply IH in Hr. lia.
  - intros [= <-]. cbn [hd_ctx h_bb hd_bb]. cbn. lia.
Qed.

(** The bytes a header parser holds. *)
Definition hdr_held (psr : apreq_parser_t (X := X) hdr_ctx) : nat :=
  match ps_ctx psr with Some h => length (brigade_data (h_bb h)) | None => 0 end.

(** No call makes data: what is held and what is handed back came in. *)
Lemma parse_headers_keeps psr t bb s psr' t' bb' :
  apreq_parse_headers psr t (Some bb) = Some (s, psr', t', bb') ->
  hdr_held psr' + length (brigade_data (default [] bb')) <= hdr_held psr + length (brigade_data bb).
Proof.
  unfold apreq_parse_headers, hdr_held. cbn zeta.
  assert (Hh : length (brigade_data (h_bb (default (HdrCtx [] HDR_NAME) (ps_ctx psr)))) =
    match ps_ctx psr with Some h => length (brigade_data (h_bb h)) | None => 0 end)
    by by destruct (ps_ctx psr).
  destruct (parser_status_check _ _ _) as [s0|].
  { intros [= _ <- _ <-]. cbn [set_ctx ps_ctx default]. rewrite Hh. exact (le_n _). }
  destruct (hdr_brigade _ _ _ _) as [r|] eqn:Er; cbn [mbind option_bind]; [|done].
  intros [= _ <- _ <-]. cbn [set_ctx set_hook ps_ctx default].
  apply hdr_brigade_keeps in Er. rewrite len_app, Hh in Er. exact Er.
Qed.

(** ** Calls *)

(** The brigades of a body in turn, until a call has seen the end of the block:
    the status, the parser, the table, and what was not used. *)
Fixpoint feed_headers (psr : apreq_parser_t (X := X) hdr_ctx) (t : apr_table apreq_param_t)
    (bbs : list brigade)
  : option (Z * apreq_parser_t (X := X) hdr_ctx * apr_table apreq_param_t * brigade) :=
  match bbs with
  | [] => Some (APR_INCOMPLETE, psr, t, [])
  | bb :: bbs =>
      '(s, psr, t, bb) ← apreq_parse_headers psr t (Some bb);
      if (s =? APR_INCOMPLETE)%Z then feed_headers psr t bbs
      else Some (s, psr, t, default [] bb ++ concat bbs)
  end.

Definition hdr_pending (psr : apreq_parser_t (X := X) hdr_ctx) (rest : bytes) : Prop :=
  ps_hook psr = [] /\
  let ctx := default (HdrCtx [] HDR_NAME) (ps_ctx psr) in
  waiting (h_status ctx) = true /\ plains (h_bb ctx) /\ brigade_data (h_bb ctx) = rest.

(** One call on a part of a block. *)
Lemma parse_headers_block hs fin body psr rest t bb y :
  hdr_pending psr rest -> forallb hl_ok hs = true -> fin_ok fin = true -> plains bb ->
  rest ++ brigade_data bb ++ y = block_text hs fin body ->
  exists s psr' t' bb', apreq_parse_headers psr t (Some bb) = Some (s, psr', t', Some bb') /\
    ps_hook psr' = [] /\
    ((s = APR_INCOMPLETE /\ y <> [] /\ bb' = [] /\
      exists hs1 hs2 rest', hs = hs1 ++ hs2 /\ t' = add_lines t hs1 /\ hdr_pending psr' rest' /\
        rest' ++ y = block_text hs2 fin body) \/
     (s = APR_SUCCESS /\ t' = add_lines t hs /\ plains bb' /\ brigade_data bb' ++ y = body)).
Proof.
  intros (Hk & Hw & Hpc & <-) Hh Hf Hbb Hd.
  rewrite app_assoc, <- brigade_data_app in Hd.
  unfold apreq_parse_headers. set (ctx := default _ _) in *.
  assert (parser_status_check (match h_status ctx with HDR_ERROR => true | _ => false end)
    (match h_status ctx with HDR_COMPLETE => true | _ => false end) false = None) as ->
    by by destruct (h_status ctx).
  cbn zeta. cbn [default from_option id]. rewrite Hk.
  destruct (hdr_brigade_block hs fin body _ t (h_bb ctx ++ bb) _ Hh Hf
    ltac:(by apply plains_app) Hd (le_n _)) as (r & -> & Hkr & Hr).
  cbn [mbind option_bind]. eexists _, _, _, _. split; [reflexivity|]. split; [done|].
  destruct Hr as [(-> & Hy & Hw' & Hp' & Hbb' & hs1 & hs2 & -> & -> & Hd')|(-> & -> & Hp' & Hd')];
    [left|by right].
  split_and!; [done..|]. exists hs1, hs2, (brigade_data (h_bb (hd_ctx r))). by split_and!.
Qed.

Lemma feed_headers_block hs fin body psr rest t bbs :
  hdr_pending psr rest -> forallb hl_ok hs = true -> fin_ok fin = true ->
  forallb (forallb ok) bbs = true ->
  rest ++ brigade_data (concat bbs) = block_text hs fin body -> bbs <> [] ->
  exists psr' left, feed_headers psr t bbs = Some (APR_SUCCESS, psr', add_lines t hs, left) /\
    brigade_data left = body.
Proof.
  revert hs psr rest t. induction bbs as [|bb bbs IH]; intros hs psr rest t Hpd Hh Hf Hp Hd Hne;
    [done|].
  clear Hne. cbn [forallb] in Hp. apply andb_true_iff in Hp as [Hbb Hp].
  cbn [feed_headers concat] in *. rewrite brigade_data_app in Hd.
  destruct (parse_headers_block hs fin body psr rest t bb _ Hpd Hh Hf Hbb Hd)
    as (s & psr' & t' & bb' & -> & _ & Hr). cbn [mbind option_bind].
  destruct Hr as [(-> & Hy & -> & hs1 & hs2 & r' & -> & -> & Hpd' & Hd')|(-> & -> & _ & Hd')];
    autorewrite with errno.
  - rewrite forallb_app, andb_true_iff in Hh. unfold add_lines. rewrite fold_left_app.
    apply (IH hs2 _ r'); try done; [by destruct Hh|by intros ->].
  - eexists _, _. split; [reflexivity|]. by rewrite brigade_data_app.
Qed.

End Facts.

(** ** Claims *)

Section Claims.
Context {E : AprErrno} {T : AprTable} {X : Type} {XP : AprXml X} {H : HookEnv X}.

(** C8: a header block parses the same however it is cut into buckets and brigades:
    lines that are not folded (each with a name, a colon, blanks, a value, and
    LF or CRLF at its end; an empty value only before CRLF) give parameters with
    these names and values in order, each tainted, and what follows the empty
    line is handed back unchanged. *)
Theorem header_block_round_trip (psr : apreq_parser_t (X := X) hdr_ctx)
    (t : apr_table apreq_param_t) (hs : list hdr_line) (fin body : bytes) (bbs : list brigade) :
  ps_hook psr = [] -> ps_ctx psr = None -> forallb (forallb plain) bbs = true ->
  forallb hl_ok hs = true -> fin_ok fin = true ->
  brigade_data (concat bbs) = block_text hs fin body ->
  exists psr' t' rest, feed_headers psr t bbs = Some (APR_SUCCESS, psr', t', rest) /\
    apr_table_elts t' = apr_table_elts t ++ map (fun h => (cstr (hl_name h), hl_param h)) hs /\
    brigade_data rest = body.
Proof.
  intros Hk Hc Hp Hh Hf Hd.
  destruct (feed_headers_block (ok := plain) hs fin body psr [] t bbs) as (psr' & rest & Hr & Hb); try done.
  - unfold hdr_pending. by rewrite Hk, Hc.
  - intros ->. by apply (block_text_starts hs fin body Hh Hf).
  - exists psr', (add_lines t hs), rest. by rewrite add_lines_elts.
Qed.

End Claims.

(** ** Witnesses *)

Definition fresh_hdr_parser : apreq_parser_t (T := list_table) (X := unit) hdr_ctx :=
  apreq_parser_make [] apreq_parse_headers_f 0 None [] None.

Lemma header_block_round_trip_witness :
  let hs := [HLine (str "A") (str " ") (str "b c") true; HLine (str "Empty") [] [] true;
             HLine (str "Z") [] (str "y") false] in
  let bbs := [[BData (str "A"); BFlush; BData (str ": b c" ++ [x0d])];
              [BData ([x0a] ++ str "Empty:" ++ [x0d; x0a] ++ str "Z:y" ++ [x0a; x0d])];
              [BData ([x0a] ++ str "body")]] in
  exists psr' t' rest,
    feed_headers (T := list_table) fresh_hdr_parser [] bbs = Some (APR_SUCCESS, psr', t', rest) /\
    apr_table_elts t' = [] ++ map (fun h => (cstr (hl_name h), hl_param h)) hs /\
    brigade_data rest = str "body".
Proof.
  apply (header_block_round_trip (T := list_table) fresh_hdr_parser [] _ [x0d]); reflexivity.
Defined.

(** ** Lines the parser does not handle *)

Definition parse_lines (bb : brigade) :=
  '(s, _, t, bb) ← apreq_parse_headers (T := list_table) fresh_hdr_parser [] (Some bb);
  Some (s, map (fun e => (e.1, p_data e.2)) t, default [] bb).

Definition lf : bytes := [x0a].

(** A folded value: the continuation counts the line feed before it a second
    time.  The copy of the value reads past the line and an assertion ends the
    process. *)
Example folded_value_aborts :
  parse_lines [BData (str "A: b" ++ lf ++ str " c" ++ lf ++ str "X: y" ++ lf ++ lf)] = None.
Proof. vm_compute. reflexivity. Qed.

(** When the empty line is a bucket of its own, the folded value swallows it:
    the text after the block is read as headers. *)
Example folded_value_swallows :
  parse_lines [BData (str "A: b" ++ lf ++ str " c" ++ lf); BData lf; BData (str "X: y" ++ lf ++ lf)] =
    Some (APR_SUCCESS, [(str "A", str "b" ++ lf ++ str " c" ++ lf); (str "X", str "y")], []).
Proof. vm_compute. reflexivity. Qed.

(** An empty value before a bare line feed counts no byte: the assertion that
    there is one fails. *)
Example empty_value_aborts : parse_lines [BData (str "A:" ++ lf ++ lf)] = None.
Proof. vm_compute. reflexivity. Qed.

(** A line that is complete but for which no further byte came before EOS is
    dropped, and its bytes are handed back. *)
Example last_line_dropped_at_eos :
  parse_lines [BData (str "A: b" ++ lf); BEos] =
    Some (APR_SUCCESS, [], [BData (str "A"); BData (str ": "); BData (str "b" ++ lf); BEos]).
Proof. vm_compute. reflexivity. Qed.
