(* ===== verification/Boundary.v ===== *)
(** * Looking for a boundary in a brigade
    ([src/libapreq2/library/parser_multipart.c])

    [split_on_bdry] moves the buckets before a boundary to another brigade and
    drops the boundary; a boundary may lie across buckets, and its end may not
    have arrived yet. *)
From S2P Require Import Prelude Apr Url Util Brigade.

(** [apr_strmatch] of APR: the first occurrence of a pattern. *)
Class AprStrmatch := {
  apr_strmatch : bytes -> bytes -> option nat;
  apr_strmatch_Some : forall p b i, p <> [] -> apr_strmatch p b = Some i ->
    match_at b p APREQ_MATCH_FULL i /\ forall j, j < i -> ~ match_at b p APREQ_MATCH_FULL j;
  apr_strmatch_None : forall p b i, p <> [] -> apr_strmatch p b = None ->
    ~ match_at b p APREQ_MATCH_FULL i
}.

Section Boundary.
Context {E : AprErrno} {SM : AprStrmatch}.

Definition CRLF : bytes := [x0d; x0a].

(** ** brigade_start_string *)

(** [strncmp(a, b, min(length a, length b)) == 0], for strings without NUL. *)
Definition same_start (a b : bytes) : bool :=
  let n := Nat.min (length a) (length b) in bool_decide (take n a = take n b).

Fixpoint brigade_start_string (bb : brigade) (start_string : bytes) : Z :=
  match bb with
  | [] => APR_INCOMPLETE
  | e :: bb =>
      if length start_string =? 0 then APR_SUCCESS
      else if bucket_is_eos e then APR_EOF
      else
        let '(s, buf) := apr_bucket_read e in
        if negb (s =? APR_SUCCESS)%Z then s
        else if length buf =? 0 then brigade_start_string bb start_string
        else if negb (same_start buf start_string) then APREQ_ERROR_GENERAL
        else brigade_start_string bb (drop (length buf) start_string)
  end.

(** ** split_on_bdry *)

(** Where [bdry] begins in a bucket, or a prefix of it at the bucket's end; -1:
    nowhere.  [pattern]: a precompiled pattern is given. *)
Definition bdry_index (pattern : bool) (bdry buf : bytes) : Z :=
  let len := length buf in
  let blen := length bdry in
  if pattern && (blen <=? len) then
    match apr_strmatch bdry buf with
    | Some i => Z.of_nat i
    | None =>
        let idx := apreq_index (drop (len - blen) buf) bdry APREQ_MATCH_PARTIAL in
        if (0 <=? idx)%Z then (idx + Z.of_nat (len - blen))%Z else idx
    end
  else apreq_index buf bdry APREQ_MATCH_PARTIAL.

(** [held]: the buckets before [e], whose data are the first [off] bytes of
    [bdry]; [bb]: the buckets from [e] on.  Yields the status, [out] and [in].
    A turn that does not finish a bucket moves at least a byte of it. *)
Fixpoint split_loop (fuel : nat) (pattern : bool) (bdry : bytes) (out held : brigade)
    (off : nat) (bb : brigade) : Z * brigade * brigade :=
  match bb, fuel with
  | [], _ => (APR_INCOMPLETE, out, held)
  | _ :: _, O => (APREQ_ERROR_GENERAL, out, held ++ bb)
  | e :: bb', S fuel =>
      if bucket_is_eos e then (APR_EOF, out, held ++ bb)
      else
        let '(s, buf) := apr_bucket_read e in
        if negb (s =? APR_SUCCESS)%Z then (s, out, held ++ bb)
        else
          let len := length buf in
          if len =? 0 then split_loop fuel pattern bdry out held off bb'
          else
            (* the comparison with [bdry + off] succeeds *)
            let matched out held off :=
              let blen := length bdry - off in
              if blen <=? len then
                (APR_SUCCESS, out,
                 if blen <? len then (apr_bucket_split e blen).2 :: bb' else bb')
              else split_loop fuel pattern bdry out (held ++ [e]) (off + len) bb' in
            if same_start (drop off bdry) buf then matched out held off
            else
              let out := if 0 <? off then out ++ held else out in
              if (0 <? off) && same_start bdry buf then matched out [] 0
              else
                let idx := bdry_index pattern bdry buf in
                if (0 <=? idx)%Z then
                  let '(e1, e2) := apr_bucket_split e (Z.to_nat idx) in
                  split_loop fuel pattern bdry (out ++ [e1]) [] 0 (e2 :: bb')
                else split_loop fuel pattern bdry (out ++ [e]) [] 0 bb'
  end.

Definition split_on_bdry (out in_bb : brigade) (pattern : bool) (bdry : bytes)
  : Z * brigade * brigade :=
  split_loop (S (length in_bb + length (brigade_data in_bb))) pattern bdry out [] 0 in_bb.

End Boundary.

(** * Properties *)

(** The text up to the first boundary, and what follows it. *)
Fixpoint split_text (bdry l : bytes) : option (bytes * bytes) :=
  if bool_decide (take (length bdry) l = bdry) then Some ([], drop (length bdry) l)
  else match l with
  | [] => None
  | c :: l => '(b, r) ← split_text bdry l; Some (c :: b, r)
  end.

Section Facts.
Context {E : AprErrno} {SM : AprStrmatch} {ok : apr_bucket -> bool} {K : BucketKind ok}.
Abbreviation plains := (plains (ok := ok)).

(** ** Texts *)

Section Text.
Context (bdry : bytes).
Definition bdry_at (l : bytes) : Prop := take (length bdry) l = bdry.

Lemma split_text_skip k l :
  (forall j, j < k -> ~ bdry_at (drop j l)) -> k <= length l ->
  split_text bdry l = '(b, r) ← split_text bdry (drop k l); Some (take k l ++ b, r).
Proof.
  revert l. induction k as [|k IH]; intros l Hj Hl.
  { change (drop 0 l) with l. cbn. by destruct (split_text bdry l) as [[b r]|]. }
  destruct l as [|c l]; [cbn in Hl; lia|]. cbn [split_text length take drop] in *.
  rewrite bool_decide_eq_false_2 by (apply (Hj 0); lia). rewrite (IH l); [|intros j ?|lia].
  - by destruct (split_text bdry (drop k l)) as [[b r]|].
  - apply (Hj (S j)). lia.
Qed.

Lemma split_text_here l r : split_text bdry (bdry ++ l) = Some (r, l) -> r = [].
Proof.
  destruct (bdry ++ l) eqn:El; cbn; rewrite <- El, take_app_length, bool_decide_eq_true_2; try done;
    by intros [= <-].
Qed.

Lemma split_text_at l : split_text bdry (bdry ++ l) = Some ([], l).
Proof.
  destruct (bdry ++ l) eqn:El; cbn;
    by rewrite <- El, take_app_length, drop_app_length, bool_decide_eq_true_2.
Qed.

Lemma split_text_Some l b r : split_text bdry l = Some (b, r) -> l = b ++ bdry ++ r.
Proof.
  revert b r. induction l as [|c l IH]; intros b r; cbn; case_bool_decide as Hb; try done.
  - intros [= <- <-]. cbn. rewrite take_nil in Hb. by rewrite <- Hb.
  - intros [= <- <-]. cbn. rewrite <- Hb at 1. symmetry. apply take_drop.
  - destruct (split_text bdry l) as [[b' r']|]; cbn; [|done]. intros [= <- <-].
    by rewrite (IH b' r').
Qed.

(** A proper prefix of the boundary that does not go on as the boundary cannot
    hide the beginning of another one, when the first byte does not recur. *)
Definition no_recur : Prop := match bdry with c :: w => c ∉ w | [] => False end.

Lemma prefix_no_bdry off l j :
  no_recur -> off < length bdry -> 0 < j < off -> ~ bdry_at (drop j (take off bdry ++ l)).
Proof.
  unfold no_recur, bdry_at. intros Hn Ho Hj Hb. destruct bdry as [|c w]; [done|].
  apply Hn. cbn [length] in *.
  apply (f_equal head) in Hb. rewrite drop_app_le in Hb by (rewrite length_take; cbn; lia).
  destruct j as [|j]; [lia|]. destruct off as [|off]; [lia|]. cbn [take drop] in Hb.
  destruct (drop j (take off w)) as [|d w'] eqn:Ed.
  { apply (f_equal length) in Ed. rewrite length_drop, length_take in Ed. cbn in Ed. lia. }
  cbn in Hb. injection Hb as ->.
  assert (Hin : c ∈ drop j (take off w)) by (rewrite Ed; by left).
  rewrite <- (take_drop off w), elem_of_app. left.
  rewrite <- (take_drop j (take off w)), elem_of_app. by right.
Qed.

Lemma bdry_at_held off l :
  off < length bdry -> bdry_at (take off bdry ++ l) ->
  take (length (drop off bdry)) l = drop off bdry.
Proof.
  unfold bdry_at. intros Ho Hb. pose proof (length_take bdry off) as Hl.
  rewrite firstn_app, take_ge in Hb by lia. rewrite <- (take_drop off bdry) in Hb at 4.
  apply app_inv_head in Hb. rewrite length_drop.
  by replace (length bdry - length (take off bdry)) with (length bdry - off) in Hb by lia.
Qed.

(** ** Comparisons *)

Lemma same_start_le a b : length a <= length b -> same_start a b = true -> take (length a) b = a.
Proof.
  unfold same_start. intros Hl H. apply bool_decide_eq_true in H.
  rewrite Nat.min_l, take_ge in H by lia. done.
Qed.

Lemma same_start_comm a b : same_start a b = same_start b a.
Proof. unfold same_start. rewrite Nat.min_comm. apply bool_decide_ext. naive_solver. Qed.

Lemma same_start_app a b c : take (length a) (b ++ c) = a -> same_start a b = true.
Proof.
  unfold same_start. intros H. apply bool_decide_eq_true_2.
  apply (f_equal (take (Nat.min (length a) (length b)))) in H.
  rewrite take_take, (Nat.min_l (Nat.min _ _)), take_app_le in H by lia. done.
Qed.


(** ** The search in a bucket *)

Lemma full_of_partial buf j :
  j + length bdry <= length buf -> match_at buf bdry APREQ_MATCH_PARTIAL j ->
  match_at buf bdry APREQ_MATCH_FULL j.
Proof. intros Hj (H1 & H2 & _). by split_and!. Qed.

Lemma partial_of_full buf j :
  match_at buf bdry APREQ_MATCH_FULL j -> match_at buf bdry APREQ_MATCH_PARTIAL j.
Proof. intros (H1 & H2 & _). by split_and!. Qed.

(** The first place where the boundary begins, or may begin. *)
Definition index_found (buf : bytes) (idx : Z) : Prop :=
  (exists i, idx = Z.of_nat i /\ match_at buf bdry APREQ_MATCH_PARTIAL i /\
     forall j, j < i -> ~ match_at buf bdry APREQ_MATCH_PARTIAL j) \/
  (idx = (-1)%Z /\ forall j, ~ match_at buf bdry APREQ_MATCH_PARTIAL j).

Lemma apreq_index_found buf :
  bdry <> [] -> index_found buf (apreq_index buf bdry APREQ_MATCH_PARTIAL).
Proof. intros Hn. by apply (index_loop_spec (length buf) 0). Qed.

Lemma bdry_index_found pattern buf : bdry <> [] -> index_found buf (bdry_index pattern bdry buf).
Proof.
  intros Hn. unfold bdry_index.
  destruct (pattern && (length bdry <=? length buf)) eqn:Ep; [|by apply apreq_index_found].
  apply andb_true_iff in Ep as [_ Hl]. apply Nat.leb_le in Hl.
  destruct (apr_strmatch bdry buf) as [i|] eqn:Es.
  { apply apr_strmatch_Some in Es as [Hi Hmin]; [|done]. left. exists i.
    split_and!; [done|by apply partial_of_full|]. intros j Hj Hm.
    apply (Hmin j Hj), full_of_partial; [|done].
    destruct Hi as (_ & _ & Hi). specialize (Hi eq_refl). lia. }
  pose proof (fun i => apr_strmatch_None bdry buf i Hn Es) as Hfull.
  set (d := length buf - length bdry) in *.
  assert (Hlow : forall j, match_at buf bdry APREQ_MATCH_PARTIAL j -> d < j).
  { intros j Hm. destruct (decide (d < j)); [done|]. exfalso. apply (Hfull j), full_of_partial; [lia|done]. }
  destruct (apreq_index_found (drop d buf) Hn) as [(i & -> & Hi & Hmin)|[-> Hno]].
  - assert ((0 <=? Z.of_nat i)%Z = true) as -> by (apply Z.leb_le; lia).
    left. exists (i + d). apply match_at_drop in Hi. rewrite Nat.add_comm in Hi.
    split_and!; [lia|done|]. intros j Hj Hm. pose proof (Hlow j Hm).
    apply (Hmin (j - d)); [lia|]. apply match_at_drop. by replace (d + (j - d)) with j by lia.
  - right. split; [done|]. intros j Hm. pose proof (Hlow j Hm).
    apply (Hno (j - d)), match_at_drop. by replace (d + (j - d)) with j by lia.
Qed.

(** A boundary that begins in a bucket is seen there. *)
Lemma bdry_at_match buf z j :
  bdry <> [] -> j < length buf -> bdry_at (drop j (buf ++ z)) ->
  match_at buf bdry APREQ_MATCH_PARTIAL j.
Proof.
  unfold bdry_at. intros Hn Hj Hb. split_and!; [done| |done]. cbn zeta.
  set (n := Nat.min _ _). rewrite <- Hb at 1. rewrite take_take, drop_app_le by lia.
  rewrite (Nat.min_l n) by lia.
  by rewrite take_app_le by (rewrite length_drop; lia).
Qed.

Lemma same_start_match buf :
  buf <> [] -> same_start bdry buf = true <-> match_at buf bdry APREQ_MATCH_PARTIAL 0.
Proof.
  intros Hn. unfold match_at, same_start. change (drop 0 buf) with buf. rewrite Nat.sub_0_r.
  rewrite bool_decide_eq_true. assert (0 < length buf) by (destruct buf; [done|cbn; lia]).
  split; [intros ->; by split_and!|by intros (_ & -> & _)].
Qed.

(** Text without a place where the boundary may begin is not part of one. *)
Lemma split_text_index buf z k :
  bdry <> [] -> k <= length buf ->
  (forall j, j < k -> ~ match_at buf bdry APREQ_MATCH_PARTIAL j) ->
  split_text bdry (buf ++ z) =
    '(b, r) ← split_text bdry (drop k buf ++ z); Some (take k buf ++ b, r).
Proof.
  intros Hn Hk Hj. rewrite (split_text_skip k), take_app_le, drop_app_le; try done.
  - intros j Hjk Hb. apply (Hj j Hjk), (bdry_at_match buf z); [done|lia|done].
  - rewrite length_app. lia.
Qed.

(** ** split_on_bdry *)

(** Buckets with data. *)
Definition solid (bb : brigade) : Prop := Forall (fun e => (apr_bucket_read e).2 <> []) bb.

Lemma solid_nil bb : solid bb -> brigade_data bb = [] -> bb = [].
Proof.
  intros Hs Hd. destruct Hs as [|e bb He _]; [done|]. rewrite brigade_data_cons in Hd.
  by apply app_nil in Hd as [? _].
Qed.

(** What splitting [in], of which more may come, promises. *)
Definition split_result (y body rest : bytes) (out : brigade) (res : Z * brigade * brigade) : Prop :=
  let '(s, out', i) := res in
  exists moved, out' = out ++ moved /\ plains moved /\ solid moved /\ plains i /\
    ((s = APR_SUCCESS /\ brigade_data moved = body /\ brigade_data i ++ y = rest) \/
     (s = APR_INCOMPLETE /\ y <> [] /\
      exists body2, body = brigade_data moved ++ body2 /\
        split_text bdry (brigade_data i ++ y) = Some (body2, rest))).

(** Moving a bucket or several first. *)
Lemma split_result_moved y body rest out moved res :
  plains moved -> solid moved -> split_result y body rest (out ++ moved) res ->
  split_result y (brigade_data moved ++ body) rest out res.
Proof.
  destruct res as [[s o] i]. intros Hp Hsol (m & -> & Hm & Hms & Hi & H). exists (moved ++ m).
  rewrite <- app_assoc, plains_app, brigade_data_app.
  split_and!; [done|done|done|by apply Forall_app|done|].
  destruct H as [(-> & <- & <-)|(-> & Hy & b2 & -> & Hs)]; [by left|right].
  split_and!; [done..|]. exists b2. by rewrite <- app_assoc.
Qed.


(** A turn on a bucket with data, without held buckets. *)
Lemma split_loop_turn fuel pattern out e bb :
  ok e = true -> (apr_bucket_read e).2 <> [] ->
  let buf := (apr_bucket_read e).2 in
  split_loop (S fuel) pattern bdry out [] 0 (e :: bb) =
    if same_start bdry buf then
      if length bdry <=? length buf then
        (APR_SUCCESS, out,
         if length bdry <? length buf then (apr_bucket_split e (length bdry)).2 :: bb else bb)
      else split_loop fuel pattern bdry out [e] (length buf) bb
    else
      let idx := bdry_index pattern bdry buf in
      if (0 <=? idx)%Z then
        let '(e1, e2) := apr_bucket_split e (Z.to_nat idx) in
        split_loop fuel pattern bdry (out ++ [e1]) [] 0 (e2 :: bb)
      else split_loop fuel pattern bdry (out ++ [e]) [] 0 bb.
Proof.
  intros He Hne. cbn [split_loop]. destruct (kind_read e He) as [-> Hr].
  destruct (apr_bucket_read e) as [s buf]. cbn [snd] in *. injection Hr as ->. cbn [negb Z.eqb].
  destruct buf as [|c buf]; [done|]. cbn [length Nat.eqb]. by rewrite Nat.sub_0_r.
Qed.

(** A turn on a bucket that does not go on as the held buckets began is one in
    which they have moved. *)
Lemma split_loop_release fuel pattern out held off e bb :
  ok e = true -> (apr_bucket_read e).2 <> [] -> 0 < off ->
  same_start (drop off bdry) (apr_bucket_read e).2 = false ->
  split_loop (S fuel) pattern bdry out held off (e :: bb) =
    split_loop (S fuel) pattern bdry (out ++ held) [] 0 (e :: bb).
Proof.
  intros He Hne Hoff Hs. rewrite split_loop_turn by done. cbn [split_loop].
  destruct (kind_read e He) as [-> Hr].
  destruct (apr_bucket_read e) as [s buf]. cbn [snd] in *. injection Hr as ->. cbn [negb Z.eqb].
  destruct buf as [|c buf]; [done|]. cbn [length Nat.eqb]. rewrite Hs.
  assert ((0 <? off) = true) as -> by by apply Nat.ltb_lt.
  cbn [andb]. rewrite Nat.sub_0_r. done.
Qed.

(** A turn on a bucket that goes on as the held buckets began. *)
Lemma split_loop_goes_on fuel pattern out held off e bb :
  ok e = true -> (apr_bucket_read e).2 <> [] ->
  same_start (drop off bdry) (apr_bucket_read e).2 = true ->
  let blen := length bdry - off in
  let buf := (apr_bucket_read e).2 in
  split_loop (S fuel) pattern bdry out held off (e :: bb) =
    if blen <=? length buf then
      (APR_SUCCESS, out, if blen <? length buf then (apr_bucket_split e blen).2 :: bb else bb)
    else split_loop fuel pattern bdry out (held ++ [e]) (off + length buf) bb.
Proof.
  intros He Hne Hs. cbn [split_loop]. destruct (kind_read e He) as [-> Hr].
  destruct (apr_bucket_read e) as [s buf]. cbn [snd] in *. injection Hr as ->. cbn [negb Z.eqb].
  destruct buf as [|c buf]; [done|]. cbn [length Nat.eqb]. by rewrite Hs.
Qed.

Lemma split_loop_empty fuel pattern out held off e bb :
  ok e = true -> (apr_bucket_read e).2 = [] ->
  split_loop (S fuel) pattern bdry out held off (e :: bb) =
    split_loop fuel pattern bdry out held off bb.
Proof.
  intros He Hd. cbn [split_loop]. destruct (kind_read e He) as [-> ->]. by rewrite Hd.
Qed.

(** The bytes a complete boundary leaves of its last bucket. *)
Lemma split_rest e bb n :
  ok e = true -> plains bb -> n <= length (apr_bucket_read e).2 ->
  let i := if n <? length (apr_bucket_read e).2 then (apr_bucket_split e n).2 :: bb else bb in
  plains i /\ brigade_data i = drop n (apr_bucket_read e).2 ++ brigade_data bb.
Proof.
  intros He Hb Hn. pose proof (kind_split_data e n He Hn) as Hs.
  destruct (apr_bucket_split e n) as [e1 e2]. destruct Hs as (_ & He2 & _ & Hd). cbn [snd] in *.
  destruct (n <? length _) eqn:El; cbn zeta.
  - by rewrite plains_cons, brigade_data_cons, Hd.
  - apply Nat.ltb_ge in El. by rewrite drop_ge.
Qed.

Section Loop.
Context (Hn : bdry <> []).

(** The hypotheses of a turn. *)
Definition loop_inv (held : brigade) (off : nat) (bb : brigade) (y body rest : bytes) : Prop :=
  plains held /\ plains bb /\ brigade_data held = take off bdry /\ off < length bdry /\
  (off = 0 -> held = []) /\ solid held /\
  split_text bdry (brigade_data held ++ brigade_data bb ++ y) = Some (body, rest).

Definition loop_works (fuel : nat) : Prop :=
  forall pattern out held off bb y body rest,
  (no_recur \/ body = []) -> loop_inv held off bb y body rest ->
  length bb + length (brigade_data bb) < fuel ->
  split_result y body rest out (split_loop fuel pattern bdry out held off bb).

(** The boundary goes on, and may end, in the bucket. *)
Lemma loop_goes_on fuel pattern out held off e bb y body rest :
  loop_works fuel -> (no_recur \/ body = []) -> loop_inv held off (e :: bb) y body rest ->
  (apr_bucket_read e).2 <> [] -> same_start (drop off bdry) (apr_bucket_read e).2 = true ->
  length (e :: bb) + length (brigade_data (e :: bb)) < S fuel ->
  split_result y body rest out (split_loop (S fuel) pattern bdry out held off (e :: bb)).
Proof.
  intros IH HP (Hh & Hb & Hd & Ho & H0 & Hsol & Hs) Hne Hst Hf.
  apply plains_cons in Hb as [He Hb]. rewrite split_loop_goes_on by done. cbn zeta.
  rewrite brigade_data_cons in *. rewrite <- app_assoc in Hs.
  set (buf := (apr_bucket_read e).2) in *.
  destruct (length bdry - off <=? length buf) eqn:El.
  - apply Nat.leb_le in El.
    assert (Hbuf : take (length bdry - off) buf = drop off bdry).
    { pose proof (length_drop bdry off) as Hl. apply same_start_le in Hst; [congruence|lia]. }
    rewrite <- (take_drop (length bdry - off) buf), Hbuf, <- app_assoc, app_assoc, Hd, take_drop,
      split_text_at in Hs. injection Hs as <- <-.
    destruct (split_rest e bb (length bdry - off) He Hb El) as [Hi Hdi].
    exists []. rewrite app_nil_r. split_and!; [done|done|by constructor|done|]. left. fold buf in Hdi.
    by rewrite Hdi, <- app_assoc.
  - apply Nat.leb_gt in El. apply IH; [done| |cbn in Hf; rewrite length_app in Hf; lia].
    assert (Hbuf : take (length buf) (drop off bdry) = buf).
    { rewrite same_start_comm in Hst. apply same_start_le; [rewrite length_drop; lia|done]. }
    split_and!; [by apply plains_app; rewrite plains_one|done| |lia| | |].
    + rewrite brigade_data_app, brigade_data_one, Hd. fold buf. rewrite <- Hbuf at 1.
      by rewrite take_take_drop.
    + assert (0 < length buf) by (destruct buf; [done|cbn; lia]). lia.
    + apply Forall_app. split; [done|by repeat constructor].
    + by rewrite brigade_data_app, brigade_data_one, <- app_assoc.
Qed.

(** Nothing held, and the boundary does not begin the bucket. *)
Lemma loop_moves fuel pattern out e bb y body rest :
  loop_works fuel -> (no_recur \/ body = []) -> loop_inv [] 0 (e :: bb) y body rest ->
  (apr_bucket_read e).2 <> [] -> same_start bdry (apr_bucket_read e).2 = false ->
  length (e :: bb) + length (brigade_data (e :: bb)) < S fuel ->
  split_result y body rest out (split_loop (S fuel) pattern bdry out [] 0 (e :: bb)).
Proof.
  intros IH HP (_ & Hb & _ & Ho & _ & _ & Hs) Hne Hst Hf.
  apply plains_cons in Hb as [He Hb]. rewrite split_loop_turn by done. cbn zeta. rewrite Hst.
  cbn [brigade_data flat_map app] in Hs. rewrite brigade_data_cons in Hf.
  change (flat_map _ bb) with (brigade_data bb) in Hs. rewrite <- app_assoc in Hs.
  set (buf := (apr_bucket_read e).2) in *.
  assert (HP' : forall b b', body = b ++ b' -> no_recur \/ b' = []).
  { intros b b' ->. destruct HP as [|HP]; [by left|right].
    by apply app_nil in HP as [_ ->]. }
  destruct (bdry_index_found pattern buf Hn) as [(i & -> & Hi & Hmin)|[-> Hno]].
  - assert ((0 <=? Z.of_nat i)%Z = true) as -> by (apply Z.leb_le; lia). rewrite Nat2Z.id.
    destruct i as [|i]; [apply same_start_match in Hi; congruence|].
    assert (Hil : S i <= length buf) by (destruct Hi; lia).
    pose proof (kind_split_data e (S i) He Hil) as Hsp.
    destruct (apr_bucket_split e (S i)) as [e1 e2]. destruct Hsp as (He1 & He2 & Hd1 & Hd2).
    fold buf in Hd1, Hd2.
    rewrite (split_text_index buf _ (S i) Hn Hil Hmin) in Hs.
    destruct (split_text bdry (drop (S i) buf ++ _)) as [[b r]|] eqn:Es; [|done].
    injection Hs as <- <-. rewrite <- Hd1, <- (brigade_data_one e1).
    apply split_result_moved; [by apply plains_one| |].
    { constructor; [|constructor]. rewrite Hd1. by destruct buf. }
    apply IH; [by eapply HP'| |].
    + split_and!; [done|by apply plains_cons|done|done|done|by constructor|].
      by rewrite brigade_data_cons, Hd2, <- app_assoc.
    + rewrite brigade_data_cons, Hd2, length_app, length_drop. rewrite length_app in Hf.
      cbn [length] in *. lia.
  - cbn [Z.leb Z.compare].
    rewrite (split_text_index buf _ (length buf) Hn (le_n _)), drop_ge, take_ge in Hs
      by (done || lia).
    cbn [app] in Hs. destruct (split_text bdry (brigade_data bb ++ y)) as [[b r]|] eqn:Es; [|done].
    injection Hs as <- <-. unfold buf. rewrite <- (brigade_data_one e).
    apply split_result_moved; [by apply plains_one|by repeat constructor|].
    apply IH; [by eapply HP'| |cbn in Hf; rewrite length_app in Hf; lia].
    split_and!; [done..|by constructor|done].
Qed.

Lemma split_loop_works fuel : loop_works fuel.
Proof.
  induction fuel as [|fuel IH]; intros pattern out held off bb y body rest HP Hinv Hf; [lia|].
  destruct Hinv as (Hh & Hb & Hd & Ho & H0 & Hsol & Hs).
  destruct bb as [|e bb].
  { exists []. cbn. rewrite app_nil_r. split_and!; [done|done|by constructor|done|right].
    cbn in Hs. split_and!; [done| |by exists body].
    intros ->. rewrite app_nil_r, Hd in Hs. apply split_text_Some, (f_equal length) in Hs.
    rewrite !length_app, length_take in Hs. lia. }
  apply plains_cons in Hb as Hb'. destruct Hb' as [He Hb'].
  destruct (decide ((apr_bucket_read e).2 = [])) as [Hz|Hz].
  { rewrite split_loop_empty by done. rewrite brigade_data_cons, Hz in *.
    apply IH; [done|by split_and!|cbn in Hf |- *; lia]. }
  destruct (same_start (drop off bdry) (apr_bucket_read e).2) eqn:Hst.
  { apply loop_goes_on; try done. }
  destruct (decide (off = 0)) as [->|Hoff].
  { rewrite (H0 eq_refl) in *. by apply loop_moves. }
  rewrite split_loop_release by (done || lia).
  rewrite brigade_data_cons, <- app_assoc in Hs. set (buf := (apr_bucket_read e).2) in *.
  set (w := buf ++ brigade_data bb ++ y) in *. rewrite Hd in Hs.
  assert (Hfront : ~ bdry_at (take off bdry ++ w)).
  { intros Hb2%bdry_at_held; [|done]. unfold w in Hb2.
    apply same_start_app in Hb2. congruence. }
  assert (Hrec : no_recur).
  { destruct HP as [|HP]; [done|]. exfalso. apply split_text_Some in Hs. subst body.
    apply Hfront. unfold bdry_at. rewrite Hs. exact (take_app_length bdry rest). }
  rewrite (split_text_skip off) in Hs.
  2: { intros [|j] Hj; [done|]. apply prefix_no_bdry; [done..|lia]. }
  2: { rewrite length_app, length_take. lia. }
  rewrite take_app_le, take_ge, drop_app_le, drop_ge in Hs by (rewrite length_take; lia).
  destruct (split_text bdry ([] ++ w)) as [[b r]|] eqn:Es; [|done].
  injection Hs as <- <-. rewrite <- Hd. apply split_result_moved; [done..|].
  destruct (same_start bdry buf) eqn:Hs0; [apply loop_goes_on|apply loop_moves]; try done;
    try by left.
  all: split_and!; try done; [cbn; lia|by constructor|]; by rewrite brigade_data_cons, <- app_assoc.
Qed.

(** One call, on a text in which the boundary begins. *)
Lemma split_on_bdry_works pattern out i y body rest :
  (no_recur \/ body = []) -> plains i ->
  split_text bdry (brigade_data i ++ y) = Some (body, rest) ->
  split_result y body rest out (split_on_bdry out i pattern bdry).
Proof.
  intros HP Hi Hs. apply split_loop_works; [done| |lia].
  split_and!; try done; [|by constructor]. destruct bdry; [done|cbn; lia].
Qed.


(** What is left of a bucket that holds the end of a boundary. *)
Lemma cut_rest e bb n : n <= length (apr_bucket_read e).2 ->
  brigade_data (if n <? length (apr_bucket_read e).2 then (apr_bucket_split e n).2 :: bb else bb) =
    drop n (apr_bucket_read e).2 ++ brigade_data bb.
Proof.
  intros Hle. destruct (_ <? _) eqn:Elt.
  - destruct (split_data e n Hle) as [_ D]. by rewrite brigade_data_cons, D.
  - apply Nat.ltb_ge in Elt. by rewrite drop_ge.
Qed.

(** The text that went into a split: moved, the boundary, and left. *)
Definition text_kept (out held bb : brigade) (r : Z * brigade * brigade) : Prop :=
  let '(s, o, i) := r in
  brigade_data out ++ brigade_data held ++ brigade_data bb =
    brigade_data o ++ (if (s =? APR_SUCCESS)%Z then bdry else []) ++ brigade_data i.

(** A bucket that continues a match keeps the text when the rest of the loop does. *)
Lemma match_keeps fuel pattern out held off e bb :
  (forall off, brigade_data (held ++ [e]) = take off bdry -> off < length bdry ->
     text_kept out (held ++ [e]) bb (split_loop fuel pattern bdry out (held ++ [e]) off bb)) ->
  let buf := (apr_bucket_read e).2 in
  brigade_data held = take off bdry -> off < length bdry -> same_start (drop off bdry) buf = true ->
  text_kept out held (e :: bb)
    (if length bdry - off <=? length buf
     then (APR_SUCCESS, out, if length bdry - off <? length buf
             then (apr_bucket_split e (length bdry - off)).2 :: bb else bb)
     else split_loop fuel pattern bdry out (held ++ [e]) (off + length buf) bb).
Proof.
  intros IH buf Hd Ho Hs. pose proof (length_drop bdry off) as Hl. pose proof (brigade_data_one e) as H1.
  fold buf in H1. destruct (_ <=? _) eqn:Ele.
  - apply Nat.leb_le in Ele. cbn [text_kept]. rewrite Z.eqb_refl, Hd, brigade_data_cons. fold buf.
    apply same_start_le in Hs; [|lia]. rewrite Hl in Hs. pose proof (cut_rest e bb _ Ele) as Hc. fold buf in Hc. rewrite Hc.
    rewrite <- (take_drop (length bdry - off) buf) at 1. rewrite Hs.
    f_equal. rewrite <- app_assoc, app_assoc, take_drop. done.
  - apply Nat.leb_gt in Ele. unfold text_kept in *.
    specialize (IH (off + length buf)). destruct (split_loop _ _ _ _ _ _ _) as [[s o] i].
    rewrite brigade_data_cons. fold buf. rewrite <- IH; [|..|lia].
    + by rewrite brigade_data_app, H1, <- app_assoc.
    + rewrite same_start_comm in Hs. apply same_start_le in Hs; [|lia].
      rewrite brigade_data_app, H1, Hd. rewrite <- Hs at 1. by rewrite take_take_drop.
Qed.

(** Buckets that were moved on. *)
Lemma moved_keeps out moved bb bb0 r :
  brigade_data moved ++ brigade_data bb = brigade_data bb0 ->
  text_kept (out ++ moved) [] bb r -> text_kept out [] bb0 r.
Proof. destruct r as [[s o] i]. unfold text_kept. intros <-. by rewrite brigade_data_app, <- app_assoc. Qed.

(** Whatever the buckets are, a successful split takes out the boundary and
    nothing else; another one moves data only. *)
Lemma split_loop_keeps fuel pattern out held off bb :
  brigade_data held = take off bdry -> off < length bdry ->
  text_kept out held bb (split_loop fuel pattern bdry out held off bb).
Proof.
  assert (Hfail : forall s out held bb, s <> APR_SUCCESS -> text_kept out held bb (s, out, held ++ bb)).
  { intros s out' held' bb' Hs. apply Z.eqb_neq in Hs. unfold text_kept. by rewrite Hs, brigade_data_app. }
  revert out held off bb. induction fuel as [|fuel IH]; intros out held off [|e bb] Hd Ho;
    cbn [split_loop].
  1, 3: unfold text_kept; autorewrite with errno; by rewrite app_nil_r.
  1: apply Hfail; errno_lia.
  destruct (bucket_is_eos e); [apply Hfail; errno_lia|].
  pose proof (split_data e) as Hsp. pose proof (brigade_data_one e) as H1.
  pose proof (fun out' held' off' => match_keeps fuel pattern out' held' off' e bb
    (fun off'' => IH out' (held' ++ [e]) off'' bb)) as Hmatch. cbn zeta in Hmatch.
  destruct (apr_bucket_read e) as [s1 buf] eqn:Hread. cbn [fst snd] in *.
  destruct (s1 =? APR_SUCCESS)%Z eqn:Es; [|apply Z.eqb_neq in Es; by apply Hfail].
  destruct (length buf =? 0) eqn:El.
  { apply Nat.eqb_eq, length_zero_iff_nil in El as ->. cbn [negb].
    specialize (IH out held off bb Hd Ho). unfold text_kept in *. by rewrite brigade_data_cons, Hread. }
  cbn [negb]. destruct (same_start (drop off bdry) buf) eqn:Hs; [by apply Hmatch|].
  set (out' := if 0 <? off then _ else _).
  assert (Hrel : forall r, text_kept out' [] (e :: bb) r -> text_kept out held (e :: bb) r).
  { assert (Ho' : brigade_data out' = brigade_data out ++ brigade_data held).
    { subst out'. destruct off; cbn [Nat.ltb Nat.leb]; [|apply brigade_data_app]. by rewrite Hd, take_0, app_nil_r. }
    intros [[s o] i]. unfold text_kept. by rewrite Ho', <- !app_assoc. }
  apply Hrel. destruct (_ && same_start bdry buf) eqn:Hs0.
  { apply andb_true_iff in Hs0 as [_ Hs0]. apply (Hmatch out' [] 0); [done|lia|done]. }
  pose proof (bdry_index_found pattern buf Hn) as Hi.
  destruct (0 <=? bdry_index pattern bdry buf)%Z eqn:E0.
  - destruct Hi as [(k & Hk & Hm & _)|[Hk _]]; rewrite Hk in *; [|done]. rewrite Nat2Z.id.
    assert (Hkl : k <= length buf) by (destruct Hm; lia).
    destruct (Hsp k Hkl) as [D1 D2]. destruct (apr_bucket_split e k) as [e1 e2]. cbn [fst snd] in *.
    apply (moved_keeps _ [e1] (e2 :: bb)); [|by apply IH; [|lia]].
    rewrite !brigade_data_cons, Hread, D1, D2. cbn [snd brigade_data flat_map]. by rewrite app_nil_r, app_assoc, take_drop.
  - apply (moved_keeps _ [e] bb); [by rewrite <- brigade_data_app|by apply IH; [|lia]].
Qed.

Lemma split_on_bdry_moves pattern out bb s o i :
  split_on_bdry out bb pattern bdry = (s, o, i) ->
  brigade_data out ++ brigade_data bb =
    brigade_data o ++ (if (s =? APR_SUCCESS)%Z then bdry else []) ++ brigade_data i.
Proof.
  unfold split_on_bdry. intros Hr.
  pose proof (split_loop_keeps (S (length bb + length (brigade_data bb))) pattern out [] 0 bb eq_refl) as Hk.
  rewrite Hr in Hk. apply Hk. destruct bdry; [done|cbn; lia].
Qed.

Lemma split_on_bdry_keeps pattern out bb o i :
  split_on_bdry out bb pattern bdry = (APR_SUCCESS, o, i) ->
  brigade_data out ++ brigade_data bb = brigade_data o ++ bdry ++ brigade_data i.
Proof. apply split_on_bdry_moves. Qed.


(** ** Calls *)

(** Brigades that arrive one after the other are appended to [in] and split:
    the status, [out], and what is not used. *)
Fixpoint feed_split (pattern : bool) (out i : brigade) (bbs : list brigade)
  : Z * brigade * brigade :=
  match bbs with
  | [] => (APR_INCOMPLETE, out, i)
  | bb :: bbs =>
      let '(s, out, i) := split_on_bdry out (i ++ bb) pattern bdry in
      if (s =? APR_INCOMPLETE)%Z then feed_split pattern out i bbs else (s, out, i ++ concat bbs)
  end.

Lemma feed_split_works pattern out i bbs body rest :
  (no_recur \/ body = []) -> plains i -> forallb (forallb ok) bbs = true ->
  split_text bdry (brigade_data i ++ brigade_data (concat bbs)) = Some (body, rest) -> bbs <> [] ->
  exists out' i', feed_split pattern out i bbs = (APR_SUCCESS, out', i') /\
    brigade_data out' = brigade_data out ++ body /\ brigade_data i' = rest.
Proof.
  revert out i body. induction bbs as [|bb bbs IH]; intros out i body HP Hi Hp Hs Hne; [done|].
  clear Hne. cbn [forallb] in Hp. apply andb_true_iff in Hp as [Hbb Hp]. cbn [feed_split concat] in *.
  rewrite brigade_data_app, app_assoc, <- brigade_data_app in Hs.
  assert (Hib : plains (i ++ bb)) by by apply plains_app.
  pose proof (split_on_bdry_works pattern out (i ++ bb) _ _ _ HP Hib Hs) as Hr.
  destruct (split_on_bdry _ _ _ _) as [[s o] i'].
  destruct Hr as (m & -> & Hm & _ & Hi' & [(-> & <- & <-)|(-> & Hy & b2 & -> & Hs2)]).
  - autorewrite with errno. eexists _, _. split; [reflexivity|]. by rewrite !brigade_data_app.
  - autorewrite with errno. destruct (IH (out ++ m) i' b2) as (o & r & -> & Ho & Hr); try done.
    { destruct HP as [|HP]; [by left|right]. by apply app_nil in HP as [_ ->]. }
    { by intros ->. }
    exists o, r. by rewrite Ho, brigade_data_app, <- app_assoc.
Qed.

(** ** brigade_start_string *)

(** A text that does not start with the string: the answer is no, or more text
    is needed. *)
Lemma start_string_no bb start y :
  plains bb -> length start <= length (brigade_data bb ++ y) ->
  take (length start) (brigade_data bb ++ y) <> start ->
  let s := brigade_start_string bb start in
  s = APREQ_ERROR_GENERAL \/ s = APR_INCOMPLETE /\ y <> [].
Proof.
  revert start. induction bb as [|e bb IH]; intros start Hp Hl Hne; cbn [brigade_start_string] in *.
  { right. split; [done|]. intros ->. destruct start; [done|cbn in Hl; lia]. }
  apply plains_cons in Hp as [He Hp].
  destruct (length start =? 0) eqn:E0.
  { apply Nat.eqb_eq, length_zero_iff_nil in E0 as ->. done. }
  rewrite brigade_data_cons, <- app_assoc in *. destruct (kind_read e He) as [-> Hr].
  destruct (apr_bucket_read e) as [s buf]. cbn [snd] in *. injection Hr as ->. cbn [negb Z.eqb].
  destruct (length buf =? 0) eqn:E1.
  { apply Nat.eqb_eq, length_zero_iff_nil in E1 as ->. by apply IH. }
  destruct (same_start buf start) eqn:Hst; [|by left]. cbn [negb].
  destruct (decide (length start <= length buf)) as [Hle|Hle].
  { exfalso. apply Hne. rewrite take_app_le by done.
    rewrite same_start_comm in Hst. by apply same_start_le. }
  apply same_start_le in Hst; [|lia].
  apply IH; [done|rewrite length_drop; rewrite length_app in Hl; lia|].
  rewrite length_drop. intros Heq. apply Hne.
  rewrite firstn_app, take_ge by lia. rewrite Heq, <- Hst at 1.
  by rewrite take_drop.
Qed.

End Loop.

(** ** Texts with a boundary *)

(** The boundary after a text without one, when its first byte does not recur. *)
Lemma split_text_after d r :
  no_recur -> split_text bdry d = None -> split_text bdry (d ++ bdry ++ r) = Some (d, r).
Proof.
  intros Hn Hd. rewrite (split_text_skip (length d)), take_app_length, drop_app_length, split_text_at.
  - cbn. by rewrite app_nil_r.
  - intros j Hj Hb. destruct (decide (j + length bdry <= length d)) as [Hl|Hl].
    + unfold bdry_at in Hb. rewrite drop_app_le, take_app_le in Hb by (rewrite ?length_drop; lia).
      clear Hl Hn. revert j Hj Hb. induction d as [|c d IH]; intros j Hj Hb; [cbn in Hj; lia|].
      cbn [split_text] in Hd. case_bool_decide; [done|]. destruct j as [|j]; [done|].
      destruct (split_text bdry d) as [[? ?]|]; [done|]. cbn in Hj. apply (IH eq_refl j); [lia|done].
    + unfold no_recur, bdry_at in *. destruct bdry as [|c w]; [done|]. cbn [length] in Hl.
      apply Hn. destruct (length d - j) as [|k] eqn:Ek; [lia|].
      apply (f_equal (fun l => l !! S k)) in Hb. cbn [lookup list_lookup] in Hb.
      rewrite lookup_take_lt in Hb by (cbn; lia).
      rewrite lookup_drop in Hb. replace (j + S k) with (length d + 0) in Hb by lia.
      rewrite lookup_app_r in Hb by lia. rewrite Nat.add_sub_swap, Nat.sub_diag in Hb by lia.
      cbn in Hb. by apply list_elem_of_lookup_2 with k.
  - rewrite length_app. lia.
Qed.

End Text.
End Facts.

(** The boundary search by [apreq_index]: an instance of the interface. *)
#[export] Program Instance index_strmatch : AprStrmatch := {|
  apr_strmatch p b :=
    let i := apreq_index b p APREQ_MATCH_FULL in
    if (0 <=? i)%Z then Some (Z.to_nat i) else None
|}.
Next Obligation.
  cbn. intros p b i Hp. destruct (index_loop_spec (length b) 0 b p APREQ_MATCH_FULL Hp (le_n _))
    as [(k & Hk & Hm & Hmin)|[Hk _]]; unfold apreq_index; rewrite Hk; [|done].
  assert ((0 <=? Z.of_nat (0 + k))%Z = true) as -> by (apply Z.leb_le; lia).
  rewrite Nat2Z.id. by intros [= <-].
Qed.
Next Obligation.
  cbn. intros p b i Hp. destruct (index_loop_spec (length b) 0 b p APREQ_MATCH_FULL Hp (le_n _))
    as [(k & Hk & Hm & Hmin)|[Hk Hno]]; unfold apreq_index; rewrite Hk; [|intros _; apply Hno].
  by assert ((0 <=? Z.of_nat (0 + k))%Z = true) as -> by (apply Z.leb_le; lia).
Qed.

(** ** Claims *)

Section Claims.
Context {E : AprErrno} {SM : AprStrmatch}.

(** C9: a boundary is found however the data is cut into buckets and brigades: what
    precedes its first occurrence is moved out, the boundary is dropped, and
    what follows it stays.  This asks that the first byte of the boundary does
    not recur in it, or that the text begins with the boundary. *)
Theorem boundary_split_chunking (pattern : bool) (bdry body rest : bytes) (bbs : list brigade) :
  bdry <> [] -> no_recur bdry \/ body = [] -> forallb (forallb plain) bbs = true ->
  split_text bdry (brigade_data (concat bbs)) = Some (body, rest) ->
  exists out i, feed_split bdry pattern [] [] bbs = (APR_SUCCESS, out, i) /\
    brigade_data out = body /\ brigade_data i = rest.
Proof.
  intros Hn HP Hp Hs.
  destruct (feed_split_works (ok := plain) bdry Hn pattern [] [] bbs body rest)
    as (out & i & ? & ? & ?); try done; [|by exists out, i].
  intros ->. apply split_text_Some, (f_equal length) in Hs. rewrite !length_app in Hs.
  destruct bdry; [done|cbn in Hs; lia].
Qed.

End Claims.

(** ** Witnesses *)

Lemma boundary_split_chunking_witness :
  exists out i, feed_split (x0d :: str "ab") true [] []
      [[BData (str "x" ++ [x0d])]; [BData [x0d]; BFlush; BData (str "a")]; [BData (str "bc")]] =
      (APR_SUCCESS, out, i) /\
    brigade_data out = str "x" ++ [x0d] /\ brigade_data i = str "c".
Proof.
  apply (boundary_split_chunking true (x0d :: str "ab") (str "x" ++ [x0d]) (str "c")).
  - done.
  - left. cbn. rewrite !elem_of_cons, elem_of_nil. naive_solver.
  - reflexivity.
  - reflexivity.
Defined.

(** Without that condition a boundary can be missed: two dashes are held as the
    beginning of the boundary of a body, the next byte is a third dash, and
    both held dashes are moved out although the second one begins it. *)
Example boundary_missed :
  let cut l := feed_split (str "--b") false [] [] (map (fun s => [BData s]) l) in
  split_text (str "--b") (str "---b") = Some (str "-", []) /\
  (cut [str "---b"]).1.1 = APR_SUCCESS /\
  cut [str "--"; str "-b"] = (APR_INCOMPLETE, [BData (str "--"); BData (str "-b")], []).
Proof.
  vm_compute. by split_and!.
Qed.
