(* ===== verification/Multipart.v ===== *)
(** * The parser of multipart bodies
    ([src/libapreq2/library/parser_multipart.c])

    A [multipart/form-data] body is a list of parts between boundary lines; a
    part is a header block and data, which become a parameter or an upload.  A
    part of type [multipart/mixed] holds parts itself; a second parser, which
    does not nest further, takes it. *)
From S2P Require Import Prelude Apr Url Util Brigade Param Parser Header Boundary.

(** How a function ends: it returns, the process crashes, or the model is out of
    fuel. *)
Inductive presult (A : Type) := Ok (a : A) | Aborts | NoFuel.
Arguments Ok {A}.
Arguments Aborts {A}.
Arguments NoFuel {A}.

Definition obind {A B} (f : A -> presult B) (x : presult A) : presult B :=
  match x with Ok a => f a | Aborts => Aborts | NoFuel => NoFuel end.

Section Multipart.
Context {E : AprErrno} {T : AprTable} {X : Type} {XP : AprXml X} {H : HookEnv X}
        {W : Type} {F : AprFile W} {SM : AprStrmatch}.

(** ** The context *)

Inductive mfd_status :=
  | MFD_INIT | MFD_NEXTLINE | MFD_HEADER | MFD_POST_HEADER | MFD_PARAM | MFD_UPLOAD
  | MFD_MIXED | MFD_COMPLETE | MFD_ERROR.

Abbreviation table := (apr_table apreq_param_t).
Abbreviation hooks := (list (apreq_hook_t (X := X))).
Abbreviation hdr_parser := (apreq_parser_t (X := X) hdr_ctx).

(** [M]: what is kept of the parser of mixed parts. *)
Record mfd_ctx (M : Type) := MfdCtx {
  m_info : option table;
  m_in : brigade;
  m_bb : brigade;
  m_hdr : hdr_parser;
  m_mix : M;
  m_bdry : bytes;
  m_status : mfd_status;
  m_param_name : option bytes;
  m_upload : option apreq_param_t
}.
Arguments MfdCtx {M}.
Arguments m_info {M}.
Arguments m_in {M}.
Arguments m_bb {M}.
Arguments m_hdr {M}.
Arguments m_mix {M}.
Arguments m_bdry {M}.
Arguments m_status {M}.
Arguments m_param_name {M}.
Arguments m_upload {M}.

(** The header attribute [name] of a string in memory. *)
Inductive attribute := Attr (value : bytes) | NoAttr | AttrAborts.

Definition attribute_of (obj : bytes) (base : nat) (name : bytes) : attribute :=
  match apreq_header_attribute obj base name with
  | AttrFound v n => Attr (take n (drop v obj))
  | AttrNone _ => NoAttr
  | AttrOutOfBounds | AttrNoFuel => AttrAborts
  end.

(** Parsers keep the boundary with the line end and the dashes before it. *)
Definition boundary_of (content_type : bytes) : attribute :=
  let ct := cstr content_type in
  match strchr ct ";" with
  | None => NoAttr
  | Some k => attribute_of (take k ct ++ [x00] ++ drop (S k) ct) (S k) (str "boundary")
  end.

Definition create_multipart_context {M} (content_type : bytes) (temp_dir : option bytes) (brigade_limit : nat)
    (mix : M) : presult (option (mfd_ctx M)) :=
  match boundary_of content_type with
  | NoAttr => Ok None
  | AttrAborts => Aborts
  | Attr b =>
      Ok (Some (MfdCtx None [] []
        (apreq_parser_make [] apreq_parse_headers_f brigade_limit temp_dir [] None)
        mix (CRLF ++ str "--" ++ b) MFD_INIT None None))
  end.


(** ** The parts *)

(** A value in memory: its length, which is in front of it, and its text. *)
Definition value_object (p : apreq_param_t) : bytes :=
  map (fun i => bz (Z.of_nat (length (p_data p)) / 256 ^ Z.of_nat i)) (seq 0 8) ++ cstr (p_data p).

(** What a parameter's [info] refers to: the values of the headers. *)
Definition info_values (info : table) : apr_table bytes :=
  fold_left (fun t e => apr_table_add t e.1 (p_data e.2)) (apr_table_elts info) apr_table_make.

(** What the header block of a part says about it. *)
Inductive part_action :=
  | PartMixed (name content_type : bytes)
  | PartParam (name : option bytes)       (** [ctx->param_name] from now on *)
  | PartUpload (name filename : bytes)
  | PartFails
  | PartAborts.

(** [form]: the parser is not that of a mixed part. *)
Definition part_action_of (form : bool) (info : table) (param_name : option bytes)
  : part_action :=
  match apr_table_get info (str "Content-Disposition") with
  | Some cd =>
      let attribute name := attribute_of (value_object cd) 8 name in
      if form then
        match attribute (str "name") with
        | AttrAborts => PartAborts
        | NoAttr => PartFails
        | Attr name =>
            match attribute (str "filename") with
            | AttrAborts => PartAborts
            | Attr filename => PartUpload name filename
            | NoAttr =>
                match apr_table_get info (str "Content-Type") with
                | Some ct =>
                    if bool_decide (take 15 (cstr (p_data ct)) = str "multipart/mixed")
                    then PartMixed name (cstr (p_data ct)) else PartParam (Some name)
                | None => PartParam (Some name)
                end
            end
        end
      else
        match attribute (str "filename") with
        | AttrAborts => PartAborts
        | NoAttr => PartParam param_name
        | Attr filename =>
            match param_name with
            | None => PartAborts
            | Some name => PartUpload name filename
            end
        end
  | None =>
      match apr_table_get info (str "Content-ID") with
      | None => PartFails
      | Some id => PartUpload (cstr (p_data id)) []
      end
  end.

(** ** The states *)

Section States.
(** What the parser of mixed parts offers, when there is one. *)
Context {M : Type}.
Record mix_ops := MixOps {
  mix_new : mfd_ctx unit -> M -> M;    (** [mix_parser->ctx = mix_ctx] *)
  mix_held : M -> nat;                 (** the bytes it holds *)
  mix_run : W -> M -> hooks -> table -> brigade ->
            presult (Z * W * M * hooks * table * brigade)
}.
Context (mix : option mix_ops) (FILE_BUCKET_LIMIT : nat) (brigade_limit : nat) (temp_dir : option bytes).

(** The variables of a call: the system, the hooks, the table, the caller's
    brigade and the context. *)
Record mfd_run := Run {
  r_w : W; r_hs : hooks; r_t : table; r_bb : brigade; r_ctx : mfd_ctx M
}.

Definition set_r_ctx (c : mfd_ctx M) (r : mfd_run) : mfd_run :=
  Run (r_w r) (r_hs r) (r_t r) (r_bb r) c.
Definition set_io (i o : brigade) (st : mfd_status) (c : mfd_ctx M) : mfd_ctx M :=
  MfdCtx (m_info c) i o (m_hdr c) (m_mix c) (m_bdry c) st (m_param_name c) (m_upload c).
Definition set_status (st : mfd_status) (c : mfd_ctx M) : mfd_ctx M :=
  set_io (m_in c) (m_bb c) st c.
Definition set_info (info : option table) (h : hdr_parser) (c : mfd_ctx M) : mfd_ctx M :=
  MfdCtx info (m_in c) (m_bb c) h (m_mix c) (m_bdry c) (m_status c) (m_param_name c) (m_upload c).
Definition set_name (n : option bytes) (c : mfd_ctx M) : mfd_ctx M :=
  MfdCtx (m_info c) (m_in c) (m_bb c) (m_hdr c) (m_mix c) (m_bdry c) (m_status c) n (m_upload c).
Definition set_m_upload (p : apreq_param_t) (c : mfd_ctx M) : mfd_ctx M :=
  MfdCtx (m_info c) (m_in c) (m_bb c) (m_hdr c) (m_mix c) (m_bdry c) (m_status c)
    (m_param_name c) (Some p).
Definition set_mix (m : M) (c : mfd_ctx M) : mfd_ctx M :=
  MfdCtx (m_info c) (m_in c) (m_bb c) (m_hdr c) m (m_bdry c) (m_status c) (m_param_name c)
    (m_upload c).

(** A state either returns a status or goes on to the next one. *)
Abbreviation result := (presult (option Z * mfd_run)).
Definition stop (s : Z) (r : mfd_run) : result := Ok (Some s, r).
Definition fail (s : Z) (r : mfd_run) : result := stop s (set_r_ctx (set_status MFD_ERROR (r_ctx r)) r).
Definition go (r : mfd_run) : result := Ok (None, r).

Definition mfd_init (r : mfd_run) : result :=
  let c := r_ctx r in
  let '(s, out, i) := split_on_bdry (m_bb c) (m_in c) false (drop 2 (m_bdry c)) in
  if negb (s =? APR_SUCCESS)%Z then stop s (set_r_ctx (set_io i out MFD_INIT c) r)
  else go (Run (r_w r) (r_hs r) (r_t r) (r_bb r ++ out) (set_io i [] MFD_NEXTLINE c)).

Definition mfd_nextline (r : mfd_run) : result :=
  let c := r_ctx r in
  let '(s, out, i) := split_on_bdry (m_bb c) (m_in c) false CRLF in
  if negb (s =? APR_SUCCESS)%Z then stop s (set_r_ctx (set_io i out MFD_NEXTLINE c) r)
  else match out with
  | _ :: _ =>
      stop APR_SUCCESS
        (Run (r_w r) (r_hs r) (r_t r) (r_bb r ++ i) (set_io [] out MFD_COMPLETE c))
  | [] => go (set_r_ctx (set_info None (m_hdr c) (set_io i [] MFD_HEADER c)) r)
  end.

Definition clear_ctx (p : hdr_parser) : hdr_parser :=
  Parser (ps_content_type p) (ps_parser p) (ps_hook p) (ps_brigade_limit p) (ps_temp_dir p) None.

Definition mfd_header (r : mfd_run) : result :=
  let c := r_ctx r in
  let '(info, h) := match m_info c with
                    | None => (apr_table_make, clear_ctx (m_hdr c))
                    | Some info => (info, m_hdr c)
                    end in
  match apreq_parse_headers h info (Some (m_in c)) with
  | None => Aborts
  | Some (s, h, info, i) =>
      let r := set_r_ctx (set_info (Some info) h (set_io (default [] i) (m_bb c) MFD_HEADER c)) r in
      if (s =? APR_SUCCESS)%Z then go (set_r_ctx (set_status MFD_POST_HEADER (r_ctx r)) r)
      else if (s =? APR_INCOMPLETE)%Z then stop APR_INCOMPLETE r
      else fail s r
  end.

(** [param] with the headers and an empty upload. *)
Definition new_upload (info : option table) (name filename : bytes) : apreq_param_t :=
  apreq_param_tainted_on (Param (info_values <$> info) (Some []) 0 name filename).

Definition mfd_post_header (r : mfd_run) : result :=
  let c := r_ctx r in
  let s := brigade_start_string (m_in c) (drop 2 (m_bdry c)) in
  if (s =? APR_INCOMPLETE)%Z then stop APR_INCOMPLETE r
  else
    let c := if (s =? APR_SUCCESS)%Z
             then set_io (BData CRLF :: m_in c) (m_bb c) MFD_POST_HEADER c else c in
    let r := set_r_ctx c r in
    match part_action_of (bool_decide (is_Some mix)) (default apr_table_make (m_info c))
            (m_param_name c) with
    | PartAborts => Aborts
    | PartFails => fail APREQ_ERROR_GENERAL r
    | PartUpload name filename =>
        go (set_r_ctx (set_m_upload (new_upload (m_info c) name filename)
                         (set_status MFD_UPLOAD c)) r)
    | PartParam name => go (set_r_ctx (set_name name (set_status MFD_PARAM c)) r)
    | PartMixed name ct =>
        match create_multipart_context ct temp_dir brigade_limit tt, mix with
        | Aborts, _ | NoFuel, _ | _, None => Aborts
        | Ok None, _ => fail APREQ_ERROR_GENERAL r
        | Ok (Some mc), Some ops =>
            let mc := MfdCtx (m_info mc) (m_in mc) (m_bb mc) (m_hdr mc) (m_mix mc) (m_bdry mc)
                        (m_status mc) (Some name) (m_upload mc) in
            go (set_r_ctx (set_mix (mix_new ops mc (m_mix c)) (set_status MFD_MIXED c)) r)
        end
    end.

(** [apr_brigade_length(bb, 1, &off)] *)
Fixpoint brigade_length (bb : brigade) : Z * nat :=
  match bb with
  | [] => (APR_SUCCESS, 0)
  | e :: bb =>
      let '(s, d) := apr_bucket_read e in
      if negb (s =? APR_SUCCESS)%Z then (s, 0)
      else let '(s, n) := brigade_length bb in (s, length d + n)
  end.

Definition mfd_param (r : mfd_run) : result :=
  let c := r_ctx r in
  let '(s, out, i) := split_on_bdry (m_bb c) (m_in c) true (m_bdry c) in
  let c := set_io i out MFD_PARAM c in
  let r := set_r_ctx c r in
  if (s =? APR_INCOMPLETE)%Z then stop s r
  else if negb (s =? APR_SUCCESS)%Z then fail s r
  else
    let '(s, len) := brigade_length out in
    if negb (s =? APR_SUCCESS)%Z then fail s r
    else match m_param_name c with
    | None => Aborts
    | Some name =>
        let param := apreq_param_tainted_on
          (Param (info_values <$> m_info c) None 0 (cstr name) (take len (brigade_data out))) in
        let '(s, hs, param, _) := apreq_hook_run (r_hs r) param None in
        let r := Run (r_w r) hs (r_t r) (r_bb r) (r_ctx r) in
        if negb (s =? APR_SUCCESS)%Z then fail s r
        else go (Run (r_w r) hs (apreq_value_table_add param (r_t r)) (r_bb r)
                   (set_name None (set_io i [] MFD_NEXTLINE c)))
    end.

(** [APR_BUCKET_REMOVE(ctx->eos)] *)
Definition remove_eos (bb : brigade) : brigade :=
  List.filter (fun e => negb (bucket_is_eos e)) bb.

(** [apreq_brigade_concat(..., param->upload, ctx->bb)]: the status, the system,
    the parameter and [ctx->bb]. *)
Definition upload_concat (w : W) (param : apreq_param_t) (bb : brigade)
  : Z * W * apreq_param_t * brigade :=
  let r := apreq_brigade_concat FILE_BUCKET_LIMIT false w brigade_limit
             (default [] (p_upload param)) bb in
  (cr_status r, cr_world r, set_upload param (cr_out r), cr_in r).

Definition mfd_upload (r : mfd_run) : result :=
  let c := r_ctx r in
  let '(s, out, i) := split_on_bdry (m_bb c) (m_in c) true (m_bdry c) in
  let c := set_io i out MFD_UPLOAD c in
  let r := set_r_ctx c r in
  let complete := (s =? APR_SUCCESS)%Z in
  if negb complete && negb (s =? APR_INCOMPLETE)%Z then fail s r
  else match m_upload c with
  | None => Aborts
  | Some param =>
      let '(s, hs, param, bb) :=
        apreq_hook_run (r_hs r) param (Some (if complete then out ++ [BEos] else out)) in
      let bb := if complete then remove_eos (default [] bb) else default [] bb in
      let c := set_m_upload param (set_io i bb MFD_UPLOAD c) in
      let r := Run (r_w r) hs (r_t r) (r_bb r) c in
      if negb (s =? APR_SUCCESS)%Z then fail s r
      else
        let '(s, w, param, bb) := upload_concat (r_w r) param bb in
        let c := set_m_upload param (set_io i bb MFD_UPLOAD c) in
        let t := if complete then apreq_value_table_add param (r_t r) else r_t r in
        let r := Run w hs t (r_bb r) c in
        if negb (s =? APR_SUCCESS)%Z then stop s r
        else if complete then go (set_r_ctx (set_status MFD_NEXTLINE c) r)
        else stop APR_INCOMPLETE r
  end.

Definition mfd_mixed (r : mfd_run) : result :=
  match mix with
  | None => Aborts
  | Some ops =>
      let c := r_ctx r in
      obind (fun '(s, w, m, hs, t, i) =>
        let c := set_mix m (set_io i (m_bb c) MFD_MIXED c) in
        let r := Run w hs t (r_bb r) c in
        if (s =? APR_SUCCESS)%Z then go (set_r_ctx (set_status MFD_INIT c) r)
        else if (s =? APR_INCOMPLETE)%Z then stop s (set_r_ctx (set_io [] (m_bb c) MFD_MIXED c) r)
        else fail s r)
      (mix_run ops (r_w r) (m_mix c) (r_hs r) (r_t r) (m_in c))
  end.

(** [switch (ctx->status)] *)
Definition mfd_switch (r : mfd_run) : result :=
  match m_status (r_ctx r) with
  | MFD_INIT => mfd_init r
  | MFD_NEXTLINE => mfd_nextline r
  | MFD_HEADER => mfd_header r
  | MFD_POST_HEADER => mfd_post_header r
  | MFD_PARAM => mfd_param r
  | MFD_UPLOAD => mfd_upload r
  | MFD_MIXED => mfd_mixed r
  | MFD_COMPLETE | MFD_ERROR => stop APREQ_ERROR_GENERAL r
  end.

Fixpoint mfd_loop (fuel : nat) (r : mfd_run) : presult (Z * mfd_run) :=
  match fuel with
  | O => NoFuel
  | S fuel =>
      match mfd_switch r with
      | Ok (None, r) => mfd_loop fuel r
      | Ok (Some s, r) => Ok (s, r)
      | Aborts => Aborts
      | NoFuel => NoFuel
      end
  end.

(** The bytes a parser holds, with the line end it may put in front of a part. *)
Definition mfd_held (c : mfd_ctx M) : nat :=
  length (brigade_data (m_in c)) + length (brigade_data (m_bb c)) + hdr_held (m_hdr c) +
  match mix with Some ops => mix_held ops (m_mix c) | None => 0 end +
  match m_status c with MFD_HEADER | MFD_POST_HEADER => 2 | _ => 0 end.

(** The parser with its context: the status and the variables. *)
Definition multipart_run (w : W) (hs : hooks) (t : table) (c : mfd_ctx M) (bb : option brigade)
  : presult (Z * mfd_run) :=
  match parser_status_check (match m_status c with MFD_ERROR => true | _ => false end)
          (match m_status c with MFD_COMPLETE => true | _ => false end)
          (match bb with None => true | _ => false end) with
  | Some s => Ok (s, Run w hs t (default [] bb) c)
  | None =>
      let c := set_io (m_in c ++ default [] bb) (m_bb c) (m_status c) c in
      mfd_loop (3 * mfd_held c + 10) (Run w hs t [] c)
  end.

End States.
Arguments Run {M}.
Arguments mix_ops : clear implicits.

(** ** The parser *)

Section Parser.
Context (FILE_BUCKET_LIMIT : nat).

(** The parser of mixed parts: how many hooks, at the end of the list of its
    parent, it shares with it, and its context.  The list of the parent may have
    become shorter: a hook taken off it stays with the parser of mixed parts. *)
Record mixed_parser := Mixed { x_shared : nat; x_ctx : option (mfd_ctx unit) }.

Definition mixed_run (brigade_limit : nat) (temp_dir : option bytes) (w : W) (x : mixed_parser) (hs : hooks)
    (t : table) (bb : brigade) : presult (Z * W * mixed_parser * hooks * table * brigade) :=
  match x_ctx x with
  | None => Aborts
  | Some c =>
      let own := length hs - x_shared x in
      obind (fun '(s, r) =>
        Ok (s, r_w r, Mixed (x_shared x + length (r_hs r) - length (drop own hs)) (Some (r_ctx r)),
            take own hs ++ r_hs r, r_t r, r_bb r))
      (multipart_run None FILE_BUCKET_LIMIT brigade_limit temp_dir w (drop own hs) t c (Some bb))
  end.

Definition mixed_held (x : mixed_parser) : nat :=
  match x_ctx x with Some c => mfd_held (M := unit) None c | None => 0 end.

Definition form_mix (brigade_limit : nat) (temp_dir : option bytes) : mix_ops mixed_parser :=
  MixOps (fun c x => Mixed (x_shared x) (Some c)) mixed_held (mixed_run brigade_limit temp_dir).

Abbreviation form_parser := (apreq_parser_t (X := X) (mfd_ctx mixed_parser)).

(** The status, the system, the parser, the table and the caller's brigade. *)
Definition apreq_parse_multipart (w : W) (psr : form_parser) (t : table) (bb : option brigade)
  : presult (Z * W * form_parser * table * option brigade) :=
  let limit := ps_brigade_limit psr in
  let dir := ps_temp_dir psr in
  obind (fun c =>
    match c with
    | None => Ok (APREQ_ERROR_GENERAL, w, psr, t, bb)
    | Some c =>
        obind (fun '(s, r) =>
          Ok (s, r_w r, set_ctx (set_hook psr (r_hs r)) (r_ctx r), r_t r,
              match bb with None => None | Some _ => Some (r_bb r) end))
        (multipart_run (Some (form_mix limit dir)) FILE_BUCKET_LIMIT limit dir w (ps_hook psr) t c bb)
    end)
  (match ps_ctx psr with
   | Some c => Ok (Some c)
   | None => create_multipart_context (ps_content_type psr) dir limit
               (Mixed (length (ps_hook psr)) None)
   end).

End Parser.
End Multipart.
Arguments MfdCtx {T X M}.
Arguments m_info {T X M}.
Arguments m_in {T X M}.
Arguments m_bb {T X M}.
Arguments m_hdr {T X M}.
Arguments m_mix {T X M}.
Arguments m_bdry {T X M}.
Arguments m_status {T X M}.
Arguments m_param_name {T X M}.
Arguments m_upload {T X M}.
Arguments Run {T X W M}.
Arguments MixOps {T X W M}.
Arguments mfd_ctx T X M : clear implicits.
Arguments mix_ops T X W M : clear implicits.
Arguments mfd_run T X W M : clear implicits.
Arguments mixed_parser T X : clear implicits.

(** * Properties *)

(** ** Termination *)

Section Termination.
Context {E : AprErrno} {T : AprTable} {X : Type} {XP : AprXml X} {H : HookEnv X}
        {W : Type} {F : AprFile W} {SM : AprStrmatch}.

Lemma concat_takes_all limit heap w out bb :
  let r := apreq_brigade_concat (W := W) limit false w heap out bb in
  cr_status r = APR_SUCCESS -> cr_in r = [].
Proof.
  cbn zeta. unfold apreq_brigade_concat. destruct (last_is_eos out).
  { cbn. intros He. exfalso. errno_lia. }
  destruct (_ && _); [done|].
  destruct (open_spool w out) as [[[[[s w'] pre] f] start] len].
  destruct (negb (s =? APR_SUCCESS)%Z) eqn:Es; cbn; [intros ->; done|].
  intros _. unfold concat_spooled. destruct (apreq_brigade_fwrite _ _ _) as [[[s1 w1] f1] wl].
  by destruct (s1 =? APR_SUCCESS)%Z.
Qed.

Section States.
Context {M : Type} (mix : option (mix_ops T X W M)) (wf : M -> Prop)
        (FILE_BUCKET_LIMIT brigade_limit : nat) (temp_dir : option bytes).
Abbreviation ctx := (mfd_ctx T X M).
Abbreviation run := (mfd_run T X W M).
Abbreviation held := (mfd_held mix).
Abbreviation switch := (mfd_switch mix FILE_BUCKET_LIMIT brigade_limit temp_dir).

(** What a parser needs of the parser of mixed parts: it returns, and makes no
    data. *)
Record mix_laws (ops : mix_ops T X W M) : Prop := {
  law_new mc m : 4 <= length (m_bdry mc) ->
    wf (mix_new ops mc m) /\ mix_held ops (mix_new ops mc m) = mfd_held (W := W) None mc;
  law_fuel w m hs t i : wf m -> mix_run ops w m hs t i <> NoFuel;
  law_run w m hs t i s w' m' hs' t' i' : wf m ->
    mix_run ops w m hs t i = Ok (s, w', m', hs', t', i') ->
    wf m' /\ (s = APR_SUCCESS ->
      length (brigade_data i') + mix_held ops m' <= length (brigade_data i) + mix_held ops m)
}.
Context (laws : forall ops, mix = Some ops -> mix_laws ops).

Definition ctx_wf (c : ctx) : Prop := 4 <= length (m_bdry c) /\ wf (m_mix c).

(** All the data of a call, and how far the state is from taking some. *)
Definition total (r : run) : nat := length (brigade_data (r_bb r)) + held (r_ctx r).
Definition rank (st : mfd_status) : nat :=
  match st with
  | MFD_NEXTLINE => 4 | MFD_HEADER => 3 | MFD_POST_HEADER => 2
  | MFD_PARAM | MFD_UPLOAD | MFD_MIXED => 1 | _ => 0
  end.
Lemma rank_le st : rank st <= 4.
Proof. destruct st; cbn; lia. Qed.

Definition measure (r : run) : nat := 3 * total r + rank (m_status (r_ctx r)).

(** What holds of a state that goes on, and of one that returns. *)
Definition progress (r : run) (x : presult (option Z * run)) : Prop :=
  match x with
  | Ok (None, r') => ctx_wf (r_ctx r') /\ total r' <= total r /\ measure r' < measure r
  | Ok (Some s, r') => ctx_wf (r_ctx r') /\ (s = APR_SUCCESS -> total r' <= total r)
  | Aborts => True
  | NoFuel => False
  end.

Lemma progress_stop s r r' :
  ctx_wf (r_ctx r') -> s <> APR_SUCCESS -> progress r (stop s r').
Proof. by split. Qed.

Lemma progress_init r : m_status (r_ctx r) = MFD_INIT -> ctx_wf (r_ctx r) -> progress r (mfd_init r).
Proof.
  intros Hst [Hb Hm]. unfold mfd_init.
  assert (Hn : drop 2 (m_bdry (r_ctx r)) <> []).
  { intros Hz. apply (f_equal length) in Hz. rewrite length_drop in Hz. cbn in Hz. lia. }
  destruct (split_on_bdry _ _ _ _) as [[s o] i] eqn:Es.
  destruct (s =? APR_SUCCESS)%Z eqn:E0; [|apply Z.eqb_neq in E0; by apply progress_stop].
  apply Z.eqb_eq in E0 as ->. apply split_on_bdry_keeps in Es; [|done].
  apply (f_equal length) in Es. rewrite !length_app, length_drop in Es.
  split; [done|]. unfold measure, total, mfd_held. rewrite Hst. cbn -[Nat.mul brigade_data].
  rewrite len_app. cbn [brigade_data flat_map length]. lia.
Qed.


(** Arithmetic on what a state holds; [Hst] gives the status before. *)
Ltac held_lia Hst :=
  unfold measure, total, mfd_held; rewrite Hst; cbn -[Nat.mul brigade_data hdr_held];
  rewrite ?len_app; change (length (brigade_data [])) with 0 in *; lia.

Lemma progress_nextline r :
  m_status (r_ctx r) = MFD_NEXTLINE -> ctx_wf (r_ctx r) -> progress r (mfd_nextline r).
Proof.
  intros Hst [Hb Hm]. unfold mfd_nextline.
  destruct (split_on_bdry _ _ _ _) as [[s o] i] eqn:Es.
  destruct (s =? APR_SUCCESS)%Z eqn:E0; [|apply Z.eqb_neq in E0; by apply progress_stop].
  apply Z.eqb_eq in E0 as ->. apply split_on_bdry_keeps in Es; [|done].
  apply (f_equal length) in Es. rewrite !length_app in Es. change (length CRLF) with 2 in Es.
  cbn [negb Z.eqb]. destruct o as [|e o]; (split; [done|]); [held_lia Hst|intros _; held_lia Hst].
Qed.

Lemma progress_header r :
  m_status (r_ctx r) = MFD_HEADER -> ctx_wf (r_ctx r) -> progress r (mfd_header r).
Proof.
  intros Hst [Hb Hm]. unfold mfd_header.
  set (h := match m_info (r_ctx r) with None => _ | Some info => (info, _) end).
  assert (Hh : hdr_held h.2 <= hdr_held (m_hdr (r_ctx r))).
  { unfold h. destruct (m_info (r_ctx r)); cbn; lia. }
  destruct h as [info hp]. cbn [snd] in Hh.
  destruct (apreq_parse_headers _ _ _) as [[[[s hp'] info'] i]|] eqn:Ep; [|done].
  apply parse_headers_keeps in Ep.
  destruct (s =? APR_SUCCESS)%Z eqn:E0; [|apply Z.eqb_neq in E0].
  - split; [done|held_lia Hst].
  - destruct (s =? APR_INCOMPLETE)%Z; apply progress_stop; try done. errno_lia.
Qed.

Lemma create_context_fresh {N} ct dir limit (n : N) (c : mfd_ctx T X N) :
  create_multipart_context ct dir limit n = Ok (Some c) ->
  4 <= length (m_bdry c) /\ m_mix c = n /\ m_status c = MFD_INIT /\
  m_in c = [] /\ m_bb c = [] /\ hdr_held (m_hdr c) = 0.
Proof.
  unfold create_multipart_context. destruct (boundary_of ct) as [b| |]; try done.
  intros [= <-]. split_and!; try done. cbn. lia.
Qed.

Lemma progress_post_header r :
  m_status (r_ctx r) = MFD_POST_HEADER -> ctx_wf (r_ctx r) ->
  progress r (mfd_post_header mix brigade_limit temp_dir r).
Proof.
  intros Hst [Hb Hm]. unfold mfd_post_header.
  destruct (_ =? APR_INCOMPLETE)%Z; [apply progress_stop; [done|errno_lia]|].
  set (c := if (_ =? APR_SUCCESS)%Z then _ else _).
  assert (Hc : m_bdry c = m_bdry (r_ctx r) /\ m_mix c = m_mix (r_ctx r) /\
    m_bb c = m_bb (r_ctx r) /\ m_hdr c = m_hdr (r_ctx r) /\
    length (brigade_data (m_in c)) <= length (brigade_data (m_in (r_ctx r))) + 2).
  { unfold c. destruct (_ =? APR_SUCCESS)%Z; [|by split_and!; try lia].
    split_and!; try done. cbn [set_io m_in]. rewrite brigade_data_cons, length_app. cbn. lia. }
  destruct Hc as (Hcb & Hcm & Hcbb & Hch & Hci). clearbody c.
  assert (Hwf : ctx_wf c) by (unfold ctx_wf; by rewrite Hcb, Hcm).
  destruct (part_action_of _ _ _) as [name ct|name|name fn| |].
  - destruct (create_multipart_context ct temp_dir brigade_limit tt) as [[mc|]| |] eqn:Ec;
      destruct mix as [ops|] eqn:Em; try done;
      try (apply progress_stop; [done|errno_lia]).
    apply create_context_fresh in Ec as (Hl & _ & Hs & Hi & Ho & Hh).
    destruct (laws ops eq_refl) as [Hnew _ _].
    set (mc' := MfdCtx _ _ _ _ _ _ _ _ _). destruct (Hnew mc' (m_mix c) Hl) as [Hw' Hh'].
    assert (Hz : mfd_held (W := W) None mc' = 0).
    { unfold mc', mfd_held. cbn -[hdr_held brigade_data]. by rewrite Hi, Ho, Hh, Hs. }
    clearbody mc'.
    split; [split; [by rewrite <- Hcb in Hb|done]|].
    unfold measure, total, mfd_held. rewrite Hst. cbn -[Nat.mul brigade_data hdr_held].
    rewrite Em, Hh', Hz, Hcbb, Hch. lia.
  - split; [done|]. unfold measure, total, mfd_held. rewrite Hst.
    cbn -[Nat.mul brigade_data hdr_held]. rewrite Hcbb, Hch, Hcm. lia.
  - split; [done|]. unfold measure, total, mfd_held. rewrite Hst.
    cbn -[Nat.mul brigade_data hdr_held]. rewrite Hcbb, Hch, Hcm. lia.
  - apply progress_stop; [done|errno_lia].
  - done.
Qed.

Lemma progress_param r :
  m_status (r_ctx r) = MFD_PARAM -> ctx_wf (r_ctx r) -> progress r (mfd_param r).
Proof.
  intros Hst [Hb Hm]. unfold mfd_param.
  destruct (split_on_bdry _ _ _ _) as [[s o] i] eqn:Es.
  destruct (s =? APR_INCOMPLETE)%Z eqn:Ei; [apply Z.eqb_eq in Ei as ->; apply progress_stop; [done|errno_lia]|].
  destruct (s =? APR_SUCCESS)%Z eqn:E0; [|apply Z.eqb_neq in E0; by apply progress_stop].
  apply Z.eqb_eq in E0 as ->. cbn [negb]. apply split_on_bdry_keeps in Es.
  2: { intros Hz. rewrite Hz in Hb. cbn in Hb. lia. }
  apply (f_equal length) in Es. rewrite !length_app in Es.
  destruct (brigade_length o) as [s n]. destruct (s =? APR_SUCCESS)%Z eqn:E1;
    [|apply Z.eqb_neq in E1; by apply progress_stop]. cbn [negb].
  destruct (m_param_name _) as [name|]; [|done].
  destruct (apreq_hook_run _ _ _) as [[[s2 hs] p] ?]. destruct (s2 =? APR_SUCCESS)%Z eqn:E2;
    [|apply Z.eqb_neq in E2; by apply progress_stop].
  split; [done|held_lia Hst].
Qed.

Lemma progress_upload r :
  m_status (r_ctx r) = MFD_UPLOAD -> ctx_wf (r_ctx r) ->
  progress r (mfd_upload FILE_BUCKET_LIMIT brigade_limit r).
Proof.
  intros Hst [Hb Hm]. unfold mfd_upload.
  destruct (split_on_bdry _ _ _ _) as [[s o] i] eqn:Es.
  destruct (negb (s =? APR_SUCCESS)%Z && _) eqn:Ef.
  { apply andb_true_iff in Ef as [E0 _]. apply negb_true_iff, Z.eqb_neq in E0.
    by apply progress_stop. }
  destruct (m_upload _) as [p|]; [|done].
  destruct (apreq_hook_run _ _ _) as [[[s2 hs] p2] bb]. destruct (s2 =? APR_SUCCESS)%Z eqn:E2;
    [|apply Z.eqb_neq in E2; by apply progress_stop]. cbn [negb].
  unfold upload_concat. set (cr := apreq_brigade_concat _ _ _ _ _ _). cbn beta iota zeta.
  destruct (cr_status cr =? APR_SUCCESS)%Z eqn:E3;
    [|apply Z.eqb_neq in E3; by apply progress_stop]. cbn [negb].
  destruct (s =? APR_SUCCESS)%Z eqn:E0; [|apply progress_stop; [done|errno_lia]].
  apply Z.eqb_eq in E0 as ->. apply Z.eqb_eq in E3. apply concat_takes_all in E3. fold cr in E3.
  apply split_on_bdry_keeps in Es.
  2: { intros Hz. rewrite Hz in Hb. cbn in Hb. lia. }
  apply (f_equal length) in Es. rewrite !length_app in Es.
  split; [done|]. unfold measure, total, mfd_held. rewrite Hst.
  cbn -[Nat.mul brigade_data hdr_held]. rewrite E3. cbn [brigade_data flat_map length]. lia.
Qed.

Lemma progress_mixed r :
  m_status (r_ctx r) = MFD_MIXED -> ctx_wf (r_ctx r) -> progress r (mfd_mixed mix r).
Proof.
  intros Hst [Hb Hm]. unfold mfd_mixed. destruct mix as [ops|] eqn:Em; [|done].
  destruct (laws ops eq_refl) as [_ Hf Hr].
  specialize (Hf (r_w r) (m_mix (r_ctx r)) (r_hs r) (r_t r) (m_in (r_ctx r)) Hm).
  destruct (mix_run _ _ _ _ _ _) as [[[[[[s w] m] hs] t] i]| |] eqn:Er; [|done|done].
  apply Hr in Er as [Hm' Hd]; [|done]. cbn [obind].
  destruct (s =? APR_SUCCESS)%Z eqn:E0.
  - apply Z.eqb_eq in E0. specialize (Hd E0). split; [done|].
    unfold measure, total, mfd_held. rewrite Hst. cbn -[Nat.mul brigade_data hdr_held]. rewrite Em. lia.
  - apply Z.eqb_neq in E0. by destruct (s =? APR_INCOMPLETE)%Z; apply progress_stop.
Qed.

Lemma progress_switch r : ctx_wf (r_ctx r) -> progress r (switch r).
Proof.
  intros Hw. unfold mfd_switch. destruct (m_status (r_ctx r)) eqn:Hst.
  - by apply progress_init.
  - by apply progress_nextline.
  - by apply progress_header.
  - by apply progress_post_header.
  - by apply progress_param.
  - by apply progress_upload.
  - by apply progress_mixed.
  - apply progress_stop; [done|errno_lia].
  - apply progress_stop; [done|errno_lia].
Qed.

(** The loop ends, and keeps what its states keep. *)
Lemma mfd_loop_ends fuel r :
  ctx_wf (r_ctx r) -> measure r < fuel ->
  match mfd_loop mix FILE_BUCKET_LIMIT brigade_limit temp_dir fuel r with
  | Ok (s, r') => ctx_wf (r_ctx r') /\ (s = APR_SUCCESS -> total r' <= total r)
  | Aborts => True
  | NoFuel => False
  end.
Proof.
  revert r. induction fuel as [|fuel IH]; intros r Hw Hf; [lia|]. cbn [mfd_loop].
  pose proof (progress_switch r Hw) as Hp.
  destruct (switch r) as [[[s|] r']| |]; try done. destruct Hp as (Hw' & Ht & Hm).
  specialize (IH r' Hw' ltac:(lia)). destruct (mfd_loop _ _ _ _ _ _) as [[s r2]| |]; try done.
  destruct IH as [Hw2 Ht2]. split; [done|]. intros Hs. specialize (Ht2 Hs). lia.
Qed.

Lemma multipart_run_ends w hs t c bb :
  ctx_wf c ->
  match multipart_run mix FILE_BUCKET_LIMIT brigade_limit temp_dir w hs t c bb with
  | Ok (s, r') => ctx_wf (r_ctx r') /\
      (s = APR_SUCCESS -> total r' <= length (brigade_data (default [] bb)) + held c)
  | Aborts => True
  | NoFuel => False
  end.
Proof.
  intros Hw. unfold multipart_run. destruct (parser_status_check _ _ _) as [s|].
  { split; [done|]. intros _. exact (le_n _). }
  set (c' := set_io _ _ _ c).
  assert (Hh : held c' = length (brigade_data (default [] bb)) + held c).
  { unfold c', mfd_held. cbn -[brigade_data hdr_held default]. rewrite len_app. lia. }
  pose proof (mfd_loop_ends (3 * held c' + 10) (Run w hs t [] c') Hw) as Hl.
  assert (Ht : total (Run w hs t [] c') = held c') by done.
  specialize (Hl ltac:(unfold measure; rewrite Ht; pose proof (rank_le (m_status c')); cbn [r_ctx]; lia)).
  rewrite Ht, Hh in Hl. rewrite Hh. exact Hl.
Qed.

End States.

(** The parser of mixed parts, and the one that uses it. *)
Section Whole.
Context (FILE_BUCKET_LIMIT : nat).

Definition plain_ctx_wf : mfd_ctx T X unit -> Prop := ctx_wf (fun _ => True).

Definition mixed_wf (x : mixed_parser T X) : Prop :=
  match x_ctx x with Some c => plain_ctx_wf c | None => True end.

Lemma plain_run_ends limit dir (w : W) hs t c bb :
  plain_ctx_wf c ->
  match multipart_run None FILE_BUCKET_LIMIT limit dir w hs t c bb with
  | Ok (s, r') => plain_ctx_wf (r_ctx r') /\
      (s = APR_SUCCESS ->
       total None r' <= length (brigade_data (default [] bb)) + mfd_held (W := W) None c)
  | Aborts => True
  | NoFuel => False
  end.
Proof. by apply multipart_run_ends. Qed.

Lemma form_mix_laws limit dir :
  mix_laws mixed_wf (form_mix (W := W) FILE_BUCKET_LIMIT limit dir).
Proof.
  split.
  - intros mc m Hl. by split.
  - intros w x hs t i Hw. unfold mixed_wf in Hw. cbn [mix_run form_mix]. unfold mixed_run.
    destruct (x_ctx x) as [c|] eqn:Ex; [|done].
    pose proof (plain_run_ends limit dir w (drop (length hs - x_shared x) hs) t c (Some i) Hw) as Hrun.
    by destruct (multipart_run _ _ _ _ _ _ _ _ _) as [[s r]| |].
  - intros w x hs t i s w' x' hs' t' i' Hw. unfold mixed_wf in Hw. cbn [mix_run form_mix].
    unfold mixed_run. destruct (x_ctx x) as [c|] eqn:Ex; [|done].
    pose proof (plain_run_ends limit dir w (drop (length hs - x_shared x) hs) t c (Some i) Hw) as Hrun.
    cbn zeta.
    destruct (multipart_run _ _ _ _ _ _ _ _ _) as [[s0 r]| |]; cbn [obind]; try done.
    intros [= <- _ <- _ _ <-]. destruct Hrun as [Hw' Ht]. split; [done|].
    intros Hs. specialize (Ht Hs). unfold total in Ht. cbn [mix_held form_mix]. unfold mixed_held.
    cbn [x_ctx]. rewrite Ex. exact Ht.
Qed.

Lemma form_run_ends limit dir (w : W) hs t c bb :
  ctx_wf mixed_wf c ->
  match multipart_run (Some (form_mix FILE_BUCKET_LIMIT limit dir)) FILE_BUCKET_LIMIT limit dir
          w hs t c bb with
  | Ok (_, r') => ctx_wf mixed_wf (r_ctx r')
  | Aborts => True
  | NoFuel => False
  end.
Proof.
  intros Hw. pose proof (multipart_run_ends (Some (form_mix FILE_BUCKET_LIMIT limit dir)) mixed_wf
    FILE_BUCKET_LIMIT limit dir) as He.
  specialize (He ltac:(intros ops [= <-]; apply form_mix_laws) w hs t c bb Hw).
  destruct (multipart_run _ _ _ _ _ _ _ _ _) as [[s r]| |]; [by destruct He|done..].
Qed.

Abbreviation form_parser := (apreq_parser_t (X := X) (mfd_ctx T X (mixed_parser T X))).

(** The parsers that calls lead to, whatever they are given. *)
Inductive reachable : form_parser -> Prop :=
  | reach_made psr : ps_ctx psr = None -> reachable psr
  | reach_hook psr h : reachable psr -> reachable (apreq_parser_add_hook psr h).2
  | reach_call (w : W) psr t bb s w' psr' t' bb' :
      reachable psr ->
      apreq_parse_multipart FILE_BUCKET_LIMIT w psr t bb = Ok (s, w', psr', t', bb') ->
      reachable psr'.

Definition form_wf (psr : form_parser) : Prop :=
  match ps_ctx psr with Some c => ctx_wf mixed_wf c | None => True end.

Lemma parse_multipart_ends (w : W) (psr : form_parser) t bb :
  form_wf psr ->
  match apreq_parse_multipart FILE_BUCKET_LIMIT w psr t bb with
  | Ok (_, _, psr', _, _) => form_wf psr'
  | Aborts => True
  | NoFuel => False
  end.
Proof.
  unfold form_wf, apreq_parse_multipart. intros Hw.
  set (limit := ps_brigade_limit psr). set (dir := ps_temp_dir psr).
  destruct (ps_ctx psr) as [c|] eqn:Ec.
  - cbn [obind]. pose proof (form_run_ends limit dir w (ps_hook psr) t c bb Hw) as Hrun.
    by destruct (multipart_run _ _ _ _ _ _ _ _ _) as [[s r]| |].
  - set (m := Mixed _ _).
    pose proof (create_context_fresh (ps_content_type psr) dir limit m) as Hf.
    destruct (create_multipart_context _ _ _ _) as [[c|]| |] eqn:Ecr; cbn [obind]; try done.
    + destruct (Hf c eq_refl) as (Hl & Hm & _). 
      pose proof (form_run_ends limit dir w (ps_hook psr) t c bb ltac:(by split; [|rewrite Hm])) as Hrun.
      by destruct (multipart_run _ _ _ _ _ _ _ _ _) as [[s r]| |].
    + by rewrite Ec.
    + unfold create_multipart_context in Ecr. by destruct (boundary_of _).
Qed.

Lemma reachable_wf psr : reachable psr -> form_wf psr.
Proof.
  induction 1 as [psr Hc|psr h _ IH|w psr t bb s w' psr' t' bb' _ IH Hc]; unfold form_wf.
  - by rewrite Hc.
  - exact IH.
  - pose proof (parse_multipart_ends w psr t bb IH) as He. by rewrite Hc in He.
Qed.

(** C7: the multipart parser ends on every call: whatever the brigades hold, however
    it was called before, and whatever its hooks do. *)
Theorem multipart_terminates (w : W) (psr : form_parser) (t : apr_table apreq_param_t)
    (bb : option brigade) :
  reachable psr -> apreq_parse_multipart FILE_BUCKET_LIMIT w psr t bb <> NoFuel.
Proof.
  intros Hr Hn. pose proof (parse_multipart_ends w psr t bb (reachable_wf psr Hr)) as He.
  by rewrite Hn in He.
Qed.

End Whole.
End Termination.

(** ** Witnesses *)

Lemma multipart_terminates_witness :
  apreq_parse_multipart (T := list_table) 10 tt
    (apreq_parser_make (X := unit) (str "multipart/form-data; boundary=B") apreq_parse_multipart_f 0 None [] None)
    [] (Some [BData (str "--B"); BFlush; BError APR_EOF; BEos]) <> NoFuel.
Proof. apply multipart_terminates. by apply reach_made. Defined.
