(* ===== verification/FormData.v ===== *)
(** * Forms sent as [multipart/form-data]

    The text of such a form, and the proof that the multipart parser reads its
    fields and files back, however the text is cut into buckets and brigades. *)
From S2P Require Import Prelude Apr Url Util Brigade Param Parser Header Boundary Multipart.

(** A part: its header lines, the rest of the empty line, its data. *)
Record part := Part { pt_lines : list hdr_line; pt_fin : bytes; pt_data : bytes }.

(** The boundary as parsers keep it. *)
Definition full_bdry (b : bytes) : bytes := CRLF ++ str "--" ++ b.

Section Form.
Context {E : AprErrno} {T : AprTable}.

Definition pt_info (p : part) : apr_table apreq_param_t := add_lines apr_table_make (pt_lines p).
Definition pt_action (p : part) : part_action := part_action_of true (pt_info p) None.

(** A part without its first line end, with the boundary after it. *)
Definition part_block (b : bytes) (p : part) (after : bytes) : bytes :=
  block_text (pt_lines p) (pt_fin p) (pt_data p ++ full_bdry b ++ after).

(** What follows a boundary, up to the end of the body. *)
Fixpoint parts_text (b : bytes) (ps : list part) (epilogue : bytes) : bytes :=
  match ps with
  | [] => str "--" ++ CRLF ++ epilogue
  | p :: ps => CRLF ++ part_block b p (parts_text b ps epilogue)
  end.

Definition form_text (b : bytes) (ps : list part) (epilogue : bytes) : bytes :=
  str "--" ++ b ++ parts_text b ps epilogue.

(** A part the parser takes: unfolded header lines that make it a field or a
    file, and data that neither holds the boundary nor begins like one. *)
Definition pt_ok (b : bytes) (p : part) : bool :=
  forallb hl_ok (pt_lines p) && fin_ok (pt_fin p) &&
  bool_decide (split_text (full_bdry b) (pt_data p) = None) &&
  negb (bool_decide (take (2 + length b) (pt_data p ++ full_bdry b) = str "--" ++ b)) &&
  match pt_action p with PartParam (Some _) | PartUpload _ _ => true | _ => false end.

(** The table entry a part gives: a field's data is the value; a file's name is
    the value, and its data is the upload. *)
Definition part_gives (p : part) (e : bytes * apreq_param_t) : Prop :=
  e.1 = cstr (p_name e.2) /\ p_info e.2 = Some (info_values (pt_info p)) /\
  apreq_param_is_tainted e.2 = 1%Z /\
  match pt_action p with
  | PartParam (Some name) => p_name e.2 = cstr name /\ p_data e.2 = pt_data p /\ p_upload e.2 = None
  | PartUpload name filename => p_name e.2 = name /\ p_data e.2 = filename /\
      exists bb, p_upload e.2 = Some bb /\ brigade_data bb = pt_data p
  | _ => False
  end.

End Form.

(** ** The states on the way through a form *)

Section Facts.
Context {E : AprErrno} {T : AprTable} {X : Type} {XP : AprXml X} {H : HookEnv X}
        {W : Type} {F : AprFile W} {SM : AprStrmatch} {M : Type}
        (ops : mix_ops T X W M) (FILE_BUCKET_LIMIT brigade_limit : nat) (temp_dir : option bytes)
        (b : bytes).
Context (Hlimit : 0 < FILE_BUCKET_LIMIT) (Hos : os_reliable (W := W)) (Hb : x0d ∉ b).
Abbreviation run := (mfd_run T X W M).
Abbreviation cleans := (plains (ok := clean)).
Abbreviation switch := (mfd_switch (Some ops) FILE_BUCKET_LIMIT brigade_limit temp_dir).
Abbreviation bdry := (full_bdry b).

Lemma full_bdry_ne : bdry <> [].
Proof. done. Qed.

Lemma full_bdry_no_recur : no_recur bdry.
Proof. unfold no_recur. cbn. rewrite !elem_of_cons. by intros [?|[?|[?|?]]]. Qed.

Lemma crlf_no_recur : no_recur CRLF.
Proof. cbn. by rewrite elem_of_cons, elem_of_nil; intros [|]. Qed.

(** The data before the next boundary, of which [gone] has moved on. *)
Definition data_left (p : part) (gone : bytes) (text after : bytes) : Prop :=
  exists body, gone ++ body = pt_data p /\ split_text bdry text = Some (body, after).

(** What the parser's state is while [ps] remain (the first one is that which is
    being read), [y] still to come. *)
Definition at_state (y : bytes) (ps : list part) (epi : bytes) (r : run) : Prop :=
  let c := r_ctx r in
  let text := brigade_data (m_in c) ++ y in
  r_hs r = [] /\ r_bb r = [] /\ m_bdry c = bdry /\ cleans (m_in c) /\ ps_hook (m_hdr c) = [] /\
  match m_status c with
  | MFD_INIT => m_bb c = [] /\ text = form_text b ps epi
  | MFD_NEXTLINE =>
      solid (m_bb c) /\
      exists before rest, split_text CRLF text = Some (before, rest) /\
      match ps with
      | p :: ps => m_bb c = [] /\ before = [] /\ rest = part_block b p (parts_text b ps epi)
      | [] => brigade_data (m_bb c) ++ before = str "--" /\ rest = epi
      end
  | MFD_HEADER =>
      m_bb c = [] /\
      match ps with
      | [] => False
      | p :: ps => exists hs1 hs2 held, pt_lines p = hs1 ++ hs2 /\
          match m_info c with
          | None => hs1 = [] /\ held = []
          | Some info => info = add_lines apr_table_make hs1 /\
              hdr_pending (ok := clean) (m_hdr c) held
          end /\
          held ++ text = block_text hs2 (pt_fin p) (pt_data p ++ bdry ++ parts_text b ps epi)
      end
  | MFD_POST_HEADER =>
      m_bb c = [] /\
      match ps with
      | [] => False
      | p :: ps => m_info c = Some (pt_info p) /\ text = pt_data p ++ bdry ++ parts_text b ps epi
      end
  | MFD_PARAM =>
      match ps with
      | [] => False
      | p :: ps => m_info c = Some (pt_info p) /\ cleans (m_bb c) /\
          (exists name, pt_action p = PartParam (Some name) /\ m_param_name c = Some name) /\
          data_left p (brigade_data (m_bb c)) text (parts_text b ps epi)
      end
  | MFD_UPLOAD =>
      m_bb c = [] /\
      match ps with
      | [] => False
      | p :: ps => exists name filename bb, pt_action p = PartUpload name filename /\
          m_upload c = Some (set_upload (new_upload (Some (pt_info p)) name filename) bb) /\
          upload_inv FILE_BUCKET_LIMIT bb /\
          data_left p (brigade_data bb) text (parts_text b ps epi)
      end
  | _ => False
  end.

(** The result of a step: the next state, with the entry of a part that is
    complete; or a return, when more data is needed or the form is complete. *)
Definition step_ok (y : bytes) (ps : list part) (epi : bytes) (t : apr_table apreq_param_t)
    (x : presult (option Z * run)) : Prop :=
  match x with
  | Ok (None, r) =>
      at_state y ps epi r /\ r_t r = t \/
      exists p ps' param, ps = p :: ps' /\ at_state y ps' epi r /\
        r_t r = apreq_value_table_add param t /\ part_gives p (cstr (p_name param), param)
  | Ok (Some s, r) => r_t r = t /\
      ((s = APR_INCOMPLETE /\ y <> [] /\ at_state y ps epi r) \/
       (s = APR_SUCCESS /\ ps = [] /\ brigade_data (r_bb r) ++ y = epi /\
        m_status (r_ctx r) = MFD_COMPLETE))
  | _ => False
  end.

(** A state after a boundary. *)
Lemma parts_text_split ps epi text :
  text = parts_text b ps epi ->
  exists before rest, split_text CRLF text = Some (before, rest) /\
    match ps with
    | p :: ps => before = [] /\ rest = part_block b p (parts_text b ps epi)
    | [] => before = str "--" /\ rest = epi
    end.
Proof.
  intros ->. destruct ps as [|p ps]; cbn [parts_text].
  - exists (str "--"), epi. split; [|done]. by apply split_text_after; [apply crlf_no_recur|].
  - exists [], (part_block b p (parts_text b ps epi)). split; [|done]. apply split_text_at.
Qed.

Lemma at_nextline y ps epi r :
  r_hs r = [] -> r_bb r = [] -> m_status (r_ctx r) = MFD_NEXTLINE -> m_bb (r_ctx r) = [] ->
  m_bdry (r_ctx r) = bdry -> cleans (m_in (r_ctx r)) -> ps_hook (m_hdr (r_ctx r)) = [] ->
  brigade_data (m_in (r_ctx r)) ++ y = parts_text b ps epi -> at_state y ps epi r.
Proof.
  intros Hk Hbb Hst Ho Hbd Hi Hhk Hd. unfold at_state. rewrite Hst, Ho.
  destruct (parts_text_split ps epi _ Hd) as (before & rest & Hs & Hb2).
  split_and!; try done; [constructor|]. exists before, rest. split; [done|].
  destruct ps; destruct Hb2 as [-> ->]; done.
Qed.

Ltac at_state_tac :=
  unfold at_state;
  cbn [r_ctx r_hs r_bb r_t set_r_ctx set_io set_status set_info set_name set_m_upload m_status m_in
       m_bb m_bdry m_hdr m_info m_param_name m_upload app];
  split_and!; try done.

Lemma step_init y ps epi r :
  m_status (r_ctx r) = MFD_INIT -> at_state y ps epi r -> step_ok y ps epi (r_t r) (mfd_init r).
Proof.
  intros Hst (Hk & Hbb & Hbd & Hin & Hhk & Hs). rewrite Hst in Hs. destruct Hs as [Ho Ht].
  unfold mfd_init. rewrite Ho, Hbd. change (drop 2 bdry) with (str "--" ++ b).
  assert (Hsp : split_text (str "--" ++ b) (brigade_data (m_in (r_ctx r)) ++ y) =
    Some ([], parts_text b ps epi)).
  { rewrite Ht. unfold form_text. rewrite app_assoc. apply split_text_at. }
  pose proof (split_on_bdry_works (ok := clean) (str "--" ++ b) ltac:(done) false [] _ _ _ _
    (or_intror eq_refl) Hin Hsp) as Hr.
  destruct (split_on_bdry _ _ _ _) as [[s o] i].
  destruct Hr as (m & -> & _ & Hsol & Hi & [(-> & Hm & Hd)|(-> & Hy & b2 & Hm & Hs)]).
  - rewrite Z.eqb_refl. apply (solid_nil _ Hsol) in Hm as ->. left. split; [|done].
    rewrite Hk, Hbb. by apply at_nextline.
  - symmetry in Hm. apply app_nil in Hm as [Hm ->]. apply (solid_nil _ Hsol) in Hm as ->.
    autorewrite with errno. split; [done|left]. split_and!; [done..|].
    at_state_tac. apply split_text_Some in Hs. by rewrite Hs.
Qed.


Lemma step_nextline y ps epi r :
  m_status (r_ctx r) = MFD_NEXTLINE -> at_state y ps epi r ->
  step_ok y ps epi (r_t r) (mfd_nextline r).
Proof.
  intros Hst (Hk & Hbb & Hbd & Hin & Hhk & Hs). rewrite Hst in Hs.
  destruct Hs as (Hsol & before & rest & Hsp & Hps). unfold mfd_nextline.
  pose proof (split_on_bdry_works (ok := clean) CRLF ltac:(done) false (m_bb (r_ctx r)) _ _ _ _
    (or_introl crlf_no_recur) Hin Hsp) as Hr.
  destruct (split_on_bdry _ _ _ _) as [[s o] i].
  destruct Hr as (m & -> & _ & Hms & Hi & Hr).
  destruct ps as [|p ps].
  - destruct Hps as [Hd ->].
    destruct Hr as [(-> & <- & Hd2)|(-> & Hy & b2 & -> & Hs2)]; autorewrite with errno; cbn [negb].
    + rewrite <- brigade_data_app in Hd. destruct (m_bb (r_ctx r) ++ m) eqn:El; [done|].
      split; [done|right]. split_and!; try done. cbn [r_bb]. by rewrite Hbb.
    + split; [done|left]. split_and!; [done..|]. at_state_tac; [by apply Forall_app|].
      exists b2, epi. split; [done|]. by rewrite brigade_data_app, <- app_assoc.
  - destruct Hps as (-> & -> & ->). cbn [app] in *.
    destruct Hr as [(-> & Hm & Hd2)|(-> & Hy & b2 & Hm & Hs2)]; autorewrite with errno; cbn [negb].
    + apply (solid_nil _ Hms) in Hm as ->. left. split; [|done]. at_state_tac.
      by exists [], (pt_lines p), [].
    + symmetry in Hm. apply app_nil in Hm as [Hm ->]. apply (solid_nil _ Hms) in Hm as ->.
      split; [done|left]. split_and!; [done..|]. at_state_tac.
      by exists [], (part_block b p (parts_text b ps epi)).
Qed.

Lemma add_lines_app t hs1 hs2 : add_lines t (hs1 ++ hs2) = add_lines (add_lines t hs1) hs2.
Proof. apply fold_left_app. Qed.

Lemma step_header y ps epi r :
  m_status (r_ctx r) = MFD_HEADER -> at_state y ps epi r -> forallb (pt_ok b) ps = true ->
  step_ok y ps epi (r_t r) (mfd_header r).
Proof.
  intros Hst (Hk & Hbb & Hbd & Hin & Hhk & Hs) Hps. rewrite Hst in Hs. destruct Hs as [Ho Hs].
  destruct ps as [|p ps]; [done|]. destruct Hs as (hs1 & hs2 & held & Hl & Hi & Ht).
  cbn [forallb] in Hps. apply andb_true_iff in Hps as [Hp _]. unfold pt_ok in Hp.
  rewrite !andb_true_iff in Hp. destruct Hp as [[[[Hlok Hfin] _] _] _].
  rewrite Hl, forallb_app, andb_true_iff in Hlok. destruct Hlok as [_ Hlok].
  unfold mfd_header. set (h := match m_info (r_ctx r) with None => _ | Some info => (info, _) end).
  assert (Hh : h.1 = add_lines apr_table_make hs1 /\ hdr_pending (ok := clean) h.2 held).
  { unfold h. destruct (m_info (r_ctx r)) as [info|]; [by destruct Hi as [-> ?]|].
    destruct Hi as [-> ->]. split; [done|]. unfold hdr_pending. cbn. by rewrite Hhk. }
  destruct h as [info hp]. cbn [fst snd] in Hh. destruct Hh as [-> Hpd].
  destruct (parse_headers_block hs2 (pt_fin p) _ hp held (add_lines apr_table_make hs1)
    (m_in (r_ctx r)) y Hpd Hlok Hfin Hin Ht) as (s & hp' & t' & bb' & -> & Hhk' & Hr).
  destruct Hr as [(-> & Hy & -> & ha & hb & held' & -> & -> & Hpd' & Hd)|(-> & -> & Hcl & Hd)];
    autorewrite with errno.
  - split; [done|left]. split_and!; [done..|]. at_state_tac.
    exists (hs1 ++ ha), hb, held'. rewrite <- app_assoc, add_lines_app. by split_and!.
  - left. split; [|done]. at_state_tac. unfold pt_info. by rewrite Hl, add_lines_app.
Qed.

Lemma general_not_incomplete : (APREQ_ERROR_GENERAL =? APR_INCOMPLETE)%Z = false.
Proof. apply Z.eqb_neq. errno_lia. Qed.
Lemma general_not_success : (APREQ_ERROR_GENERAL =? APR_SUCCESS)%Z = false.
Proof. apply Z.eqb_neq. errno_lia. Qed.

(** All data of the part is left. *)
Lemma data_left_all p after :
  split_text bdry (pt_data p) = None -> data_left p [] (pt_data p ++ bdry ++ after) after.
Proof.
  intros Hn. exists (pt_data p). split; [done|]. by apply split_text_after; [apply full_bdry_no_recur|].
Qed.

Lemma step_post_header y ps epi r :
  m_status (r_ctx r) = MFD_POST_HEADER -> at_state y ps epi r -> forallb (pt_ok b) ps = true ->
  step_ok y ps epi (r_t r) (mfd_post_header (Some ops) brigade_limit temp_dir r).
Proof.
  intros Hst (Hk & Hbb & Hbd & Hin & Hhk & Hs) Hps. rewrite Hst in Hs. destruct Hs as [Ho Hs].
  destruct ps as [|p ps]; [done|]. destruct Hs as (Hi & Ht).
  cbn [forallb] in Hps. apply andb_true_iff in Hps as [Hp _]. unfold pt_ok in Hp.
  rewrite !andb_true_iff, negb_true_iff, bool_decide_eq_true, bool_decide_eq_false in Hp.
  destruct Hp as [[[_ Hnb] Hns] Hact].
  unfold mfd_post_header. rewrite Hbd. change (drop 2 bdry) with (str "--" ++ b).
  destruct (start_string_no (ok := clean) (m_in (r_ctx r)) (str "--" ++ b) y Hin) as [Hg|[Hg Hy]].
  { rewrite Ht, !length_app. cbn. lia. }
  { rewrite Ht. change (length (str "--" ++ b)) with (2 + length b).
    rewrite app_assoc, take_app_le by (rewrite length_app; cbn; lia). done. }
  2: { rewrite Hg, Z.eqb_refl. split; [done|left]. split_and!; [done..|].
       unfold at_state. rewrite Hst. by split_and!. }
  rewrite Hg, general_not_incomplete, general_not_success, Hi.
  rewrite bool_decide_eq_true_2 by by exists ops. cbn [default from_option id].
  change (part_action_of true (pt_info p) (m_param_name (r_ctx r))) with (pt_action p).
  destruct (pt_action p) as [|[name|]|name filename| |] eqn:Ea; try done.
  - left. split; [|done]. at_state_tac; [by rewrite Ho|by exists name|]. rewrite Ht, Ho. by apply data_left_all.
  - left. split; [|done]. at_state_tac. exists name, filename, []. rewrite Ht.
    split_and!; try done. by apply data_left_all.
Qed.


Lemma clean_plain_not_spool bb :
  cleans bb -> forallb plain bb = true /\ forallb not_spool bb = true.
Proof.
  unfold plains. induction bb as [|e bb IH]; [done|]. cbn [forallb]. unfold clean at 1.
  rewrite !andb_true_iff. intros [[He Hn] Hbb]. destruct (IH Hbb). by split_and!.
Qed.

Lemma brigade_length_clean bb : cleans bb -> brigade_length bb = (APR_SUCCESS, length (brigade_data bb)).
Proof.
  induction bb as [|e bb IH]; intros Hp; [done|]. apply plains_cons in Hp as [He Hp].
  cbn [brigade_length]. rewrite brigade_data_cons, (IH Hp), length_app.
  destruct (kind_read e He) as [_ Hr]. by destruct (apr_bucket_read e) as [s d]; injection Hr as ->.
Qed.

Lemma tainted_is p : apreq_param_is_tainted (apreq_param_tainted_on p) = 1%Z.
Proof. exact (flags_get_on TAINTED (p_flags p)). Qed.

Lemma part_hyps p ps : forallb (pt_ok b) (p :: ps) = true -> forallb (pt_ok b) ps = true.
Proof. cbn. by intros [_ ?]%andb_true_iff. Qed.

Lemma step_param y ps epi r :
  m_status (r_ctx r) = MFD_PARAM -> at_state y ps epi r -> step_ok y ps epi (r_t r) (mfd_param r).
Proof.
  intros Hst (Hk & Hbb & Hbd & Hin & Hhk & Hs). rewrite Hst in Hs.
  destruct ps as [|p ps]; [done|]. destruct Hs as (Hi & Hcb & (name & Ha & Hn) & (body & Hd & Hsp)).
  unfold mfd_param. rewrite Hbd.
  pose proof (split_on_bdry_works (ok := clean) bdry full_bdry_ne true (m_bb (r_ctx r)) _ _ _ _
    (or_introl full_bdry_no_recur) Hin Hsp) as Hr.
  destruct (split_on_bdry _ _ _ _) as [[s o] i].
  destruct Hr as (m & -> & Hm & Hms & Hci & Hr).
  assert (Hout : cleans (m_bb (r_ctx r) ++ m)) by by apply plains_app.
  destruct Hr as [(-> & <- & Hd2)|(-> & Hy & b2 & -> & Hs2)]; autorewrite with errno; cbn [negb].
  - rewrite (brigade_length_clean _ Hout), Z.eqb_refl. cbn [negb m_param_name set_io r_hs set_r_ctx r_t r_w r_bb].
    rewrite Hn, Hk. cbn [apreq_hook_run]. rewrite Z.eqb_refl. cbn [negb].
    rewrite <- brigade_data_app in Hd. rewrite Hd, firstn_all. right.
    eexists p, ps, _. split; [done|]. split; [|split; [reflexivity|]].
    + by apply at_nextline.
    + unfold part_gives. cbn [fst snd]. rewrite Ha, tainted_is. split_and!; try done. cbn. by rewrite Hi.
  - split; [done|left]. split_and!; [done..|]. at_state_tac; [by exists name|].
    exists b2. by rewrite brigade_data_app, <- app_assoc.
Qed.

Lemma remove_eos_clean bb : cleans bb -> remove_eos (bb ++ [BEos]) = bb.
Proof.
  unfold remove_eos. induction bb as [|e bb IH]; intros Hp; [done|].
  apply plains_cons in Hp as [He Hp]. cbn [app List.filter].
  destruct (kind_read e He) as [-> _]. cbn [negb]. by rewrite IH.
Qed.

Lemma step_upload y ps epi r :
  m_status (r_ctx r) = MFD_UPLOAD -> at_state y ps epi r ->
  step_ok y ps epi (r_t r) (mfd_upload FILE_BUCKET_LIMIT brigade_limit r).
Proof.
  intros Hst (Hk & Hbb & Hbd & Hin & Hhk & Hs). rewrite Hst in Hs. destruct Hs as [Ho Hs].
  destruct ps as [|p ps]; [done|].
  destruct Hs as (name & fn & bb & Ha & Hu & Hup & (body & Hd & Hsp)).
  unfold mfd_upload. rewrite Hbd, Ho.
  pose proof (split_on_bdry_works (ok := clean) bdry full_bdry_ne true [] _ _ _ _
    (or_introl full_bdry_no_recur) Hin Hsp) as Hr.
  destruct (split_on_bdry _ _ _ _) as [[s o] i].
  destruct Hr as (m & -> & Hm & Hms & Hci & Hr). cbn [app].
  destruct (clean_plain_not_spool m Hm) as [Hmp Hmn].
  destruct (concat_bb_works FILE_BUCKET_LIMIT (r_w r) brigade_limit bb m Hos Hlimit Hup Hmp Hmn)
    as (Hc1 & Hc2 & Hc3 & Hc4).
  destruct Hr as [(-> & <- & Hd2)|(-> & Hy & b2 & -> & Hs2)]; autorewrite with errno;
    cbn [negb andb m_upload set_io r_hs set_r_ctx r_t r_w r_bb]; rewrite Hu, Hk; cbn [apreq_hook_run default from_option id];
    rewrite ?(remove_eos_clean m Hm), ?Z.eqb_refl; cbn [negb]; unfold upload_concat;
    cbn [set_upload p_upload default from_option id r_w]; cbn beta iota zeta;
    rewrite Hc1, ?Z.eqb_refl; cbn [negb]; rewrite ?Hc2.
  - right. eexists p, ps, _. split; [done|]. split; [|split; [reflexivity|]].
    + by apply at_nextline.
    + unfold part_gives. rewrite Ha. split_and!; try done. eexists. split; [reflexivity|].
      by rewrite Hc4.
  - split; [done|left]. split_and!; [done..|]. at_state_tac.
    eexists name, fn, _. split_and!; [done|reflexivity|done|]. exists b2. by rewrite Hc4, <- app_assoc.
Qed.

Lemma step_switch y ps epi r :
  at_state y ps epi r -> forallb (pt_ok b) ps = true -> step_ok y ps epi (r_t r) (switch r).
Proof.
  intros Ha Hps. unfold mfd_switch. destruct (m_status (r_ctx r)) eqn:Hst.
  - by apply step_init.
  - by apply step_nextline.
  - by apply step_header.
  - by apply step_post_header.
  - by apply step_param.
  - by apply step_upload.
  - destruct Ha as (_ & _ & _ & _ & _ & Hs). by rewrite Hst in Hs.
  - destruct Ha as (_ & _ & _ & _ & _ & Hs). by rewrite Hst in Hs.
  - destruct Ha as (_ & _ & _ & _ & _ & Hs). by rewrite Hst in Hs.
Qed.

(** What a whole call gives: some parts are complete. *)
Definition call_ok (y : bytes) (ps : list part) (epi : bytes) (t : apr_table apreq_param_t)
    (x : Z * run) : Prop :=
  exists ps1 ps2 es, ps = ps1 ++ ps2 /\ Forall2 part_gives ps1 es /\
    apr_table_elts (r_t x.2) = apr_table_elts t ++ es /\
    ((x.1 = APR_INCOMPLETE /\ y <> [] /\ at_state y ps2 epi x.2) \/
     (x.1 = APR_SUCCESS /\ ps2 = [] /\ brigade_data (r_bb x.2) ++ y = epi /\
      m_status (r_ctx x.2) = MFD_COMPLETE)).

Lemma loop_call y ps epi fuel r :
  at_state y ps epi r -> forallb (pt_ok b) ps = true ->
  match mfd_loop (Some ops) FILE_BUCKET_LIMIT brigade_limit temp_dir fuel r with
  | Ok x => call_ok y ps epi (r_t r) x
  | Aborts => False
  | NoFuel => True
  end.
Proof.
  revert ps r. induction fuel as [|fuel IH]; intros ps r Ha Hps; [done|]. cbn [mfd_loop].
  pose proof (step_switch y ps epi r Ha Hps) as Hs.
  destruct (switch r) as [[[s|] r']| |]; try done; cbn [step_ok] in Hs.
  - destruct Hs as [Ht Hs]. exists [], ps, []. cbn [fst snd]. rewrite Ht, app_nil_r.
    split_and!; done.
  - destruct Hs as [[Ha' <-]|(p & ps' & param & -> & Ha' & Ht & Hg)].
    + by apply IH.
    + specialize (IH ps' r' Ha' (part_hyps _ _ Hps)).
      destruct (mfd_loop _ _ _ _ fuel r') as [x| |]; try done.
      destruct IH as (ps1 & ps2 & es & -> & Hf & He & Hr).
      exists (p :: ps1), ps2, ((cstr (p_name param), param) :: es).
      split_and!; [done|by constructor| |done]. rewrite He, Ht.
      unfold apreq_value_table_add. by rewrite elts_add, <- app_assoc.
Qed.

End Facts.

(** ** Calls *)

Section Calls.
Context {E : AprErrno} {T : AprTable} {X : Type} {XP : AprXml X} {H : HookEnv X}
        {W : Type} {F : AprFile W} {SM : AprStrmatch} (FILE_BUCKET_LIMIT : nat).
Abbreviation form_ctx := (mfd_ctx T X (mixed_parser T X)).
Abbreviation form_parser := (apreq_parser_t (X := X) form_ctx).
Abbreviation parse := (apreq_parse_multipart (W := W) FILE_BUCKET_LIMIT).

(** The brigades of a body in turn, until a call says more than that it needs
    more: the status, the system, the parser, the table, and what was not used. *)
Fixpoint feed_multipart (w : W) (psr : form_parser) (t : apr_table apreq_param_t)
    (bbs : list brigade) : presult (Z * W * form_parser * apr_table apreq_param_t * brigade) :=
  match bbs with
  | [] => Ok (APR_INCOMPLETE, w, psr, t, [])
  | bb :: bbs =>
      obind (fun '(s, w, psr, t, bb) =>
        if (s =? APR_INCOMPLETE)%Z then feed_multipart w psr t bbs
        else Ok (s, w, psr, t, default [] bb ++ concat bbs))
      (parse w psr t (Some bb))
  end.

Section Facts.
Context (b : bytes) (Hlimit : 0 < FILE_BUCKET_LIMIT) (Hos : os_reliable (W := W)) (Hb : x0d ∉ b).
Abbreviation at_form := (at_state (X := X) (W := W) (M := mixed_parser T X) FILE_BUCKET_LIMIT b).

Lemma at_state_feed y ps epi w t c bb :
  at_form (brigade_data bb ++ y) ps epi (Run w [] t [] c) -> plains (ok := clean) bb ->
  at_form y ps epi (Run w [] t [] (set_io (m_in c ++ bb) (m_bb c) (m_status c) c)).
Proof.
  unfold at_state.
  cbn [r_hs r_bb r_ctx m_bdry m_in m_bb m_status m_hdr m_info m_param_name m_upload set_io].
  rewrite app_assoc, <- brigade_data_app. intros (? & ? & ? & Hi & Hh & Hs) Hbb.
  split_and!; try done. by apply plains_app.
Qed.

Lemma at_state_run y ps epi r w t :
  at_form y ps epi r -> at_form y ps epi (Run w [] t [] (r_ctx r)).
Proof. intros (? & ? & Hrest). split; [done|split; [done|exact Hrest]]. Qed.

(** A parser in the middle of a form whose last parts are [ps]. *)
Definition form_pending (psr : form_parser) (w : W) (t : apr_table apreq_param_t) (y : bytes)
    (ps : list part) (epi : bytes) : Prop :=
  ps_hook psr = [] /\ exists c, ps_ctx psr = Some c /\ ctx_wf mixed_wf c /\
    at_form y ps epi (Run w [] t [] c).

(** A parser that has seen the last boundary. *)
Definition form_complete (psr : form_parser) : Prop :=
  exists c, ps_ctx psr = Some c /\ m_status c = MFD_COMPLETE.

Lemma parse_pending psr w t bb y ps epi :
  form_pending psr w t (brigade_data bb ++ y) ps epi -> plains (ok := clean) bb ->
  forallb (pt_ok b) ps = true ->
  exists s w' psr' t' bb' ps1 ps2 es,
    parse w psr t (Some bb) = Ok (s, w', psr', t', Some bb') /\
    ps = ps1 ++ ps2 /\ Forall2 part_gives ps1 es /\
    apr_table_elts t' = apr_table_elts t ++ es /\
    ((s = APR_INCOMPLETE /\ y <> [] /\ bb' = [] /\ form_pending psr' w' t' y ps2 epi) \/
     (s = APR_SUCCESS /\ ps2 = [] /\ brigade_data bb' ++ y = epi /\ form_complete psr')).
Proof.
  intros (Hk & c & Hc & Hw & Ha) Hbb Hps. unfold apreq_parse_multipart. rewrite Hc. cbn [obind].
  set (limit := ps_brigade_limit psr). set (dir := ps_temp_dir psr). rewrite Hk.
  pose proof (form_run_ends FILE_BUCKET_LIMIT limit dir w [] t c (Some bb) Hw) as Hends.
  apply at_state_feed in Ha as Ha2; [|done]. unfold multipart_run in *.
  assert (parser_status_check (match m_status c with MFD_ERROR => true | _ => false end)
    (match m_status c with MFD_COMPLETE => true | _ => false end) false = None) as Hchk.
  { destruct Ha as (_ & _ & _ & _ & _ & Hs). cbn [r_ctx] in Hs. by destruct (m_status c). }
  rewrite Hchk in *. cbn [default from_option id] in *.
  set (c' := set_io _ _ _ _) in *. set (fuel := 3 * _ + 10) in *.
  pose proof (loop_call (form_mix FILE_BUCKET_LIMIT limit dir) FILE_BUCKET_LIMIT limit dir b Hlimit
    Hos Hb y ps epi fuel (Run w [] t [] c') Ha2 Hps) as Hl.
  destruct (mfd_loop _ _ _ _ _ _) as [[s r']| |]; [|done|done]. cbn [obind].
  destruct Hl as (ps1 & ps2 & es & -> & Hf & He & Hr). cbn [fst snd r_t] in *.
  exists s, (r_w r'), (set_ctx (set_hook psr (r_hs r')) (r_ctx r')), (r_t r'), (r_bb r'), ps1, ps2, es.
  split_and!; try done. destruct Hr as [(-> & Hy & Ha')|(-> & -> & Hd & Hst)]; [left|right].
  2: { split_and!; try done. by exists (r_ctx r'). }
  split_and!; [done..|by destruct Ha' as (_ & -> & _)|]. split; [by destruct Ha' as [-> _]|].
  exists (r_ctx r'). split_and!; try done. by eapply at_state_run.
Qed.

Lemma feed_pending psr w t bbs ps epi :
  form_pending psr w t (brigade_data (concat bbs)) ps epi ->
  forallb (forallb clean) bbs = true -> forallb (pt_ok b) ps = true -> bbs <> [] ->
  exists w' psr' t' rest es, feed_multipart w psr t bbs = Ok (APR_SUCCESS, w', psr', t', rest) /\
    apr_table_elts t' = apr_table_elts t ++ es /\ Forall2 part_gives ps es /\
    brigade_data rest = epi.
Proof.
  revert psr w t ps. induction bbs as [|bb bbs IH]; intros psr w t ps Hpd Hcl Hps Hne; [done|].
  clear Hne. cbn [forallb] in Hcl. apply andb_true_iff in Hcl as [Hbb Hcl]. cbn [concat] in Hpd.
  rewrite brigade_data_app in Hpd.
  destruct (parse_pending psr w t bb _ ps epi Hpd Hbb Hps)
    as (s & w' & psr' & t' & bb' & ps1 & ps2 & es & Hr & -> & Hf & He & Hs).
  cbn [feed_multipart]. rewrite Hr. cbn [obind].
  rewrite forallb_app, andb_true_iff in Hps. destruct Hps as [_ Hps].
  destruct Hs as [(-> & Hy & _ & Hpd')|(-> & -> & Hd & _)]; autorewrite with errno.
  - destruct (IH psr' w' t' ps2 Hpd' Hcl Hps) as (w2 & psr2 & t2 & rest & es2 & -> & He2 & Hf2 & Hd2);
      [by intros ->|].
    exists w2, psr2, t2, rest, (es ++ es2). rewrite He2, He, <- app_assoc.
    split_and!; try done. by apply Forall2_app.
  - eexists _, _, _, _, es. split; [reflexivity|]. rewrite app_nil_r, brigade_data_app.
    by split_and!.
Qed.

(** The context a new parser makes. *)
Definition first_ctx (psr : form_parser) : form_ctx :=
  MfdCtx None [] [] (apreq_parser_make [] apreq_parse_headers_f (ps_brigade_limit psr)
    (ps_temp_dir psr) [] None) (Mixed (length (ps_hook psr)) None) (full_bdry b) MFD_INIT None None.

Lemma first_parse psr w t bb :
  ps_ctx psr = None -> boundary_of (ps_content_type psr) = Attr b ->
  parse w psr t (Some bb) = parse w (set_ctx psr (first_ctx psr)) t (Some bb).
Proof.
  intros Hc Hct. unfold apreq_parse_multipart. rewrite Hc. unfold create_multipart_context.
  by rewrite Hct.
Qed.

(** A new parser is one that awaits a whole form. *)
Lemma first_pending psr w t ps epi :
  ps_hook psr = [] -> form_pending (set_ctx psr (first_ctx psr)) w t (form_text b ps epi) ps epi.
Proof.
  clear Hlimit Hos Hb. intros Hk. split; [done|]. exists (first_ctx psr). split; [done|].
  split; [split; [cbn; lia|done]|]. unfold at_state. cbn [r_hs r_bb r_ctx first_ctx].
  split_and!; done.
Qed.

End Facts.

(** ** Claims *)

(** C6: the fields and files of a form come back: however the text of the form is
    cut into buckets and brigades, the parser reports success when it has seen
    the last boundary, has added one entry per part in order (a field with its
    value; a file with its name as value and its data, in memory or spooled to
    a temporary file, as upload), each tainted and with the part's headers, and
    hands back what follows the form. *)
Theorem form_round_trip (w : W) (psr : form_parser) (t : apr_table apreq_param_t) (b : bytes)
    (ps : list part) (epilogue : bytes) (bbs : list brigade) :
  0 < FILE_BUCKET_LIMIT -> os_reliable (W := W) -> ps_hook psr = [] -> ps_ctx psr = None ->
  boundary_of (ps_content_type psr) = Attr b -> x0d ∉ b ->
  forallb (pt_ok b) ps = true -> forallb (forallb clean) bbs = true ->
  brigade_data (concat bbs) = form_text b ps epilogue ->
  exists w' psr' t' rest es,
    feed_multipart w psr t bbs = Ok (APR_SUCCESS, w', psr', t', rest) /\
    apr_table_elts t' = apr_table_elts t ++ es /\ Forall2 part_gives ps es /\
    brigade_data rest = epilogue.
Proof.
  intros Hl Hos Hk Hc Hct Hb Hps Hcl Hd.
  assert (Hne : bbs <> []) by by intros ->.
  destruct (feed_pending b Hl Hos Hb (set_ctx psr (first_ctx b psr)) w t bbs ps epilogue)
    as (w' & psr' & t' & rest & es & Hr & Hrest); try done.
  - rewrite Hd. by apply first_pending.
  - exists w', psr', t', rest, es. split; [|done]. rewrite <- Hr.
    destruct bbs as [|bb bbs]; [done|]. cbn [feed_multipart]. by rewrite (first_parse b psr).
Qed.

End Calls.

(** ** Witnesses *)

Lemma short_writes_reliable : os_reliable (W := unit).
Proof.
  split; [|done]. intros w v. eexists _, _. split; [reflexivity|]. destruct (concat v); cbn; [done|lia].
Qed.

Definition a_form_parser (boundary : bytes) (limit : nat)
  : apreq_parser_t (T := list_table) (X := unit) (mfd_ctx list_table unit (mixed_parser list_table unit)) :=
  apreq_parser_make (str "multipart/form-data; boundary=" ++ boundary) apreq_parse_multipart_f
    limit None [] None.

Definition a_header (s : bytes) : hdr_line := HLine (str "Content-Disposition") (str " ") s true.

Definition two_parts : list part :=
  [Part [a_header (str "form-data; name=a")] [x0d] (str "1-" ++ CRLF ++ str "-");
   Part [a_header (str "form-data; name=f; filename=x")] [x0d] (str "file")].

Lemma form_round_trip_witness :
  let bbs := [[BData (take 60 (form_text (str "B") two_parts (str "end")))];
              [BFlush; BData (drop 60 (form_text (str "B") two_parts (str "end")))]] in
  exists w' psr' t' rest es,
    feed_multipart 1000 tt (a_form_parser (str "B") 2) [] bbs = Ok (APR_SUCCESS, w', psr', t', rest) /\
    apr_table_elts t' = [] ++ es /\ Forall2 part_gives two_parts es /\
    brigade_data rest = str "end".
Proof.
  apply (form_round_trip 1000 tt (a_form_parser (str "B") 2) (apr_table_make (AprTable := list_table))
           (str "B") two_parts (str "end")).
  - lia.
  - apply short_writes_reliable.
  - reflexivity.
  - reflexivity.
  - vm_compute. reflexivity.
  - cbn. rewrite elem_of_cons, elem_of_nil. naive_solver.
  - vm_compute. reflexivity.
  - reflexivity.
  - vm_compute. reflexivity.
Defined.

(** ** Forms the parser does not read *)

(** The status, and the names of the entries; [None]: the process crashes. *)
Definition read_form (boundary body : bytes) : option (Z * list bytes) :=
  match apreq_parse_multipart (T := list_table) 1000 tt (a_form_parser boundary 1000) []
          (Some [BData body]) with
  | Ok (s, _, _, t, _) => Some (s, map fst t)
  | _ => None
  end.

Definition mixed_form (parts : list bytes) : bytes :=
  str "--B" ++ CRLF ++ str "Content-Disposition: form-data; name=m" ++ CRLF ++
  str "Content-Type: multipart/mixed; boundary=C" ++ CRLF ++ CRLF ++
  flat_map (fun p => str "--C" ++ CRLF ++ str "Content-Disposition: " ++ p ++ CRLF ++ CRLF ++
                     str "data" ++ CRLF) parts ++
  str "--C--" ++ CRLF ++ CRLF ++ str "--B--" ++ CRLF.

(** In a mixed part, a field uses up the name the parts share: with the next
    part the parser takes the length of a null string. *)
Example mixed_field_then_part :
  read_form (str "B") (mixed_form [str "file; filename=x"; str "file; filename=y"]) =
    Some (APR_SUCCESS, [str "m"; str "m"]) /\
  read_form (str "B") (mixed_form [str "inline"]) = Some (APR_SUCCESS, [str "m"]) /\
  read_form (str "B") (mixed_form [str "inline"; str "file; filename=y"]) = None.
Proof. vm_compute. by split_and!. Qed.

(** A part without a body, the boundary being the end of its headers' empty
    line, is seen only when another bucket follows. *)
Definition bodyless : bytes :=
  str "--B" ++ CRLF ++ str "Content-Disposition: form-data; name=a" ++ CRLF ++ CRLF ++
  str "--B--" ++ CRLF.

Example bodyless_part_waits :
  read_form (str "B") bodyless = Some (APR_INCOMPLETE, []) /\
  match apreq_parse_multipart (T := list_table) 1000 tt (a_form_parser (str "B") 1000) []
          (Some [BData bodyless; BEos]) with
  | Ok (s, _, _, t, _) => s = APR_SUCCESS /\ map (fun e => (e.1, p_data e.2)) t = [(str "a", [])]
  | _ => False
  end.
Proof. vm_compute. by split_and!. Qed.
