(* ===== verification/StreamEnd.v ===== *)
(** * Buckets behind what a parser reads

    The parsers of header blocks and multipart bodies stop where their text
    ends.  When a call is successful, buckets without data behind the text, as
    the end of the stream, change nothing: they are handed back. *)
From S2P Require Import Prelude Apr Url Util Brigade Param Parser Header Boundary Multipart.

Section Behind.
Context {E : AprErrno} {T : AprTable} {X : Type} {XP : AprXml X} {H : HookEnv X}
        {W : Type} {F : AprFile W} {SM : AprStrmatch}.
Context (tl : brigade) (Htl : brigade_data tl = []).

Lemma data_behind bb : brigade_data (bb ++ tl) = brigade_data bb.
Proof. by rewrite brigade_data_app, Htl, app_nil_r. Qed.

(** A status that is not [APR_SUCCESS] does not equal it. *)
Ltac not_success := intros ?; exfalso; errno_lia.

(** ** Header blocks *)

Lemma hdr_scan_behind bb pre st n g v :
  match hdr_scan pre st n g v bb with
  | HdrMore _ _ => True
  | HdrRead s _ => s <> APR_SUCCESS
  | HdrEos b => hdr_scan pre st n g v (bb ++ tl) = HdrEos (b ++ tl)
  | HdrEnd b => hdr_scan pre st n g v (bb ++ tl) = HdrEnd (b ++ tl)
  | HdrLine b n' g' v' => hdr_scan pre st n g v (bb ++ tl) = HdrLine (b ++ tl) n' g' v'
  end.
Proof.
  revert pre st n g v. induction bb as [|e bb IH]; intros pre st n g v; cbn [hdr_scan app]; [done|].
  destruct (bucket_is_eos e); [by rewrite <- app_assoc|].
  destruct (apr_bucket_read e) as [s d]. destruct (s =? APR_SUCCESS)%Z eqn:Es; cbn [negb].
  - destruct (hdr_bucket _ _ _ _ _ _ _ _); [apply IH|by rewrite <- app_assoc..].
  - by apply Z.eqb_neq in Es.
Qed.

Lemma hdr_take_behind bb n d r :
  hdr_take bb n = Some (APR_SUCCESS, d, r) -> hdr_take (bb ++ tl) n = Some (APR_SUCCESS, d, r ++ tl).
Proof.
  revert n d r. induction bb as [|e bb IH]; intros [|n] d r; cbn [hdr_take app]; try done.
  1: intros [= <- <-]; by destruct tl.
  1: by intros [= <- <-].
  destruct (apr_bucket_read e) as [s d0]. destruct (s =? APR_SUCCESS)%Z eqn:Es; cbn [negb].
  - destruct (_ <? _); [done|].
    destruct (hdr_take bb _) as [[[s1 d1] r1]|] eqn:Ht; cbn [mbind option_bind]; [|done].
    intros [= -> <- <-]. by rewrite (IH _ _ _ Ht).
  - apply Z.eqb_neq in Es. by intros [= ].
Qed.

(** A step of a chain that goes on when a status is [APR_SUCCESS]. *)
Lemma split_header_line_behind bb n g v :
  match split_header_line bb n g v with
  | HdrFails s => s <> APR_SUCCESS
  | HdrParam p r => split_header_line (bb ++ tl) n g v = HdrParam p (r ++ tl)
  | HdrAbort => True
  end.
Proof.
  unfold split_header_line. destruct (n =? 0); [errno_lia|].
  pose proof (hdr_take_behind bb n) as H1. destruct (hdr_take bb n) as [[[s1 d1] r1]|]; [|done].
  destruct (s1 =? APR_SUCCESS)%Z eqn:E1; cbn [negb]; [|by apply Z.eqb_neq].
  apply Z.eqb_eq in E1 as ->. rewrite (H1 _ _ eq_refl). cbn [negb Z.eqb APR_SUCCESS].
  pose proof (hdr_take_behind r1 g) as H2. destruct (hdr_take r1 g) as [[[s2 d2] r2]|]; [|done].
  destruct (s2 =? APR_SUCCESS)%Z eqn:E2; cbn [negb]; [|by apply Z.eqb_neq].
  apply Z.eqb_eq in E2 as ->. rewrite (H2 _ _ eq_refl). cbn [negb Z.eqb APR_SUCCESS].
  destruct (v =? 0); [done|].
  pose proof (hdr_take_behind r2 v) as H3. destruct (hdr_take r2 v) as [[[s3 d3] r3]|]; [|done].
  destruct (s3 =? APR_SUCCESS)%Z eqn:E3; cbn [negb]; [|by apply Z.eqb_neq].
  apply Z.eqb_eq in E3 as ->. rewrite (H3 _ _ eq_refl). cbn [negb Z.eqb APR_SUCCESS].
  by destruct (drop_line_end d3).
Qed.

Lemma hdr_brigade_behind fuel t hs bb r :
  hdr_brigade fuel t hs bb = Some r -> hd_status r = APR_SUCCESS ->
  hdr_brigade fuel t hs (bb ++ tl) =
    Some (HdrParsed APR_SUCCESS (hd_table r) (hd_ctx r) (hd_hooks r) (hd_bb r ++ tl)).
Proof.
  revert t hs bb. induction fuel as [|fuel IH]; intros t hs bb; cbn [hdr_brigade];
    pose proof (hdr_scan_behind bb [] HDR_NAME 0 0 0) as Hk;
    destruct (hdr_scan _ _ _ _ _ _) as [st bb'|bb'|s bb'|bb'|bb' n g v]; try rewrite Hk;
    try (intros [= <-]; cbn [hd_status]; first [done | not_success]);
    pose proof (split_header_line_behind bb' n g v) as Hs;
    destruct (split_header_line bb' n g v) as [s|p bb2|]; try done; try rewrite Hs;
    try (intros [= <-]; cbn [hd_status]; first [done | not_success]).
  destruct (apreq_hook_run hs p None) as [[[s hs'] p'] ?].
  destruct (s =? APR_SUCCESS)%Z eqn:Es; [apply IH|]. apply Z.eqb_neq in Es.
  by intros [= <-].
Qed.

Lemma parse_headers_behind psr t bb psr' t' i :
  apreq_parse_headers psr t (Some bb) = Some (APR_SUCCESS, psr', t', i) ->
  apreq_parse_headers psr t (Some (bb ++ tl)) = Some (APR_SUCCESS, psr', t', Some (default [] i ++ tl)).
Proof.
  unfold apreq_parse_headers. cbn zeta. set (c := default _ _).
  destruct (parser_status_check _ _ _); [by intros [= -> <- <- <-]|].
  cbn [default from_option id]. rewrite app_assoc, data_behind.
  destruct (hdr_brigade _ _ _ _) as [r|] eqn:Er; cbn [mbind option_bind]; [|done].
  intros [= Hs <- <- <-]. rewrite (hdr_brigade_behind _ _ _ _ _ Er Hs). done.
Qed.

(** ** Boundaries *)

Lemma split_loop_behind fuel fuel' pattern bdry out held off bb o i :
  fuel <= fuel' -> split_loop fuel pattern bdry out held off bb = (APR_SUCCESS, o, i) ->
  split_loop fuel' pattern bdry out held off (bb ++ tl) = (APR_SUCCESS, o, i ++ tl).
Proof.
  revert fuel' out held off bb. induction fuel as [|fuel IH]; intros [|fuel'] out held off [|e bb] Hf;
    cbn [split_loop app]; try (intros [= Hx]; exfalso; errno_lia).
  destruct (bucket_is_eos e); [intros [= Hx]; exfalso; errno_lia|].
  destruct (apr_bucket_read e) as [s buf].
  destruct (s =? APR_SUCCESS)%Z eqn:Es; cbn [negb]; [|apply Z.eqb_neq in Es; by intros [= ]].
  assert (Hf' : fuel <= fuel') by lia. specialize (IH fuel').
  destruct (length buf =? 0); [by apply IH|].
  assert (Hm : forall out held off,
    (if length bdry - off <=? length buf
     then (APR_SUCCESS, out, if length bdry - off <? length buf
             then (apr_bucket_split e (length bdry - off)).2 :: bb else bb)
     else split_loop fuel pattern bdry out (held ++ [e]) (off + length buf) bb) = (APR_SUCCESS, o, i) ->
    (if length bdry - off <=? length buf
     then (APR_SUCCESS, out, if length bdry - off <? length buf
             then (apr_bucket_split e (length bdry - off)).2 :: bb ++ tl else bb ++ tl)
     else split_loop fuel' pattern bdry out (held ++ [e]) (off + length buf) (bb ++ tl)) =
      (APR_SUCCESS, o, i ++ tl)).
  { intros out' held' off'. destruct (_ <=? _); [|by apply IH].
    intros [= <- <-]. by destruct (_ <? _). }
  destruct (same_start _ _); [apply Hm|]. destruct (_ && _); [apply (Hm _ [] 0)|].
  destruct (0 <=? _)%Z; [|by apply IH].
  destruct (apr_bucket_split e _) as [e1 e2]. by apply (IH _ _ _ (e2 :: bb)).
Qed.

Lemma split_on_bdry_behind pattern bdry out bb o i :
  split_on_bdry out bb pattern bdry = (APR_SUCCESS, o, i) ->
  split_on_bdry out (bb ++ tl) pattern bdry = (APR_SUCCESS, o, i ++ tl).
Proof. apply split_loop_behind. rewrite !length_app, data_behind. lia. Qed.

Lemma start_string_behind bb start :
  brigade_start_string bb start <> APR_INCOMPLETE ->
  brigade_start_string (bb ++ tl) start = brigade_start_string bb start.
Proof.
  revert start. induction bb as [|e bb IH]; intros start; cbn [brigade_start_string app]; [done|].
  destruct (_ =? 0); [done|]. destruct (bucket_is_eos e); [done|].
  destruct (apr_bucket_read e) as [s buf]. destruct (negb _); [done|].
  destruct (_ =? 0); [apply IH|]. destruct (negb _); [done|apply IH].
Qed.

(** ** Multipart bodies *)

Section States.
Context {M : Type} (mix : option (mix_ops T X W M)) (FILE_BUCKET_LIMIT brigade_limit : nat)
        (temp_dir : option bytes).
Abbreviation run := (mfd_run T X W M).
Abbreviation switch := (mfd_switch mix FILE_BUCKET_LIMIT brigade_limit temp_dir).

(** The parser of mixed parts hands back what follows them. *)
Definition mix_behind (ops : mix_ops T X W M) : Prop :=
  forall w m hs t bb w' m' hs' t' i,
    mix_run ops w m hs t bb = Ok (APR_SUCCESS, w', m', hs', t', i) ->
    mix_run ops w m hs t (bb ++ tl) = Ok (APR_SUCCESS, w', m', hs', t', i ++ tl).
Context (Hmix : forall ops, mix = Some ops -> mix_behind ops).

Definition behind (r : run) : run :=
  let c := r_ctx r in
  Run (r_w r) (r_hs r) (r_t r) (r_bb r) (set_io (m_in c ++ tl) (m_bb c) (m_status c) c).
Definition handed_back (r : run) : run :=
  Run (r_w r) (r_hs r) (r_t r) (r_bb r ++ tl) (r_ctx r).

(** A state goes on in the same way, or hands the buckets back at the end. *)
Definition same_step (x y : presult (option Z * run)) : Prop :=
  match x with
  | Ok (None, r) => y = Ok (None, behind r)
  | Ok (Some s, r) => s = APR_SUCCESS -> y = Ok (Some s, handed_back r)
  | _ => True
  end.

Lemma init_behind r : same_step (mfd_init r) (mfd_init (behind r)).
Proof.
  unfold mfd_init. cbn zeta. cbn [behind r_ctx set_io m_bb m_in m_bdry].
  pose proof (split_on_bdry_behind false (drop 2 (m_bdry (r_ctx r))) (m_bb (r_ctx r)) (m_in (r_ctx r)))
    as Hs. destruct (split_on_bdry _ _ _ _) as [[s o] i].
  destruct (s =? APR_SUCCESS)%Z eqn:Es; cbn [negb].
  - apply Z.eqb_eq in Es as ->. by rewrite (Hs _ _ eq_refl).
  - not_success.
Qed.

Lemma nextline_behind r : same_step (mfd_nextline r) (mfd_nextline (behind r)).
Proof.
  unfold mfd_nextline. cbn zeta. cbn [behind r_ctx set_io m_bb m_in].
  pose proof (split_on_bdry_behind false CRLF (m_bb (r_ctx r)) (m_in (r_ctx r))) as Hs.
  destruct (split_on_bdry _ _ _ _) as [[s o] i].
  destruct (s =? APR_SUCCESS)%Z eqn:Es; cbn [negb].
  - apply Z.eqb_eq in Es as ->. rewrite (Hs _ _ eq_refl). cbn [negb Z.eqb APR_SUCCESS].
    destruct o; [done|]. intros _. unfold handed_back, stop.
    cbn [r_bb r_w r_hs r_t r_ctx behind]. by rewrite app_assoc.
  - not_success.
Qed.

Lemma header_behind r : same_step (mfd_header r) (mfd_header (behind r)).
Proof.
  unfold mfd_header. cbn zeta. cbn [behind r_ctx set_io m_bb m_in m_info m_hdr].
  destruct (match m_info (r_ctx r) with Some _ => _ | None => _ end) as [info h].
  pose proof (parse_headers_behind h info (m_in (r_ctx r))) as Hs.
  destruct (apreq_parse_headers _ _ _) as [[[[s h'] info'] i]|]; [|done].
  destruct (s =? APR_SUCCESS)%Z eqn:Es.
  - apply Z.eqb_eq in Es as ->. by rewrite (Hs _ _ _ eq_refl).
  - apply Z.eqb_neq in Es. destruct (_ =? _)%Z; [not_success|by intros ?].
Qed.

Lemma post_header_behind r :
  same_step (mfd_post_header mix brigade_limit temp_dir r)
    (mfd_post_header mix brigade_limit temp_dir (behind r)).
Proof.
  unfold mfd_post_header. cbn zeta. cbn [behind r_ctx set_io m_bb m_in m_info m_bdry m_param_name].
  pose proof (start_string_behind (m_in (r_ctx r)) (drop 2 (m_bdry (r_ctx r)))) as Hs.
  destruct (_ =? APR_INCOMPLETE)%Z eqn:Ei.
  { not_success. }
  apply Z.eqb_neq in Ei. rewrite (Hs Ei). apply Z.eqb_neq in Ei. rewrite Ei.
  destruct (_ =? APR_SUCCESS)%Z; cbn [m_info m_param_name set_io];
    destruct (part_action_of _ _ _); try done; try (not_success);
    destruct (create_multipart_context _ _ _ _) as [[mc|]| |]; try done;
    (destruct mix; [|done]); first [done | not_success].
Qed.

Lemma param_behind r : same_step (mfd_param r) (mfd_param (behind r)).
Proof.
  unfold mfd_param. cbn zeta. cbn [behind r_ctx set_io m_bb m_in m_bdry m_info m_param_name r_hs].
  pose proof (split_on_bdry_behind true (m_bdry (r_ctx r)) (m_bb (r_ctx r)) (m_in (r_ctx r))) as Hs.
  destruct (split_on_bdry _ _ _ _) as [[s o] i].
  destruct (s =? APR_INCOMPLETE)%Z eqn:Ei; [apply Z.eqb_eq in Ei as ->; not_success|].
  destruct (s =? APR_SUCCESS)%Z eqn:Es; cbn [negb]; [|not_success].
  apply Z.eqb_eq in Es as ->. rewrite (Hs _ _ eq_refl), Ei. cbn [negb Z.eqb APR_SUCCESS].
  destruct (brigade_length o) as [s n].
  destruct (s =? APR_SUCCESS)%Z eqn:Es; cbn [negb]; [|not_success].
  destruct (m_param_name _); [|done].
  destruct (apreq_hook_run _ _ _) as [[[s' hs] p] ?].
  destruct (s' =? APR_SUCCESS)%Z eqn:Es'; cbn [negb]; [done|apply Z.eqb_neq in Es'; by intros ?].
Qed.

Lemma upload_behind r :
  same_step (mfd_upload FILE_BUCKET_LIMIT brigade_limit r)
    (mfd_upload FILE_BUCKET_LIMIT brigade_limit (behind r)).
Proof.
  unfold mfd_upload. cbn zeta. cbn [behind r_ctx set_io m_bb m_in m_bdry m_upload r_hs].
  pose proof (split_on_bdry_behind true (m_bdry (r_ctx r)) (m_bb (r_ctx r)) (m_in (r_ctx r))) as Hs.
  destruct (split_on_bdry _ _ _ _) as [[s o] i].
  destruct (s =? APR_SUCCESS)%Z eqn:Es; cbn [negb andb].
  - apply Z.eqb_eq in Es as ->. rewrite (Hs _ _ eq_refl). cbn [negb andb Z.eqb APR_SUCCESS].
    destruct (m_upload _); [|done]. destruct (apreq_hook_run _ _ _) as [[[s hs] p] bb].
    destruct (s =? APR_SUCCESS)%Z eqn:Es'; cbn [negb]; [|apply Z.eqb_neq in Es'; by intros ?].
    cbn [r_w]. destruct (upload_concat _ _ _ _ _) as [[[s2 w] p2] bb2].
    destruct (s2 =? APR_SUCCESS)%Z eqn:Es2; cbn [negb]; [done|not_success].
  - apply Z.eqb_neq in Es. destruct (negb _); [by intros ?|].
    destruct (m_upload _); [|done]. destruct (apreq_hook_run _ _ _) as [[[s' hs] p] bb].
    destruct (s' =? APR_SUCCESS)%Z eqn:Es'; cbn [negb]; [|apply Z.eqb_neq in Es'; by intros ?].
    destruct (upload_concat _ _ _ _ _) as [[[s2 w] p2] bb2].
    destruct (s2 =? APR_SUCCESS)%Z eqn:Es2; cbn [negb]; [|not_success].
    not_success.
Qed.

Lemma mixed_behind r : same_step (mfd_mixed mix r) (mfd_mixed mix (behind r)).
Proof.
  unfold mfd_mixed. destruct mix as [ops|] eqn:Eops; [|done].
  pose proof (Hmix ops eq_refl (r_w r) (m_mix (r_ctx r)) (r_hs r) (r_t r) (m_in (r_ctx r))) as Hs.
  cbn [behind r_ctx set_io m_bb m_in m_mix r_hs r_w r_t].
  destruct (mix_run _ _ _ _ _ _) as [[[[[[s w] m] hs] t] i]| |]; cbn [obind]; [|done..].
  destruct (s =? APR_SUCCESS)%Z eqn:Es.
  - apply Z.eqb_eq in Es as ->. by rewrite (Hs _ _ _ _ _ eq_refl).
  - apply Z.eqb_neq in Es. destruct (_ =? _)%Z; by intros ?.
Qed.

Lemma switch_behind r : same_step (switch r) (switch (behind r)).
Proof.
  unfold mfd_switch. replace (m_status (r_ctx (behind r))) with (m_status (r_ctx r)) by done.
  destruct (m_status (r_ctx r)).
  - apply init_behind.
  - apply nextline_behind.
  - apply header_behind.
  - apply post_header_behind.
  - apply param_behind.
  - apply upload_behind.
  - apply mixed_behind.
  - not_success.
  - not_success.
Qed.

Lemma loop_behind fuel r r' :
  mfd_loop mix FILE_BUCKET_LIMIT brigade_limit temp_dir fuel r = Ok (APR_SUCCESS, r') ->
  mfd_loop mix FILE_BUCKET_LIMIT brigade_limit temp_dir fuel (behind r) =
    Ok (APR_SUCCESS, handed_back r').
Proof.
  revert r. induction fuel as [|fuel IH]; intros r; cbn [mfd_loop]; [done|].
  pose proof (switch_behind r) as Hs. destruct (switch r) as [[[s|] r1]| |]; [| |done..].
  - intros [= -> ->]. by rewrite (Hs eq_refl).
  - rewrite Hs. apply IH.
Qed.

Lemma run_behind w hs t c bb r :
  multipart_run mix FILE_BUCKET_LIMIT brigade_limit temp_dir w hs t c (Some bb) = Ok (APR_SUCCESS, r) ->
  multipart_run mix FILE_BUCKET_LIMIT brigade_limit temp_dir w hs t c (Some (bb ++ tl)) =
    Ok (APR_SUCCESS, handed_back r).
Proof.
  unfold multipart_run. destruct (parser_status_check _ _ _); [by intros [= -> <-]|].
  cbn [default from_option id]. rewrite app_assoc.
  intros Hr. apply loop_behind in Hr. rewrite <- Hr. unfold mfd_held, behind.
  cbn [r_w r_hs r_t r_bb r_ctx set_io m_in m_bb m_hdr m_mix m_status]. by rewrite data_behind.
Qed.

End States.

Lemma form_mix_behind FILE_BUCKET_LIMIT limit dir :
  mix_behind (form_mix (X := X) (W := W) FILE_BUCKET_LIMIT limit dir).
Proof.
  intros w m hs t bb w' m' hs' t' i. cbn [form_mix mix_run]. unfold mixed_run.
  destruct (x_ctx m) as [c|]; [|done].
  destruct (multipart_run None _ _ _ _ _ _ _ (Some bb)) as [[s r]| |] eqn:Er; cbn [obind]; [|done..].
  intros [= -> <- <- <- <- <-]. by rewrite (run_behind None _ _ _ ltac:(done) _ _ _ _ _ _ Er).
Qed.

(** A call that is successful is so when the end of the stream follows, which is
    then handed back as well. *)
Lemma parse_multipart_behind FILE_BUCKET_LIMIT (w : W) psr t bb w' psr' t' bb' :
  apreq_parse_multipart (X := X) FILE_BUCKET_LIMIT w psr t (Some bb) =
    Ok (APR_SUCCESS, w', psr', t', Some bb') ->
  apreq_parse_multipart FILE_BUCKET_LIMIT w psr t (Some (bb ++ tl)) =
    Ok (APR_SUCCESS, w', psr', t', Some (bb' ++ tl)).
Proof.
  unfold apreq_parse_multipart. cbn zeta.
  destruct (match ps_ctx psr with Some c => _ | None => _ end) as [[c|]| |]; cbn [obind]; [| |done..].
  - destruct (multipart_run _ _ _ _ _ _ _ _ (Some bb)) as [[s r]| |] eqn:Er; cbn [obind]; [|done..].
    intros [= -> <- <- <- <-].
    eapply run_behind in Er; [by rewrite Er|].
    intros ops [= <-]. apply form_mix_behind.
  - intros [= Hx]. exfalso. errno_lia.
Qed.

End Behind.
