(* ===== verification/ParserRun.v ===== *)
(** * Running a parser ([include/apreq_parser.h])

    A parser object names its function; [apreq_parser_run] calls it.  The
    context behind the parser's [void *] is the one that function keeps.  All
    parsers only add to the table they are given. *)
From S2P Require Import Prelude Apr Url Util Brigade Param Parser Urlencoded Header Boundary.
From S2P Require Import Multipart.

Section Run.
Context {E : AprErrno} {T : AprTable} {X : Type} {XP : AprXml X} {H : HookEnv X}
        {W : Type} {F : AprFile W} {SM : AprStrmatch}.
Abbreviation table := (apr_table apreq_param_t).

(** [U]: the contexts of the parsers that applications register. *)
Inductive parser_ctx (U : Type) :=
  | UrlParser (c : url_ctx)
  | HeaderParser (c : hdr_ctx)
  | FormParser (c : mfd_ctx T X (mixed_parser T X))
  | BodyParser (c : gen_ctx)
  | UserParser (c : U).
Arguments UrlParser {U}.
Arguments HeaderParser {U}.
Arguments FormParser {U}.
Arguments BodyParser {U}.
Arguments UserParser {U}.

Abbreviation parser U := (apreq_parser_t (X := X) (parser_ctx U)).

(** What a call of a parser yields: the status, the system, the parser, the table
    and the caller's brigade. *)
Abbreviation parse_result U := (presult (Z * W * parser U * table * option brigade)).

Definition table_adds (t t' : table) : Prop :=
  exists es, apr_table_elts t' = apr_table_elts t ++ es.

(** The parsers of applications: they return, and add to the table. *)
Class UserParsers (U : Type) := {
  user_parse : nat -> W -> parser U -> table -> option brigade -> parse_result U;
  user_parse_adds : forall n w psr t bb s w' psr' t' bb',
    user_parse n w psr t bb = Ok (s, w', psr', t', bb') -> table_adds t t'
}.

Context {U : Type} {UP : UserParsers U} (FILE_BUCKET_LIMIT : nat) (hole : nat -> Byte.byte).

(** The parser as its function sees it, and back. *)
Definition seen_as {C} (get : parser_ctx U -> option C) (psr : parser U) : apreq_parser_t (X := X) C :=
  Parser (ps_content_type psr) (ps_parser psr) (ps_hook psr) (ps_brigade_limit psr)
    (ps_temp_dir psr) (ps_ctx psr ≫= get).
Definition stored_as {C} (put : C -> parser_ctx U) (psr : apreq_parser_t (X := X) C) : parser U :=
  Parser (ps_content_type psr) (ps_parser psr) (ps_hook psr) (ps_brigade_limit psr)
    (ps_temp_dir psr) (put <$> ps_ctx psr).

Definition as_url (c : parser_ctx U) := match c with UrlParser c => Some c | _ => None end.
Definition as_header (c : parser_ctx U) := match c with HeaderParser c => Some c | _ => None end.
Definition as_form (c : parser_ctx U) := match c with FormParser c => Some c | _ => None end.
Definition as_body (c : parser_ctx U) := match c with BodyParser c => Some c | _ => None end.

Definition apreq_parser_run (w : W) (psr : parser U) (t : table) (bb : option brigade)
  : parse_result U :=
  match ps_parser psr with
  | apreq_parse_urlencoded_f =>
      let '(s, p, t, bb) := apreq_parse_urlencoded hole (seen_as as_url psr) t bb in
      Ok (s, w, stored_as UrlParser p, t, bb)
  | apreq_parse_headers_f =>
      match apreq_parse_headers (seen_as as_header psr) t bb with
      | None => Aborts
      | Some (s, p, t, bb) => Ok (s, w, stored_as HeaderParser p, t, bb)
      end
  | apreq_parse_multipart_f =>
      obind (fun '(s, w, p, t, bb) => Ok (s, w, stored_as FormParser p, t, bb))
        (apreq_parse_multipart FILE_BUCKET_LIMIT w (seen_as as_form psr) t bb)
  | apreq_parse_generic_f =>
      match apreq_parse_generic FILE_BUCKET_LIMIT w (seen_as as_body psr) bb with
      | None => Aborts
      | Some (s, w, p, bb) => Ok (s, w, stored_as BodyParser p, t, bb)
      end
  | user_parser_f n => user_parse n w psr t bb
  end.

(** ** Parsers only add to the table *)

Lemma adds_refl t : table_adds t t.
Proof. exists []. by rewrite app_nil_r. Qed.

Lemma adds_trans t1 t2 t3 : table_adds t1 t2 -> table_adds t2 t3 -> table_adds t1 t3.
Proof. intros [a Ha] [b Hb]. exists (a ++ b). by rewrite Hb, Ha, app_assoc. Qed.

Lemma adds_value p t : table_adds t (apreq_value_table_add p t).
Proof. eexists. apply elts_add. Qed.

Lemma url_brigade_adds fuel t hs bb : table_adds t (ue_table (url_brigade fuel hole t hs bb)).
Proof.
  revert t hs bb. induction fuel as [|fuel IH]; intros t hs bb; cbn [url_brigade];
    destruct (url_scan _ _ _ _ _) as [st bb'|[| | |] n v bb'|s bb'|n v bb']; try apply adds_refl;
    destruct (url_word _ _ _ _ _) as [[[s [p|]] bb2] hs']; try apply adds_refl;
    destruct (s =? APR_SUCCESS)%Z; try apply adds_refl; try apply adds_value.
  eapply adds_trans; [apply adds_value|apply IH].
Qed.

Lemma hdr_brigade_adds fuel t hs bb r : hdr_brigade fuel t hs bb = Some r -> table_adds t (hd_table r).
Proof.
  revert t hs bb. induction fuel as [|fuel IH]; intros t hs bb; cbn [hdr_brigade];
    destruct (hdr_scan _ _ _ _ _ _) as [st bb'|bb'|s bb'|bb'|bb' n g v];
    try (intros [= <-]; apply adds_refl);
    destruct (split_header_line _ _ _ _) as [s|p bb2|]; try done; try (intros [= <-]; apply adds_refl).
  destruct (apreq_hook_run _ _ _) as [[[s hs'] p'] ?].
  destruct (s =? APR_SUCCESS)%Z; [|intros [= <-]; apply adds_refl].
  intros Hr. eapply adds_trans; [apply adds_value|by eapply IH].
Qed.

(** Goes through the branches of a function that returns a table. *)
Ltac adds_tac :=
  intros; repeat first [progress simplify_eq/= | case_match]; auto using adds_refl, adds_value.

Section States.
Context {M : Type} (mix : option (mix_ops T X W M)) (limit : nat) (dir : option bytes).
Definition mix_adds (ops : mix_ops T X W M) : Prop :=
  forall w m hs t bb s w' m' hs' t' i,
    mix_run ops w m hs t bb = Ok (s, w', m', hs', t', i) -> table_adds t t'.
Context (Hmix : forall ops, mix = Some ops -> mix_adds ops).

Lemma switch_adds r o r' :
  mfd_switch mix FILE_BUCKET_LIMIT limit dir r = Ok (o, r') -> table_adds (r_t r) (r_t r').
Proof.
  unfold mfd_switch. destruct (m_status (r_ctx r)).
  - unfold mfd_init, stop, go. adds_tac.
  - unfold mfd_nextline, stop, go. adds_tac.
  - unfold mfd_header, fail, stop, go. adds_tac.
  - unfold mfd_post_header, fail, stop, go. adds_tac.
  - unfold mfd_param, fail, stop, go. adds_tac.
  - unfold mfd_upload, fail, stop, go. adds_tac.
  - unfold mfd_mixed. destruct mix as [ops|] eqn:Eo; [|done].
    destruct (mix_run _ _ _ _ _ _) as [[[[[[s w] m] hs] t] i]| |] eqn:Em; cbn [obind]; [|done..].
    apply (Hmix ops eq_refl) in Em. unfold fail, stop, go.
    destruct (s =? APR_SUCCESS)%Z; [by intros [= <- <-]|].
    destruct (s =? APR_INCOMPLETE)%Z; by intros [= <- <-].
  - unfold stop. adds_tac.
  - unfold stop. adds_tac.
Qed.

Lemma multipart_run_adds w hs t c bb s r :
  multipart_run mix FILE_BUCKET_LIMIT limit dir w hs t c bb = Ok (s, r) -> table_adds t (r_t r).
Proof.
  unfold multipart_run. destruct (parser_status_check _ _ _); [intros [= <- <-]; apply adds_refl|].
  cbn zeta. generalize (set_io (m_in c ++ default [] bb) (m_bb c) (m_status c) c) as c'. intros c'.
  change t with (r_t (Run w hs t [] c')) at 2. generalize (Run w hs t [] c') as r0. intros r0.
  generalize (3 * mfd_held mix c' + 10) as fuel. intros fuel. revert r0.
  induction fuel as [|fuel IH]; intros r0; cbn [mfd_loop]; [done|].
  destruct (mfd_switch _ _ _ _ r0) as [[[s'|] r1]| |] eqn:Es; [| |done..]; apply switch_adds in Es.
  - by intros [= <- <-].
  - intros Hr. eapply adds_trans; [exact Es|by apply IH].
Qed.

End States.

Lemma form_mix_adds limit dir : mix_adds (form_mix (X := X) (W := W) FILE_BUCKET_LIMIT limit dir).
Proof.
  intros w m hs t bb s w' m' hs' t' i. cbn [form_mix mix_run]. unfold mixed_run.
  destruct (x_ctx m) as [c|]; [|done].
  destruct (multipart_run None _ _ _ _ _ _ _ _) as [[s1 r]| |] eqn:Er; cbn [obind]; [|done..].
  intros [= <- <- <- <- <- <-]. by eapply multipart_run_adds in Er.
Qed.

Lemma parser_run_adds w psr t bb s w' psr' t' bb' :
  apreq_parser_run w psr t bb = Ok (s, w', psr', t', bb') -> table_adds t t'.
Proof.
  unfold apreq_parser_run. destruct (ps_parser psr).
  - unfold apreq_parse_headers. destruct (parser_status_check _ _ _); cbn.
    { intros [= <- <- <- <- <-]. apply adds_refl. }
    destruct (hdr_brigade _ _ _ _) as [r|] eqn:Er; cbn; [|done].
    intros [= <- <- <- <- <-]. by eapply hdr_brigade_adds.
  - unfold apreq_parse_urlencoded. destruct (parser_status_check _ _ _).
    { intros [= <- <- <- <- <-]. apply adds_refl. }
    intros [= <- <- <- <- <-]. apply url_brigade_adds.
  - unfold apreq_parse_multipart. destruct (match ps_ctx _ with Some _ => _ | None => _ end)
      as [[c|]| |]; cbn [obind]; [|intros [= <- <- <- <- <-]; apply adds_refl|done..].
    destruct (multipart_run _ _ _ _ _ _ _ _ _) as [[s1 r]| |] eqn:Er; cbn [obind]; [|done..].
    intros [= <- <- <- <- <-]. eapply multipart_run_adds; [|exact Er].
    intros ops [= <-]. apply form_mix_adds.
  - destruct (apreq_parse_generic _ _ _ _) as [[[[s1 w1] p1] b1]|]; [|done].
    intros [= <- <- <- <- <-]. apply adds_refl.
  - apply user_parse_adds.
Qed.

End Run.

Arguments UrlParser {T X U}.
Arguments HeaderParser {T X U}.
Arguments FormParser {T X U}.
Arguments BodyParser {T X U}.
Arguments UserParser {T X U}.

(** ** Urlencoded bodies, call by call *)

Section UrlTurns.
Context {E : AprErrno} {T : AprTable} {X : Type} {XP : AprXml X} {H : HookEnv X}
        {W : Type} {F : AprFile W} {SM : AprStrmatch} {U : Type} {UP : UserParsers (X := X) (W := W) U}
        (FILE_BUCKET_LIMIT : nat) (hole : nat -> Byte.byte).
Abbreviation table := (apr_table apreq_param_t).
Abbreviation parser := (apreq_parser_t (X := X) (parser_ctx (X := X) U)).
Abbreviation url_of psr := (seen_as as_url psr).

Lemma seen_stored (p : apreq_parser_t (X := X) url_ctx) : url_of (stored_as (U := U) UrlParser p) = p.
Proof. by destruct p as [? ? ? ? ? [c|]]. Qed.

(** A parser that is in the middle of a urlencoded body, of which [y] is to come
    and which parses to [v] as a whole: it may have failed. *)
Definition url_waits (v : Z * table) (psr : parser) (t : table) (y : bytes) : Prop :=
  ps_parser psr = apreq_parse_urlencoded_f /\ ps_hook psr = [] /\
  ((exists rest, url_pending (url_of psr) rest /\ urlencoded_form hole t (rest ++ y) = v) \/
   (url_failed (url_of psr) /\ t = v.2 /\ v.1 = APR_INCOMPLETE)).

(** The status of a body's last call: a parser that failed with a status that
    asks for more says so when it gets more. *)
Definition url_status (v : Z * table) : Z :=
  if (v.1 =? APR_INCOMPLETE)%Z then APREQ_ERROR_GENERAL else v.1.

Definition eos_if (fin : bool) : brigade := if fin then [BEos] else [].

(** What a call does with the next piece: it waits for more, or is done. *)
Definition url_turned (v : Z * table) (s : Z) (psr : parser) (t : table) (y : bytes) (fin : bool) : Prop :=
  (s = APR_INCOMPLETE -> url_waits v psr t y) /\
  (s <> APR_INCOMPLETE -> t = v.2 /\ s = url_status v) /\ ps_hook psr = [] /\
  (fin = true -> s = APR_INCOMPLETE -> url_failed (url_of psr)).

Lemma url_status_plain (t : table) (s : Z) : s <> APR_INCOMPLETE -> t = t /\ s = url_status (s, t).
Proof. intros Hs. unfold url_status. cbn. by rewrite (proj2 (Z.eqb_neq _ _) Hs). Qed.

Lemma url_status_einit v : v.1 <> APR_EINIT -> url_status v <> APR_EINIT.
Proof.
  unfold url_status. intros Hv. destruct (_ =? _)%Z; [|done].
  pose proof einit_range. unfold APREQ_ERROR_GENERAL. lia.
Qed.

Lemma url_status_done v : url_status v <> APR_INCOMPLETE.
Proof.
  unfold url_status. destruct (Z.eqb_spec v.1 APR_INCOMPLETE); [|done].
  pose proof incomplete_range. unfold APREQ_ERROR_GENERAL. lia.
Qed.

Lemma url_failed_call v psr t bb (w : W) y fin :
  ps_parser psr = apreq_parse_urlencoded_f -> ps_hook psr = [] -> url_failed (url_of psr) ->
  t = v.2 -> v.1 = APR_INCOMPLETE ->
  exists psr' bb', apreq_parser_run FILE_BUCKET_LIMIT hole w psr t (Some bb) =
    Ok (APREQ_ERROR_GENERAL, w, psr', t, bb') /\ url_turned v APREQ_ERROR_GENERAL psr' t y fin.
Proof.
  intros Hp Hh Hf Ht Hv. unfold apreq_parser_run. rewrite Hp.
  destruct (url_call_failed hole (url_of psr) t (Some bb) Hf) as (p & -> & _ & Hph).
  eexists _, _. split; [reflexivity|]. unfold url_turned, url_status. cbn. rewrite Hph, Hv, Z.eqb_refl.
  split_and!; [errno_lia|done|exact Hh|errno_lia].
Qed.

Lemma url_turn v psr t bb fin y (w : W) :
  url_waits v psr t (brigade_data bb ++ y) -> forallb plain bb = true -> (fin = true -> y = []) ->
  exists s psr' t' bb', apreq_parser_run FILE_BUCKET_LIMIT hole w psr t (Some (bb ++ eos_if fin)) =
    Ok (s, w, psr', t', bb') /\ url_turned v s psr' t' y fin /\
    (url_failed (url_of psr) -> s <> APR_INCOMPLETE).
Proof.
  intros (Hp & Hh & [(rest & Hu & Hv)|(Hf & Ht & Hv)]) Hbb Hfin.
  2: { destruct (url_failed_call v psr t (bb ++ eos_if fin) w y fin) as (psr' & bb' & Hr & Hs); [done..|].
       exists APREQ_ERROR_GENERAL, psr', t, bb'. split_and!; [done..|]. intros _. errno_lia. }
  assert (Hnf : ~ url_failed (url_of psr)) by (destruct Hu as (_ & ? & _); done).
  destruct (url_call_pending hole (url_of psr) rest t (bb ++ eos_if fin) Hu) as (b0 & Hd & P0 & Hh' & Hcall).
  unfold apreq_parser_run. rewrite Hp, Hcall. cbn zeta. clear Hcall.
  assert (Hfail : forall r, url_failed (url_of (stored_as (U := U) UrlParser
      (set_ctx (set_hook (url_of psr) (ue_hooks r)) (ue_ctx r)))) <-> u_status (ue_ctx r) = URL_ERROR).
  { intros r. by rewrite seen_stored. }
  assert (Pall : forallb plain (b0 ++ bb) = true) by (by rewrite forallb_app, P0).
  eexists _, _, _, _. split; [reflexivity|]. split; [|done]. destruct fin; cbn [eos_if].
  - rewrite app_assoc.
    pose proof (url_brigade_eos (length (brigade_data ((b0 ++ bb) ++ [BEos]))) hole t (b0 ++ bb) Pall) as Hm.
    cbn zeta in Hm. set (r := url_brigade _ _ _ _ _) in *.
    destruct Hm as (Hm & _ & Hend & Hhk); [rewrite (brigade_data_app (b0 ++ bb)), length_app; lia|].
    rewrite (Hfin eq_refl), app_nil_r, <- Hd, <- brigade_data_app, <- Hm in Hv. subst v.
    assert (Herr : ue_status r = APR_INCOMPLETE -> u_status (ue_ctx r) = URL_ERROR).
    { intros Hi. destruct Hend as [He|He]; [errno_lia|done]. }
    split_and!; cbn [fst snd]; [|apply url_status_plain|exact Hhk|intros _ Hi; by apply Hfail, Herr].
    intros Hi. split; [exact Hp|split; [exact Hhk|right]]. cbn [fst snd].
    by split_and!; [apply Hfail, Herr|..].
  - rewrite app_nil_r.
    destruct (url_brigade_more (length (brigade_data (b0 ++ bb))) hole t (b0 ++ bb) Pall ltac:(lia))
      as (Hhk & _ & Hm). set (r := url_brigade _ _ _ _ _) in *.
    rewrite app_assoc, <- Hd, <- brigade_data_app in Hv. unfold urlencoded_form in Hv.
    rewrite pairs_of_app in Hv.
    destruct (pairs_of hole t (brigade_data (b0 ++ bb))) as [[[e|] t'] l'] eqn:Epo.
    + destruct Hm as (Hms & Hmt & Hst). apply Hfail in Hst. rewrite Hmt, Hms.
      apply pairs_of_error in Epo. subst v.
      split_and!; cbn [fst snd]; [|apply url_status_plain|exact Hhk|done].
      intros Hi. split; [exact Hp|split; [exact Hhk|by right]].
    + destruct Hm as (Hms & Hmt & H1 & H2 & H3 & H4). rewrite Hmt, Hms.
      split_and!; [|done|exact Hhk|done].
      intros _. split; [exact Hp|split; [exact Hhk|left]]. exists l'. split; [|done].
      rewrite seen_stored. unfold url_pending. cbn. by split_and!.
Qed.

End UrlTurns.
