(* ===== verification/Cookie.v ===== *)
(** * Cookies ([src/libapreq2/library/cookie.c], [include/apreq_cookie.h])

    A pointer into the header is the list of the bytes from there to its end.
    A value that is passed to a C string function is read past its length, so
    names and values are kept as such lists with their length beside. *)
From S2P Require Import Prelude Apr Url Util Param.

Definition RFC : Z := 1.
Definition NETSCAPE : Z := 0.

(** [c_max_age] is in microseconds; [None]: the product that computes it
    overflowed. *)
Record apreq_cookie_t := Cookie {
  c_path : option bytes;
  c_domain : option bytes;
  c_port : option bytes;
  c_comment : option bytes;
  c_commentURL : option bytes;
  c_max_age : option Z;
  c_flags : Z;
  c_name : bytes;
  c_data : bytes
}.

Definition set_cookie_flags (f : Z -> Z) (c : apreq_cookie_t) : apreq_cookie_t :=
  Cookie (c_path c) (c_domain c) (c_port c) (c_comment c) (c_commentURL c) (c_max_age c)
    (f (c_flags c)) (c_name c) (c_data c).
Definition apreq_cookie_version (c : apreq_cookie_t) : Z := flags_get COOKIE_VERSION (c_flags c).
Definition apreq_cookie_version_set (v : Z) := set_cookie_flags (flags_set COOKIE_VERSION v).
Definition apreq_cookie_is_secure (c : apreq_cookie_t) : Z := flags_get COOKIE_SECURE (c_flags c).
Definition apreq_cookie_secure_on := set_cookie_flags (flags_on COOKIE_SECURE).
Definition apreq_cookie_secure_off := set_cookie_flags (flags_off COOKIE_SECURE).
Definition apreq_cookie_is_tainted (c : apreq_cookie_t) : Z := flags_get TAINTED (c_flags c).
Definition apreq_cookie_tainted_on := set_cookie_flags (flags_on TAINTED).
Definition apreq_cookie_tainted_off := set_cookie_flags (flags_off TAINTED).

Definition apreq_cookie_make (name value : bytes) : apreq_cookie_t :=
  Cookie None None None None None (Some (-1)%Z) 0 name value.

Section Cookies.
Context {E : AprErrno} {T : AprTable}.

(** APR's date functions and clock, and the bytes behind a fresh allocation. *)
Context (apr_strtoi64 : bytes -> Z * bytes) (apr_date_parse_rfc : bytes -> Z)
        (apr_rfc822_date : Z -> bytes) (now : Z) (junk : bytes).

Definition APR_DATE_BAD : Z := 0.

Definition set_max_age (m : option Z) (c : apreq_cookie_t) : apreq_cookie_t :=
  Cookie (c_path c) (c_domain c) (c_port c) (c_comment c) (c_commentURL c) m
    (c_flags c) (c_name c) (c_data c).

Definition apreq_cookie_expires (c : apreq_cookie_t) (time_str : option bytes) : apreq_cookie_t :=
  match time_str with
  | None => set_max_age (Some (-1)%Z) c
  | Some s =>
      if strcaseeq (cstr s) (str "now") then set_max_age (Some 0%Z) c
      else
        let d := apr_date_parse_rfc (cstr s) in
        if (d =? APR_DATE_BAD)%Z
        then set_max_age (a ← apreq_atoi64t apr_strtoi64 (Some (cstr s)); int64 (a * 1000000)) c
        else set_max_age (Some (d - now)%Z) c
  end.

(** The version's digit: [None] when the value has none. *)
Fixpoint version_digit (val : bytes) (vlen : nat) : option Byte.byte :=
  match val with
  | [] => None
  | b :: val => if isdigit b then Some b else
                match vlen with O => None | S vlen => version_digit val vlen end
  end.

Definition set_attrs (path domain port comment commentURL : option bytes)
    (c : apreq_cookie_t) : apreq_cookie_t :=
  Cookie path domain port comment commentURL (c_max_age c) (c_flags c) (c_name c) (c_data c).

(** [attr] and [val] run to the end of their objects. *)
Definition apreq_cookie_attr (c : apreq_cookie_t) (attr : bytes) (alen : nat) (val : bytes)
    (vlen : nat) : Z * apreq_cookie_t :=
  if alen <? 2 then (APR_EBADARG, c)
  else
    let '(attr, alen) :=
      if (nth 0 attr x00 =b? "-") || (nth 0 attr x00 =b? "$") then (drop 1 attr, alen - 1)
      else (attr, alen) in
    let a := tolower (nth 0 attr x00) in
    let dup := Some (cstr (take vlen val)) in
    if a =b? "n" then (APR_ENOTIMPL, c)
    else if a =b? "v" then
      if (alen =? 5) && strncaseeq (cstr attr) (str "value") 5 then (APR_ENOTIMPL, c)
      else match version_digit val vlen with
      | None => (APREQ_ERROR_BADSEQ, c)
      | Some d => (APR_SUCCESS, apreq_cookie_version_set (zb d - zb "0") c)
      end
    else if (a =b? "e") || (a =b? "m") then (APR_SUCCESS, apreq_cookie_expires c (Some val))
    else if a =b? "d" then
      (APR_SUCCESS, set_attrs (c_path c) dup (c_port c) (c_comment c) (c_commentURL c) c)
    else if a =b? "p" then
      if negb (alen =? 4) then (APR_ENOTIMPL, c)
      else if strncaseeq (str "port") (cstr attr) 4 then
        (APR_SUCCESS, set_attrs (c_path c) (c_domain c) dup (c_comment c) (c_commentURL c) c)
      else if strncaseeq (str "path") (cstr attr) 4 then
        (APR_SUCCESS, set_attrs dup (c_domain c) (c_port c) (c_comment c) (c_commentURL c) c)
      else (APR_ENOTIMPL, c)
    else if a =b? "c" then
      if strncaseeq (str "commentURL") (cstr attr) 10 then
        (APR_SUCCESS, set_attrs (c_path c) (c_domain c) (c_port c) (c_comment c) dup c)
      else if strncaseeq (str "comment") (cstr attr) 7 then
        (APR_SUCCESS, set_attrs (c_path c) (c_domain c) (c_port c) dup (c_commentURL c) c)
      else (APR_ENOTIMPL, c)
    else if a =b? "s" then
      if (0 <? vlen) && negb (nth 0 val x00 =b? "0") && negb (strncaseeq (str "off") (cstr val) vlen)
      then (APR_SUCCESS, apreq_cookie_secure_on c)
      else (APR_SUCCESS, apreq_cookie_secure_off c)
    else (APR_ENOTIMPL, c).

(** ** get_pair *)

Fixpoint drop_while (p : Byte.byte -> bool) (l : bytes) : bytes :=
  match l with
  | b :: l' => if p b then drop_while p l' else l
  | [] => []
  end.

(** [do --key; while (key > hdr && apr_isspace( *key));] on the reversed text
    before the equal sign: the first character is never given up. *)
Fixpoint back_over_space (l : bytes) : bytes :=
  match l with
  | b :: ((_ :: _) as l') => if isspace b then back_over_space l' else l
  | _ => l
  end.

(** The scan for the closing quote: how many bytes precede it, and whether a
    backslash was seen. *)
Fixpoint close_quote (l : bytes) : option (nat * bool) :=
  match l with
  | [] => None
  | b :: l1 =>
      if b =b? x22 then Some (0, false)
      else if b =b? x5c then
        match l1 with
        | [] => None
        | _ :: l2 => '(n, _) ← close_quote l2; Some (S (S n), true)
        end
      else '(n, s) ← close_quote l1; Some (S n, s)
  end.

(** [while (s < val) { if ( *s == '\\') ++s; *d++ = *s++; }] *)
Fixpoint unescape (l : bytes) : bytes :=
  match l with
  | [] => []
  | b :: l1 =>
      if b =b? x5c then match l1 with [] => [] | c :: l2 => c :: unescape l2 end
      else b :: unescape l1
  end.

Definition is_value_end (b : Byte.byte) : bool :=
  (b =b? ";") || (b =b? ",") || (b =b? " ") || (b =b? x09) || (b =b? x0d) || (b =b? x0a).

Record pair := Pair { pr_name : bytes; pr_nlen : nat; pr_val : bytes; pr_vlen : nat; pr_data : bytes }.

(** [hdr] is [*data]; the result holds what the caller's pointers are set to. *)
Definition get_pair (hdr : bytes) (unquote : bool) : Z + pair :=
  let hdr := drop_while (fun b => isspace b || (b =b? "=")) hdr in
  match memchr hdr "=" with
  | None => inl APREQ_ERROR_NOTOKEN
  | Some k =>
      let before := back_over_space (rev (take k hdr)) in
      let nlen := count_while (fun b => negb (isspace b)) before in
      let name := drop (length before - nlen) hdr in
      let val := drop_while isspace (drop (S k) hdr) in
      if nth 0 val x00 =b? x22 then
        let body := drop 1 val in
        match close_quote body with
        | None => inl APREQ_ERROR_BADSEQ
        | Some (n, saw_backslash) =>
            let data := drop (S n) body in
            if negb unquote then inr (Pair name nlen val (n + 2) data)
            else if negb saw_backslash then inr (Pair name nlen body n data)
            else
              let dest := unescape (take n body) in
              inr (Pair name nlen (dest ++ junk) (length dest) data)
        end
      else
        let vlen := count_while (fun b => negb (is_value_end b)) val in
        inr (Pair name nlen val vlen (drop vlen val))
  end.

(** ** The header *)

(** [skip_version_string]: [None] at the end of the header, else whether it
    stopped at a comma, and what follows. *)
Fixpoint skip_version (hdr : bytes) : option (bool * bytes) :=
  match hdr with
  | [] => None
  | b :: hdr =>
      if b =b? "," then Some (true, hdr)
      else if b =b? ";" then Some (false, hdr)
      else skip_version hdr
  end.

Definition add_cookie (j : apr_table apreq_cookie_t) (c : option apreq_cookie_t)
  : apr_table apreq_cookie_t :=
  match c with Some c => apr_table_add j (cstr (c_name c)) c | None => j end.

(** [start]: the code is at the label [parse_cookie_header]; otherwise in the
    loop with the cookie [c].  Every turn consumes at least a byte. *)
Fixpoint cookie_loop (fuel : nat) (start : bool) (j : apr_table apreq_cookie_t)
    (c : option apreq_cookie_t) (version : Z) (hdr : bytes) : Z * apr_table apreq_cookie_t :=
  match fuel with
  | O => (APREQ_ERROR_GENERAL, j)
  | S fuel =>
      if start then
        let hdr := drop_while isspace hdr in
        if nth 0 hdr x00 =b? "$" then
          match skip_version hdr with
          | None => (APR_SUCCESS, j)
          | Some (true, hdr) => cookie_loop fuel true j None NETSCAPE hdr
          | Some (false, hdr) => cookie_loop fuel false j None RFC hdr
          end
        else cookie_loop fuel false j None NETSCAPE hdr
      else
        let hdr := drop_while (fun b => (b =b? ";") || isspace b) hdr in
        match hdr with
        | [] => (APR_SUCCESS, add_cookie j c)
        | b :: rest =>
            if b =b? "," then cookie_loop fuel true (add_cookie j c) None NETSCAPE rest
            else if b =b? "$" then
              match c with
              | None => (APREQ_ERROR_BADCHAR, j)
              | Some ck =>
                  if (version =? NETSCAPE)%Z then (APREQ_ERROR_MISMATCH, j)
                  else match get_pair rest true with
                  | inl s => (s, j)
                  | inr p =>
                      let '(s, ck) := apreq_cookie_attr ck (pr_name p) (pr_nlen p)
                                        (pr_val p) (pr_vlen p) in
                      if (s =? APR_ENOTIMPL)%Z || (s =? APR_SUCCESS)%Z
                      then cookie_loop fuel false j (Some ck) version (pr_data p)
                      else (s, j)
                  end
              end
            else
              let j := add_cookie j c in
              match get_pair hdr false with
              | inl s => (s, j)
              | inr p =>
                  let ck := apreq_cookie_tainted_on
                    (apreq_cookie_make (take (pr_nlen p) (pr_name p)) (take (pr_vlen p) (pr_val p))) in
                  let ck := if (version =? NETSCAPE)%Z then ck
                            else apreq_cookie_version_set version ck in
                  cookie_loop fuel false j (Some ck) version (pr_data p)
              end
        end
  end.

(** [hdr] is a C string: its bytes before the NUL. *)
Definition apreq_parse_cookie_header (j : apr_table apreq_cookie_t) (hdr : bytes)
  : Z * apr_table apreq_cookie_t :=
  cookie_loop (2 * length hdr + 2) true j None NETSCAPE hdr.

(** ** Serialisation *)

(** The format string that is built in [format[128]], piece by piece. *)
Definition ns_attr (name : bytes) (v : option bytes) : bytes :=
  match v with Some _ => str "; " ++ name ++ str "=%s" | None => str "%0.s" end.

Definition rfc_attr (name : bytes) (v : option bytes) : bytes :=
  match v with
  | Some a => if nth 0 a x00 =b? x22 then str "; " ++ name ++ str "=%s"
              else str "; " ++ name ++ qstr "=`%s`"
  | None => str "%0.s"
  end.

Definition is_session (c : apreq_cookie_t) : bool := bool_decide (c_max_age c = Some (-1)%Z).
Definition secure_attr (c : apreq_cookie_t) : bytes :=
  if (apreq_cookie_is_secure c =? 0)%Z then [] else str "; secure".

Definition cookie_format (c : apreq_cookie_t) : bytes :=
  if (apreq_cookie_version c =? NETSCAPE)%Z then
    str "%s=%s" ++ ns_attr (str "path") (c_path c) ++ ns_attr (str "domain") (c_domain c)
    ++ (if is_session c then [] else str "; expires=%s") ++ secure_attr c
  else
    str "%s=%s" ++ str "; Version=%u" ++ rfc_attr (str "path") (c_path c)
    ++ rfc_attr (str "domain") (c_domain c) ++ rfc_attr (str "port") (c_port c)
    ++ rfc_attr (str "comment") (c_comment c) ++ rfc_attr (str "commentURL") (c_commentURL c)
    ++ (if is_session c then [] else str "; max-age=%ld") ++ secure_attr c.

(** What [apr_snprintf] prints for one attribute of that format. *)
Definition print_ns (name : bytes) (v : option bytes) : bytes :=
  match v with Some a => str "; " ++ name ++ str "=" ++ a | None => [] end.
Definition print_rfc (name : bytes) (v : option bytes) : bytes :=
  match v with
  | Some a => if nth 0 a x00 =b? x22 then str "; " ++ name ++ str "=" ++ a
              else str "; " ++ name ++ qstr "=`" ++ a ++ qstr "`"
  | None => []
  end.

(** Decimal digits, as [%u] and [%ld] print them. *)
Fixpoint digits_loop (fuel : nat) (n : Z) (acc : bytes) : bytes :=
  match fuel with
  | O => acc
  | S fuel =>
      let acc := bz (zb "0" + n mod 10) :: acc in
      if (n <? 10)%Z then acc else digits_loop fuel (n / 10) acc
  end.
Definition print_int (n : Z) : bytes :=
  if (n <? 0)%Z then x2d :: digits_loop 20 (- n) [] else digits_loop 20 n [].

(** The expiry date with the dashes of the Netscape format. *)
Definition ns_expires (c : apreq_cookie_t) : bytes :=
  <[11 := "-"]> (<[7 := "-"]> (apr_rfc822_date (default 0%Z (c_max_age c) + now)%Z)).

(** The full text; a shorter buffer gets a prefix of it. *)
Definition apreq_cookie_serialize (c : apreq_cookie_t) : bytes :=
  if (apreq_cookie_version c =? NETSCAPE)%Z then
    cstr (c_name c) ++ str "=" ++ cstr (c_data c)
    ++ print_ns (str "path") (c_path c) ++ print_ns (str "domain") (c_domain c)
    ++ (if is_session c then [] else str "; expires=" ++ ns_expires c) ++ secure_attr c
  else
    cstr (c_name c) ++ str "=" ++ cstr (c_data c)
    ++ str "; Version=" ++ print_int (apreq_cookie_version c)
    ++ print_rfc (str "path") (c_path c) ++ print_rfc (str "domain") (c_domain c)
    ++ print_rfc (str "port") (c_port c) ++ print_rfc (str "comment") (c_comment c)
    ++ print_rfc (str "commentURL") (c_commentURL c)
    ++ (if is_session c then [] else
          str "; max-age=" ++ print_int (Z.quot (default 0%Z (c_max_age c)) 1000000)) ++ secure_attr c.

Definition apreq_cookie_as_string (c : apreq_cookie_t) : bytes := apreq_cookie_serialize c.

End Cookies.

(** * Properties *)

(** ** Scanning *)

Lemma drop_while_length p l : length (drop_while p l) <= length l.
Proof. induction l as [|b l IH]; cbn; [lia|]. destruct (p b); cbn; lia. Qed.

Lemma drop_while_head p b l : p b = false -> drop_while p (b :: l) = b :: l.
Proof. cbn. by intros ->. Qed.

Lemma count_while_app p a b l :
  forallb p a = true -> (match b with [] => true | c :: _ => negb (p c) end) = true ->
  count_while p (a ++ b ++ l) = length a + (match b with [] => count_while p l | _ => 0 end).
Proof.
  intros Ha Hb. induction a as [|x a IH]; cbn in *.
  - destruct b as [|c b]; [done|]. cbn. by destruct (p c).
  - rewrite andb_true_iff in Ha. destruct Ha as [-> Ha]. by rewrite IH.
Qed.

Lemma count_while_all p a : forallb p a = true -> count_while p a = length a.
Proof.
  induction a as [|x a IH]; cbn; [done|]. rewrite andb_true_iff. intros [-> Ha]. by rewrite IH.
Qed.

Section Facts.
Context {E : AprErrno} {T : AprTable}.
Context (apr_strtoi64 : bytes -> Z * bytes) (apr_date_parse_rfc : bytes -> Z)
        (now : Z) (junk : bytes).

Abbreviation loop := (cookie_loop apr_strtoi64 apr_date_parse_rfc now junk).
Abbreviation parse := (apreq_parse_cookie_header apr_strtoi64 apr_date_parse_rfc now junk).
Abbreviation attr_set := (apreq_cookie_attr apr_strtoi64 apr_date_parse_rfc now).

Lemma close_quote_lt l n s : close_quote l = Some (n, s) -> n < length l.
Proof.
  remember (length l) as m eqn:Hm. assert (Hl : length l <= m) by lia. rewrite Hm. clear Hm.
  revert l n s Hl. induction m as [|m IH]; intros [|b l] n s Hl; cbn in Hl; try lia; try done.
  cbn [close_quote length]. destruct (b =b? x22); [intros [= <- _]; lia|].
  destruct (b =b? x5c).
  - destruct l as [|c l]; [done|]. destruct (close_quote l) as [[k s']|] eqn:Ek; cbn; [|done].
    intros [= <- _]. apply IH in Ek; [|cbn in Hl; lia]. cbn. lia.
  - destruct (close_quote l) as [[k s']|] eqn:Ek; cbn; [|done]. intros [= <- _].
    apply IH in Ek; [|lia]. lia.
Qed.

(** A pair takes at least its equal sign from the header. *)
Lemma get_pair_shorter hdr u p : get_pair junk hdr u = inr p -> length (pr_data p) < length hdr.
Proof.
  unfold get_pair. set (h := drop_while _ hdr).
  pose proof (drop_while_length (fun b => isspace b || (b =b? "=")) hdr) as Hh. fold h in Hh.
  destruct (memchr h "=") as [k|] eqn:Ek; [|done]. apply memchr_lt in Ek.
  set (v := drop_while isspace (drop (S k) h)).
  pose proof (drop_while_length isspace (drop (S k) h)) as Hv. fold v in Hv.
  rewrite length_drop in Hv. destruct (nth 0 v x00 =b? x22).
  - destruct (close_quote (drop 1 v)) as [[n s]|] eqn:Eq; [|done]. apply close_quote_lt in Eq.
    rewrite length_drop in Eq.
    destruct (negb u); [|destruct (negb s)]; intros [= <-]; cbn [pr_data]; rewrite !length_drop; lia.
  - intros [= <-]. cbn [pr_data]. rewrite length_drop. lia.
Qed.

Lemma get_pair_status hdr u s :
  get_pair junk hdr u = inl s -> s = APREQ_ERROR_NOTOKEN \/ s = APREQ_ERROR_BADSEQ.
Proof.
  unfold get_pair. destruct (memchr _ _) as [k|]; [|intros [= <-]; auto].
  destruct (nth 0 _ x00 =b? x22); [|done].
  destruct (close_quote _) as [[n sb]|]; [|intros [= <-]; auto].
  destruct (negb u); [done|]. by destruct (negb sb).
Qed.

Lemma cookie_attr_status c a al v vl :
  (attr_set c a al v vl).1 ∈ [APR_SUCCESS; APR_ENOTIMPL; APR_EBADARG; APREQ_ERROR_BADSEQ].
Proof.
  unfold apreq_cookie_attr. destruct (al <? 2); [set_solver|].
  destruct (if (nth 0 a x00 =b? "-") || (nth 0 a x00 =b? "$") then (drop 1 a, al - 1) else (a, al))
    as [a' al'].
  bool_cases; try (destruct (version_digit v vl)); set_solver.
Qed.

Lemma skip_version_shorter hdr b r : skip_version hdr = Some (b, r) -> length r < length hdr.
Proof.
  induction hdr as [|c hdr IH]; cbn; [done|].
  destruct (c =b? ","); [intros [= _ <-]; lia|]. destruct (c =b? ";"); [intros [= _ <-]; lia|].
  intros H. apply IH in H. lia.
Qed.

(** The statuses a header can end with. *)
Definition cookie_statuses : list Z :=
  [APR_SUCCESS; APREQ_ERROR_NOTOKEN; APREQ_ERROR_BADSEQ; APREQ_ERROR_BADCHAR;
   APREQ_ERROR_MISMATCH; APR_EBADARG].

Lemma cookie_loop_status fuel (start : bool) j c version hdr :
  2 * length hdr + (if start then 2 else 1) <= fuel ->
  (loop fuel start j c version hdr).1 ∈ cookie_statuses.
Proof.
  unfold cookie_statuses.
  revert start j c version hdr. induction fuel as [|fuel IH]; intros start j c version hdr Hf.
  { destruct start; lia. }
  cbn [cookie_loop]. destruct start.
  - set (h := drop_while isspace hdr). pose proof (drop_while_length isspace hdr) as Hh. fold h in Hh.
    destruct (nth 0 h x00 =b? "$"); [|apply IH; lia].
    destruct (skip_version h) as [[[] r]|] eqn:Es; [..|set_solver];
      apply skip_version_shorter in Es; apply IH; lia.
  - set (h := drop_while _ hdr).
    pose proof (drop_while_length (fun b => (b =b? ";") || isspace b) hdr) as Hh. fold h in Hh.
    clearbody h. destruct h as [|b rest]; [set_solver|]. cbn [length] in Hh.
    destruct (b =b? ","); [apply IH; lia|]. destruct (b =b? "$").
    + destruct c as [ck|]; [|set_solver]. destruct (version =? NETSCAPE)%Z; [set_solver|].
      destruct (get_pair junk rest true) as [s|p] eqn:Eg.
      * destruct (get_pair_status _ _ _ Eg) as [-> | ->]; set_solver.
      * apply get_pair_shorter in Eg.
        pose proof (cookie_attr_status ck (pr_name p) (pr_nlen p) (pr_val p) (pr_vlen p)) as Hst.
        destruct (attr_set ck _ _ _ _) as [s ck']. cbn [fst] in Hst.
        destruct (s =? APR_ENOTIMPL)%Z eqn:E1; cbn [orb]; [apply IH; lia|].
        destruct (s =? APR_SUCCESS)%Z eqn:E2; [apply IH; lia|].
        apply Z.eqb_neq in E1, E2. set_solver.
    + destruct (get_pair junk (b :: rest) false) as [s|p] eqn:Eg.
      * destruct (get_pair_status _ _ _ Eg) as [-> | ->]; set_solver.
      * apply get_pair_shorter in Eg. cbn [length] in Eg. apply IH. lia.
Qed.

(** ** Printed cookies *)

(** A character of a cookie's name, and of its unquoted value. *)
Definition name_char (b : Byte.byte) : bool :=
  negb (isspace b || (b =b? "=") || (b =b? ";") || (b =b? ",") || (b =b? "$") || (b =b? x00)).
Definition value_char (b : Byte.byte) : bool := negb (is_value_end b || isspace b || (b =b? x22)).

Lemma name_char_facts b :
  implb (name_char b)
    (negb (isspace b) && negb (b =b? "=") && negb (b =b? ";") && negb (b =b? ",")
     && negb (b =b? "$") && negb (b =b? x00)) = true.
Proof. by_bytes b. Qed.

Lemma name_char_elim b : name_char b = true ->
  isspace b = false /\ (b =b? "=") = false /\ (b =b? ";") = false /\ (b =b? ",") = false /\
  (b =b? "$") = false /\ (b =b? x00) = false.
Proof.
  intros Hb. pose proof (name_char_facts b) as H. rewrite Hb in H. cbn [implb] in H.
  rewrite !andb_true_iff, !negb_true_iff in H. destruct H as [[[[[? ?] ?] ?] ?] ?].
  split_and!; assumption.
Qed.

Lemma memchr_name n l : forallb name_char n = true -> memchr (n ++ x3d :: l) "=" = Some (length n).
Proof.
  induction n as [|b n IH]; cbn [forallb app memchr length]; [done|].
  rewrite andb_true_iff. intros [Hb Hn]. apply name_char_elim in Hb as (_ & -> & _).
  by rewrite IH.
Qed.

Lemma back_over_space_nospace l :
  match l with b :: _ => isspace b = false | [] => True end -> back_over_space l = l.
Proof. destruct l as [|b [|c l]]; cbn; [done..|]. by intros ->. Qed.

Lemma rev_name_head n : forallb name_char n = true ->
  match rev n with b :: _ => isspace b = false | [] => True end.
Proof.
  intros Hn. destruct (rev n) as [|b l] eqn:Er; [done|].
  assert (Hin : List.In b n) by (apply in_rev; rewrite Er; by left).
  rewrite forallb_forall in Hn. by apply Hn, name_char_elim in Hin as (? & _).
Qed.

Lemma rev_name_count n : forallb name_char n = true ->
  count_while (fun b => negb (isspace b)) (rev n) = length n.
Proof.
  intros Hn. rewrite count_while_all, length_rev; [done|]. apply forallb_forall. intros b Hb.
  apply in_rev in Hb. rewrite forallb_forall in Hn.
  by apply Hn, name_char_elim in Hb as (-> & _).
Qed.

(** [get_pair] at a name that is followed by an equal sign. *)
Lemma get_pair_name n l u :
  n <> [] -> forallb name_char n = true ->
  get_pair junk (n ++ x3d :: l) u =
    let val := drop_while isspace l in
    if nth 0 val x00 =b? x22 then
      match close_quote (drop 1 val) with
      | None => inl APREQ_ERROR_BADSEQ
      | Some (k, saw) =>
          let data := drop (S k) (drop 1 val) in
          if negb u then inr (Pair (n ++ x3d :: l) (length n) val (k + 2) data)
          else if negb saw then inr (Pair (n ++ x3d :: l) (length n) (drop 1 val) k data)
          else let dest := unescape (take k (drop 1 val)) in
               inr (Pair (n ++ x3d :: l) (length n) (dest ++ junk) (length dest) data)
      end
    else
      let vlen := count_while (fun b => negb (is_value_end b)) val in
      inr (Pair (n ++ x3d :: l) (length n) val vlen (drop vlen val)).
Proof.
  intros Hne Hn. unfold get_pair.
  assert (Hh : drop_while (fun b => isspace b || (b =b? "=")) (n ++ x3d :: l) = n ++ x3d :: l).
  { destruct n as [|b n]; [done|]. cbn [forallb] in Hn. rewrite andb_true_iff in Hn.
    destruct Hn as [Hb _]. apply name_char_elim in Hb as (H1 & H2 & _).
    cbn [app]. apply drop_while_head. by rewrite H1, H2. }
  rewrite Hh, memchr_name by done. rewrite take_app_length.
  rewrite back_over_space_nospace by (by apply rev_name_head).
  rewrite rev_name_count, length_rev, Nat.sub_diag by done.
  replace (drop (S (length n)) (n ++ x3d :: l)) with l; [done|].
  rewrite <- Nat.add_1_r, drop_app_add. done.
Qed.

(** A quoted value, as [apreq_quote] writes it. *)
Lemma close_quote_quoted v rest :
  no_nul v = true ->
  close_quote (flat_map quote_byte v ++ x22 :: rest) =
    Some (length (flat_map quote_byte v), existsb (fun b => (b =b? x5c) || (b =b? x22)) v).
Proof.
  unfold no_nul. induction v as [|b v IH]; cbn [forallb flat_map existsb]; [done|].
  rewrite andb_true_iff, negb_true_iff. intros [Hb Hv]. rewrite <- app_assoc.
  unfold quote_byte at 1 3. rewrite Hb. destruct (b =b? x5c) eqn:E1; cbn [orb].
  - cbn [app close_quote]. rewrite IH by done. done.
  - destruct (b =b? x22) eqn:E2; cbn [orb app close_quote].
    + rewrite IH by done. done.
    + rewrite E1, E2, IH by done. done.
Qed.

Lemma unescape_quoted v : no_nul v = true -> unescape (flat_map quote_byte v) = v.
Proof.
  unfold no_nul. induction v as [|b v IH]; cbn [forallb flat_map]; [done|].
  rewrite andb_true_iff, negb_true_iff. intros [Hb Hv].
  unfold quote_byte at 1. rewrite Hb. destruct (b =b? x5c) eqn:E1; cbn [orb].
  - cbn. by rewrite IH.
  - destruct (b =b? x22) eqn:E2; cbn [app unescape]; [by rewrite IH|]. by rewrite E1, IH.
Qed.

Lemma quoted_plain v :
  no_nul v = true -> existsb (fun b => (b =b? x5c) || (b =b? x22)) v = false ->
  flat_map quote_byte v = v.
Proof.
  unfold no_nul. induction v as [|b v IH]; cbn [forallb flat_map existsb]; [done|].
  rewrite andb_true_iff, negb_true_iff, orb_false_iff. intros [Hb Hv] [Hq He].
  unfold quote_byte at 1. rewrite Hb, Hq, IH by done. done.
Qed.

(** An unquoted value that ends at [rest]. *)
Lemma get_pair_plain n v rest u :
  n <> [] -> forallb name_char n = true -> forallb value_char v = true ->
  (rest = [] \/ exists r, rest = x3b :: r) ->
  get_pair junk (n ++ x3d :: v ++ rest) u =
    inr (Pair (n ++ x3d :: v ++ rest) (length n) (v ++ rest) (length v) rest).
Proof.
  intros Hne Hn Hv Hrest. rewrite get_pair_name by done.
  assert (Hvc : forall b, value_char b = true ->
    is_value_end b = false /\ isspace b = false /\ (b =b? x22) = false).
  { intros b. unfold value_char. rewrite negb_true_iff, !orb_false_iff.
    intros [[? ?] ?]. split_and!; assumption. }
  assert (Hd : drop_while isspace (v ++ rest) = v ++ rest).
  { destruct v as [|b v]; [destruct Hrest as [->|[r ->]]; done|]. cbn [forallb] in Hv.
    rewrite andb_true_iff in Hv. destruct Hv as [Hb _]. apply Hvc in Hb as (_ & H2 & _).
    cbn [app]. by apply drop_while_head. }
  rewrite Hd. cbn zeta.
  assert ((nth 0 (v ++ rest) x00 =b? x22) = false) as ->.
  { destruct v as [|b v]; [destruct Hrest as [->|[r ->]]; done|]. cbn [forallb] in Hv.
    rewrite andb_true_iff in Hv. destruct Hv as [Hb _]. by apply Hvc in Hb as (_ & _ & H2). }
  assert (count_while (fun b => negb (is_value_end b)) (v ++ rest) = length v) as ->.
  { assert (Hall : forallb (fun b => negb (is_value_end b)) v = true).
    { apply forallb_forall. intros b Hb. rewrite forallb_forall in Hv.
      by apply Hv, Hvc in Hb as (-> & _). }
    destruct Hrest as [->|[r ->]].
    - by rewrite app_nil_r, count_while_all.
    - pose proof (count_while_app _ v [x3b] r Hall eq_refl) as Hc. cbn [app] in Hc.
      rewrite Hc. lia. }
  by rewrite drop_app_length.
Qed.

(** The cookies of a [Cookie] header, as a browser sends them. *)
Fixpoint cookie_header (cs : list (bytes * bytes)) : bytes :=
  match cs with
  | [] => []
  | (n, v) :: cs => n ++ x3d :: v ++ match cs with [] => [] | _ => str "; " ++ cookie_header cs end
  end.

Definition plain_cookie (c : bytes * bytes) : Prop :=
  c.1 <> [] /\ forallb name_char c.1 = true /\ forallb value_char c.2 = true.

(** The cookie that parsing makes of a name and a value. *)
Definition parsed_cookie (c : bytes * bytes) : apreq_cookie_t :=
  apreq_cookie_tainted_on (apreq_cookie_make c.1 c.2).

Definition cookie_entry (c : bytes * bytes) : bytes * apreq_cookie_t :=
  (cstr c.1, parsed_cookie c).

Lemma loop_skips fuel j c version hdr :
  loop (S fuel) false j c version (x3b :: hdr) = loop (S fuel) false j c version hdr.
Proof. done. Qed.

Lemma loop_skips_space fuel j c version hdr :
  loop (S fuel) false j c version (x20 :: hdr) = loop (S fuel) false j c version hdr.
Proof. done. Qed.

Lemma add_cookie_elts j c :
  apr_table_elts (add_cookie j c) =
    apr_table_elts j ++ match c with Some ck => [(cstr (c_name ck), ck)] | None => [] end.
Proof. destruct c; cbn; [by rewrite elts_add|by rewrite app_nil_r]. Qed.

(** One turn of the loop on a printed cookie. *)
Lemma loop_cookie fuel j c n v rest :
  plain_cookie (n, v) -> (rest = [] \/ exists r, rest = x3b :: r) ->
  loop (S fuel) false j c NETSCAPE (n ++ x3d :: v ++ rest) =
    loop fuel false (add_cookie j c) (Some (parsed_cookie (n, v))) NETSCAPE rest.
Proof.
  intros (Hne & Hn & Hv) Hrest. cbn [fst snd] in *. cbn [cookie_loop].
  pose proof (get_pair_plain n v rest false Hne Hn Hv Hrest) as Hg.
  destruct n as [|b n]; [done|]. cbn [forallb] in Hn. rewrite andb_true_iff in Hn.
  destruct Hn as [Hb Hn]. apply name_char_elim in Hb as (H1 & H2 & H3 & H4 & H5 & H6).
  cbn [app] in *. rewrite drop_while_head by (by rewrite H1, H3). rewrite H4, H5, Hg.
  cbn [pr_nlen pr_name pr_vlen pr_val pr_data Z.eqb NETSCAPE].
  rewrite take_app_length. cbn [length take]. rewrite take_app_length. done.
Qed.

Lemma loop_cookies fuel j c cs :
  Forall plain_cookie cs -> length cs < fuel ->
  let r := loop fuel false j c NETSCAPE (cookie_header cs) in
  r.1 = APR_SUCCESS /\
  apr_table_elts r.2 = apr_table_elts (add_cookie j c) ++ map cookie_entry cs.
Proof.
  intros Hcs. revert fuel j c. induction Hcs as [|[n v] cs Hc _ IH]; intros fuel j c Hf.
  { destruct fuel; [cbn in Hf; lia|]. cbn. by rewrite app_nil_r. }
  destruct fuel as [|fuel]; [lia|]. cbn [length] in Hf. cbn zeta. cbn [cookie_header].
  assert (Hrest : let rest := match cs with [] => [] | _ => str "; " ++ cookie_header cs end in
    (rest = [] \/ exists r, rest = x3b :: r) /\
    loop fuel false (add_cookie j c) (Some (parsed_cookie (n, v))) NETSCAPE rest =
    loop fuel false (add_cookie j c) (Some (parsed_cookie (n, v))) NETSCAPE (cookie_header cs)).
  { destruct cs as [|c2 cs]; [by split; [left|]|]. cbn zeta. split; [right; eexists; done|].
    destruct fuel; [lia|]. done. }
  destruct Hrest as [Hr1 Hr2]. rewrite loop_cookie by done. rewrite Hr2.
  destruct (IH fuel (add_cookie j c) (Some (parsed_cookie (n, v))) ltac:(lia)) as [I1 I2].
  split; [done|]. rewrite I2, (add_cookie_elts (add_cookie j c)), <- app_assoc. done.
Qed.

(** ** Claims *)

(** Parsing a cookie header ends, on every header, with one of the statuses
    the code names: never for want of steps, and never with the unrecognised
    attribute status that the header file lists. *)
Theorem parse_cookie_header_total (j : apr_table apreq_cookie_t) (hdr : bytes) :
  (parse j hdr).1 ∈ cookie_statuses /\ APR_ENOTIMPL ∉ cookie_statuses.
Proof.
  split; [apply cookie_loop_status; cbn; lia|].
  unfold cookie_statuses. intros Hin.
  rewrite !elem_of_cons, elem_of_nil in Hin.
  pose proof enotimpl_range. unfold APREQ_ERROR_BADCHAR, APREQ_ERROR_MISMATCH in *.
  destruct Hin as [Hin|[Hin|[Hin|[Hin|[Hin|[Hin|[]]]]]]]; try errno_lia.
  pose proof apr_errno_distinct as Hd. repeat (apply NoDup_cons in Hd as [? Hd]).
  rewrite Hin in *. set_solver.
Qed.

(** C21: a [Cookie] header as a browser sends it, names and unquoted values
    joined by a semicolon and a space, parses to those cookies, in order, each
    tainted, of version 0 and without attributes. *)
Theorem cookie_header_round_trip (j : apr_table apreq_cookie_t) (cs : list (bytes * bytes)) :
  Forall plain_cookie cs ->
  (parse j (cookie_header cs)).1 = APR_SUCCESS /\
  apr_table_elts (parse j (cookie_header cs)).2 = apr_table_elts j ++ map cookie_entry cs.
Proof.
  intros Hcs. unfold apreq_parse_cookie_header.
  assert (Hlen : length cs <= length (cookie_header cs)).
  { clear j. induction Hcs as [|[n v] cs Hc _ IH]; [cbn; lia|]. cbn [cookie_header length].
    rewrite length_app. cbn [length]. rewrite length_app. destruct cs; [cbn; lia|].
    rewrite length_app. lia. }
  set (fuel := 2 * length (cookie_header cs)) in *.
  replace (fuel + 2) with (S (S fuel)) by lia.
  assert (Hstart : loop (S (S fuel)) true j None NETSCAPE (cookie_header cs) =
                   loop (S fuel) false j None NETSCAPE (cookie_header cs)).
  { destruct cs as [|[n v] cs]; [done|]. inversion Hcs as [|? ? (Hne & Hn & _) _]; subst.
    cbn [fst snd] in *. cbn [cookie_header]. destruct n as [|b n]; [done|]. cbn [forallb] in Hn.
    rewrite andb_true_iff in Hn. destruct Hn as [Hb _]. apply name_char_elim in Hb as (H1 & _ & _ & _ & H5 & _).
    cbn [app]. remember (S fuel) as f. cbn [cookie_loop]. rewrite drop_while_head by done.
    cbn [nth]. by rewrite H5. }
  rewrite Hstart. apply (loop_cookies (S fuel) j None cs Hcs). lia.
Qed.

(** An attribute's value printed by [apreq_quote] is read back unchanged by
    [get_pair], with the header after its closing quote, whatever quotes and
    backslashes it contains. *)
Theorem quoted_value_round_trip (n v rest : bytes) :
  n <> [] -> forallb name_char n = true -> v <> [] -> no_nul v = true ->
  exists p, get_pair junk (n ++ str "=" ++ apreq_quote v ++ rest) true = inr p /\
    take (pr_nlen p) (pr_name p) = n /\ take (pr_vlen p) (pr_val p) = v /\ pr_data p = rest.
Proof.
  intros Hne Hn Hv Hnul.
  assert (Hq : str "=" ++ apreq_quote v ++ rest = x3d :: x22 :: flat_map quote_byte v ++ x22 :: rest).
  { unfold apreq_quote. destruct v; [done|]. cbn [app]. by rewrite <- app_assoc. }
  rewrite Hq, get_pair_name by done. cbn zeta. cbn [drop_while].
  assert (isspace x22 = false) as -> by reflexivity. cbn [nth]. rewrite byte_eqb_refl.
  cbn [drop]. rewrite drop_0, close_quote_quoted by done. cbn [negb].
  assert (Hrest : drop (S (length (flat_map quote_byte v))) (flat_map quote_byte v ++ x22 :: rest) = rest).
  { rewrite <- Nat.add_1_r, drop_app_add. done. }
  destruct (existsb _ v) eqn:Eb; cbn [negb].
  - eexists. split; [done|]. cbn [pr_nlen pr_name pr_vlen pr_val pr_data].
    rewrite (take_app_length n), (take_app_length (flat_map quote_byte v)) by done.
    rewrite unescape_quoted, take_app_length by done. done.
  - eexists. split; [done|]. cbn [pr_nlen pr_name pr_vlen pr_val pr_data].
    rewrite (take_app_length n), Hrest. split_and!; [done| |done].
    by rewrite take_app_length, quoted_plain.
Qed.

End Facts.

(** The format that [apreq_cookie_serialize] builds fits its buffer of 128
    bytes with the final NUL, for every combination of attributes. *)
Theorem cookie_format_fits (c : apreq_cookie_t) : length (cookie_format c) + 1 <= 128.
Proof.
  assert (Hns : forall n v, length (ns_attr n v) <= length n + 5).
  { intros n [a|]; cbn; rewrite ?length_app; cbn; lia. }
  assert (Hrfc : forall n v, length (rfc_attr n v) <= length n + 7).
  { intros n [a|]; unfold rfc_attr; [|cbn; lia].
    destruct (_ =b? _); rewrite !length_app; cbn; lia. }
  assert (Hsec : length (secure_attr c) <= 8) by (unfold secure_attr; destruct (_ =? _)%Z; cbn; lia).
  unfold cookie_format. destruct (apreq_cookie_version c =? NETSCAPE)%Z; rewrite !length_app;
    repeat match goal with
    | |- context [length (ns_attr (str ?n) ?v)] => pose proof (Hns (str n) v);
        generalize dependent (length (ns_attr (str n) v)); intros
    | |- context [length (rfc_attr (str ?n) ?v)] => pose proof (Hrfc (str n) v);
        generalize dependent (length (rfc_attr (str n) v)); intros
    end;
    destruct (is_session c); cbn in *; lia.
Qed.

(** ** Witnesses *)

Lemma cookie_header_round_trip_witness :
  let cs := [(str "sid", str "31d4d96e"); (str "lang", str "en-US")] in
  (apreq_parse_cookie_header (T := list_table) (fun s => (0%Z, s)) (fun _ => 0%Z) 0 []
     apr_table_make (cookie_header cs)).2 = map cookie_entry cs.
Proof.
  cbn zeta.
  destruct (cookie_header_round_trip (T := list_table) (fun s => (0%Z, s)) (fun _ => 0%Z) 0 []
    apr_table_make [(str "sid", str "31d4d96e"); (str "lang", str "en-US")]) as [_ H];
    [repeat constructor; done|exact H].
Defined.

Lemma quoted_value_round_trip_witness :
  exists p, get_pair [] (str "path" ++ str "=" ++ apreq_quote (qstr "/a`b") ++ str "; x") true = inr p /\
    take (pr_nlen p) (pr_name p) = str "path" /\ take (pr_vlen p) (pr_val p) = qstr "/a`b" /\
    pr_data p = str "; x".
Proof. apply (quoted_value_round_trip [] (str "path") (qstr "/a`b") (str "; x")); done. Defined.
