(* ===== verification/Module.v ===== *)
(** * Request handles ([include/apreq_module.h], [library/module.c])

    A handle belongs to a module: an environment libapreq2 runs in, which says
    where cookies, query string and body come from.  The table of a module's
    functions is a class; the functions of the library that take a handle are
    written against it, and [Frontend] is what they rely on. *)
From S2P Require Import Prelude Apr Url Util Brigade Param Parser Urlencoded Header Boundary.
From S2P Require Import Multipart ParserRun Cookie.

(** [apr_table_overlay] and [apr_table_copy]. *)
Class AprTableMerge {T : AprTable} := {
  apr_table_overlay : forall {A}, apr_table A -> apr_table A -> apr_table A;
  apr_table_copy : forall {A}, apr_table A -> apr_table A;
  elts_overlay : forall A (a b : apr_table A),
    apr_table_elts (apr_table_overlay a b) = apr_table_elts a ++ apr_table_elts b;
  elts_copy : forall A (a : apr_table A), apr_table_elts (apr_table_copy a) = apr_table_elts a
}.

Section Module.
Context {E : AprErrno} {T : AprTable} {TM : AprTableMerge} {X : Type} {XP : AprXml X} {H : HookEnv X}
        {U : Type}.
Abbreviation table := (apr_table apreq_param_t).
Abbreviation jar_table := (apr_table apreq_cookie_t).
Abbreviation parser := (apreq_parser_t (X := X) (parser_ctx (X := X) U)).
Abbreviation hooks := (list (apreq_hook_t (X := X))).

(** The functions of a module on its handles [S]; each yields its results and
    the handle.  Names may be NULL. *)
Class apreq_module_t (S : Type) := {
  name : bytes;
  magic_number : Z;
  jar : S -> presult (Z * option jar_table * S);
  args : S -> presult (Z * option table * S);
  body : S -> presult (Z * option table * S);
  jar_get : S -> option bytes -> presult (option apreq_cookie_t * S);
  args_get : S -> option bytes -> presult (option apreq_param_t * S);
  body_get : S -> option bytes -> presult (option apreq_param_t * S);
  parser_get : S -> presult (Z * option parser * S);
  parser_set : S -> parser -> presult (Z * S);
  hook_add : S -> hooks -> presult (Z * S);
  brigade_limit_get : S -> presult (Z * nat * S);
  brigade_limit_set : S -> nat -> presult (Z * S);
  read_limit_get : S -> presult (Z * Z * S);
  read_limit_set : S -> Z -> presult (Z * S);
  temp_dir_get : S -> presult (Z * option bytes * S);
  temp_dir_set : S -> option bytes -> presult (Z * S)
}.

Definition apreq_module_status_is_error (s : Z) : bool :=
  negb (bool_decide (s ∈ [APR_SUCCESS; APR_INCOMPLETE; APR_EINIT; APREQ_ERROR_NODATA;
                          APREQ_ERROR_NOPARSER; APREQ_ERROR_NOHEADER])).

(** ** The functions on handles *)

Section Handle.
Context {S : Type} {Mod : apreq_module_t S}.

Definition apreq_jar (req : S) := jar req.
Definition apreq_args (req : S) := args req.
Definition apreq_body (req : S) := body req.
Definition apreq_jar_get (req : S) (name : option bytes) := jar_get req name.
Definition apreq_args_get (req : S) (name : option bytes) := args_get req name.
Definition apreq_body_get (req : S) (name : option bytes) := body_get req name.
Definition apreq_parser_get (req : S) := parser_get req.
Definition apreq_parser_set (req : S) (parser : parser) := parser_set req parser.
Definition apreq_hook_add (req : S) (hook : hooks) := hook_add req hook.
Definition apreq_brigade_limit_set (req : S) (bytes : nat) := brigade_limit_set req bytes.
Definition apreq_brigade_limit_get (req : S) := brigade_limit_get req.
Definition apreq_read_limit_set (req : S) (bytes : Z) := read_limit_set req bytes.
Definition apreq_read_limit_get (req : S) := read_limit_get req.
Definition apreq_temp_dir_set (req : S) (path : option bytes) := temp_dir_set req path.
Definition apreq_temp_dir_get (req : S) := temp_dir_get req.

Definition apreq_param (req : S) (key : option bytes) : presult (option apreq_param_t * S) :=
  obind (fun '(param, req) =>
    match param with
    | None => apreq_body_get req key
    | Some _ => Ok (param, req)
    end) (apreq_args_get req key).

Definition apreq_params (req : S) : presult (option table * S) :=
  obind (fun '(_, args, req) =>
    obind (fun '(_, body, req) =>
      Ok (match args, body with
          | Some args, Some body => Some (apr_table_overlay args body)
          | Some args, None => Some (apr_table_copy args)
          | None, Some body => Some (apr_table_copy body)
          | None, None => None
          end, req)) (apreq_body req)) (apreq_args req).

(** [if (jar_status || args_status || body_status)] *)
Definition apreq_parse (req : S) : presult (Z * S) :=
  obind (fun '(jar_status, _, req) =>
    obind (fun '(args_status, _, req) =>
      obind (fun '(body_status, _, req) =>
        Ok (if negb (jar_status =? 0)%Z || negb (args_status =? 0)%Z || negb (body_status =? 0)%Z
            then APREQ_ERROR_GENERAL else APR_SUCCESS, req))
      (apreq_body req)) (apreq_args req)) (apreq_jar req).

(** ** What a module promises *)

(** What there is to know of a request. *)
Record view := View {
  v_jar : Z * option jar_table;
  v_args : Z * option table;
  v_body : Z * option table
}.

Definition first_of {A} (t : option (apr_table A)) (k : bytes) : option A :=
  t ← t; apr_table_get t k.

(** Handles in the states [ok] show a fixed [view], however they are asked. *)
Class Frontend (ok : S -> Prop) (see : S -> view) : Prop := {
  fe_jar req : ok req -> exists req', apreq_jar req = Ok (v_jar (see req), req') /\
    ok req' /\ see req' = see req;
  fe_args req : ok req -> exists req', apreq_args req = Ok (v_args (see req), req') /\
    ok req' /\ see req' = see req;
  fe_body req : ok req -> exists req', apreq_body req = Ok (v_body (see req), req') /\
    ok req' /\ see req' = see req;
  fe_jar_get req k : ok req -> exists req',
    apreq_jar_get req (Some k) = Ok (first_of (v_jar (see req)).2 k, req') /\
    ok req' /\ see req' = see req;
  fe_args_get req k : ok req -> exists req',
    apreq_args_get req (Some k) = Ok (first_of (v_args (see req)).2 k, req') /\
    ok req' /\ see req' = see req;
  fe_body_get req k : ok req -> exists req',
    apreq_body_get req (Some k) = Ok (first_of (v_body (see req)).2 k, req') /\
    ok req' /\ see req' = see req
}.

(** ** Questions *)

Inductive question :=
  | AskJar | AskArgs | AskBody | AskParams | AskParse
  | AskCookie (k : bytes) | AskArg (k : bytes) | AskField (k : bytes) | AskParam (k : bytes).

Inductive answer :=
  | JarAnswer (s : Z) (t : option jar_table)
  | TableAnswer (s : Z) (t : option table)
  | CookieAnswer (c : option apreq_cookie_t)
  | ParamAnswer (p : option apreq_param_t)
  | StatusAnswer (s : Z).

Definition ask (q : question) (req : S) : presult (answer * S) :=
  match q with
  | AskJar => obind (fun '(s, t, req) => Ok (JarAnswer s t, req)) (apreq_jar req)
  | AskArgs => obind (fun '(s, t, req) => Ok (TableAnswer s t, req)) (apreq_args req)
  | AskBody => obind (fun '(s, t, req) => Ok (TableAnswer s t, req)) (apreq_body req)
  | AskParams => obind (fun '(t, req) => Ok (TableAnswer 0 t, req)) (apreq_params req)
  | AskParse => obind (fun '(s, req) => Ok (StatusAnswer s, req)) (apreq_parse req)
  | AskCookie k => obind (fun '(c, req) => Ok (CookieAnswer c, req)) (apreq_jar_get req (Some k))
  | AskArg k => obind (fun '(p, req) => Ok (ParamAnswer p, req)) (apreq_args_get req (Some k))
  | AskField k => obind (fun '(p, req) => Ok (ParamAnswer p, req)) (apreq_body_get req (Some k))
  | AskParam k => obind (fun '(p, req) => Ok (ParamAnswer p, req)) (apreq_param req (Some k))
  end.

Fixpoint ask_all (qs : list question) (req : S) : presult (list answer * S) :=
  match qs with
  | [] => Ok ([], req)
  | q :: qs =>
      obind (fun '(a, req) => obind (fun '(l, req) => Ok (a :: l, req)) (ask_all qs req)) (ask q req)
  end.

(** The answer that the view gives. *)
Definition all_params (v : view) : option table :=
  match (v_args v).2, (v_body v).2 with
  | Some args, Some body => Some (apr_table_overlay args body)
  | Some args, None => Some (apr_table_copy args)
  | None, Some body => Some (apr_table_copy body)
  | None, None => None
  end.

Definition answer_of (v : view) (q : question) : answer :=
  match q with
  | AskJar => JarAnswer (v_jar v).1 (v_jar v).2
  | AskArgs => TableAnswer (v_args v).1 (v_args v).2
  | AskBody => TableAnswer (v_body v).1 (v_body v).2
  | AskParams => TableAnswer 0 (all_params v)
  | AskParse =>
      StatusAnswer (if bool_decide ((v_jar v).1 = APR_SUCCESS /\ (v_args v).1 = APR_SUCCESS /\
                                    (v_body v).1 = APR_SUCCESS)
                    then APR_SUCCESS else APREQ_ERROR_GENERAL)
  | AskCookie k => CookieAnswer (first_of (v_jar v).2 k)
  | AskArg k => ParamAnswer (first_of (v_args v).2 k)
  | AskField k => ParamAnswer (first_of (v_body v).2 k)
  | AskParam k => ParamAnswer (match first_of (v_args v).2 k with
                               | Some p => Some p
                               | None => first_of (v_body v).2 k
                               end)
  end.

Section Laws.
Context {ok : S -> Prop} {see : S -> view} {FE : Frontend ok see}.

(** A call of a function of the module, from the state [req]. *)
Ltac call law req Hok Hv req' Hok' Hv' :=
  destruct (law req Hok) as (req' & -> & Hok' & Hv'); rewrite Hv in *.

Lemma ask_answers q req v : ok req -> see req = v ->
  exists req', ask q req = Ok (answer_of v q, req') /\ ok req' /\ see req' = v.
Proof.
  intros Hok Hv. destruct q as [| | | | |k|k|k|k]; cbn [ask answer_of].
  - call fe_jar req Hok Hv r1 Hok1 Hv1. destruct (v_jar v). by exists r1.
  - call fe_args req Hok Hv r1 Hok1 Hv1. destruct (v_args v). by exists r1.
  - call fe_body req Hok Hv r1 Hok1 Hv1. destruct (v_body v). by exists r1.
  - unfold apreq_params, all_params. call fe_args req Hok Hv r1 Hok1 Hv1.
    destruct (v_args v) as [? o]. cbn [obind]. call fe_body r1 Hok1 Hv1 r2 Hok2 Hv2.
    destruct (v_body v) as [s2 t2]. exists r2. by destruct o, t2.
  - unfold apreq_parse. call fe_jar req Hok Hv r1 Hok1 Hv1. destruct (v_jar v) as [s1 t1].
    cbn [obind]. call fe_args r1 Hok1 Hv1 r2 Hok2 Hv2. destruct (v_args v) as [s2 t2].
    cbn [obind]. call fe_body r2 Hok2 Hv2 r3 Hok3 Hv3. destruct (v_body v) as [s3 t3].
    cbn [obind fst snd]. exists r3. split; [|done]. unfold APR_SUCCESS.
    destruct (Z.eqb_spec s1 0), (Z.eqb_spec s2 0), (Z.eqb_spec s3 0); cbn [negb orb];
      case_bool_decide; done || tauto.
  - call (fun r => fe_jar_get r k) req Hok Hv r1 Hok1 Hv1. by exists r1.
  - call (fun r => fe_args_get r k) req Hok Hv r1 Hok1 Hv1. by exists r1.
  - call (fun r => fe_body_get r k) req Hok Hv r1 Hok1 Hv1. by exists r1.
  - unfold apreq_param. call (fun r => fe_args_get r k) req Hok Hv r1 Hok1 Hv1.
    destruct (first_of (v_args v).2 k); cbn [obind]; [by exists r1|].
    call (fun r => fe_body_get r k) r1 Hok1 Hv1 r2 Hok2 Hv2. by exists r2.
Qed.

(** The answers of a front end do not depend on how it is asked: a handle
    of a module that keeps its promises answers any sequence of questions (for
    the cookie jar, the query string, the body, single entries of them, all of
    them, a complete parse) as one fixed view of the request says. *)
Theorem questions_refine_view (qs : list question) (req : S) :
  ok req -> exists req', ask_all qs req = Ok (map (answer_of (see req)) qs, req') /\
    ok req' /\ see req' = see req.
Proof.
  intros Hok. remember (see req) as v eqn:Hv. symmetry in Hv. revert req Hok Hv.
  induction qs as [|q qs IH]; intros req Hok Hv; [by exists req|]. cbn [ask_all map].
  destruct (ask_answers q req v Hok Hv) as (r1 & -> & Hok1 & Hv1). cbn [obind].
  destruct (IH r1 Hok1 Hv1) as (r2 & -> & Hok2 & Hv2). cbn [obind]. by exists r2.
Qed.

End Laws.
End Handle.
End Module.
