(* ===== verification/Custom.v ===== *)
(** * The custom handle ([src/libapreq2/library/module_custom.c])

    A handle on a cookie header, a query string and a brigade that were given to
    it.  Cookies and query string are parsed when the handle is made, the body as
    far as it is asked for. *)
From S2P Require Import Prelude Apr Url Util Brigade Param Parser Urlencoded Header Boundary.
From S2P Require Import Multipart ParserRun Cookie Module.

Definition READ_BYTES : nat := 64 * 1024.

(** [apr_uint64_t] *)
Section Custom.
Context {E : AprErrno} {T : AprTable} {TM : AprTableMerge} {X : Type} {XP : AprXml X} {H : HookEnv X}
        {W : Type} {F : AprFile W} {SM : AprStrmatch} {U : Type} {UP : UserParsers (X := X) (W := W) U}
        {AP : AprPartition}.

(** [stack]: what a field that is never set holds; [turns]: how many turns of a
    loop are looked at. *)
Context (FILE_BUCKET_LIMIT : nat) (hole : nat -> Byte.byte) (apr_strtoi64 : bytes -> Z * bytes)
        (apr_date_parse_rfc : bytes -> Z) (now : Z) (junk : bytes) (stack : Z) (turns : nat).

Abbreviation table := (apr_table apreq_param_t).
Abbreviation jar_table := (apr_table apreq_cookie_t).
Abbreviation parser := (apreq_parser_t (X := X) (parser_ctx (X := X) U)).

Record custom_handle := CustomHandle {
  c_cookie_header : option bytes;
  c_jar : option jar_table;
  c_args : option table;
  c_body : option table;
  c_jar_status : Z;
  c_args_status : Z;
  c_body_status : Z;
  c_parser : option parser;
  c_read_limit : Z;
  c_bytes_read : Z;
  c_in : brigade;
  c_tmpbb : brigade;
  c_sys : W          (** the files of the system *)
}.

(** What a step of the body changes. *)
Definition set_body (t : option table) (s : Z) (psr : option parser) (n : Z) (i tmp : brigade) (w : W)
    (req : custom_handle) : custom_handle :=
  CustomHandle (c_cookie_header req) (c_jar req) (c_args req) t (c_jar_status req)
    (c_args_status req) s psr (c_read_limit req) n i tmp w.

Definition set_body_status (s : Z) (req : custom_handle) : custom_handle :=
  set_body (c_body req) s (c_parser req) (c_bytes_read req) (c_in req) (c_tmpbb req) (c_sys req) req.

(** After a brigade of [n] bytes was moved to [tmp]: the limit, and the parser. *)
Definition custom_feed (n : Z) (i tmp : brigade) (req : custom_handle) : presult (Z * custom_handle) :=
  let read := u64 (c_bytes_read req + n) in
  let req := set_body (c_body req) (c_body_status req) (c_parser req) read i tmp (c_sys req) req in
  if (c_read_limit req <? read)%Z
  then Ok (APREQ_ERROR_OVERLIMIT, set_body_status APREQ_ERROR_OVERLIMIT req)
  else
    match c_parser req, c_body req with
    | Some psr, Some t =>
        obind (fun '(s, w, psr, t, _) => Ok (s, set_body (Some t) s (Some psr) read i [] w req))
          (apreq_parser_run FILE_BUCKET_LIMIT hole (c_sys req) psr t (Some tmp))
    | _, _ => Aborts
    end.

Definition custom_parse_brigade (req : custom_handle) (bytes : nat) : presult (Z * custom_handle) :=
  if negb (c_body_status req =? APR_INCOMPLETE)%Z then Ok (c_body_status req, req)
  else
    let '(s, i, e) := apr_brigade_partition (c_in req) bytes in
    let '(tmp, rest) := apreq_brigade_move (c_tmpbb req) i e in
    if (s =? APR_SUCCESS)%Z then custom_feed (Z.of_nat bytes) rest tmp req
    else if (s =? APR_INCOMPLETE)%Z then
      let '(s, len) := brigade_length tmp in
      if negb (s =? APR_SUCCESS)%Z
      then Ok (s, set_body (c_body req) s (c_parser req) (c_bytes_read req) rest tmp (c_sys req) req)
      else custom_feed (Z.of_nat len) rest tmp req
    else Ok (s, set_body (c_body req) s (c_parser req) (c_bytes_read req) i (c_tmpbb req) (c_sys req) req).

Definition custom_jar (req : custom_handle) : presult (Z * option jar_table * custom_handle) :=
  Ok (c_jar_status req, c_jar req, req).

Definition custom_args (req : custom_handle) : presult (Z * option table * custom_handle) :=
  Ok (c_args_status req, c_args req, req).

Fixpoint custom_body_loop (fuel : nat) (req : custom_handle) : presult custom_handle :=
  if (c_body_status req =? APR_INCOMPLETE)%Z then
    match fuel with
    | O => NoFuel
    | S fuel => obind (fun '(_, req) => custom_body_loop fuel req) (custom_parse_brigade req READ_BYTES)
    end
  else Ok req.

Definition custom_body (req : custom_handle) : presult (Z * option table * custom_handle) :=
  obind (fun req => Ok (c_body_status req, c_body req, req)) (custom_body_loop turns req).

(** [apr_table_get] and the conversion of the value it finds. *)
Definition get_entry {A} (t : option (apr_table A)) (name : option bytes) : option A :=
  match t, name with
  | Some t, Some name => apr_table_get t name
  | _, _ => None
  end.

Definition custom_jar_get (req : custom_handle) (name : option bytes)
  : presult (option apreq_cookie_t * custom_handle) := Ok (get_entry (c_jar req) name, req).

Definition custom_args_get (req : custom_handle) (name : option bytes)
  : presult (option apreq_param_t * custom_handle) := Ok (get_entry (c_args req) name, req).

Fixpoint custom_body_get_loop (fuel : nat) (req : custom_handle) (name : bytes)
  : presult (option apreq_param_t * custom_handle) :=
  match get_entry (c_body req) (Some name) with
  | Some val => Ok (Some val, req)
  | None =>
      if (c_body_status req =? APR_INCOMPLETE)%Z then
        match fuel with
        | O => NoFuel
        | S fuel =>
            obind (fun '(_, req) => custom_body_get_loop fuel req name)
              (custom_parse_brigade req READ_BYTES)
        end
      else Ok (None, req)
  end.

Definition custom_body_get (req : custom_handle) (name : option bytes)
  : presult (option apreq_param_t * custom_handle) :=
  match c_body req, name with
  | Some _, Some name => custom_body_get_loop turns req name
  | _, _ => Ok (None, req)
  end.

Definition custom_parser_get (req : custom_handle) : presult (Z * option parser * custom_handle) :=
  Ok (APR_SUCCESS, c_parser req, req).

Definition custom_parser_set (req : custom_handle) (psr : parser) : presult (Z * custom_handle) :=
  Ok (APR_ENOTIMPL, req).

(** Without a parser these functions follow a NULL pointer. *)
Definition custom_hook_add (req : custom_handle) (hook : list (apreq_hook_t (X := X)))
  : presult (Z * custom_handle) :=
  match c_parser req with
  | None => Aborts
  | Some psr =>
      Ok (APR_SUCCESS,
          set_body (c_body req) (c_body_status req) (Some (apreq_parser_add_hook psr hook).2)
            (c_bytes_read req) (c_in req) (c_tmpbb req) (c_sys req) req)
  end.

Definition custom_brigade_limit_get (req : custom_handle) : presult (Z * nat * custom_handle) :=
  match c_parser req with
  | None => Aborts
  | Some psr => Ok (APR_SUCCESS, ps_brigade_limit psr, req)
  end.

Definition custom_brigade_limit_set (req : custom_handle) (bytes : nat) : presult (Z * custom_handle) :=
  Ok (APR_ENOTIMPL, req).

Definition custom_read_limit_get (req : custom_handle) : presult (Z * Z * custom_handle) :=
  Ok (APR_SUCCESS, c_read_limit req, req).

Definition custom_read_limit_set (req : custom_handle) (bytes : Z) : presult (Z * custom_handle) :=
  Ok (APR_ENOTIMPL, req).

Definition custom_temp_dir_get (req : custom_handle) : presult (Z * option bytes * custom_handle) :=
  match c_parser req with
  | None => Aborts
  | Some psr => Ok (APR_SUCCESS, ps_temp_dir psr, req)
  end.

Definition custom_temp_dir_set (req : custom_handle) (path : option bytes) : presult (Z * custom_handle) :=
  Ok (APR_ENOTIMPL, req).

Definition custom_module : apreq_module_t (U := U) custom_handle := {|
  name := str "custom"; magic_number := 20050425;
  jar := custom_jar; args := custom_args; body := custom_body;
  jar_get := custom_jar_get; args_get := custom_args_get; body_get := custom_body_get;
  parser_get := custom_parser_get; parser_set := custom_parser_set; hook_add := custom_hook_add;
  brigade_limit_get := custom_brigade_limit_get; brigade_limit_set := custom_brigade_limit_set;
  read_limit_get := custom_read_limit_get; read_limit_set := custom_read_limit_set;
  temp_dir_get := custom_temp_dir_get; temp_dir_set := custom_temp_dir_set
|}.

(** The handle; the brigade is looked at before it is tested for NULL. *)
Definition apreq_handle_custom (w : W) (query_string cookie : option bytes) (psr : option parser)
    (read_limit : Z) (in_bb : option brigade) : presult custom_handle :=
  match in_bb with
  | None => Aborts
  | Some i =>
      let '(jar, jar_status) :=
        match cookie with
        | Some c => let '(s, j) := apreq_parse_cookie_header apr_strtoi64 apr_date_parse_rfc now junk
                                     apr_table_make c in (Some j, s)
        | None => (None, APREQ_ERROR_NODATA)
        end in
      let '(args, args_status) :=
        match query_string with
        | Some q => let '(s, t) := apreq_parse_query_string hole apr_table_make q in (Some t, s)
        | None => (None, APREQ_ERROR_NODATA)
        end in
      Ok (CustomHandle cookie jar args (Some apr_table_make) jar_status args_status APR_INCOMPLETE
            psr read_limit stack i [] w)
  end.

End Custom.

(** * Properties *)

Section Facts.
Context {E : AprErrno} {T : AprTable} {TM : AprTableMerge} {X : Type} {XP : AprXml X} {H : HookEnv X}
        {W : Type} {F : AprFile W} {SM : AprStrmatch} {U : Type} {UP : UserParsers (X := X) (W := W) U}
        {AP : AprPartition}.
Context (FILE_BUCKET_LIMIT : nat) (hole : nat -> Byte.byte).
Abbreviation table := (apr_table apreq_param_t).
Abbreviation handle := (custom_handle (X := X) (W := W) (U := U)).
Abbreviation parse_brigade := (custom_parse_brigade FILE_BUCKET_LIMIT hole).
Abbreviation body_loop := (custom_body_loop FILE_BUCKET_LIMIT hole).

(** ** A step of the body *)

(** What stays, and what becomes of the table. *)
Definition body_step (req req' : handle) : Prop :=
  c_jar req' = c_jar req /\ c_jar_status req' = c_jar_status req /\
  c_args req' = c_args req /\ c_args_status req' = c_args_status req /\
  match c_body req, c_body req' with
  | Some t, Some t' => table_adds t t'
  | None, None => True
  | _, _ => False
  end.

Lemma body_step_refl req : body_step req req.
Proof. unfold body_step. split_and!; try done. destruct (c_body req); [apply adds_refl|done]. Qed.

Lemma body_step_trans r1 r2 r3 : body_step r1 r2 -> body_step r2 r3 -> body_step r1 r3.
Proof.
  intros (? & ? & ? & ? & Ha) (? & ? & ? & ? & Hb). split_and!; try congruence.
  destruct (c_body r1), (c_body r2), (c_body r3); try done. by eapply adds_trans.
Qed.

Lemma feed_step n i tmp req s req' :
  custom_feed FILE_BUCKET_LIMIT hole n i tmp req = Ok (s, req') ->
  body_step req req' /\ c_body_status req' = s.
Proof.
  unfold custom_feed. cbn zeta. destruct (_ <? _)%Z.
  { intros [= <- <-]. split; [exact (body_step_refl req)|done]. }
  cbn [set_body c_parser c_body c_sys]. destruct (c_parser req) as [psr|]; [|done].
  destruct (c_body req) as [t|] eqn:Et; [|done].
  destruct (apreq_parser_run _ _ _ _ _ _) as [[[[[s1 w1] p1] t1] b1]| |] eqn:Er; cbn [obind]; [|done..].
  intros [= <- <-]. split; [|done]. apply parser_run_adds in Er.
  unfold body_step. cbn. by rewrite Et.
Qed.

Lemma parse_brigade_step n req s req' :
  parse_brigade req n = Ok (s, req') -> body_step req req' /\ c_body_status req' = s.
Proof.
  unfold custom_parse_brigade. destruct (negb _).
  { intros [= <- <-]. split; [exact (body_step_refl req)|done]. }
  destruct (apr_brigade_partition _ _) as [[s0 i] e]. destruct (apreq_brigade_move _ _ _) as [tmp rest].
  destruct (s0 =? APR_SUCCESS)%Z; [apply feed_step|]. destruct (s0 =? APR_INCOMPLETE)%Z.
  - destruct (brigade_length tmp) as [s1 len]. destruct (negb _); [|apply feed_step].
    intros [= <- <-]. split; [exact (body_step_refl req)|done].
  - intros [= <- <-]. split; [exact (body_step_refl req)|done].
Qed.

Lemma body_loop_step fuel req req' :
  body_loop fuel req = Ok req' -> body_step req req' /\ c_body_status req' <> APR_INCOMPLETE.
Proof.
  revert req. induction fuel as [|fuel IH]; intros req; cbn [custom_body_loop];
    destruct (c_body_status req =? APR_INCOMPLETE)%Z eqn:Es; try done;
    try (apply Z.eqb_neq in Es; intros [= <-]; split; [exact (body_step_refl req)|done]).
  destruct (parse_brigade req READ_BYTES) as [[s r1]| |] eqn:Ep; cbn [obind]; [|done..].
  intros Hr. apply IH in Hr as [Hs Hd]. apply parse_brigade_step in Ep as [Hp _].
  split; [by eapply body_step_trans|done].
Qed.

Lemma body_loop_done fuel req : c_body_status req <> APR_INCOMPLETE -> body_loop fuel req = Ok req.
Proof. intros Hs. apply Z.eqb_neq in Hs. destruct fuel; cbn [custom_body_loop]; by rewrite Hs. Qed.

Lemma body_loop_mono fuel fuel' req req' :
  fuel <= fuel' -> body_loop fuel req = Ok req' -> body_loop fuel' req = Ok req'.
Proof.
  revert fuel' req. induction fuel as [|fuel IH]; intros fuel' req Hf; cbn [custom_body_loop].
  - destruct (_ =? _)%Z eqn:Es; [done|]. apply Z.eqb_neq in Es. intros [= <-]. by apply body_loop_done.
  - destruct fuel' as [|fuel']; [lia|]. cbn [custom_body_loop].
    destruct (_ =? _)%Z; [|done]. destruct (parse_brigade _ _) as [[s r1]| |]; cbn [obind]; [|done..].
    apply IH. lia.
Qed.

(** ** The promises of a module *)

(** The first entry of a table stays the first when entries are added. *)
Lemma get_adds t t' k p : table_adds t t' -> apr_table_get t k = Some p -> apr_table_get t' k = Some p.
Proof.
  intros [es He]. rewrite !get_elts, He. clear He. induction (apr_table_elts t) as [|e l IH]; cbn; [done|].
  destruct (strcaseeq k e.1); [done|exact IH].
Qed.

(** [body_get] stops early, but finds what the whole body has. *)
Lemma body_get_loop_finds fuel fuel' req req' k :
  fuel <= fuel' -> body_loop fuel req = Ok req' ->
  exists r1, custom_body_get_loop FILE_BUCKET_LIMIT hole fuel' req k =
      Ok (get_entry (c_body req') (Some k), r1) /\
    body_step req r1 /\ body_loop fuel r1 = Ok req'.
Proof.
  revert fuel' req. induction fuel as [|fuel IH]; intros fuel' req Hf Hr.
  - destruct (body_loop_step _ _ _ Hr) as [_ Hd]. cbn [custom_body_loop] in Hr.
    destruct (_ =? _)%Z eqn:Es; [done|]. injection Hr as ->.
    exists req'. split; [|split; [apply body_step_refl|by apply body_loop_done]].
    destruct fuel'; cbn [custom_body_get_loop]; rewrite Es; by destruct (get_entry _ _).
  - destruct (get_entry (c_body req) (Some k)) as [p|] eqn:Eg.
    + exists req. split; [|split; [apply body_step_refl|done]].
      assert (get_entry (c_body req') (Some k) = Some p) as ->.
      { apply body_loop_step in Hr as [(_ & _ & _ & _ & Ha) _].
        destruct (c_body req), (c_body req'); try done. by eapply get_adds. }
      destruct fuel'; cbn [custom_body_get_loop]; by rewrite Eg.
    + destruct fuel' as [|fuel']; [lia|]. cbn [custom_body_get_loop]. rewrite Eg.
      pose proof Hr as Hr0. cbn [custom_body_loop] in Hr. destruct (_ =? _)%Z eqn:Es.
      * destruct (parse_brigade req READ_BYTES) as [[s r1]| |] eqn:Ep; cbn [obind] in *; [|done..].
        destruct (IH fuel' r1) as (r2 & -> & Hs & Hl); [lia|done|].
        exists r2. split; [done|]. split.
        -- apply parse_brigade_step in Ep as [Hp _]. by eapply body_step_trans.
        -- eapply body_loop_mono; [|exact Hl]. lia.
      * injection Hr as <-. exists req. rewrite Eg. by split; [|split; [apply body_step_refl|]].
Qed.

Section Promises.
Context (turns : nat).
#[local] Instance the_module : apreq_module_t (U := U) handle :=
  custom_module FILE_BUCKET_LIMIT hole turns.

(** The body ends within the turns that are looked at. *)
Definition body_ends (req : handle) : Prop := exists req', body_loop turns req = Ok req'.

(** The tables are there when the handle is. *)
Definition custom_ok (req : handle) : Prop := is_Some (c_body req) /\ body_ends req.

Definition custom_view (req : handle) : view :=
  View (c_jar_status req, c_jar req) (c_args_status req, c_args req)
    (match body_loop turns req with
     | Ok req' => (c_body_status req', c_body req')
     | _ => (APR_INCOMPLETE, None)
     end).

Lemma custom_step req req' r2 :
  custom_ok req -> body_step req req' -> body_loop turns req = Ok r2 -> body_loop turns req' = Ok r2 ->
  custom_ok req' /\ custom_view req' = custom_view req.
Proof.
  intros [[t Ht] _] (Hj & Hjs & Ha & Has & Hb) Hl Hl'. split.
  - split; [|by exists r2]. rewrite Ht in Hb. by destruct (c_body req').
  - unfold custom_view. by rewrite Hj, Hjs, Ha, Has, Hl, Hl'.
Qed.

Lemma custom_frontend : Frontend custom_ok custom_view.
Proof.
  split; intros req.
  - intros Hok. exists req. by split.
  - intros Hok. exists req. by split.
  - intros Hok. pose proof Hok as [_ [r2 Hl]]. destruct (body_loop_step _ _ _ Hl) as [Hs Hd].
    exists r2. destruct (custom_step req r2 r2 Hok Hs Hl (body_loop_done _ _ Hd)) as [H1 H2].
    split; [|done]. unfold apreq_body, custom_view. cbn [body the_module custom_module].
    unfold custom_body. by rewrite Hl.
  - intros k Hok. exists req. split; [|done]. cbn. unfold custom_jar_get. by destruct (c_jar req).
  - intros k Hok. exists req. split; [|done]. cbn. unfold custom_args_get. by destruct (c_args req).
  - intros k Hok. pose proof Hok as [[t Ht] [r2 Hl]].
    destruct (body_get_loop_finds turns turns req r2 k ltac:(lia) Hl) as (r1 & Hg & Hs & Hl1).
    exists r1. destruct (custom_step req r1 r2 Hok Hs Hl Hl1) as [H1 H2]. split; [|done].
    unfold apreq_body_get, custom_view. cbn [body_get the_module custom_module v_body].
    unfold custom_body_get. rewrite Ht, Hl, Hg. unfold get_entry, first_of. cbn [snd].
    by destruct (c_body r2).
Qed.

End Promises.

(** ** The pieces of the body *)

Lemma brigade_length_readable bb :
  forallb readable bb = true -> brigade_length bb = (APR_SUCCESS, length (brigade_data bb)).
Proof.
  induction bb as [|e bb IH]; [done|]. cbn [forallb brigade_length]. rewrite andb_true_iff.
  intros [He Hb]. apply readable_read in He. rewrite brigade_data_cons.
  destruct (apr_bucket_read e) as [s d]. cbn [fst snd] in *. subst s. cbn [negb Z.eqb APR_SUCCESS].
  by rewrite IH, length_app.
Qed.

(** The brigade after the partition: a bucket before EOS may be split. *)
Lemma partition_shape cl point s i e :
  forallb plain cl = true -> apr_brigade_partition (cl ++ [BEos]) point = (s, i, e) ->
  exists cl', i = cl' ++ [BEos] /\ forallb plain cl' = true /\ brigade_data cl' = brigade_data cl /\
    e <= length i /\ (S e <= length cl' -> length (drop (S e) cl') < length cl).
Proof.
  intros Hp Hi. destruct (partition_split _ _ _ _ _ Hi) as [Hle [->|(a & x & k & c & Hc & Hk & -> & ->)]].
  { exists cl. split_and!; try done. intros Hl. rewrite length_drop. lia. }
  assert (Hx : exists c0, c = c0 ++ [BEos] /\ cl = a ++ x :: c0).
  { destruct c as [|z c _] using rev_ind.
    - apply app_inj_tail in Hc as [_ <-]. cbn in Hk. lia.
    - rewrite app_comm_cons, app_assoc in Hc. apply app_inj_tail in Hc as [-> <-]. by exists c. }
  destruct Hx as (c0 & -> & ->). clear Hc.
  pose proof (split_data x k ltac:(lia)) as [D1 D2].
  rewrite forallb_app in Hp. cbn [forallb] in Hp. rewrite !andb_true_iff in Hp.
  destruct Hp as (Ha & Hx & Hc0). destruct (split_plain x k Hx) as [P1 P2].
  exists (a ++ (apr_bucket_split x k).1 :: (apr_bucket_split x k).2 :: c0). split_and!; [|..|done|].
  - by rewrite <- app_assoc.
  - rewrite forallb_app. cbn [forallb]. by rewrite Ha, P1, P2, Hc0.
  - rewrite !brigade_data_app, !brigade_data_cons, D1, D2, (app_assoc (take k _)), take_drop. done.
  - intros _. rewrite length_drop, !length_app. cbn [length]. lia.
Qed.

(** What a turn moves: data that ends with EOS, or a part of it, and then the
    brigade gets shorter. *)
Lemma partition_piece cl point s i e :
  forallb plain cl = true -> apr_brigade_partition (cl ++ [BEos]) point = (s, i, e) ->
  (s = APR_SUCCESS \/ s = APR_INCOMPLETE) /\
  exists p c2, forallb plain p = true /\ brigade_data p ++ brigade_data c2 = brigade_data cl /\
    (s = APR_SUCCESS -> point <= length (brigade_data p)) /\
    ((apreq_brigade_move [] i e = (p, c2 ++ [BEos]) /\ forallb plain c2 = true /\
      length c2 < length cl /\ s = APR_SUCCESS) \/
     (apreq_brigade_move [] i e = (p ++ [BEos], []) /\ c2 = [])).
Proof.
  intros Hp Hi.
  assert (Hr : forallb readable (cl ++ [BEos]) = true).
  { rewrite forallb_app, andb_true_iff. split; [by apply plain_readable|done]. }
  pose proof (partition_works (cl ++ [BEos]) point Hr) as Hs. rewrite Hi in Hs. cbn [fst] in Hs.
  split; [done|]. destruct (partition_shape _ _ _ _ _ Hp Hi) as (cl' & -> & Hp' & Hd & Hle & Hlen).
  assert (Hsucc : s = APR_SUCCESS -> length (brigade_data (take e (cl' ++ [BEos]))) = point)
    by (intros ->; by eapply partition_success).
  assert (Hinc : s = APR_INCOMPLETE -> e = length (cl' ++ [BEos]))
    by (intros ->; by eapply (partition_incomplete (cl ++ [BEos]) point)).
  rewrite length_app in Hle, Hinc. cbn [length] in Hle, Hinc. unfold apreq_brigade_move.
  rewrite length_app. cbn [length]. destruct (decide (S e <= length cl')) as [Hl|Hl].
  - exists (take (S e) cl'), (drop (S e) cl'). rewrite <- (take_drop (S e) cl'), forallb_app, andb_true_iff in Hp'.
    destruct Hp' as [P1 P2]. split_and!; [done|by rewrite <- brigade_data_app, take_drop| |left].
    + intros Hok. rewrite <- (Hsucc Hok), take_app_le by lia.
      rewrite <- (take_drop e (take (S e) cl')), take_take, brigade_data_app, length_app.
      replace (Nat.min e (S e)) with e by lia. lia.
    + rewrite (proj2 (Nat.ltb_lt e _)) by lia. rewrite take_app_le, drop_app_le, app_nil_r by lia.
      split_and!; [done..|by apply Hlen|]. destruct Hs as [|Hs]; [done|]. apply Hinc in Hs. lia.
  - exists cl', []. split_and!; [done|by rewrite app_nil_r| |right].
    + intros Hok. rewrite <- (Hsucc Hok).
      assert (Hcl : brigade_data cl' = brigade_data (cl' ++ [BEos]))
        by (rewrite brigade_data_app; symmetry; apply app_nil_r).
      pose proof (brigade_data_app (take e (cl' ++ [BEos])) (drop e (cl' ++ [BEos]))) as Happ.
      rewrite take_drop in Happ. rewrite Hcl, Happ, length_app. lia.
    + split; [|done]. destruct (e <? length cl' + 1) eqn:Ee; [|done].
      apply Nat.ltb_lt in Ee. rewrite take_ge, drop_ge, app_nil_r by (rewrite length_app; cbn; lia). done.
Qed.

(** ** Urlencoded bodies *)

Abbreviation parser := (apreq_parser_t (X := X) (parser_ctx (X := X) U)).
Abbreviation url_of psr := (seen_as as_url psr).

(** A handle that reads a body, of which [i] is to come and within the limit;
    [s] is the status so far. *)
Definition reading (s : Z) (req : handle) (psr : parser) (t : apr_table apreq_param_t) (i : brigade)
  : Prop :=
  c_body_status req = s /\ c_parser req = Some psr /\ c_body req = Some t /\ c_tmpbb req = [] /\
  c_in req = i /\
  (0 <= c_bytes_read req /\ c_bytes_read req + Z.of_nat (length (brigade_data i)) <= c_read_limit req /\
   c_read_limit req < 2 ^ 64)%Z.

Lemma feed_reading n i tmp rest req psr t s w psr' t' bb :
  reading APR_INCOMPLETE req psr t i -> (0 <= n)%Z ->
  (n + Z.of_nat (length (brigade_data rest)) <= Z.of_nat (length (brigade_data i)))%Z ->
  apreq_parser_run FILE_BUCKET_LIMIT hole (c_sys req) psr t (Some tmp) = Ok (s, w, psr', t', bb) ->
  exists req', custom_feed FILE_BUCKET_LIMIT hole n rest tmp req = Ok (s, req') /\
    reading s req' psr' t' rest.
Proof.
  intros (Hs & Hp & Ht & Htmp & Hi & H0 & H1 & H2) Hn Hd Hr. unfold custom_feed. cbn zeta.
  assert (Hu : u64 (c_bytes_read req + n) = (c_bytes_read req + n)%Z)
    by (unfold u64; apply Z.mod_small; lia).
  rewrite Hu. cbn [set_body c_read_limit c_parser c_body c_sys]. rewrite Hp, Ht.
  assert ((c_read_limit req <? c_bytes_read req + n)%Z = false) as -> by (apply Z.ltb_ge; lia).
  rewrite Hr. eexists. split; [reflexivity|]. unfold reading. cbn. split_and!; try done; lia.
Qed.

(** The brigade of a body: its buckets and EOS, or nothing when they were read. *)
Definition stream (i : brigade) : Prop := i = [] \/ exists cl, i = cl ++ [BEos] /\ forallb plain cl = true.

(** What a turn takes off: nothing is left to take, a part, or all with EOS. *)
Definition piece (i tmp rest : brigade) : Prop :=
  (i = [] /\ tmp = [] /\ rest = []) \/
  (exists cl c2, i = cl ++ [BEos] /\ rest = c2 ++ [BEos] /\ forallb plain tmp = true /\
     forallb plain c2 = true /\ brigade_data tmp ++ brigade_data c2 = brigade_data cl /\
     length c2 < length cl) \/
  (exists cl p, i = cl ++ [BEos] /\ tmp = p ++ [BEos] /\ rest = [] /\ forallb plain p = true /\
     brigade_data p = brigade_data cl).

Lemma brigade_data_eos b : brigade_data (b ++ [BEos]) = brigade_data b.
Proof. rewrite brigade_data_app. apply app_nil_r. Qed.

(** A turn is a piece for the parser. *)
Lemma turn_feeds i : stream i ->
  exists n tmp rest, piece i tmp rest /\ (0 <= n)%Z /\
    (n + Z.of_nat (length (brigade_data rest)) <= Z.of_nat (length (brigade_data i)))%Z /\
    forall req : handle, c_body_status req = APR_INCOMPLETE -> c_in req = i -> c_tmpbb req = [] ->
      parse_brigade req READ_BYTES = custom_feed FILE_BUCKET_LIMIT hole n rest tmp req.
Proof.
  intros Hi. destruct (apr_brigade_partition i READ_BYTES) as [[s i'] e] eqn:Ep.
  assert (Hturn : forall tmp rest n, apreq_brigade_move [] i' e = (tmp, rest) ->
    (s = APR_SUCCESS /\ n = READ_BYTES \/ s = APR_INCOMPLETE /\ brigade_length tmp = (APR_SUCCESS, n)) ->
    forall req : handle, c_body_status req = APR_INCOMPLETE -> c_in req = i -> c_tmpbb req = [] ->
      parse_brigade req READ_BYTES = custom_feed FILE_BUCKET_LIMIT hole (Z.of_nat n) rest tmp req).
  { intros tmp rest n Hmv Hn req H1 H2 H3. unfold custom_parse_brigade.
    rewrite H1, Z.eqb_refl, H2, H3, Ep, Hmv. cbn [negb]. destruct Hn as [[-> ->]|[-> Hl]].
    - by rewrite Z.eqb_refl.
    - by rewrite eqb_incomplete_success, Z.eqb_refl, Hl, Z.eqb_refl. }
  destruct Hi as [->|(cl & -> & Hcl)].
  - destruct (partition_split _ _ _ _ _ Ep) as [Hle [->|(a & x & k & c & Hc & _)]]; [|by destruct a].
    assert (e = 0) as -> by (cbn in Hle; lia).
    pose proof (partition_works [] READ_BYTES eq_refl) as Hst. rewrite Ep in Hst. cbn [fst] in Hst.
    destruct Hst as [-> | ->].
    { pose proof (partition_success _ _ _ _ Ep) as Hl. cbn [take brigade_data flat_map length] in Hl.
      unfold READ_BYTES in Hl. lia. }
    exists (Z.of_nat 0), [], []. split; [by left|]. split; [lia|]. split; [cbn; lia|].
    apply Hturn; [done|by right].
  - destruct (partition_piece cl READ_BYTES s i' e Hcl Ep) as (Hst & p & c2 & P1 & Hd & Hle & Hmv).
    assert (Hdl : length (brigade_data p) + length (brigade_data c2) = length (brigade_data cl))
      by (rewrite <- Hd, length_app; lia).
    destruct Hmv as [(Hmv & P2 & Hlen & ->)|(Hmv & ->)].
    + exists (Z.of_nat READ_BYTES), p, (c2 ++ [BEos]). split; [right; left; by exists cl, c2|].
      specialize (Hle eq_refl). rewrite !brigade_data_eos. split; [lia|]. split; [lia|].
      apply Hturn; [done|by left].
    + rewrite app_nil_r in Hd. destruct Hst as [-> | ->].
      * exists (Z.of_nat READ_BYTES), (p ++ [BEos]), []. split; [right; right; by exists cl, p|].
        specialize (Hle eq_refl). rewrite !brigade_data_eos. split; [lia|]. split; [cbn [brigade_data flat_map length]; lia|].
        apply Hturn; [done|by left].
      * exists (Z.of_nat (length (brigade_data p))), (p ++ [BEos]), [].
        split; [right; right; by exists cl, p|]. rewrite !brigade_data_eos, Hd.
        split; [lia|]. split; [cbn [brigade_data flat_map length]; lia|]. rewrite <- Hd.
        apply Hturn; [done|right]. split; [done|]. rewrite brigade_length_readable, brigade_data_eos; [done|].
        rewrite forallb_app, andb_true_iff. split; [by apply plain_readable|done].
Qed.

Lemma piece_stream i tmp rest : piece i tmp rest -> stream rest.
Proof.
  intros [(_ & _ & ->)|[(cl & c2 & _ & -> & _ & Hp & _)|(cl & p & _ & _ & -> & _)]];
    [by left|right; by exists c2|by left].
Qed.

(** A piece is data, with EOS when it is the last. *)
Lemma piece_data i tmp rest : piece i tmp rest ->
  exists bb fin, tmp = bb ++ eos_if fin /\ forallb plain bb = true /\ (fin = true -> rest = []) /\
    brigade_data bb ++ brigade_data rest = brigade_data i /\
    (fin = false -> i = [] \/ exists cl c2, i = cl ++ [BEos] /\ rest = c2 ++ [BEos] /\ length c2 < length cl).
Proof.
  intros [(-> & -> & ->)|[(cl & c2 & -> & -> & Hp & _ & Hd & Hl)|(cl & p & -> & -> & -> & Hp & Hd)]].
  - exists [], false. by split_and!; try left.
  - exists tmp, false. rewrite app_nil_r, !brigade_data_eos. split_and!; try done. right. by exists cl, c2.
  - exists p, true. rewrite brigade_data_eos, Hd. split_and!; try done. apply app_nil_r.
Qed.

(** A body of which at most [n] turns are left, and what it parses to. *)
Definition awaits (n : nat) (v : Z * table) (req : handle) : Prop :=
  exists psr t i, reading APR_INCOMPLETE req psr t i /\ stream i /\
    url_waits hole v psr t (brigade_data i) /\
    ((exists cl, i = cl ++ [BEos] /\ length cl + 2 <= n) \/ url_failed (url_of psr) /\ 1 <= n).

Definition settled (v : Z * table) (req : handle) : Prop :=
  c_body_status req = url_status v /\ c_body req = Some v.2 /\
  (exists psr, c_parser req = Some psr /\ ps_hook psr = []).

Lemma settled_done v req : settled v req -> c_body_status req <> APR_INCOMPLETE.
Proof. intros [-> _]. apply url_status_done. Qed.

Lemma awaits_turn n v req :
  awaits (S n) v req ->
  exists s req', parse_brigade req READ_BYTES = Ok (s, req') /\ (awaits n v req' \/ settled v req').
Proof.
  intros (psr & t & i & Hr & Hi & Hw & Hn). pose proof Hr as (Hs & _ & _ & Htmp & Hin & _).
  destruct (turn_feeds i Hi) as (k & tmp & rest & Hp & Hk & Hlen & Hturn).
  destruct (piece_data i tmp rest Hp) as (bb & fin & -> & Hbb & Hfin & Hd & Hmore). rewrite <- Hd in Hw.
  destruct (url_turn FILE_BUCKET_LIMIT hole v psr t bb fin (brigade_data rest) (c_sys req) Hw Hbb)
    as (s & psr' & t' & b & Hrun & (H1 & H2 & Hh & H3) & H4); [intros Hf; by rewrite (Hfin Hf)|].
  destruct (feed_reading k i (bb ++ eos_if fin) rest req psr t s _ psr' t' b Hr Hk Hlen Hrun)
    as (req' & Hfeed & Hr'). exists s, req'. rewrite (Hturn req Hs Hin Htmp), Hfeed. split; [done|].
  destruct (decide (s = APR_INCOMPLETE)) as [->|Hne].
  - left. exists psr', t', rest. split_and!; [done|by eapply piece_stream|by apply H1|].
    destruct Hn as [(cl & -> & Hn)|[Hf _]]; [|by apply H4 in Hf].
    destruct fin; [right; split; [by apply H3|lia]|left].
    destruct (Hmore eq_refl) as [Hnil|(cl' & c2 & [-> _]%app_inj_tail & -> & Hl)]; [by destruct cl|].
    exists c2. split; [done|lia].
  - right. destruct (H2 Hne) as [-> ->], Hr' as (Hs' & Hp' & Ht' & _). split_and!; [done..|by exists psr'].
Qed.

Lemma awaits_positive n v req : awaits n v req -> 1 <= n.
Proof. intros (? & ? & ? & _ & _ & _ & [(? & _ & Hn)|[_ Hn]]); lia. Qed.

Lemma awaits_status n v req : awaits n v req -> c_body_status req = APR_INCOMPLETE.
Proof. by intros (? & ? & ? & (? & _) & _). Qed.

Lemma awaits_ends n v req :
  awaits n v req -> exists req', body_loop n req = Ok req' /\ settled v req'.
Proof.
  revert req. induction n as [|n IH]; intros req Ha; [by apply awaits_positive in Ha; lia|].
  cbn [custom_body_loop]. rewrite (awaits_status _ _ _ Ha), Z.eqb_refl.
  destruct (awaits_turn n v req Ha) as (s & req' & -> & [Hn|Hn]); cbn [obind].
  - by apply IH.
  - exists req'. split; [|done]. by apply body_loop_done, (settled_done v).
Qed.

(** ** Claims *)

Context (apr_strtoi64 : bytes -> Z * bytes) (apr_date_parse_rfc : bytes -> Z) (now : Z) (junk : bytes)
        (stack : Z) (turns : nat).
#[local] Existing Instance the_module.
#[local] Existing Instance custom_frontend.
Abbreviation handle_custom := (apreq_handle_custom (U := U) (W := W) hole apr_strtoi64 apr_date_parse_rfc now junk stack).

(** What cookie header, query string and body say, each as one string; a handle
    without one of the first two says so. *)
Definition jar_view (cookie : option bytes) : Z * option (apr_table apreq_cookie_t) :=
  match cookie with
  | None => (APREQ_ERROR_NODATA, None)
  | Some c =>
      let '(s, j) := apreq_parse_cookie_header apr_strtoi64 apr_date_parse_rfc now junk apr_table_make c in
      (s, Some j)
  end.
Definition args_view (query_string : option bytes) : Z * option (apr_table apreq_param_t) :=
  match query_string with
  | None => (APREQ_ERROR_NODATA, None)
  | Some q => let '(s, t) := apreq_parse_query_string hole apr_table_make q in (s, Some t)
  end.

Lemma handle_made w q ck psr limit i :
  exists req : handle, handle_custom w q ck psr limit (Some i) = Ok req /\
    (c_jar_status req, c_jar req) = jar_view ck /\ (c_args_status req, c_args req) = args_view q /\
    c_body req = Some apr_table_make /\ c_body_status req = APR_INCOMPLETE /\ c_parser req = psr /\
    c_read_limit req = limit /\ c_bytes_read req = stack /\ c_in req = i /\ c_tmpbb req = [].
Proof.
  unfold apreq_handle_custom, jar_view, args_view.
  destruct ck as [c|]; [destruct (apreq_parse_cookie_header _ _ _ _ _ _) as [s1 j]|];
    (destruct q as [q|]; [destruct (apreq_parse_query_string _ _ _) as [s2 a]|]);
    eexists; (split; [reflexivity|]); cbn; done.
Qed.

(** C32: a custom handle answers as the request says: however the body was cut
    into buckets, and whatever is asked in whatever order (the jar, the query
    string, the body, an entry of one of them, all parameters, a complete
    parse), the answers are those that the cookie header, the query string and
    the urlencoded body give when each is parsed as one string.  The parser is
    new and has no hooks.  The field [bytes_read], which the code does not
    initialise, happens to hold a number that together with the length of the body
    is within the read limit. *)
Theorem custom_handle_refines_request (w : W) (query_string cookie : option bytes) (psr : parser)
    (limit : Z) (cl : brigade) :
  ps_parser psr = apreq_parse_urlencoded_f -> ps_hook psr = [] -> ps_ctx psr = None ->
  forallb plain cl = true ->
  (0 <= stack)%Z -> (stack + Z.of_nat (length (brigade_data cl)) <= limit < 2 ^ 64)%Z ->
  length cl + 2 <= turns ->
  let v := urlencoded_form hole apr_table_make (brigade_data cl) in
  exists req,
    handle_custom w query_string cookie (Some psr) limit (Some (cl ++ [BEos])) = Ok req /\
    forall qs, exists req',
      ask_all (Mod := custom_module FILE_BUCKET_LIMIT hole turns) qs req =
        Ok (map (answer_of (View (jar_view cookie) (args_view query_string) (url_status v, Some v.2))) qs,
            req').
Proof.
  intros Hfn Hh Hc Hp H0 Hlim Hturns v.
  destruct (handle_made w query_string cookie (Some psr) limit (cl ++ [BEos]))
    as (req & Hq & Hj & Ha & Ht & Hs & Hpsr & Hl & Hb & Hi & Htmp).
  assert (Hr : reading APR_INCOMPLETE req psr apr_table_make (cl ++ [BEos])).
  { unfold reading. rewrite Hl, Hb, brigade_data_app, length_app. split_and!; try done; cbn; lia. }
  assert (Hu : url_pending (url_of psr) []) by (apply fresh_pending; [done|cbn; by rewrite Hc]).
  destruct (awaits_ends turns v req) as (r2 & Hl2 & Hs2 & Hb2 & _).
  { exists psr, apr_table_make, (cl ++ [BEos]). split_and!; [done|right; by exists cl| |left; by exists cl].
    split_and!; [done..|left]. exists []. by rewrite brigade_data_eos. }
  exists req. split; [done|]. intros qs.
  assert (Hok : custom_ok turns req) by (split; [by eexists|by eexists]).
  destruct (questions_refine_view (FE := custom_frontend turns) qs req Hok) as (req' & Hask & _). exists req'.
  etransitivity; [exact Hask|]. unfold custom_view. by rewrite Hl2, Hj, Ha, Hb2, Hs2.
Qed.

End Facts.

(** ** Witnesses *)

#[export] Program Instance list_merge : AprTableMerge (T := list_table) := {|
  apr_table_overlay := fun A a b => a ++ b;
  apr_table_copy := fun A a => a
|}.
Next Obligation. done. Qed.
Next Obligation. done. Qed.

#[export] Program Instance no_parsers : UserParsers (T := list_table) (X := unit) (W := unit) unit := {|
  user_parse := fun _ _ _ _ _ => Aborts
|}.
Next Obligation. done. Qed.

Lemma custom_handle_refines_request_witness :
  let psr := apreq_parser_make (T := list_table) (X := unit) [] apreq_parse_urlencoded_f 0 None [] None in
  let v := urlencoded_form (T := list_table) (fun _ => x00) apr_table_make (str "a=1&b=2") in
  exists req,
    apreq_handle_custom (U := unit) (fun _ => x00) (fun s => (0%Z, s)) (fun _ => 0%Z) 0 [] 0 tt
      (Some (str "a=0")) (Some (str "sid=7")) (Some psr) 100
      (Some [BData (str "a=1&b"); BData (str "=2"); BEos]) = Ok req /\
    forall qs, exists req',
      ask_all (Mod := custom_module 1000 (fun _ => x00) 4) qs req =
        Ok (map (answer_of (View (jar_view (fun s => (0%Z, s)) (fun _ => 0%Z) 0 [] (Some (str "sid=7")))
                   (args_view (fun _ => x00) (Some (str "a=0"))) (url_status v, Some v.2))) qs, req').
Proof.
  apply (custom_handle_refines_request (T := list_table) (X := unit) (W := unit) (U := unit) 1000
    (fun _ => x00) (fun s => (0%Z, s)) (fun _ => 0%Z) 0 [] 0 4 tt (Some (str "a=0")) (Some (str "sid=7"))
    (apreq_parser_make [] apreq_parse_urlencoded_f 0 None [] None) 100
    [BData (str "a=1&b"); BData (str "=2")]); try reflexivity; cbn; lia.
Defined.
