(* ===== verification/Cgi.v ===== *)
(** * The CGI handle ([src/libapreq2/library/module_cgi.c])

    A handle on the environment variables and the standard input of a CGI
    program.  Each part of the request is parsed when it is first asked for. *)
From S2P Require Import Prelude Apr Url Util Brigade Param Parser Urlencoded Header Boundary.
From S2P Require Import Multipart ParserRun Cookie Module Custom.

Definition APREQ_DEFAULT_READ_BLOCK_SIZE : nat := 64 * 1024.
Definition APREQ_DEFAULT_BRIGADE_LIMIT : nat := 256 * 1024.

(** ** The log *)

Definition CGILOG_EMERG : Z := 0.
Definition CGILOG_ALERT : Z := 1.
Definition CGILOG_CRIT : Z := 2.
Definition CGILOG_ERR : Z := 3.
Definition CGILOG_WARNING : Z := 4.
Definition CGILOG_NOTICE : Z := 5.
Definition CGILOG_INFO : Z := 6.
Definition CGILOG_DEBUG : Z := 7.
Definition CGILOG_LEVELMASK : Z := 7.

Definition priorities : list (bytes * Z) :=
  [(str "emerg", CGILOG_EMERG); (str "alert", CGILOG_ALERT); (str "crit", CGILOG_CRIT);
   (str "error", CGILOG_ERR); (str "warn", CGILOG_WARNING); (str "notice", CGILOG_NOTICE);
   (str "info", CGILOG_INFO); (str "debug", CGILOG_DEBUG)].

(** The formats that are used, with their arguments. *)
Inductive cgi_message :=
  | InvalidContentLength (header : bytes)
  | ContentLengthExceeds (header : bytes) (limit : Z)
  | BytesReadExceeds (read limit : Z).

(** A line, but for its date and its place in the source. *)
Record log_line := LogLine {
  l_priority : option bytes; l_remote : bytes; l_status : Z; l_message : cgi_message
}.

Section Cgi.
Context {E : AprErrno} {T : AprTable} {TM : AprTableMerge} {X : Type} {XP : AprXml X} {H : HookEnv X}
        {W : Type} {F : AprFile W} {SM : AprStrmatch} {U : Type} {UP : UserParsers (X := X) (W := W) U}
        {AP : AprPartition}.

(** [apr_env_get]: the environment; [stdin]: the buckets the pipe bucket on the
    standard input turns into as it is read; [turns]: how many turns of a loop
    are looked at. *)
Context (FILE_BUCKET_LIMIT : nat) (hole : nat -> Byte.byte) (apr_strtoi64 : bytes -> Z * bytes)
        (apr_date_parse_rfc : bytes -> Z) (now : Z) (junk : bytes) (apr_env_get : bytes -> option bytes)
        (reg : registry) (stdin : brigade) (turns : nat).

Abbreviation table := (apr_table apreq_param_t).
Abbreviation jar_table := (apr_table apreq_cookie_t).
Abbreviation parser := (apreq_parser_t (X := X) (parser_ctx (X := X) U)).
Abbreviation hooks := (list (apreq_hook_t (X := X))).

(** An empty [g_hook_queue] is NULL.  Of [find_param] only whether it was made is
    kept: its fields are set anew for each search. *)
Record cgi_handle := CgiHandle {
  g_jar : option jar_table;
  g_args : option table;
  g_body : option table;
  g_jar_status : Z;
  g_args_status : Z;
  g_body_status : Z;
  g_parser : option parser;
  g_hook_queue : hooks;
  g_find_param : bool;
  g_temp_dir : option bytes;
  g_brigade_limit : nat;
  g_read_limit : Z;
  g_bytes_read : Z;
  g_in : brigade;
  g_tmpbb : brigade;
  g_sys : W;                 (** the files of the system *)
  g_log : list log_line      (** what was written to the standard error *)
}.

(** The handle with another body and what belongs to it. *)
Definition put_body (t : option table) (s : Z) (psr : option parser) (n : Z) (i tmp : brigade) (w : W)
    (log : list log_line) (req : cgi_handle) : cgi_handle :=
  CgiHandle (g_jar req) (g_args req) t (g_jar_status req) (g_args_status req) s psr (g_hook_queue req)
    (g_find_param req) (g_temp_dir req) (g_brigade_limit req) (g_read_limit req) n i tmp w log.

Definition put_status (s : Z) (log : list log_line) (req : cgi_handle) : cgi_handle :=
  put_body (g_body req) s (g_parser req) (g_bytes_read req) (g_in req) (g_tmpbb req) (g_sys req) log req.

Definition put_parser (psr : option parser) (req : cgi_handle) : cgi_handle :=
  put_body (g_body req) (g_body_status req) psr (g_bytes_read req) (g_in req) (g_tmpbb req) (g_sys req)
    (g_log req) req.

Definition put_queue (hs : hooks) (find : bool) (dir : option bytes) (blimit : nat) (rlimit : Z)
    (req : cgi_handle) : cgi_handle :=
  CgiHandle (g_jar req) (g_args req) (g_body req) (g_jar_status req) (g_args_status req) (g_body_status req)
    (g_parser req) hs find dir blimit rlimit (g_bytes_read req) (g_in req) (g_tmpbb req) (g_sys req)
    (g_log req).

Definition put_jar (j : option jar_table) (s : Z) (req : cgi_handle) : cgi_handle :=
  CgiHandle j (g_args req) (g_body req) s (g_args_status req) (g_body_status req) (g_parser req)
    (g_hook_queue req) (g_find_param req) (g_temp_dir req) (g_brigade_limit req) (g_read_limit req)
    (g_bytes_read req) (g_in req) (g_tmpbb req) (g_sys req) (g_log req).

Definition put_args (t : option table) (s : Z) (req : cgi_handle) : cgi_handle :=
  CgiHandle (g_jar req) t (g_body req) (g_jar_status req) s (g_body_status req) (g_parser req)
    (g_hook_queue req) (g_find_param req) (g_temp_dir req) (g_brigade_limit req) (g_read_limit req)
    (g_bytes_read req) (g_in req) (g_tmpbb req) (g_sys req) (g_log req).

(** ** The environment *)

Definition cgi_header_in (name : bytes) : option bytes :=
  let key := map (fun k => if k =b? "-" then "_"%byte else toupper k) (str "HTTP_" ++ name) in
  let key := if bool_decide (key = str "HTTP_CONTENT_TYPE" \/ key = str "HTTP_CONTENT_LENGTH")
             then drop 5 key else key in
  apr_env_get key.

(** A [char] as an [int]. *)
Definition schar (b : Byte.byte) : Z := if (zb b <? 128)%Z then zb b else (zb b - 256)%Z.

(** The lines that are written: none for a level at or above the log level. *)
Definition cgi_log_error (level : Z) (status : Z) (msg : cgi_message) : list log_line :=
  let log_level :=
    match apr_env_get (str "LOG_LEVEL") with
    | Some s => (schar (default x00 (head s)) - 48)%Z
    | None => CGILOG_WARNING
    end in
  let level := Z.land level CGILOG_LEVELMASK in
  if (level <? log_level)%Z
  then [LogLine (fst <$> priorities !! Z.to_nat level)
          (default (str "address unavailable") (apr_env_get (str "REMOTE_ADDR"))) status msg]
  else [].

Definition cgi_query_string : option bytes := apr_env_get (str "QUERY_STRING").

(** ** The body *)

Definition error_line (status : Z) (msg : cgi_message) (req : cgi_handle) : cgi_handle :=
  put_status status (g_log req ++ cgi_log_error CGILOG_ERR status msg) req.

(** The test of the length that was announced: a status and what is logged. *)
Definition check_content_length (limit : Z) : option (Z * cgi_message) :=
  match cgi_header_in (str "Content-Length") with
  | None => None
  | Some cl_header =>
      let '(content_length, dummy) := apr_strtoi64 cl_header in
      match dummy with
      | _ :: _ => Some (APREQ_ERROR_BADHEADER, InvalidContentLength cl_header)
      | [] => if (limit <? u64 content_length)%Z
              then Some (APREQ_ERROR_OVERLIMIT, ContentLengthExceeds cl_header limit) else None
      end
  end.

(** The parser of the body: a new one, or the one that was set. *)
Definition body_parser_for (req : cgi_handle) : Z + parser :=
  match g_parser req with
  | None =>
      match cgi_header_in (str "Content-Type") with
      | None => inl APREQ_ERROR_NOHEADER
      | Some ct_header =>
          match apreq_parser reg (Some ct_header) with
          | None => inl APREQ_ERROR_NOPARSER
          | Some pf => inr (apreq_parser_make ct_header pf (g_brigade_limit req) (g_temp_dir req)
                              (g_hook_queue req) None)
          end
      end
  | Some psr =>
      let psr := Parser (ps_content_type psr) (ps_parser psr) (ps_hook psr)
                   (Nat.min (ps_brigade_limit psr) (g_brigade_limit req))
                   (match g_temp_dir req with Some d => Some d | None => ps_temp_dir psr end)
                   (ps_ctx psr) in
      inr (match g_hook_queue req with
           | [] => psr
           | hs => (apreq_parser_add_hook psr hs).2
           end)
  end.

Definition init_body (req : cgi_handle) : cgi_handle :=
  let req := put_body (Some apr_table_make) (g_body_status req) (g_parser req) (g_bytes_read req)
               (g_in req) (g_tmpbb req) (g_sys req) (g_log req) req in
  match check_content_length (g_read_limit req) with
  | Some (s, msg) => error_line s msg req
  | None =>
      match body_parser_for req with
      | inl s => put_status s (g_log req) req
      | inr psr =>
          let req := put_queue [] (g_find_param req) (g_temp_dir req) (g_brigade_limit req)
                       (g_read_limit req) req in
          put_body (g_body req) APR_INCOMPLETE (Some psr) (g_bytes_read req) (stdin ++ [BEos]) []
            (g_sys req) (g_log req) req
      end
  end.

(** After a brigade of [n] bytes was moved to [tmp]: the limit, and the parser. *)
Definition cgi_feed (n : Z) (i tmp : brigade) (req : cgi_handle) : presult (Z * cgi_handle) :=
  let read := u64 (g_bytes_read req + n) in
  let req := put_body (g_body req) (g_body_status req) (g_parser req) read i tmp (g_sys req)
               (g_log req) req in
  if (g_read_limit req <? read)%Z
  then Ok (APREQ_ERROR_OVERLIMIT,
           error_line APREQ_ERROR_OVERLIMIT (BytesReadExceeds read (g_read_limit req)) req)
  else
    match g_parser req, g_body req with
    | Some psr, Some t =>
        obind (fun '(s, w, psr, t, _) => Ok (s, put_body (Some t) s (Some psr) read i [] w (g_log req) req))
          (apreq_parser_run FILE_BUCKET_LIMIT hole (g_sys req) psr t (Some tmp))
    | _, _ => Aborts
    end.

Definition cgi_read (req : cgi_handle) (bytes : nat) : presult (Z * cgi_handle) :=
  let req := if (g_body_status req =? APR_EINIT)%Z then init_body req else req in
  if negb (g_body_status req =? APR_INCOMPLETE)%Z then Ok (g_body_status req, req)
  else
    let '(s, i, e) := apr_brigade_partition (g_in req) bytes in
    let '(tmp, rest) := apreq_brigade_move (g_tmpbb req) i e in
    if (s =? APR_SUCCESS)%Z then cgi_feed (Z.of_nat bytes) rest tmp req
    else if (s =? APR_INCOMPLETE)%Z then
      let '(s, len) := brigade_length tmp in
      if negb (s =? APR_SUCCESS)%Z
      then Ok (s, put_body (g_body req) s (g_parser req) (g_bytes_read req) rest tmp (g_sys req)
                    (g_log req) req)
      else cgi_feed (Z.of_nat len) rest tmp req
    else Ok (s, put_body (g_body req) s (g_parser req) (g_bytes_read req) i (g_tmpbb req) (g_sys req)
                  (g_log req) req).

(** ** The functions of the module *)

Definition cgi_jar (req : cgi_handle) : presult (Z * option jar_table * cgi_handle) :=
  let req :=
    if (g_jar_status req =? APR_EINIT)%Z then
      match cgi_header_in (str "Cookie") with
      | Some cookies =>
          let '(s, j) := apreq_parse_cookie_header apr_strtoi64 apr_date_parse_rfc now junk
                           apr_table_make cookies in
          put_jar (Some j) s req
      | None => put_jar (g_jar req) APREQ_ERROR_NODATA req
      end
    else req in
  Ok (g_jar_status req, g_jar req, req).

Definition cgi_args (req : cgi_handle) : presult (Z * option table * cgi_handle) :=
  let req :=
    if (g_args_status req =? APR_EINIT)%Z then
      match cgi_query_string with
      | Some qs =>
          let '(s, t) := apreq_parse_query_string hole apr_table_make qs in put_args (Some t) s req
      | None => put_args (g_args req) APREQ_ERROR_NODATA req
      end
    else req in
  Ok (g_args_status req, g_args req, req).

(** [apr_table_get], which follows the name. *)
Definition lookup_entry {A} (t : option (apr_table A)) (name : option bytes) : presult (option A) :=
  match t, name with
  | None, _ => Ok None
  | Some t, Some name => Ok (apr_table_get t name)
  | Some _, None => Aborts
  end.

Definition cgi_jar_get (req : cgi_handle) (name : option bytes)
  : presult (option apreq_cookie_t * cgi_handle) :=
  obind (fun '(_, t, req) => obind (fun c => Ok (c, req)) (lookup_entry t name))
    (if (g_jar_status req =? APR_EINIT)%Z then cgi_jar req else Ok (g_jar_status req, g_jar req, req)).

Definition cgi_args_get (req : cgi_handle) (name : option bytes)
  : presult (option apreq_param_t * cgi_handle) :=
  obind (fun '(_, t, req) => obind (fun p => Ok (p, req)) (lookup_entry t name))
    (if (g_args_status req =? APR_EINIT)%Z then cgi_args req
     else Ok (g_args_status req, g_args req, req)).

(** [while (cgi_read(...) == APR_INCOMPLETE);] *)
Fixpoint cgi_read_loop (fuel : nat) (req : cgi_handle) : presult cgi_handle :=
  match fuel with
  | O => NoFuel
  | S fuel =>
      obind (fun '(s, req) => if (s =? APR_INCOMPLETE)%Z then cgi_read_loop fuel req else Ok req)
        (cgi_read req APREQ_DEFAULT_READ_BLOCK_SIZE)
  end.

Definition cgi_body (req : cgi_handle) : presult (Z * option table * cgi_handle) :=
  let s := g_body_status req in
  let req := if (s =? APR_EINIT)%Z then init_body req else req in
  obind (fun req => Ok (g_body_status req, g_body req, req))
    (if (s =? APR_EINIT)%Z || (s =? APR_INCOMPLETE)%Z then
       if (g_body_status req =? APR_INCOMPLETE)%Z then cgi_read_loop turns req else Ok req
     else Ok req).

(** The hook that looks for a parameter, at the head of the parser's hooks, and
    the parser without it. *)
Definition push_find (name : bytes) (req : cgi_handle) : presult cgi_handle :=
  match g_parser req with
  | None => Aborts
  | Some psr =>
      Ok (put_parser (Some (set_hook psr (Hook HookFindParam (CtxKey name) :: ps_hook psr)))
            (put_queue (g_hook_queue req) true (g_temp_dir req) (g_brigade_limit req) (g_read_limit req) req))
  end.
Definition pop_find (req : cgi_handle) : cgi_handle :=
  put_parser ((fun psr => set_hook psr (tail (ps_hook psr))) <$> g_parser req) req.

(** [h->ctx], when it is no longer the name. *)
Definition found_param (req : cgi_handle) : option apreq_param_t :=
  psr ← g_parser req; h ← head (ps_hook psr);
  match h_ctx h with CtxParam p => Some p | _ => None end.

Fixpoint cgi_find_loop (fuel : nat) (req : cgi_handle) : presult (option apreq_param_t * cgi_handle) :=
  match fuel with
  | O => NoFuel
  | S fuel =>
      obind (fun '(_, req) =>
        match found_param req with
        | Some p => Ok (Some p, pop_find req)
        | None => if (g_body_status req =? APR_INCOMPLETE)%Z then cgi_find_loop fuel req
                  else Ok (None, pop_find req)
        end)
      (cgi_read req APREQ_DEFAULT_READ_BLOCK_SIZE)
  end.

(** The case [APR_INCOMPLETE]: the table, then the rest of the body. *)
Definition cgi_find (req : cgi_handle) (name : option bytes)
  : presult (option apreq_param_t * cgi_handle) :=
  obind (fun val =>
    match val, name with
    | Some p, _ => Ok (Some p, req)
    | None, Some name => obind (cgi_find_loop turns) (push_find name req)
    | None, None => Aborts
    end) (lookup_entry (g_body req) name).

Definition cgi_body_get (req : cgi_handle) (name : option bytes)
  : presult (option apreq_param_t * cgi_handle) :=
  let s := g_body_status req in
  if (s =? APR_EINIT)%Z then
    let req := init_body req in
    if negb (g_body_status req =? APR_INCOMPLETE)%Z then Ok (None, req)
    else obind (fun '(_, req) => cgi_find req name) (cgi_read req APREQ_DEFAULT_READ_BLOCK_SIZE)
  else if (s =? APR_INCOMPLETE)%Z then cgi_find req name
  else obind (fun val => Ok (val, req)) (lookup_entry (g_body req) name).

Definition cgi_parser_get (req : cgi_handle) : presult (Z * option parser * cgi_handle) :=
  Ok (APR_SUCCESS, g_parser req, req).

Definition cgi_parser_set (req : cgi_handle) (psr : parser) : presult (Z * cgi_handle) :=
  match g_parser req with
  | Some _ => Ok (APREQ_ERROR_MISMATCH, req)
  | None =>
      let psr := match g_hook_queue req with
                 | [] => psr
                 | hs => (apreq_parser_add_hook psr hs).2
                 end in
      let psr := Parser (ps_content_type psr) (ps_parser psr) (ps_hook psr)
                   (Nat.min (g_brigade_limit req) (ps_brigade_limit psr))
                   (match g_temp_dir req with Some d => Some d | None => ps_temp_dir psr end)
                   (ps_ctx psr) in
      Ok (APR_SUCCESS,
          put_parser (Some psr)
            (put_queue [] (g_find_param req) (g_temp_dir req) (g_brigade_limit req) (g_read_limit req) req))
  end.

Definition cgi_hook_add (req : cgi_handle) (hook : hooks) : presult (Z * cgi_handle) :=
  match g_parser req with
  | Some psr =>
      let '(s, psr) := apreq_parser_add_hook psr hook in Ok (s, put_parser (Some psr) req)
  | None =>
      Ok (APR_SUCCESS,
          put_queue (g_hook_queue req ++ hook) (g_find_param req) (g_temp_dir req) (g_brigade_limit req)
            (g_read_limit req) req)
  end.

(** The parser with another limit or directory. *)
Definition set_brigade_limit (n : nat) (psr : parser) : parser :=
  Parser (ps_content_type psr) (ps_parser psr) (ps_hook psr) n (ps_temp_dir psr) (ps_ctx psr).
Definition set_temp_dir (d : option bytes) (psr : parser) : parser :=
  Parser (ps_content_type psr) (ps_parser psr) (ps_hook psr) (ps_brigade_limit psr) d (ps_ctx psr).

Definition cgi_brigade_limit_set (req : cgi_handle) (bytes : nat) : presult (Z * cgi_handle) :=
  Ok (match g_parser req with
      | None =>
          if bytes <? g_brigade_limit req
          then (APR_SUCCESS, put_queue (g_hook_queue req) (g_find_param req) (g_temp_dir req) bytes
                               (g_read_limit req) req)
          else (APREQ_ERROR_MISMATCH, req)
      | Some psr =>
          if bytes <? ps_brigade_limit psr
          then (APR_SUCCESS, put_parser (Some (set_brigade_limit bytes psr)) req)
          else (APREQ_ERROR_MISMATCH, req)
      end).

Definition cgi_brigade_limit_get (req : cgi_handle) : presult (Z * nat * cgi_handle) :=
  Ok (APR_SUCCESS, match g_parser req with
                   | None => g_brigade_limit req | Some psr => ps_brigade_limit psr end, req).

Definition cgi_read_limit_set (req : cgi_handle) (bytes : Z) : presult (Z * cgi_handle) :=
  Ok (if (bytes <? g_read_limit req)%Z && (g_bytes_read req <? bytes)%Z
      then (APR_SUCCESS, put_queue (g_hook_queue req) (g_find_param req) (g_temp_dir req)
                           (g_brigade_limit req) bytes req)
      else (APREQ_ERROR_MISMATCH, req)).

Definition cgi_read_limit_get (req : cgi_handle) : presult (Z * Z * cgi_handle) :=
  Ok (APR_SUCCESS, g_read_limit req, req).

Definition cgi_temp_dir_get (req : cgi_handle) : presult (Z * option bytes * cgi_handle) :=
  Ok (APR_SUCCESS, match g_parser req with
                   | None => g_temp_dir req | Some psr => ps_temp_dir psr end, req).

Definition cgi_temp_dir_set (req : cgi_handle) (path : option bytes) : presult (Z * cgi_handle) :=
  let old := match g_parser req with None => g_temp_dir req | Some psr => ps_temp_dir psr end in
  Ok (match old with
      | Some _ => (APREQ_ERROR_MISMATCH, req)
      | None =>
          if negb (g_bytes_read req =? 0)%Z then (APREQ_ERROR_MISMATCH, req)
          else (APR_SUCCESS,
                match g_parser req with
                | None => put_queue (g_hook_queue req) (g_find_param req) path (g_brigade_limit req)
                            (g_read_limit req) req
                | Some psr => put_parser (Some (set_temp_dir path psr)) req
                end)
      end).

Definition cgi_module : apreq_module_t (U := U) cgi_handle := {|
  name := str "cgi"; magic_number := 20050425;
  jar := cgi_jar; args := cgi_args; body := cgi_body;
  jar_get := cgi_jar_get; args_get := cgi_args_get; body_get := cgi_body_get;
  parser_get := cgi_parser_get; parser_set := cgi_parser_set; hook_add := cgi_hook_add;
  brigade_limit_get := cgi_brigade_limit_get; brigade_limit_set := cgi_brigade_limit_set;
  read_limit_get := cgi_read_limit_get; read_limit_set := cgi_read_limit_set;
  temp_dir_get := cgi_temp_dir_get; temp_dir_set := cgi_temp_dir_set
|}.

(** The handle of a pool: the one its user data holds, or a new one. *)
Definition apreq_handle_cgi (w : W) (userdata : option cgi_handle) : cgi_handle :=
  match userdata with
  | Some req => req
  | None => CgiHandle None None None APR_EINIT APR_EINIT APR_EINIT None [] false None
              APREQ_DEFAULT_BRIGADE_LIMIT (2 ^ 64 - 1) 0 [] [] w []
  end.

End Cgi.

(** * Properties *)

(** ** The hook that looks for a parameter *)

Section Find.
Context {E : AprErrno} {T : AprTable} {X : Type} {XP : AprXml X} {H : HookEnv X}.

(** The first of the entries with the name. *)
Definition first_entry {A} (k : bytes) (es : list (bytes * A)) : option A :=
  snd <$> List.find (fun e => strcaseeq k e.1) es.

Abbreviation hook_ctx := (hook_ctx (X := X)).

(** The context of the hook after parameters went by. *)
Definition found_ctx (c : hook_ctx) (es : list (bytes * apreq_param_t)) : hook_ctx :=
  match c with
  | CtxKey k => match first_entry k es with Some p => CtxParam p | None => c end
  | _ => c
  end.

(** Names that a C string shows, and parameters of a urlencoded body. *)
Definition named (es : list (bytes * apreq_param_t)) : Prop :=
  Forall (fun e => e.1 <> [] /\ p_info e.2 = None) es.

(** The first bytes of a parameter are the pointer [info]: when it is NULL they
    are no string. *)
Context (Hbytes : forall p, p_info p = None -> cstr (struct_bytes p) = []).

Abbreviation find_hook c := (Hook (X := X) HookFindParam c).
Definition searches (c : hook_ctx) : Prop :=
  match c with CtxKey _ => True | CtxParam p => p_info p = None | _ => False end.

Lemma find_hook_run c p : searches c -> cstr (p_name p) <> [] ->
  apreq_hook_run [find_hook c] p None =
    (APR_SUCCESS, [find_hook (found_ctx c [(cstr (p_name p), p)])], p, None).
Proof.
  intros Hc Hp. cbn [apreq_hook_run h_hook h_ctx is_final andb].
  destruct c as [|k|q|]; cbn [searches] in Hc; try done.
  - unfold found_ctx, first_entry. cbn. by destruct (strcaseeq k (cstr (p_name p))).
  - rewrite Hbytes by done. by destruct (cstr (p_name p)).
Qed.

Lemma found_ctx_app c a b : found_ctx c (a ++ b) = found_ctx (found_ctx c a) b.
Proof.
  destruct c as [|k|q|]; try done. unfold found_ctx, first_entry.
  induction a as [|e a IH]; [done|]. cbn. by destruct (strcaseeq k e.1).
Qed.

Lemma searches_found c es : searches c -> named es -> searches (found_ctx c es).
Proof.
  destruct c as [|k|q|]; cbn; try done. unfold first_entry. intros _ Hn.
  destruct (List.find _ es) as [e|] eqn:Ef; [|done]. cbn. apply List.find_some in Ef as [Hin _].
  unfold named in Hn. rewrite List.Forall_forall in Hn. by apply Hn.
Qed.

Lemma url_word_find hole c bb n v : searches c ->
  match url_word hole [] bb n v with
  | (s, Some p, bb', _) => cstr (p_name p) <> [] ->
      url_word hole [find_hook c] bb n v =
        (s, Some p, bb', [find_hook (found_ctx c [(cstr (p_name p), p)])])
  | (s, None, bb', _) => url_word hole [find_hook c] bb n v = (s, None, bb', [find_hook c])
  end.
Proof.
  intros Hc. unfold url_word. destruct (split_urlword hole bb n v) as [[s [p|]] bb']; [|done].
  assert (apreq_hook_run [] p None = (APR_SUCCESS, [], p, None)) as -> by done.
  intros Hp. by rewrite find_hook_run.
Qed.

(** What the parser keeps the same when the hook is there. *)
Definition same_but_hook (r r' : urlenc_result (X := X)) (c : hook_ctx) : Prop :=
  r' = UrlParsed (ue_status r) (ue_table r) (ue_ctx r) [find_hook c] (ue_bb r).

Lemma no_entries (t : apr_table apreq_param_t) es : apr_table_elts t = apr_table_elts t ++ es -> es = [].
Proof. intros Heq. apply (app_inv_head (apr_table_elts t)). by rewrite <- Heq, app_nil_r. Qed.

(** A pair that stays in the table comes first among the entries. *)
Lemma added_first (p : apreq_param_t) t t' es : table_adds (apreq_value_table_add p t) t' ->
  apr_table_elts t' = apr_table_elts t ++ es ->
  exists es', es = (cstr (p_name p), p) :: es' /\
    apr_table_elts t' = apr_table_elts (apreq_value_table_add p t) ++ es'.
Proof.
  intros [es' He] Hes. exists es'. split; [|done].
  apply (app_inv_head (apr_table_elts t)). rewrite <- Hes, He. unfold apreq_value_table_add.
  by rewrite elts_add, <- app_assoc.
Qed.

(** The last turn. *)
Lemma url_brigade_find_last fuel hole t c bb tail es :
  forallb plain bb = true -> tail = [] \/ tail = [BEos] -> next_pair (brigade_data bb) = None ->
  searches c -> named es ->
  apr_table_elts (ue_table (url_brigade fuel hole t [] (bb ++ tail))) = apr_table_elts t ++ es ->
  same_but_hook (url_brigade fuel hole t [] (bb ++ tail))
    (url_brigade fuel hole t [find_hook c] (bb ++ tail)) (found_ctx c es).
Proof.
  intros Hp Htail En Hc Hn. unfold same_but_hook.
  assert (Hnone : found_ctx c [] = c) by (by destruct c). destruct Htail as [-> | ->].
  - destruct (scan_more bb Hp En) as (st & bb' & Hs & _). rewrite app_nil_r.
    destruct fuel; cbn [url_brigade]; rewrite Hs; cbn; intros He; apply no_entries in He as ->;
      by rewrite Hnone.
  - pose proof (scan_eos hole _ Hp En) as Hs. destruct (memchr (brigade_data bb) "=") as [k|].
    + destruct Hs as (bb' & Hs & Hw).
      pose proof (url_word_find hole c bb' k (length (brigade_data bb) - S k) Hc) as Hfw.
      assert (Hb : forall hs, url_brigade fuel hole t hs (bb ++ [BEos]) =
        match url_word hole hs bb' k (length (brigade_data bb) - S k) with
        | (s, Some p, bb, hs) =>
            if (s =? APR_SUCCESS)%Z
            then UrlParsed s (apreq_value_table_add p t) (UrlCtx [] URL_COMPLETE) hs bb
            else UrlParsed s t (UrlCtx [] URL_ERROR) hs bb
        | (s, None, bb, hs) => UrlParsed s t (UrlCtx [] URL_ERROR) hs bb
        end) by (intros hs; destruct fuel; cbn [url_brigade]; by rewrite Hs).
      rewrite !Hb. rewrite url_word_nohook, Hw in *.
      destruct (pair_param hole _ _) as [s [p|]]; cbn [Z.eqb APR_SUCCESS ue_table ue_status ue_ctx ue_bb].
      * intros He. destruct (added_first p t _ es (adds_refl _) He) as (es' & -> & He').
        apply no_entries in He' as ->. inversion Hn as [|? ? [Hp1 _] _]; subst. by rewrite Hfw.
      * intros He. apply no_entries in He as ->. by rewrite Hfw, Hnone.
    + destruct Hs as (n & Hs).
      destruct fuel; cbn [url_brigade]; rewrite Hs; cbn; intros He; apply no_entries in He as ->;
        by rewrite Hnone.
Qed.

(** The parser with the hook does what it does without, and the hook finds the
    first parameter with its name. *)
Lemma url_brigade_find fuel hole t c bb tail es :
  forallb plain bb = true -> tail = [] \/ tail = [BEos] -> length (brigade_data bb) <= fuel ->
  searches c -> named es ->
  apr_table_elts (ue_table (url_brigade fuel hole t [] (bb ++ tail))) = apr_table_elts t ++ es ->
  same_but_hook (url_brigade fuel hole t [] (bb ++ tail))
    (url_brigade fuel hole t [find_hook c] (bb ++ tail)) (found_ctx c es).
Proof.
  unfold same_but_hook.
  revert t c bb es. induction fuel as [|fuel IH]; intros t c bb es Hp Htail Hf Hc Hn;
    destruct (next_pair (brigade_data bb)) as [[[n v] r]|] eqn:En.
  - apply next_pair_shorter in En. lia.
  - by apply url_brigade_find_last.
  - destruct (scan_pair hole bb tail n v r Hp En) as (bb' & b2 & Hs & Hd & P2 & Hw).
    cbn [url_brigade]. rewrite Hs. pose proof (url_word_find hole c bb' (length n) (length v) Hc) as Hfw.
    rewrite url_word_nohook, Hw in *. apply next_pair_shorter in En.
    destruct (pair_param hole n v) as [s [p|]] eqn:Ep.
    + cbn [Z.eqb APR_SUCCESS]. intros He.
      destruct (added_first p t _ es (url_brigade_adds _ _ _ _ _) He) as (es' & -> & He').
      inversion Hn as [|? ? [Hp1 Hp2] Hn']; subst. rewrite Hfw by done. cbn [Z.eqb APR_SUCCESS].
      rewrite (IH _ _ b2 es'); [|done|done|lia| |done|done].
      2: { apply searches_found; [done|by constructor]. }
      change ((cstr (p_name p), p) :: es') with ([(cstr (p_name p), p)] ++ es'). by rewrite found_ctx_app.
    + cbn [ue_table ue_status ue_ctx ue_bb]. intros He. apply no_entries in He as ->.
      rewrite Hfw. by destruct c.
  - by apply url_brigade_find_last.
Qed.

(** The same for a call of the parser. *)
Abbreviation with_find psr c := (set_hook psr [find_hook c]).

Lemma parse_find hole psr rest t bb tail c es :
  url_pending psr rest -> forallb plain bb = true -> tail = [] \/ tail = [BEos] ->
  searches c -> named es ->
  let '(s, p, t', b) := apreq_parse_urlencoded hole psr t (Some (bb ++ tail)) in
  apr_table_elts t' = apr_table_elts t ++ es ->
  apreq_parse_urlencoded hole (with_find psr c) t (Some (bb ++ tail)) =
    (s, with_find p (found_ctx c es), t', b).
Proof.
  intros Hu Hp Htail Hc Hn. pose proof Hu as (Hh & H1 & H2 & P0 & Hd).
  unfold apreq_parse_urlencoded. cbn [set_hook ps_ctx ps_hook]. rewrite Hh.
  assert (parser_status_check (match u_status (default (UrlCtx [] URL_NAME) (ps_ctx psr)) with
            URL_ERROR => true | _ => false end)
          (match u_status (default (UrlCtx [] URL_NAME) (ps_ctx psr)) with
            URL_COMPLETE => true | _ => false end) false = None) as ->
    by (destruct (u_status _); done).
  set (b0 := u_bb _) in *. cbn [default from_option id]. rewrite (app_assoc b0).
  intros He. pose proof (url_brigade_find (length (brigade_data ((b0 ++ bb) ++ tail))) hole t c (b0 ++ bb)
    tail es) as Hr. unfold same_but_hook in Hr. rewrite Hr; [done|..|done|done|exact He].
  - by rewrite forallb_app, P0.
  - done.
  - rewrite (brigade_data_app (b0 ++ bb)), length_app. lia.
Qed.

Lemma parse_find_failed hole psr t bb c :
  url_failed psr ->
  let '(s, p, t', b) := apreq_parse_urlencoded hole psr t bb in
  t' = t /\ apreq_parse_urlencoded hole (with_find psr c) t bb = (s, with_find p c, t', b).
Proof.
  unfold url_failed, apreq_parse_urlencoded. intros Hf. cbn [set_hook ps_ctx]. rewrite Hf.
  by cbn [parser_status_check].
Qed.

End Find.

Section Facts.
Context {E : AprErrno} {T : AprTable} {TM : AprTableMerge} {X : Type} {XP : AprXml X} {H : HookEnv X}
        {W : Type} {F : AprFile W} {SM : AprStrmatch} {U : Type} {UP : UserParsers (X := X) (W := W) U}
        {AP : AprPartition}.
Context (FILE_BUCKET_LIMIT : nat) (hole : nat -> Byte.byte) (apr_strtoi64 : bytes -> Z * bytes)
        (apr_date_parse_rfc : bytes -> Z) (now : Z) (junk : bytes) (apr_env_get : bytes -> option bytes)
        (reg : registry) (stdin : brigade) (turns : nat).
Context (Hbytes : forall p, p_info p = None -> cstr (struct_bytes p) = []).
Abbreviation table := (apr_table apreq_param_t).
Abbreviation parser := (apreq_parser_t (X := X) (parser_ctx (X := X) U)).
Abbreviation handle := (cgi_handle (X := X) (W := W) (U := U)).
Abbreviation chandle := (custom_handle (X := X) (W := W) (U := U)).
Abbreviation parse_brigade := (custom_parse_brigade FILE_BUCKET_LIMIT hole).
Abbreviation body_loop := (custom_body_loop FILE_BUCKET_LIMIT hole).
Abbreviation read := (cgi_read FILE_BUCKET_LIMIT hole apr_strtoi64 apr_env_get reg stdin).

(** ** The body as that of a custom handle *)

(** The find hook on the parser of a custom handle. *)
Definition hooked (c : hook_ctx) (req : chandle) : chandle :=
  set_body (c_body req) (c_body_status req)
    ((fun psr => set_hook psr [Hook HookFindParam c]) <$> c_parser req) (c_bytes_read req) (c_in req)
    (c_tmpbb req) (c_sys req) req.

Abbreviation url_of psr := (seen_as as_url psr).

Lemma feed_hooked v n i tmp rest req c es s req' t t' :
  awaits hole (S n) v req -> piece i tmp rest -> c_in req = i ->
  c_body req = Some t -> c_body req' = Some t' -> apr_table_elts t' = apr_table_elts t ++ es ->
  searches c -> named es ->
  forall k, custom_feed FILE_BUCKET_LIMIT hole k rest tmp req = Ok (s, req') ->
  custom_feed FILE_BUCKET_LIMIT hole k rest tmp (hooked c req) = Ok (s, hooked (found_ctx c es) req').
Proof.
  intros Ha Hp Hi Ht Ht' He Hc Hn k. unfold custom_feed. cbn zeta.
  cbn [hooked set_body c_bytes_read c_read_limit c_parser c_body c_body_status c_sys].
  destruct (_ <? _)%Z.
  - intros [= <- <-]. cbn in Ht'. rewrite Ht in Ht'. injection Ht' as <-.
    apply no_entries in He as ->. by destruct c.
  - destruct Ha as (psr & t0 & i0 & (_ & Hpsr & Hb & _ & Hin & _) & _ & (Hfn & _ & Hu) & _).
    rewrite Hpsr. cbn [fmap option_fmap option_map]. rewrite Ht. rewrite Ht in Hb. injection Hb as Hb. subst.
    unfold apreq_parser_run. cbn [set_hook ps_parser]. rewrite Hfn.
    change (seen_as as_url (set_hook psr ?h)) with (set_hook (url_of psr) h).
    destruct Hu as [(rest0 & Hu & _)|(Hf & -> & _)].
    + destruct (piece_data _ _ _ Hp) as (bb & fin & -> & Hbb & _).
      pose proof (parse_find Hbytes hole (url_of psr) rest0 t0 bb (eos_if fin) c es Hu Hbb
        ltac:(destruct fin; auto) Hc Hn) as Hfind.
      destruct (apreq_parse_urlencoded hole (url_of psr) t0 _) as [[[s1 p1] t1] b1]. cbn [obind].
      intros [= <- <-]. cbn in Ht'. injection Ht' as <-. rewrite (Hfind He). done.
    + pose proof (parse_find_failed hole (url_of psr) v.2 (Some tmp) c Hf) as Hfind.
      destruct (apreq_parse_urlencoded hole (url_of psr) v.2 _) as [[[s1 p1] t1] b1]. cbn [obind].
      intros [= <- <-]. cbn in Ht'. injection Ht' as <-. destruct Hfind as [-> Hfind].
      apply no_entries in He as ->. rewrite Hfind. by destruct c.
Qed.

(** Entries that a turn adds are entries of the whole form. *)
Lemma turn_adds n v req s req' :
  awaits hole (S n) v req -> parse_brigade req READ_BYTES = Ok (s, req') ->
  exists t t' es, c_body req = Some t /\ c_body req' = Some t' /\
    apr_table_elts t' = apr_table_elts t ++ es /\ table_adds t' v.2 /\
    (awaits hole n v req' \/ settled v req').
Proof.
  intros Ha Hp. pose proof Ha as (psr & t & i & (_ & _ & Ht & _) & _).
  destruct (awaits_turn FILE_BUCKET_LIMIT hole n v req Ha) as (s1 & r1 & Hp1 & Hn).
  rewrite Hp in Hp1. injection Hp1 as <- <-. apply parse_brigade_step in Hp as [(_ & _ & _ & _ & Hb) _].
  rewrite Ht in Hb. destruct (c_body req') as [t'|] eqn:Et'; [|done]. destruct Hb as [es He].
  exists t, t', es. split_and!; try done. destruct Hn as [Hn|(_ & Hn & _)].
  - destruct (awaits_ends FILE_BUCKET_LIMIT hole n v req' Hn) as (r2 & Hl & (_ & Hr2 & _)).
    apply body_loop_step in Hl as [(_ & _ & _ & _ & Hb) _]. by rewrite Et', Hr2 in Hb.
  - rewrite Et' in Hn. injection Hn as ->. apply adds_refl.
Qed.

Lemma named_part t' v (es es' : list (bytes * apreq_param_t)) :
  named (apr_table_elts v) -> table_adds t' v -> apr_table_elts t' = es' ++ es -> named es.
Proof.
  intros Hn [es2 He] Ht. unfold named in *. rewrite He, Ht, !Forall_app in Hn. tauto.
Qed.

Lemma turn_hooked n v req c s req' t t' es :
  awaits hole (S n) v req -> parse_brigade req READ_BYTES = Ok (s, req') ->
  c_body req = Some t -> c_body req' = Some t' -> apr_table_elts t' = apr_table_elts t ++ es ->
  searches c -> named es ->
  parse_brigade (hooked c req) READ_BYTES = Ok (s, hooked (found_ctx c es) req').
Proof.
  intros Ha Hp Ht Ht' He Hc Hn.
  pose proof Ha as (psr & t0 & i & (Hs & _ & _ & Htmp & Hi & _) & Hst & _).
  destruct (turn_feeds FILE_BUCKET_LIMIT hole i Hst) as (k & tmp & rest & Hpiece & _ & _ & Hturn).
  rewrite (Hturn req) in Hp by done. rewrite (Hturn (hooked c req)) by done.
  by eapply feed_hooked.
Qed.

(** A CGI handle's body is the body of a custom handle. *)
Definition as_custom (req : handle) : chandle :=
  CustomHandle None (g_jar req) (g_args req) (g_body req) (g_jar_status req) (g_args_status req)
    (g_body_status req) (g_parser req) (g_read_limit req) (g_bytes_read req) (g_in req) (g_tmpbb req)
    (g_sys req).

(** The same result, with the handles seen as custom handles. *)
Definition seen_custom {A} (r : presult (A * handle)) : presult (A * chandle) :=
  obind (fun '(a, req) => Ok (a, as_custom req)) r.

Lemma feed_custom n i tmp req :
  seen_custom (cgi_feed FILE_BUCKET_LIMIT hole apr_env_get n i tmp req) =
    custom_feed FILE_BUCKET_LIMIT hole n i tmp (as_custom req).
Proof.
  unfold cgi_feed, custom_feed. cbn zeta. cbn [as_custom put_body set_body g_read_limit c_read_limit
    c_bytes_read g_parser c_parser g_body c_body g_sys c_sys].
  destruct (_ <? _)%Z; [done|]. destruct (g_parser req) as [psr|]; [|done].
  destruct (g_body req) as [t|]; [|done].
  by destruct (apreq_parser_run _ _ _ _ _ _) as [[[[[s w] p] t'] b]| |].
Qed.

Lemma read_custom n req : g_body_status req <> APR_EINIT ->
  seen_custom (read req n) = parse_brigade (as_custom req) n.
Proof.
  intros Hs. apply Z.eqb_neq in Hs. unfold cgi_read, custom_parse_brigade. rewrite Hs.
  cbn [as_custom c_body_status c_in c_tmpbb].
  destruct (negb _); [done|]. destruct (apr_brigade_partition _ _) as [[s i] e].
  destruct (apreq_brigade_move _ _ _) as [tmp rest].
  destruct (s =? APR_SUCCESS)%Z; [apply feed_custom|]. destruct (s =? APR_INCOMPLETE)%Z; [|done].
  destruct (brigade_length tmp) as [s1 len]. destruct (negb _); [done|apply feed_custom].
Qed.

(** A read as a turn of the custom handle. *)
Lemma read_turn n req s c : g_body_status req <> APR_EINIT ->
  parse_brigade (as_custom req) n = Ok (s, c) ->
  exists req', read req n = Ok (s, req') /\ as_custom req' = c.
Proof.
  intros Hs Hp. rewrite <- read_custom in Hp by done. unfold seen_custom in Hp.
  destruct (read req n) as [[s1 r1]| |]; cbn [obind] in Hp; [|done..]. injection Hp as <- <-. by exists r1.
Qed.

(** ** The rest of the body *)

(** What is still to come of the body, or that it is over. *)
Definition to_come (n : nat) (v : Z * table) (c : chandle) : Prop := awaits hole n v c \/ settled v c.

Lemma settled_status v (c : chandle) : v.1 <> APR_EINIT -> settled v c -> c_body_status c <> APR_EINIT.
Proof. intros Hv [-> _]. by apply url_status_einit. Qed.

Lemma incomplete_not_einit : APR_INCOMPLETE <> APR_EINIT.
Proof. pose proof apr_einit_apart. lia. Qed.

Lemma body_loop_unfold n v (c : chandle) : awaits hole (S n) v c ->
  exists s c', parse_brigade c READ_BYTES = Ok (s, c') /\ to_come n v c' /\
    body_loop (S n) c = body_loop n c' /\ c_body_status c' = s.
Proof.
  intros Ha. destruct (awaits_turn FILE_BUCKET_LIMIT hole n v c Ha) as (s & c' & Hp & Hn).
  exists s, c'. split_and!; [done|done| |by apply parse_brigade_step in Hp as [_ Hp]].
  cbn [custom_body_loop]. rewrite (awaits_status hole _ _ _ Ha), Z.eqb_refl, Hp. done.
Qed.

Lemma blocks_read n fuel req v r2 :
  awaits hole n v (as_custom req) -> v.1 <> APR_EINIT -> n <= fuel ->
  body_loop n (as_custom req) = Ok r2 ->
  exists req', cgi_read_loop FILE_BUCKET_LIMIT hole apr_strtoi64 apr_env_get reg stdin fuel req = Ok req' /\
    as_custom req' = r2.
Proof.
  revert fuel req. induction n as [|n IH]; intros fuel req Ha Hv Hf Hl.
  { apply awaits_positive in Ha. lia. }
  destruct fuel as [|fuel]; [lia|]. cbn [cgi_read_loop].
  destruct (body_loop_unfold n v _ Ha) as (s & c' & Hp & Hn & Hu & Hs).
  rewrite Hu in Hl. pose proof (awaits_status hole _ _ _ Ha) as Hst.
  destruct (read_turn READ_BYTES req s c') as (req1 & Hrd & <-);
    [cbn in Hst; rewrite Hst; apply incomplete_not_einit|done|].
  change APREQ_DEFAULT_READ_BLOCK_SIZE with READ_BYTES. rewrite Hrd. cbn [obind].
  destruct Hn as [Hn|Hn].
  - rewrite (awaits_status hole _ _ _ Hn) in Hs. rewrite <- Hs, Z.eqb_refl. apply IH; [done|done|lia|done].
  - pose proof (settled_done _ _ Hn) as Hne. rewrite (body_loop_done _ _ _ _ Hne) in Hl. injection Hl as <-.
    rewrite Hs in Hne. apply Z.eqb_neq in Hne. rewrite Hne. by exists req1.
Qed.

(** ** Looking for a parameter *)

Lemma hooked_popped c req base :
  as_custom req = hooked c base -> (exists psr, c_parser base = Some psr /\ ps_hook psr = []) ->
  as_custom (pop_find req) = base.
Proof.
  intros Heq (psr & Hp & Hh).
  destruct base as [ck j a b js as' bs p rl br i tm w]. cbn in Hp. subst p.
  injection Heq as <- <- <- <- <- <- <- Hpp <- <- <- <- <-.
  unfold pop_find, as_custom. cbn. rewrite Hpp. cbn. f_equal. f_equal.
  by destruct psr as [? ? h ? ? ?]; cbn in *; subst.
Qed.

Lemma found_hooked c req base :
  as_custom req = hooked c base -> (exists psr, c_parser base = Some psr /\ ps_hook psr = []) ->
  found_param req = match c with CtxParam p => Some p | _ => None end.
Proof.
  intros Heq (psr & Hp & _). apply (f_equal c_parser) in Heq. cbn in Heq. rewrite Hp in Heq.
  unfold found_param. by rewrite Heq.
Qed.

Lemma to_come_parser n v c : to_come n v c -> exists psr, c_parser c = Some psr /\ ps_hook psr = [].
Proof.
  intros [(psr & t & i & (_ & Hp & _) & _ & (_ & Hh & _) & _)|(_ & _ & Hp)]; [by exists psr|done].
Qed.

Lemma get_new (t t' : table) es k :
  apr_table_elts t' = apr_table_elts t ++ es -> apr_table_get t k = None ->
  apr_table_get t' k = first_entry k es.
Proof.
  rewrite !get_elts. intros -> Ht. unfold first_entry. induction (apr_table_elts t) as [|e l IH]; [done|].
  cbn in *. destruct (strcaseeq k e.1); [done|by apply IH].
Qed.

(** The answer of a search, the handle after it, and what is then to come. *)
Definition search_ends (n : nat) (v : Z * table) (k : bytes) (base : chandle)
    (r : presult (option apreq_param_t * handle)) : Prop :=
  exists req m, r = Ok (apr_table_get v.2 k, req) /\ m <= n /\ to_come m v (as_custom req) /\
    body_step base (as_custom req) /\ body_loop m (as_custom req) = body_loop n base.

Lemma search_over n v k base req : settled v base -> as_custom req = base ->
  apr_table_get v.2 k = None -> search_ends n v k base (Ok (None, req)).
Proof.
  intros Hs <- Hk. exists req, n. rewrite Hk. split_and!; try done; [by right|apply body_step_refl].
Qed.

Lemma search_further n v k base c' r :
  body_step base c' -> body_loop (S n) base = body_loop n c' ->
  search_ends n v k c' r -> search_ends (S n) v k base r.
Proof.
  intros Hb Hl (req & m & -> & Hm & Hc & Hs & Hl'). exists req, m.
  split_and!; [done|lia|done|by eapply body_step_trans|congruence].
Qed.

Lemma search_found n v k base c' req :
  body_step base c' -> body_loop (S n) base = body_loop n c' -> to_come n v c' ->
  as_custom req = c' -> search_ends (S n) v k base (Ok (apr_table_get v.2 k, req)).
Proof.
  intros Hb Hl Hc <-. exists req, n. by split_and!; [|lia|..].
Qed.

Abbreviation find_loop := (cgi_find_loop FILE_BUCKET_LIMIT hole apr_strtoi64 apr_env_get reg stdin).

Lemma find_settled n fuel req base v k :
  settled v base -> v.1 <> APR_EINIT -> 1 <= fuel ->
  as_custom req = hooked (CtxKey k) base -> get_entry (c_body base) (Some k) = None ->
  search_ends n v k base (find_loop fuel req).
Proof.
  intros Hs Hv H1 Hreq Hk. destruct fuel as [|fuel]; [lia|]. cbn [cgi_find_loop].
  pose proof (f_equal c_body_status Hreq) as Hst. cbn in Hst.
  pose proof (settled_status v base Hv Hs) as He. pose proof (settled_done _ _ Hs) as Hi.
  pose proof Hs as (_ & Hb & Hp).
  apply Z.eqb_neq in Hi, He. unfold cgi_read. rewrite Hst, He, Hst, Hi. cbn [negb obind].
  rewrite (found_hooked _ _ _ Hreq Hp), Hst, Hi. apply search_over; [done|by eapply hooked_popped|].
  by rewrite Hb in Hk.
Qed.

Lemma find_loop_works n fuel req base v k :
  to_come n v base -> v.1 <> APR_EINIT -> named (apr_table_elts v.2) -> n <= fuel -> 1 <= fuel ->
  as_custom req = hooked (CtxKey k) base -> get_entry (c_body base) (Some k) = None ->
  search_ends n v k base (find_loop fuel req).
Proof.
  revert fuel req base. induction n as [|n IH]; intros fuel req base [Ha|Hs] Hv Hn Hf H1 Hreq Hk;
    try by apply find_settled.
  { apply awaits_positive in Ha. lia. }
  destruct fuel as [|fuel]; [lia|]. cbn [cgi_find_loop].
  change APREQ_DEFAULT_READ_BLOCK_SIZE with READ_BYTES.
  destruct (body_loop_unfold n v base Ha) as (s & c' & Hp & Hc' & Hl & Hs).
  destruct (turn_adds n v base s c' Ha Hp) as (t & t' & es & Ht & Ht' & He & Hadd & _).
  pose proof (named_part t' v.2 es _ Hn Hadd He) as Hes.
  pose proof (turn_hooked n v base (CtxKey k) s c' t t' es Ha Hp Ht Ht' He I Hes) as Hhook.
  rewrite <- Hreq in Hhook. apply parse_brigade_step in Hp as [Hstep _].
  destruct (read_turn READ_BYTES req s (hooked (found_ctx (CtxKey k) es) c')) as (req1 & -> & Hreq1);
    [|exact Hhook|].
  { apply (f_equal c_body_status) in Hreq. cbn in Hreq. rewrite Hreq, (awaits_status hole _ _ _ Ha).
    apply incomplete_not_einit. }
  cbn [obind]. pose proof (to_come_parser _ _ _ Hc') as Hpsr.
  pose proof (hooked_popped _ _ _ Hreq1 Hpsr) as Hpop.
  rewrite (found_hooked _ _ _ Hreq1 Hpsr). cbn [found_ctx].
  rewrite Ht in Hk. pose proof (get_new t t' es k He Hk) as Hget.
  cbn [found_ctx] in Hreq1. destruct (first_entry k es) as [p|] eqn:Ef.
  - rewrite <- (get_adds t' v.2 k p Hadd Hget). by eapply search_found.
  - pose proof (f_equal c_body_status Hreq1) as Hst1. cbn in Hst1. rewrite Hst1.
    apply (search_further n v k base c'); [done|done|]. destruct Hc' as [Ha'|Hs'].
    + rewrite (awaits_status hole _ _ _ Ha'), Z.eqb_refl.
      apply IH; [by left|done|done|lia| |done|by rewrite Ht'].
      apply awaits_positive in Ha'. lia.
    + pose proof (settled_done _ _ Hs') as Hi. pose proof Hs' as (_ & Hb & _). apply Z.eqb_neq in Hi. rewrite Hi.
      apply search_over; [done|done|]. rewrite Ht' in Hb. by injection Hb as <-.
Qed.

Lemma to_come_adds n v (c : chandle) :
  to_come n v c -> exists t, c_body c = Some t /\ table_adds t v.2.
Proof.
  intros [Ha|(_ & Hb & _)]; [|exists v.2; split; [done|apply adds_refl]].
  destruct n as [|n]; [by apply awaits_positive in Ha; lia|].
  destruct (body_loop_unfold n v c Ha) as (s & c' & Hp & _).
  destruct (turn_adds n v c s c' Ha Hp) as (t & t' & es & Ht & _ & He & Hadd & _).
  exists t. split; [done|]. by eapply adds_trans; [exists es|].
Qed.

Lemma find_works n req v k :
  to_come n v (as_custom req) -> v.1 <> APR_EINIT -> named (apr_table_elts v.2) -> n <= turns ->
  1 <= turns ->
  search_ends n v k (as_custom req)
    (cgi_find FILE_BUCKET_LIMIT hole apr_strtoi64 apr_env_get reg stdin turns req (Some k)).
Proof.
  intros Hc Hv Hn Hf H1. unfold cgi_find.
  destruct (to_come_adds n v _ Hc) as (t & Ht & Hadd). cbn in Ht. rewrite Ht. cbn [lookup_entry obind].
  destruct (apr_table_get t k) as [p|] eqn:Ek.
  - exists req, n. rewrite (get_adds t v.2 k p Hadd Ek). by split_and!; [..|apply body_step_refl|].
  - destruct (to_come_parser n v _ Hc) as (psr & Hp & Hh). cbn in Hp.
    unfold push_find. rewrite Hp. cbn [obind].
    apply find_loop_works; [done|done|done|done|done| |by cbn; rewrite Ht].
    unfold hooked, as_custom. cbn. by rewrite Hp, Hh.
Qed.

(** ** The handle as a front end *)

(** A custom handle with other cookies and another query string. *)
Definition reframe (r0 req : chandle) : chandle :=
  CustomHandle (c_cookie_header r0) (c_jar r0) (c_args r0) (c_body req) (c_jar_status r0)
    (c_args_status r0) (c_body_status req) (c_parser req) (c_read_limit req) (c_bytes_read req)
    (c_in req) (c_tmpbb req) (c_sys req).

Lemma feed_reframe n i tmp r0 req :
  custom_feed FILE_BUCKET_LIMIT hole n i tmp (reframe r0 req) =
    obind (fun '(s, r) => Ok (s, reframe r0 r)) (custom_feed FILE_BUCKET_LIMIT hole n i tmp req).
Proof.
  unfold custom_feed. cbn zeta. cbn [reframe set_body c_read_limit c_bytes_read c_parser c_body c_sys].
  destruct (_ <? _)%Z; [done|]. destruct (c_parser req) as [psr|]; [|done].
  destruct (c_body req) as [t|]; [|done].
  by destruct (apreq_parser_run _ _ _ _ _ _) as [[[[[s w] p] t'] b]| |].
Qed.

Lemma turn_reframe n r0 req :
  parse_brigade (reframe r0 req) n =
    obind (fun '(s, r) => Ok (s, reframe r0 r)) (parse_brigade req n).
Proof.
  unfold custom_parse_brigade. cbn [reframe c_body_status c_in c_tmpbb].
  destruct (negb _); [done|]. destruct (apr_brigade_partition _ _) as [[s i] e].
  destruct (apreq_brigade_move _ _ _) as [tmp rest].
  destruct (s =? APR_SUCCESS)%Z; [apply feed_reframe|]. destruct (s =? APR_INCOMPLETE)%Z; [|done].
  destruct (brigade_length tmp) as [s1 len]. destruct (negb _); [done|apply feed_reframe].
Qed.

Lemma loop_reframe n r0 req :
  body_loop n (reframe r0 req) = obind (fun r => Ok (reframe r0 r)) (body_loop n req).
Proof.
  revert req. induction n as [|n IH]; intros req; cbn [custom_body_loop];
    change (c_body_status (reframe r0 req)) with (c_body_status req); destruct (_ =? _)%Z; try done.
  rewrite turn_reframe. destruct (parse_brigade req READ_BYTES) as [[s r]| |]; cbn [obind]; [|done..].
  apply IH.
Qed.

Section Front.
(** [v]: what the form parses to; [vb]: what is said of the body. *)
Context (v : Z * table) (vb : Z * option table).
Context (Hv : v.1 <> APR_EINIT) (Hnamed : named (apr_table_elts v.2)).
Abbreviation init := (init_body apr_strtoi64 apr_env_get reg stdin).

Definition body_answers (n : nat) (c : chandle) : Prop :=
  to_come n v c /\ exists r2, body_loop n c = Ok r2 /\ vb = (c_body_status r2, c_body r2).

(** The body is being read, or cannot be. *)
Definition ready (req : handle) : Prop :=
  (exists n, n <= turns /\ 1 <= turns /\ body_answers n (as_custom req)) \/
  (g_body_status req <> APR_INCOMPLETE /\ g_body_status req <> APR_EINIT /\
   g_body req = Some apr_table_make /\ vb = (g_body_status req, g_body req)).

Definition body_ok (req : handle) : Prop :=
  ready req \/
  g_body_status req = APR_EINIT /\ ready (init req) /\
    (g_body_status (init req) = APR_INCOMPLETE \/ g_body (init req) = Some apr_table_make).

Lemma answers_reframe n r0 c : body_answers n c -> body_answers n (reframe r0 c).
Proof.
  intros [Hc (r2 & Hl & Hb)]. split; [exact Hc|]. exists (reframe r0 r2).
  rewrite loop_reframe, Hl. by split.
Qed.

(** The body does not depend on the other parts. *)
Lemma ready_same req req' :
  as_custom req' = reframe (as_custom req') (as_custom req) -> ready req -> ready req'.
Proof.
  intros He [(n & Hn & H1 & Ha)|Hr].
  - left. exists n. rewrite He. by split_and!; [..|apply answers_reframe].
  - right. injection He as Hb Hs _ _ _ _ _ _. rewrite Hb, Hs. exact Hr.
Qed.

Lemma body_ok_jar j s req : body_ok req -> body_ok (put_jar j s req).
Proof.
  intros [Hr|[Hs Hr]]; [left; by apply (ready_same req)|right]. split; [done|]. revert Hr.
  unfold init_body, body_parser_for. cbn [put_jar put_body g_parser
    g_read_limit g_brigade_limit g_temp_dir g_hook_queue g_body_status g_log g_bytes_read g_in g_tmpbb g_sys].
  destruct (check_content_length _ _ _) as [[s' m]|];
    [|destruct (match g_parser req with None => _ | Some _ => _ end)];
    (intros [Hr Hm]; split; [by eapply ready_same, Hr|done]).
Qed.

Lemma body_ok_args t s req : body_ok req -> body_ok (put_args t s req).
Proof.
  intros [Hr|[Hs Hr]]; [left; by apply (ready_same req)|right]. split; [done|]. revert Hr.
  unfold init_body, body_parser_for. cbn [put_args put_body g_parser
    g_read_limit g_brigade_limit g_temp_dir g_hook_queue g_body_status g_log g_bytes_read g_in g_tmpbb g_sys].
  destruct (check_content_length _ _ _) as [[s' m]|];
    [|destruct (match g_parser req with None => _ | Some _ => _ end)];
    (intros [Hr Hm]; split; [by eapply ready_same, Hr|done]).
Qed.

(** Cookies and query string stay. *)
Definition rest_same (req req' : handle) : Prop :=
  g_jar req' = g_jar req /\ g_jar_status req' = g_jar_status req /\
  g_args req' = g_args req /\ g_args_status req' = g_args_status req.

Lemma step_same req req' : body_step (as_custom req) (as_custom req') -> rest_same req req'.
Proof. intros (H1 & H2 & H3 & H4 & _). by split_and!. Qed.

Lemma rest_same_trans r1 r2 r3 : rest_same r1 r2 -> rest_same r2 r3 -> rest_same r1 r3.
Proof. unfold rest_same. intros (? & ? & ? & ?) (? & ? & ? & ?). split_and!; congruence. Qed.

Lemma init_same req : rest_same req (init req).
Proof.
  unfold init_body. destruct (check_content_length _ _ _) as [[s m]|]; [done|].
  by destruct (body_parser_for _ _ _).
Qed.

Lemma ready_status req : ready req -> g_body_status req <> APR_EINIT.
Proof.
  intros [(n & _ & _ & [Ha|Hs] & _)|(_ & Hne & _)]; [| |done].
  - apply awaits_status in Ha. cbn in Ha. rewrite Ha. apply incomplete_not_einit.
  - by apply (settled_status v (as_custom req)).
Qed.

(** The body once it is read. *)
Lemma ready_done req : ready req -> g_body_status req <> APR_INCOMPLETE ->
  vb = (g_body_status req, g_body req) /\ exists t, g_body req = Some t.
Proof.
  intros [(n & _ & _ & Hc & r2 & Hl & Hb)|(_ & _ & Hb & Hr)] Hs; [|by eauto].
  rewrite (body_loop_done _ _ _ (as_custom req)) in Hl by done. injection Hl as <-. split; [done|].
  destruct (to_come_adds n v _ Hc) as (t & Ht & _). by exists t.
Qed.

Lemma settled_ready req r2 : settled v r2 -> as_custom req = r2 -> 1 <= turns ->
  vb = (c_body_status r2, c_body r2) -> ready req.
Proof.
  intros Hs <- H1 Hb. left. exists 0. split_and!; [lia|done|]. split; [by right|].
  exists (as_custom req). split; [|done]. by apply body_loop_done, (settled_done v).
Qed.

Abbreviation read_body := (cgi_body FILE_BUCKET_LIMIT hole apr_strtoi64 apr_env_get reg stdin turns).
Abbreviation find_field := (cgi_body_get FILE_BUCKET_LIMIT hole apr_strtoi64 apr_env_get reg stdin turns).

Lemma ready_answers req : ready req ->
  exists req', (if (g_body_status req =? APR_INCOMPLETE)%Z
                then cgi_read_loop FILE_BUCKET_LIMIT hole apr_strtoi64 apr_env_get reg stdin turns req
                else Ok req) = Ok req' /\
    vb = (g_body_status req', g_body req') /\ ready req' /\ rest_same req req'.
Proof.
  intros Hr. destruct (Z.eqb_spec (g_body_status req) APR_INCOMPLETE) as [Hs|Hs].
  - destruct Hr as [(n & Hn & H1 & [Ha|Hset] & r2 & Hl & Hb)|[Hne _]]; [|by apply settled_done in Hset|done].
    destruct (blocks_read n turns req v r2 Ha Hv Hn Hl) as (req' & -> & Heq). exists req'.
    destruct (awaits_ends FILE_BUCKET_LIMIT hole n v _ Ha) as (r3 & Hl3 & Hset).
    rewrite Hl in Hl3. injection Hl3 as <-. split_and!; [done|by rewrite Hb, <- Heq|by eapply settled_ready|].
    apply step_same. rewrite Heq. by apply body_loop_step in Hl as [Hl _].
  - exists req. split_and!; [done|by apply ready_done|done|by split_and!].
Qed.

Lemma body_answered req : body_ok req ->
  exists req', read_body req = Ok (vb, req') /\ body_ok req' /\ rest_same req req'.
Proof.
  intros Hok. unfold cgi_body.
  set (req1 := if (g_body_status req =? APR_EINIT)%Z then init req else req).
  assert (Hr : ready req1 /\ rest_same req req1 /\
    ((g_body_status req =? APR_EINIT)%Z || (g_body_status req =? APR_INCOMPLETE)%Z = false ->
     (g_body_status req1 =? APR_INCOMPLETE)%Z = false)).
  { subst req1. destruct Hok as [Hr|(Hs & Hr & _)].
    - pose proof (ready_status req Hr) as He. apply Z.eqb_neq in He. rewrite He. by split_and!.
    - rewrite Hs, Z.eqb_refl. split_and!; [done|apply init_same|done]. }
  destruct Hr as (Hr & Hsame & Hc). destruct (ready_answers req1 Hr) as (req' & Ha & Hb & Hr' & Hsame').
  exists req'. split_and!; [|by left|by eapply rest_same_trans].
  rewrite Hb. destruct ((g_body_status req =? APR_EINIT)%Z || (g_body_status req =? APR_INCOMPLETE)%Z).
  - by rewrite Ha.
  - rewrite (Hc eq_refl) in Ha. by injection Ha as ->.
Qed.

(** Looking for a parameter while the body is being read. *)
Lemma ready_find n req k :
  n <= turns -> 1 <= turns -> body_answers n (as_custom req) ->
  exists req', cgi_find FILE_BUCKET_LIMIT hole apr_strtoi64 apr_env_get reg stdin turns req (Some k) =
      Ok (first_of vb.2 k, req') /\ ready req' /\ rest_same req req'.
Proof.
  intros Hn H1 [Hc (r2 & Hl & Hb)].
  destruct (find_works n req v k Hc Hv Hnamed Hn H1) as (req' & m & -> & Hm & Hc' & Hstep & Hl').
  exists req'. split_and!; [| |by apply step_same].
  - assert (Hr2 : c_body r2 = Some v.2).
    { destruct Hc as [Ha|Hs].
      - destruct (awaits_ends FILE_BUCKET_LIMIT hole n v _ Ha) as (r3 & Hl3 & _ & Hr3 & _).
        rewrite Hl in Hl3. by injection Hl3 as <-.
      - pose proof Hs as (_ & Hbody & _). rewrite (body_loop_done _ _ _ _ (settled_done _ _ Hs)) in Hl. by injection Hl as <-. }
    by rewrite Hb, Hr2.
  - left. exists m. split_and!; [lia|done|]. split; [done|]. exists r2. by rewrite Hl'.
Qed.

Lemma body_get_answered req k : body_ok req ->
  exists req', find_field req (Some k) = Ok (first_of vb.2 k, req') /\ body_ok req' /\ rest_same req req'.
Proof.
  intros Hok. unfold cgi_body_get. destruct Hok as [Hr|(Hs & Hr & Hm)].
  - pose proof (ready_status req Hr) as He. apply Z.eqb_neq in He. rewrite He.
    destruct (Z.eqb_spec (g_body_status req) APR_INCOMPLETE) as [Hs|Hs].
    + destruct Hr as [(n & Hn & H1 & Ha)|[Hne _]]; [|done].
      destruct (ready_find n req k Hn H1 Ha) as (req' & Hf & Hr' & Hsame). exists req'.
      by split_and!; [|left|].
    + destruct (ready_done req Hr Hs) as [Hb (t & Ht)]. exists req. rewrite Hb, Ht.
      by split_and!; [|left|..].
  - rewrite Hs, Z.eqb_refl. pose proof (init_same req) as Hsame.
    destruct (Z.eqb_spec (g_body_status (init req)) APR_INCOMPLETE) as [Hi|Hi]; cbn [negb].
    + destruct Hr as [(n & Hn & H1 & Hc & r2 & Hl & Hb)|[Hne _]]; [|done].
      destruct Hc as [Ha|Hset]; [|by apply settled_done in Hset].
      destruct n as [|n]; [by apply awaits_positive in Ha; lia|].
      destruct (body_loop_unfold n v _ Ha) as (s & c' & Hp & Hc' & Hu & _).
      destruct (read_turn READ_BYTES (init req) s c') as (req1 & Hrd & <-);
        [rewrite Hi; apply incomplete_not_einit|done|].
      change APREQ_DEFAULT_READ_BLOCK_SIZE with READ_BYTES. rewrite Hrd. cbn [obind].
      apply parse_brigade_step in Hp as [Hp _]. apply step_same in Hp.
      destruct (ready_find n req1 k) as (req' & Hf & Hr' & Hsame'); [lia|done| |].
      { split; [done|]. exists r2. by rewrite <- Hu. }
      exists req'. split_and!; [done|by left|]. by eapply rest_same_trans; [eapply rest_same_trans|].
    + exists (init req). split_and!; [|by left|done].
      destruct (ready_done _ Hr Hi) as [-> _]. destruct Hm as [Hm|Hm]; [done|].
      cbn [first_of snd]. rewrite Hm. cbn. by rewrite get_elts, elts_make.
Qed.

(** ** Cookies and query string *)

Abbreviation the_jar := (jar_view apr_strtoi64 apr_date_parse_rfc now junk
  (cgi_header_in apr_env_get (str "Cookie"))).
Abbreviation the_args := (args_view hole (cgi_query_string apr_env_get)).
Abbreviation read_jar := (cgi_jar apr_strtoi64 apr_date_parse_rfc now junk apr_env_get).
Abbreviation read_args := (cgi_args hole apr_env_get).

Definition jar_ok (req : handle) : Prop :=
  g_jar_status req = APR_EINIT /\ g_jar req = None \/ (g_jar_status req, g_jar req) = the_jar.
Definition args_ok (req : handle) : Prop :=
  g_args_status req = APR_EINIT /\ g_args req = None \/ (g_args_status req, g_args req) = the_args.
Definition cgi_ok (req : handle) : Prop := jar_ok req /\ args_ok req /\ body_ok req.

Lemma jar_answered req : cgi_ok req ->
  exists req', read_jar req = Ok (the_jar, req') /\ cgi_ok req' /\
    (g_jar_status req <> APR_EINIT -> req' = req /\ (g_jar_status req, g_jar req) = the_jar).
Proof.
  unfold cgi_ok, cgi_jar, jar_ok, jar_view. intros (Hj & Ha & Hb).
  destruct (Z.eqb_spec (g_jar_status req) APR_EINIT) as [Hs|Hs].
  - destruct (cgi_header_in _ _) as [c|].
    + destruct (apreq_parse_cookie_header _ _ _ _ _ _) as [s j] eqn:Ec. eexists. split; [reflexivity|].
      split; [|done]. split; [right; cbn; exact eq_refl|]. split; [exact Ha|by apply body_ok_jar].
    + assert (g_jar req = None) as Hnone by (destruct Hj as [[_ Hj]|Hj]; [done|by injection Hj]).
      rewrite Hnone. eexists. split; [reflexivity|]. split; [|done].
      split; [by right|]. split; [exact Ha|by apply body_ok_jar].
  - destruct Hj as [[Hj _]|Hj]; [done|]. exists req. rewrite Hj. by split_and!; [|right|..].
Qed.

Lemma args_answered req : cgi_ok req ->
  exists req', read_args req = Ok (the_args, req') /\ cgi_ok req' /\
    (g_args_status req <> APR_EINIT -> req' = req /\ (g_args_status req, g_args req) = the_args).
Proof.
  unfold cgi_ok, cgi_args, args_ok, args_view. intros (Hj & Ha & Hb).
  destruct (Z.eqb_spec (g_args_status req) APR_EINIT) as [Hs|Hs].
  - destruct (cgi_query_string _) as [q|].
    + destruct (apreq_parse_query_string _ _ _) as [s t] eqn:Eq. eexists. split; [reflexivity|].
      split; [|done]. split; [exact Hj|]. split; [right; cbn; exact eq_refl|by apply body_ok_args].
    + assert (g_args req = None) as Hnone by (destruct Ha as [[_ Ha]|Ha]; [done|by injection Ha]).
      rewrite Hnone. eexists. split; [reflexivity|]. split; [|done].
      split; [exact Hj|]. split; [by right|by apply body_ok_args].
  - destruct Ha as [[Ha _]|Ha]; [done|]. exists req. rewrite Ha. by split_and!; [| |right|..].
Qed.

Lemma rest_same_ok req req' : rest_same req req' -> cgi_ok req -> body_ok req' -> cgi_ok req'.
Proof.
  intros (H1 & H2 & H3 & H4) (Hj & Ha & _) Hb. unfold cgi_ok, jar_ok, args_ok.
  by rewrite H1, H2, H3, H4.
Qed.

#[local] Instance the_module : apreq_module_t (U := U) handle :=
  cgi_module FILE_BUCKET_LIMIT hole apr_strtoi64 apr_date_parse_rfc now junk apr_env_get reg stdin turns.

Definition cgi_view (_ : handle) : view := View the_jar the_args vb.

Lemma lookup_first {A} (t : option (apr_table A)) k : lookup_entry t (Some k) = Ok (first_of t k).
Proof. by destruct t. Qed.

Lemma cgi_frontend : Frontend cgi_ok cgi_view.
Proof.
  split; intros req.
  - intros Hok. destruct (jar_answered req Hok) as (req' & Hj & Hok' & _). by exists req'.
  - intros Hok. destruct (args_answered req Hok) as (req' & Ha & Hok' & _). by exists req'.
  - intros Hok. destruct (body_answered req) as (req' & Hb & Hb' & Hsame); [apply Hok|].
    exists req'. split_and!; [exact Hb|by eapply rest_same_ok|done].
  - intros k Hok. destruct (jar_answered req Hok) as (req' & Hj & Hok' & Hsame). exists req'.
    split_and!; [|done..]. unfold apreq_jar_get. cbn [jar_get the_module cgi_module cgi_view v_jar].
    unfold cgi_jar_get. destruct (Z.eqb_spec (g_jar_status req) APR_EINIT) as [Hs|Hs].
    + rewrite Hj. destruct the_jar as [s t]. cbn [obind]. by rewrite lookup_first.
    + destruct (Hsame Hs) as [-> Heq]. rewrite <- Heq. cbn [obind snd]. by rewrite lookup_first.
  - intros k Hok. destruct (args_answered req Hok) as (req' & Ha & Hok' & Hsame). exists req'.
    split_and!; [|done..]. unfold apreq_args_get. cbn [args_get the_module cgi_module cgi_view v_args].
    unfold cgi_args_get. destruct (Z.eqb_spec (g_args_status req) APR_EINIT) as [Hs|Hs].
    + rewrite Ha. destruct the_args as [s t]. cbn [obind]. by rewrite lookup_first.
    + destruct (Hsame Hs) as [-> Heq]. rewrite <- Heq. cbn [obind snd]. by rewrite lookup_first.
  - intros k Hok. destruct (body_get_answered req k) as (req' & Hb & Hb' & Hsame); [apply Hok|].
    exists req'. split_and!; [exact Hb|by eapply rest_same_ok|done].
Qed.

End Front.

(** ** Claims *)

(** Why a body is not read, if it is not. *)
Definition refusal : option Z :=
  match check_content_length apr_strtoi64 apr_env_get (2 ^ 64 - 1) with
  | Some (s, _) => Some s
  | None =>
      match cgi_header_in apr_env_get (str "Content-Type") with
      | None => Some APREQ_ERROR_NOHEADER
      | Some ct => match apreq_parser reg (Some ct) with
                   | None => Some APREQ_ERROR_NOPARSER | Some _ => None end
      end
  end.

Lemma refusal_status s : refusal = Some s -> (APREQ_ERROR_GENERAL < s)%Z.
Proof.
  unfold refusal, check_content_length. intros Hs.
  repeat case_match; simplify_eq; unfold APREQ_ERROR_BADHEADER, APREQ_ERROR_OVERLIMIT, APREQ_ERROR_NOHEADER,
    APREQ_ERROR_NOPARSER, APREQ_ERROR_BADDATA, APREQ_ERROR_NODATA, APREQ_ERROR_MISMATCH in *; lia.
Qed.

Abbreviation new_handle := (apreq_handle_cgi (X := X) (U := U)).

Lemma init_new w :
  let req := init_body apr_strtoi64 apr_env_get reg stdin (new_handle w None) in
  match refusal with
  | Some s => g_body_status req = s /\ g_body req = Some apr_table_make
  | None => exists ct pf, cgi_header_in apr_env_get (str "Content-Type") = Some ct /\
      apreq_parser reg (Some ct) = Some pf /\
      as_custom req = CustomHandle None None None (Some apr_table_make) APR_EINIT APR_EINIT APR_INCOMPLETE
        (Some (apreq_parser_make ct pf APREQ_DEFAULT_BRIGADE_LIMIT None [] None)) (2 ^ 64 - 1) 0
        (stdin ++ [BEos]) [] w
  end.
Proof.
  cbn zeta. unfold refusal, init_body.
  cbn [apreq_handle_cgi put_body g_read_limit].
  destruct (check_content_length _ _ _) as [[s m]|]; [done|].
  unfold body_parser_for. cbn [put_body g_parser g_brigade_limit g_temp_dir g_hook_queue].
  destruct (cgi_header_in _ _) as [ct|] eqn:Ect; [|done].
  destruct (apreq_parser reg (Some ct)) as [pf|] eqn:Epf; [|done]. by exists ct, pf.
Qed.

(** The body of a new handle, before it is read. *)
Lemma new_awaits req ct w :
  as_custom req = CustomHandle None None None (Some apr_table_make) APR_EINIT APR_EINIT APR_INCOMPLETE
    (Some (apreq_parser_make ct apreq_parse_urlencoded_f APREQ_DEFAULT_BRIGADE_LIMIT None [] None))
    (2 ^ 64 - 1) 0 (stdin ++ [BEos]) [] w ->
  forallb plain stdin = true -> (Z.of_nat (length (brigade_data stdin)) < 2 ^ 64)%Z ->
  length stdin + 2 <= turns ->
  awaits hole turns (urlencoded_form hole apr_table_make (brigade_data stdin)) (as_custom req).
Proof.
  intros -> Hp Hlen Hturns. eexists _, _, (stdin ++ [BEos]).
  split_and!; [|right; by exists stdin| |left; by exists stdin].
  - unfold reading. cbn [c_body_status c_parser c_body c_tmpbb c_in c_bytes_read c_read_limit ps_parser
      apreq_parser_make]. rewrite brigade_data_eos. split_and!; try done; lia.
  - split_and!; [done..|left]. exists []. rewrite brigade_data_eos. split; [by apply fresh_pending|done].
Qed.

(** C15: a CGI handle answers as the environment and the standard input say.
    Each part of the request is parsed when it is first asked for, the body in
    blocks and no further than a search needs; whatever is asked in whatever
    order, the answers are those of the [Cookie] header, the query string and the
    body when each is parsed as one string, or of the reason why a body is not
    read.  The parser of the body, when there is one, is that of urlencoded bodies, and
    no name in the body is empty as a C string: of such a name the entry that a search
    has found is replaced later (see [found_param_replaced]). *)
Theorem cgi_handle_refines_request (w : W) :
  forallb plain stdin = true -> (Z.of_nat (length (brigade_data stdin)) < 2 ^ 64)%Z ->
  length stdin + 2 <= turns ->
  (forall ct pf, cgi_header_in apr_env_get (str "Content-Type") = Some ct ->
     apreq_parser reg (Some ct) = Some pf -> pf = apreq_parse_urlencoded_f) ->
  let v := urlencoded_form hole apr_table_make (brigade_data stdin) in
  Forall (fun e => e.1 <> []) (apr_table_elts v.2) ->
  let body := match refusal with
              | Some e => (e, Some apr_table_make)
              | None => (url_status v, Some v.2)
              end in
  forall qs, exists req',
    ask_all (Mod := cgi_module FILE_BUCKET_LIMIT hole apr_strtoi64 apr_date_parse_rfc now junk apr_env_get
                      reg stdin turns) qs (new_handle w None) =
      Ok (map (answer_of (View
        (jar_view apr_strtoi64 apr_date_parse_rfc now junk (cgi_header_in apr_env_get (str "Cookie")))
        (args_view hole (cgi_query_string apr_env_get)) body)) qs, req').
Proof.
  intros Hp Hlen Hturns Hct v Hnames body. unfold body. clear body.
  pose proof (form_status hole apr_table_make (brigade_data stdin)) as Hv. fold v in Hv.
  assert (Hn : named (apr_table_elts v.2)) by (apply Forall_and; split; [done|apply form_info]).
  pose proof (init_new w) as Hi. cbn zeta in Hi.
  assert (Hask : forall vb, body_ok v vb (new_handle w None) -> forall qs, exists req',
    ask_all (Mod := the_module) qs (new_handle w None) = Ok (map (answer_of (cgi_view vb (new_handle w None))) qs, req')).
  { intros vb Hb qs.
    destruct (questions_refine_view (FE := cgi_frontend v vb Hv Hn) qs (new_handle w None)) as (req' & Hq & _).
    - split_and!; [by left|by left|done].
    - by exists req'. }
  destruct refusal as [e|] eqn:Eref; apply Hask; right; (split; [done|]).
  - destruct Hi as [Hs Hb]. apply refusal_status in Eref.
    pose proof incomplete_range. pose proof einit_range.
    split; [right|by right]. unfold APREQ_ERROR_GENERAL in *. rewrite Hs, Hb. split_and!; [lia|lia|done|done].
  - destruct Hi as (ct & pf & Ect & Epf & Hi). pose proof (Hct ct pf Ect Epf) as ->.
    set (req := init_body _ _ _ _ _) in *. pose proof (new_awaits req ct w Hi Hp Hlen Hturns) as Hnew.
    fold v in Hnew. destruct (awaits_ends FILE_BUCKET_LIMIT hole turns v (as_custom req) Hnew) as (r2 & Hl & Hset).
    pose proof Hset as (Hst & Hr2 & _). split; [|left; by apply (f_equal c_body_status) in Hi].
    left. exists turns. split_and!; [lia|lia|]. split; [by left|]. exists r2. split; [exact Hl|by rewrite Hst, Hr2].
Qed.

End Facts.

(** ** Witness *)

Definition a_cgi_env (key : bytes) : option bytes :=
  if bool_decide (key = str "CONTENT_TYPE") then Some (str "application/x-www-form-urlencoded")
  else if bool_decide (key = str "HTTP_COOKIE") then Some (str "sid=7")
  else if bool_decide (key = str "QUERY_STRING") then Some (str "a=0")
  else if bool_decide (key = str "CONTENT_LENGTH") then Some (str "7")
  else None.

Definition an_initialized_registry : registry := (apreq_initialize APR_SUCCESS registry_start).2.

Definition cgi_jar_of_env := jar_view (T := list_table) (fun _ => (7%Z, [])) (fun _ => 0%Z) 0 []
  (Some (str "sid=7")).

Definition some_questions : list question := [AskParam (str "b"); AskBody; AskJar].

Lemma cgi_handle_refines_request_witness :
  let v := urlencoded_form (T := list_table) (fun _ => x00) apr_table_make (str "a=1&b=2") in
  exists req',
    ask_all (Mod := cgi_module (X := unit) (W := unit) (U := unit) 1000 (fun _ => x00) (fun _ => (7%Z, []))
                        (fun _ => 0%Z) 0 [] a_cgi_env an_initialized_registry
                        [BData (str "a=1&b"); BData (str "=2")] 4) some_questions
        (apreq_handle_cgi tt None) =
        Ok (map (answer_of (View cgi_jar_of_env (args_view (fun _ => x00) (Some (str "a=0"))) (url_status v, Some v.2)))
              some_questions, req').
Proof.
  refine (cgi_handle_refines_request (T := list_table) (X := unit) (W := unit) (U := unit) 1000 (fun _ => x00)
    (fun _ => (7%Z, [])) (fun _ => 0%Z) 0 [] a_cgi_env an_initialized_registry
    [BData (str "a=1&b"); BData (str "=2")] 4 _ tt _ _ _ _ _ some_questions).
  - done.
  - reflexivity.
  - reflexivity.
  - cbn; lia.
  - intros ct pf Hct Hpf. vm_compute in Hct. injection Hct as <-. vm_compute in Hpf. by injection Hpf as <-.
  - vm_compute. repeat constructor; discriminate.
Defined.

(** The hook goes on after it has found the parameter, with the parameter's
    structure as its key: a later parameter whose name is empty as a C string
    takes the place of the one that was looked for. *)
Example found_param_replaced :
  exists p, ue_hooks (url_brigade (T := list_table) (X := unit) 20 (fun _ => x00) apr_table_make
      [Hook HookFindParam (CtxKey (str "a"))] [BData (str "a=1&%00=2&b=3")]) =
    [Hook HookFindParam (CtxParam p)] /\ p_data p = str "2".
Proof. eexists. split; vm_compute; reflexivity. Qed.
