(* ===== verification/Filter.v ===== *)
(** * The input filter of Apache 2 ([src/libapreq2/module/apache2/filter.c])

    Between Apache and the handler of a request stands a filter that parses the
    body as it passes.  Asked for parameters before the handler reads, it fetches
    the body itself and keeps a copy, the spool, for the handler. *)
From S2P Require Import Prelude Apr Url Util Brigade Param Parser Urlencoded Header Boundary.
From S2P Require Import Multipart ParserRun Cookie Module Custom Cgi.

(** ** Configuration *)

Record dir_config := DirConfig {
  d_temp_dir : option bytes;
  d_read_limit : Z;          (** [apr_uint64_t] *)
  d_brigade_limit : Z        (** [apr_size_t] *)
}.

Definition apreq_create_dir_config : dir_config :=
  DirConfig None (2 ^ 64 - 1) (Z.of_nat APREQ_DEFAULT_BRIGADE_LIMIT).

Definition apreq_merge_dir_config (a b : dir_config) : dir_config :=
  DirConfig
    (match d_temp_dir b with Some d => Some d | None => d_temp_dir a end)
    (if (d_read_limit b <? d_read_limit a)%Z then d_read_limit b else d_read_limit a)
    (if (d_brigade_limit b =? 2 ^ 64 - 1)%Z then d_brigade_limit a else d_brigade_limit b).

(** [err]: what [ap_check_cmd_context] says.  A command yields its error. *)
Section Commands.
Context (apr_strtoi64 : bytes -> Z * bytes).

Definition apreq_set_temp_dir (err : option bytes) (conf : dir_config) (arg : bytes)
  : option bytes * dir_config :=
  match err with
  | Some _ => (err, conf)
  | None => (None, DirConfig (Some arg) (d_read_limit conf) (d_brigade_limit conf))
  end.

(** [None]: the number overflows. *)
Definition apreq_set_read_limit (err : option bytes) (conf : dir_config) (arg : bytes)
  : option (option bytes * dir_config) :=
  match err with
  | Some _ => Some (err, conf)
  | None => n ← apreq_atoi64f apr_strtoi64 (Some arg);
            Some (None, DirConfig (d_temp_dir conf) (u64 n) (d_brigade_limit conf))
  end.

Definition apreq_set_brigade_limit (err : option bytes) (conf : dir_config) (arg : bytes)
  : option (option bytes * dir_config) :=
  match err with
  | Some _ => Some (err, conf)
  | None => n ← apreq_atoi64f apr_strtoi64 (Some arg);
            Some (None, DirConfig (d_temp_dir conf) (d_read_limit conf) (u64 n))
  end.

End Commands.

(** ** Filters *)

Inductive ap_input_mode_t :=
  | AP_MODE_READBYTES | AP_MODE_GETLINE | AP_MODE_EATCRLF | AP_MODE_SPECULATIVE
  | AP_MODE_EXHAUSTIVE | AP_MODE_INIT.

(** A filter of a chain: one of this module, or another one. *)
Inductive link := LApreq (f : nat) | LOther (g : nat).

#[export] Instance link_eq_dec : EqDecision link.
Proof. solve_decision. Defined.

(** Apache keeps the chain: [chain_add l chain] puts a new filter where its type
    belongs; [chain_remove l chain proto] takes one out, and may move [proto],
    the place where the protocol filters begin ([None]: below the chain). *)
Class ApChain := {
  chain_add : link -> list link -> list link;
  chain_remove : link -> list link -> option link -> list link * option link;
  chain_added : forall l chain, exists a b, chain = a ++ b /\ chain_add l chain = a ++ l :: b;
  chain_removed : forall l chain proto,
    (chain_remove l chain proto).1 = List.filter (fun l' => negb (bool_decide (l' = l))) chain
}.

Section Filter.
Context {E : AprErrno} {T : AprTable} {TM : AprTableMerge} {X : Type} {XP : AprXml X} {H : HookEnv X}
        {W : Type} {F : AprFile W} {SM : AprStrmatch} {U : Type} {UP : UserParsers (X := X) (W := W) U}
        {AP : AprPartition} {AC : ApChain} {In : Type}.

Abbreviation table := (apr_table apreq_param_t).
Abbreviation jar_table := (apr_table apreq_cookie_t).
Abbreviation parser := (apreq_parser_t (X := X) (parser_ctx (X := X) U)).
Abbreviation hooks := (list (apreq_hook_t (X := X))).

(** An empty queue is NULL, an empty spool NULL or empty.  Of [find_param] only
    whether it was made is kept. *)
Record filter_ctx := FilterCtx {
  f_bb : brigade;
  f_bbtmp : brigade;
  f_spool : brigade;
  f_parser : option parser;
  f_hook_queue : hooks;
  f_find_param : bool;
  f_body : option table;
  f_body_status : Z;
  f_filter_error : Z;
  f_bytes_read : Z;
  f_read_limit : Z;
  f_brigade_limit : Z;
  f_temp_dir : option bytes
}.

(** The handle of a request, which is kept in its configuration. *)
Record apache2_handle := Apache2Handle {
  h_jar : option jar_table;
  h_args : option table;
  h_jar_status : Z;
  h_args_status : Z;
  h_f : option nat
}.

(** A request: its chain of input filters from the top, where the protocol
    filters begin, what [f->ctx] points to, the contexts, the handle, the names
    for new filters and contexts, the connection, and the system. *)
Record a2 := A2 {
  a_input_filters : list link;
  a_proto : option link;
  a_fctx : gmap nat nat;
  a_ctxs : gmap nat filter_ctx;
  a_handle : option apache2_handle;
  a_fresh : nat;
  a_in : In;
  a_sys : W
}.

(** The body of a context, and its settings. *)
Definition ctx_body (t : option table) (s : Z) (psr : option parser) (n : Z) (bb bbtmp spool : brigade)
    (c : filter_ctx) : filter_ctx :=
  FilterCtx bb bbtmp spool psr (f_hook_queue c) (f_find_param c) t s (f_filter_error c) n
    (f_read_limit c) (f_brigade_limit c) (f_temp_dir c).
Definition ctx_status (s : Z) (c : filter_ctx) : filter_ctx :=
  ctx_body (f_body c) s (f_parser c) (f_bytes_read c) (f_bb c) (f_bbtmp c) (f_spool c) c.
Definition ctx_parser (psr : option parser) (c : filter_ctx) : filter_ctx :=
  ctx_body (f_body c) (f_body_status c) psr (f_bytes_read c) (f_bb c) (f_bbtmp c) (f_spool c) c.
Definition ctx_error (s e : Z) (c : filter_ctx) : filter_ctx :=
  FilterCtx (f_bb c) (f_bbtmp c) (f_spool c) (f_parser c) (f_hook_queue c) (f_find_param c) (f_body c) s e
    (f_bytes_read c) (f_read_limit c) (f_brigade_limit c) (f_temp_dir c).
Definition ctx_set (hs : hooks) (find : bool) (rlimit blimit : Z) (dir : option bytes) (c : filter_ctx)
  : filter_ctx :=
  FilterCtx (f_bb c) (f_bbtmp c) (f_spool c) (f_parser c) hs find (f_body c) (f_body_status c)
    (f_filter_error c) (f_bytes_read c) rlimit blimit dir.

Definition set_chain (chain : list link) (proto : option link) (w : a2) : a2 :=
  A2 chain proto (a_fctx w) (a_ctxs w) (a_handle w) (a_fresh w) (a_in w) (a_sys w).
Definition set_ctxs (fctx : gmap nat nat) (ctxs : gmap nat filter_ctx) (fresh : nat) (w : a2) : a2 :=
  A2 (a_input_filters w) (a_proto w) fctx ctxs (a_handle w) fresh (a_in w) (a_sys w).
Definition set_handle (h : apache2_handle) (w : a2) : a2 :=
  A2 (a_input_filters w) (a_proto w) (a_fctx w) (a_ctxs w) (Some h) (a_fresh w) (a_in w) (a_sys w).
Definition set_io (i : In) (sys : W) (w : a2) : a2 :=
  A2 (a_input_filters w) (a_proto w) (a_fctx w) (a_ctxs w) (a_handle w) (a_fresh w) i sys.

(** [f->ctx], and a change of it. *)
Definition ctx_of (w : a2) (f : nat) : option filter_ctx := c ← a_fctx w !! f; a_ctxs w !! c.
Definition put_ctx (f : nat) (c : filter_ctx) (w : a2) : a2 :=
  match a_fctx w !! f with
  | Some i => set_ctxs (a_fctx w) (<[i := c]> (a_ctxs w)) (a_fresh w) w
  | None => w
  end.

Definition ap_remove_input_filter (f : nat) (w : a2) : a2 :=
  let '(chain, proto) := chain_remove (LApreq f) (a_input_filters w) (a_proto w) in
  set_chain chain proto w.

(** What lies below a filter. *)
Fixpoint below (l : link) (chain : list link) : option (list link) :=
  match chain with
  | [] => None
  | l' :: chain => if bool_decide (l' = l) then Some chain else below l chain
  end.

(** What lies above one. *)
Fixpoint above (l : link) (chain : list link) : list link :=
  match chain with
  | [] => []
  | l' :: chain => if bool_decide (l' = l) then [] else l' :: above l chain
  end.

Definition apreq_filter_relocate (f : nat) (w : a2) : a2 :=
  if bool_decide (head (a_input_filters w) = Some (LApreq f)) then w
  else
    let w := ap_remove_input_filter f w in
    set_chain (LApreq f :: a_input_filters w) (a_proto w) w.

(** ** Contexts *)

(** The request: whether it is a GET, its headers, its query string, its
    configuration; the registry of parsers; what other filters do and the
    connection below all filters. *)
Context (FILE_BUCKET_LIMIT : nat) (hole : nat -> Byte.byte) (apr_strtoi64 : bytes -> Z * bytes)
        (reg : registry) (is_get : bool) (headers_in : apr_table bytes) (dir : option dir_config)
        (APR_EGENERAL : Z)
        (core : ap_input_mode_t -> nat -> In -> Z * brigade * In)
        (other : nat -> (ap_input_mode_t -> nat -> a2 -> presult (Z * brigade * a2)) ->
                 ap_input_mode_t -> nat -> a2 -> presult (Z * brigade * a2)).

Definition new_context : filter_ctx :=
  FilterCtx [] [] [] None [] false None APR_EINIT 0 0
    (match dir with Some d => d_read_limit d | None => (2 ^ 64 - 1)%Z end)
    (match dir with Some d => d_brigade_limit d | None => Z.of_nat APREQ_DEFAULT_BRIGADE_LIMIT end)
    (d ← dir; d_temp_dir d).

(** A filter of this module without a context ends the process. *)
Definition apreq_filter_make_context (f : nat) (w : a2) : presult a2 :=
  let fresh := Ok (set_ctxs (<[f := a_fresh w]> (a_fctx w)) (<[a_fresh w := new_context]> (a_ctxs w))
                     (S (a_fresh w)) w) in
  match a_input_filters w with
  | LApreq f' :: LApreq g :: _ =>
      if bool_decide (f' = f) && bool_decide (a_proto w = Some (LApreq g)) && negb is_get then
        match a_fctx w !! g, ctx_of w g with
        | Some i, Some c =>
            let interrupted := (f_body_status c =? APREQ_ERROR_INTERRUPT)%Z in
            if interrupted || (f_body_status c =? APR_SUCCESS)%Z then
              let c := if interrupted then ctx_status APR_INCOMPLETE c else c in
              let c :=
                match dir with
                | None => c
                | Some d =>
                    ctx_parser ((fun psr => set_temp_dir (d_temp_dir d)
                                    (set_brigade_limit (Z.to_nat (d_brigade_limit d)) psr)) <$> f_parser c)
                      (ctx_set (f_hook_queue c) (f_find_param c) (d_read_limit d) (d_brigade_limit d)
                         (d_temp_dir d) c)
                end in
              let w := set_ctxs (<[f := i]> (a_fctx w)) (<[i := c]> (a_ctxs w)) (a_fresh w) w in
              Ok (ap_remove_input_filter g (set_chain (a_input_filters w) (Some (LApreq f)) w))
            else fresh
        | _, _ => Aborts
        end
      else fresh
  | _ => fresh
  end.

(** [if (f->ctx == NULL) apreq_filter_make_context(f);] *)
Definition with_context (f : nat) (w : a2) : presult a2 :=
  match ctx_of w f with
  | Some _ => Ok w
  | None => apreq_filter_make_context f w
  end.

(** The length that was announced: a status if it is refused. *)
Definition announced (limit : Z) : option Z :=
  match apr_table_get headers_in (str "Content-Length") with
  | None => None
  | Some cl_header =>
      let '(content_length, dummy) := apr_strtoi64 cl_header in
      match dummy with
      | _ :: _ => Some APREQ_ERROR_BADHEADER
      | [] => if (limit <? u64 content_length)%Z then Some APREQ_ERROR_OVERLIMIT else None
      end
  end.

Definition filter_parser (c : filter_ctx) : Z + parser :=
  match f_parser c with
  | None =>
      match apr_table_get headers_in (str "Content-Type") with
      | None => inl APREQ_ERROR_NOHEADER
      | Some ct_header =>
          match apreq_parser reg (Some ct_header) with
          | None => inl APREQ_ERROR_NOPARSER
          | Some pf => inr (apreq_parser_make ct_header pf (Z.to_nat (f_brigade_limit c)) (f_temp_dir c)
                              (f_hook_queue c) None)
          end
      end
  | Some psr =>
      let psr := set_temp_dir (match f_temp_dir c with Some d => Some d | None => ps_temp_dir psr end)
                   (set_brigade_limit (Nat.min (ps_brigade_limit psr) (Z.to_nat (f_brigade_limit c))) psr) in
      inr (match f_hook_queue c with
           | [] => psr
           | hs => (apreq_parser_add_hook psr hs).2
           end)
  end.

Definition apreq_filter_init_context (c : filter_ctx) : filter_ctx :=
  if is_get then ctx_status APREQ_ERROR_NODATA c
  else
    match announced (f_read_limit c) with
    | Some s => ctx_status s c
    | None =>
        match filter_parser c with
        | inl s => ctx_status s c
        | inr psr =>
            ctx_body (Some apr_table_make) APR_INCOMPLETE (Some psr) (f_bytes_read c) [] [] []
              (ctx_set [] (f_find_param c) (f_read_limit c) (f_brigade_limit c) (f_temp_dir c) c)
        end
    end.

(** ** The body passes *)

(** After a brigade was added to [ctx->bb]: the limit, and the parser. *)
Definition filter_feed (n : Z) (sys : W) (c : filter_ctx) : presult (W * filter_ctx) :=
  let read := u64 (f_bytes_read c + n) in
  let c := ctx_body (f_body c) (f_body_status c) (f_parser c) read (f_bb c) (f_bbtmp c) (f_spool c) c in
  if (f_read_limit c <? read)%Z then Ok (sys, ctx_status APREQ_ERROR_OVERLIMIT c)
  else
    match f_parser c, f_body c with
    | Some psr, Some t =>
        obind (fun '(s, sys, psr, t, _) =>
          Ok (sys, ctx_body (Some t) s (Some psr) read [] (f_bbtmp c) (f_spool c) c))
        (apreq_parser_run FILE_BUCKET_LIMIT hole sys psr t (Some (f_bb c)))
    | _, _ => Aborts
    end.

(** [apr_brigade_length(bb, 1, &len)] stores -1 when a bucket cannot be read. *)
Definition length_of (bb : brigade) : Z :=
  let '(s, len) := brigade_length bb in if (s =? APR_SUCCESS)%Z then Z.of_nat len else (-1)%Z.

(** The filter, above a chain that [next] reads, called with an empty brigade:
    the status, the brigade, and the request. *)
Definition apreq_filter (next : ap_input_mode_t -> nat -> a2 -> presult (Z * brigade * a2)) (f : nat)
    (mode : ap_input_mode_t) (readbytes : nat) (w : a2) : presult (Z * brigade * a2) :=
  match mode with
  | AP_MODE_EXHAUSTIVE | AP_MODE_GETLINE => next mode readbytes w
  | AP_MODE_READBYTES =>
      obind (fun w =>
      match ctx_of w f with
      | None => Aborts
      | Some c =>
          let c := if (f_body_status c =? APR_EINIT)%Z then apreq_filter_init_context c else c in
          let w := put_ctx f c w in
          match f_spool c with
          | _ :: _ =>
              let '(rv, spool, e) := apr_brigade_partition (f_spool c) readbytes in
              let c := ctx_body (f_body c) (f_body_status c) (f_parser c) (f_bytes_read c) (f_bb c)
                         (f_bbtmp c) spool c in
              if negb (rv =? APR_SUCCESS)%Z && negb (rv =? APR_INCOMPLETE)%Z
              then Ok (rv, [], put_ctx f c w)
              else
                let e := match spool !! e with
                         | Some b => if bucket_is_eos b then S e else e
                         | None => e
                         end in
                let '(bb, spool) := apreq_brigade_move [] spool e in
                Ok (APR_SUCCESS, bb,
                    put_ctx f (ctx_body (f_body c) (f_body_status c) (f_parser c) (f_bytes_read c) (f_bb c)
                                 (f_bbtmp c) spool c) w)
          | [] =>
              if negb (f_body_status c =? APR_INCOMPLETE)%Z then
                if negb (f_filter_error c =? 0)%Z then Ok (f_filter_error c, [], w)
                else
                  obind (fun '(rv, bb, w) => Ok (rv, bb, ap_remove_input_filter f w)) (next mode readbytes w)
              else
                obind (fun '(rv, bb, w) =>
                  if negb (rv =? APR_SUCCESS)%Z then Ok (rv, bb, w)
                  else
                    match ctx_of w f with
                    | None => Aborts
                    | Some c =>
                        let c := ctx_body (f_body c) (f_body_status c) (f_parser c) (f_bytes_read c)
                                   (apreq_brigade_copy (f_bb c) bb) (f_bbtmp c) (f_spool c) c in
                        obind (fun '(sys, c) => Ok (APR_SUCCESS, bb, put_ctx f c (set_io (a_in w) sys w)))
                          (filter_feed (length_of bb) (a_sys w) c)
                    end) (next mode readbytes w)
          end
      end) (with_context f w)
  | _ => Ok (APR_ENOTIMPL, [], w)
  end.

(** [ap_get_brigade] on a chain. *)
Fixpoint ap_get_brigade (chain : list link) (mode : ap_input_mode_t) (readbytes : nat) (w : a2)
  : presult (Z * brigade * a2) :=
  match chain with
  | [] =>
      let '(rv, bb, i) := core mode readbytes (a_in w) in Ok (rv, bb, set_io i (a_sys w) w)
  | LOther g :: chain => other g (ap_get_brigade chain) mode readbytes w
  | LApreq f :: chain => apreq_filter (ap_get_brigade chain) f mode readbytes w
  end.

(** The protocol filters begin with [f] when it was above them. *)
Definition keep_across_redirects (f : nat) (w : a2) : a2 :=
  match a_proto w with
  | Some p =>
      if bool_decide (p = LApreq f) then w
      else if bool_decide (LApreq f ∈ above p (a_input_filters w))
           then set_chain (a_input_filters w) (Some (LApreq f)) w else w
  | None =>
      if bool_decide (LApreq f ∈ a_input_filters w) then set_chain (a_input_filters w) (Some (LApreq f)) w
      else w
  end.

(** A filter that waits for a body is in the chain. *)
Definition apreq_filter_prefetch (f : nat) (readbytes : nat) (w : a2) : presult (Z * a2) :=
  match ctx_of w f with
  | None => Aborts
  | Some c =>
      let c := if (f_body_status c =? APR_EINIT)%Z then apreq_filter_init_context c else c in
      let w := put_ctx f c w in
      if negb (f_body_status c =? APR_INCOMPLETE)%Z || (readbytes =? 0) then Ok (f_body_status c, w)
      else
        obind (fun '(rv, bb, w) =>
          match ctx_of w f with
          | None => Aborts
          | Some c =>
              let bb := f_bb c ++ bb in
              let c := ctx_body (f_body c) (f_body_status c) (f_parser c) (f_bytes_read c) bb (f_bbtmp c)
                         (f_spool c) c in
              if negb (rv =? APR_SUCCESS)%Z
              then Ok (APREQ_ERROR_GENERAL, put_ctx f (ctx_error APREQ_ERROR_GENERAL rv c) w)
              else
                let r := apreq_brigade_concat FILE_BUCKET_LIMIT false (a_sys w)
                           (Z.to_nat (f_brigade_limit c)) (f_spool c) (apreq_brigade_copy (f_bbtmp c) bb) in
                let c := ctx_body (f_body c) (f_body_status c) (f_parser c) (f_bytes_read c) bb (cr_in r)
                           (cr_out r) c in
                let w := set_io (a_in w) (cr_world r) w in
                if negb (cr_status r =? APR_SUCCESS)%Z && negb (cr_status r =? APR_EOF)%Z
                then Ok (cr_status r, put_ctx f (ctx_error (cr_status r) APR_EGENERAL c) w)
                else
                  obind (fun '(sys, c) =>
                    Ok (f_body_status c, put_ctx f c (keep_across_redirects f (set_io (a_in w) sys w))))
                  (filter_feed (length_of bb) (a_sys w) c)
          end)
        match below (LApreq f) (a_input_filters w) with
        | Some chain => ap_get_brigade chain AP_MODE_READBYTES readbytes w
        | None => Aborts
        end
  end.

End Filter.

(** A chain whose new filters go first. *)
#[export] Program Instance list_chain : ApChain := {|
  chain_add l chain := l :: chain;
  chain_remove l chain proto :=
    (List.filter (fun l' => negb (bool_decide (l' = l))) chain,
     if bool_decide (proto = Some l)
     then snd <$> List.find (fun p => bool_decide (p.1 = l)) (zip chain (tail chain)) else proto)
|}.
Next Obligation. intros l chain. by exists [], chain. Qed.
Next Obligation. done. Qed.
