(* ===== verification/Apache2.v ===== *)
(** * The handle of Apache 2 ([src/libapreq2/module/apache2/handle.c])

    The handle of a request and the functions of its module, which drive the
    filter; with the hooks of the module from [filter.c]. *)
From S2P Require Import Prelude Apr Url Util Brigade Param Parser Urlencoded Header Boundary.
From S2P Require Import Multipart ParserRun Cookie Module Custom Cgi Filter.

Section Apache2.
Context {E : AprErrno} {T : AprTable} {TM : AprTableMerge} {X : Type} {XP : AprXml X} {H : HookEnv X}
        {W : Type} {F : AprFile W} {SM : AprStrmatch} {U : Type} {UP : UserParsers (X := X) (W := W) U}
        {AP : AprPartition} {AC : ApChain} {In : Type}.

Abbreviation table := (apr_table apreq_param_t).
Abbreviation jar_table := (apr_table apreq_cookie_t).
Abbreviation parser := (apreq_parser_t (X := X) (parser_ctx (X := X) U)).
Abbreviation hooks := (list (apreq_hook_t (X := X))).
Abbreviation request := (a2 (X := X) (W := W) (U := U) (In := In)).
Abbreviation context := (filter_ctx (X := X) (U := U)).

(** [r_args]: the query string; [turns]: how many turns of a loop are looked at. *)
Context (FILE_BUCKET_LIMIT : nat) (hole : nat -> Byte.byte) (apr_strtoi64 : bytes -> Z * bytes)
        (apr_date_parse_rfc : bytes -> Z) (now : Z) (junk : bytes)
        (reg : registry) (is_get : bool) (headers_in : apr_table bytes) (r_args : option bytes)
        (dir : option dir_config) (APR_EGENERAL : Z)
        (core : ap_input_mode_t -> nat -> In -> Z * brigade * In)
        (other : nat -> (ap_input_mode_t -> nat -> request -> presult (Z * brigade * request)) ->
                 ap_input_mode_t -> nat -> request -> presult (Z * brigade * request))
        (turns : nat).

Abbreviation make_context := (with_context is_get dir).
Abbreviation init_context := (apreq_filter_init_context apr_strtoi64 reg is_get headers_in).
Abbreviation prefetch := (apreq_filter_prefetch FILE_BUCKET_LIMIT hole apr_strtoi64 reg is_get headers_in
  dir APR_EGENERAL core other).

(** ** The filter of a handle *)

Definition set_h_f (f : option nat) (h : apache2_handle) : apache2_handle :=
  Apache2Handle (h_jar h) (h_args h) (h_jar_status h) (h_args_status h) f.

Definition ap_add_input_filter (w : request) : nat * request :=
  let f := a_fresh w in
  (f, set_ctxs (a_fctx w) (a_ctxs w) (S f)
        (set_chain (chain_add (LApreq f) (a_input_filters w)) (a_proto w) w)).

Definition get_apreq_filter (w : request) : presult (nat * request) :=
  match a_handle w with
  | None => Aborts
  | Some h =>
      match h_f h with
      | Some f => Ok (f, w)
      | None =>
          let '(f, w) := ap_add_input_filter w in
          Ok (f, apreq_filter_relocate f (set_handle (set_h_f (Some f) h) w))
      end
  end.

Definition apreq_handle_apache2 (w : request) : presult request :=
  let w := match a_handle w with
           | Some _ => w
           | None => set_handle (Apache2Handle None None APR_EINIT APR_EINIT None) w
           end in
  obind (fun '(_, w) => Ok w) (get_apreq_filter w).

(** The filter of the handle with its context. *)
Definition filter_context (w : request) : presult (nat * context * request) :=
  obind (fun '(f, w) =>
    obind (fun w => match ctx_of w f with
                    | Some c => Ok (f, c, w)
                    | None => Aborts
                    end) (make_context f w)) (get_apreq_filter w).

(** ** Cookies and query string *)

Definition with_handle {A} (k : apache2_handle -> presult A) (w : request) : presult A :=
  match a_handle w with Some h => k h | None => Aborts end.

Definition apache2_jar (w : request) : presult (Z * option jar_table * request) :=
  with_handle (fun h =>
    if (h_jar_status h =? APR_EINIT)%Z then
      let '(s, j) :=
        match apr_table_get headers_in (str "Cookie") with
        | Some cookies =>
            let '(s, j) := apreq_parse_cookie_header apr_strtoi64 apr_date_parse_rfc now junk
                             apr_table_make cookies in (s, Some j)
        | None => (APREQ_ERROR_NODATA, h_jar h)
        end in
      Ok (s, j, set_handle (Apache2Handle j (h_args h) s (h_args_status h) (h_f h)) w)
    else Ok (h_jar_status h, h_jar h, w)) w.

Definition apache2_args (w : request) : presult (Z * option table * request) :=
  with_handle (fun h =>
    if (h_args_status h =? APR_EINIT)%Z then
      let '(s, t) :=
        match r_args with
        | Some qs => let '(s, t) := apreq_parse_query_string hole apr_table_make qs in (s, Some t)
        | None => (APREQ_ERROR_NODATA, h_args h)
        end in
      Ok (s, t, set_handle (Apache2Handle (h_jar h) t (h_jar_status h) s (h_f h)) w)
    else Ok (h_args_status h, h_args h, w)) w.

Definition apache2_jar_get (w : request) (name : option bytes)
  : presult (option apreq_cookie_t * request) :=
  with_handle (fun h =>
    obind (fun '(_, t, w) => obind (fun c => Ok (c, w)) (lookup_entry t name))
      (if (h_jar_status h =? APR_EINIT)%Z then apache2_jar w else Ok (h_jar_status h, h_jar h, w))) w.

Definition apache2_args_get (w : request) (name : option bytes)
  : presult (option apreq_param_t * request) :=
  with_handle (fun h =>
    obind (fun '(_, t, w) => obind (fun p => Ok (p, w)) (lookup_entry t name))
      (if (h_args_status h =? APR_EINIT)%Z then apache2_args w else Ok (h_args_status h, h_args h, w))) w.

(** ** The body *)

(** [while (apreq_filter_prefetch(...) == APR_INCOMPLETE);] *)
Fixpoint prefetch_loop (fuel : nat) (f : nat) (w : request) : presult request :=
  match fuel with
  | O => NoFuel
  | S fuel =>
      obind (fun '(s, w) => if (s =? APR_INCOMPLETE)%Z then prefetch_loop fuel f w else Ok w)
        (prefetch f APREQ_DEFAULT_READ_BLOCK_SIZE w)
  end.

Definition apache2_body (w : request) : presult (Z * option table * request) :=
  obind (fun '(f, c, w) =>
    let s := f_body_status c in
    let c := if (s =? APR_EINIT)%Z then init_context c else c in
    let w := put_ctx f c w in
    obind (fun w => match ctx_of w f with
                    | Some c => Ok (f_body_status c, f_body c, w)
                    | None => Aborts
                    end)
      (if ((s =? APR_EINIT)%Z || (s =? APR_INCOMPLETE)%Z) && (f_body_status c =? APR_INCOMPLETE)%Z
       then prefetch_loop turns f w else Ok w)) (filter_context w).

(** The hook that looks for a parameter, on the parser of a context and off it. *)
Definition push_find (name : bytes) (c : context) : presult context :=
  match f_parser c with
  | None => Aborts
  | Some psr =>
      Ok (ctx_parser (Some (set_hook psr (Hook HookFindParam (CtxKey name) :: ps_hook psr)))
            (ctx_set (f_hook_queue c) true (f_read_limit c) (f_brigade_limit c) (f_temp_dir c) c))
  end.
Definition pop_find (c : context) : context :=
  ctx_parser ((fun psr => set_hook psr (tail (ps_hook psr))) <$> f_parser c) c.

Definition found_param (c : context) : option apreq_param_t :=
  psr ← f_parser c; h ← head (ps_hook psr);
  match h_ctx h with CtxParam p => Some p | _ => None end.

Fixpoint find_loop (fuel : nat) (f : nat) (w : request) : presult (option apreq_param_t * request) :=
  match fuel with
  | O => NoFuel
  | S fuel =>
      obind (fun '(_, w) =>
        match ctx_of w f with
        | None => Aborts
        | Some c =>
            match found_param c with
            | Some p => Ok (Some p, put_ctx f (pop_find c) w)
            | None =>
                if (f_body_status c =? APR_INCOMPLETE)%Z then find_loop fuel f w
                else Ok (None, put_ctx f (pop_find c) w)
            end
        end) (prefetch f APREQ_DEFAULT_READ_BLOCK_SIZE w)
  end.

(** The case [APR_INCOMPLETE]: the table, then the rest of the body. *)
Definition find_or_fetch (f : nat) (name : option bytes) (w : request)
  : presult (option apreq_param_t * request) :=
  match ctx_of w f with
  | None => Aborts
  | Some c =>
      obind (fun val =>
        match val, name with
        | Some p, _ => Ok (Some p, w)
        | None, Some name => obind (fun c => find_loop turns f (put_ctx f c w)) (push_find name c)
        | None, None => Aborts
        end) (lookup_entry (f_body c) name)
  end.

Definition apache2_body_get (w : request) (name : option bytes)
  : presult (option apreq_param_t * request) :=
  obind (fun '(f, c, w) =>
    let s := f_body_status c in
    if (s =? APR_EINIT)%Z then
      let c := init_context c in
      let w := put_ctx f c w in
      if negb (f_body_status c =? APR_INCOMPLETE)%Z then Ok (None, w)
      else obind (fun '(_, w) => find_or_fetch f name w) (prefetch f APREQ_DEFAULT_READ_BLOCK_SIZE w)
    else if (s =? APR_INCOMPLETE)%Z then find_or_fetch f name w
    else obind (fun val => Ok (val, w)) (lookup_entry (f_body c) name)) (filter_context w).

(** ** Settings *)

Definition apache2_parser_get (w : request) : presult (Z * option parser * request) :=
  obind (fun '(f, w) =>
    Ok (match ctx_of w f with
        | None => (APR_EINIT, None, w)
        | Some c => (APR_SUCCESS, f_parser c, w)
        end)) (get_apreq_filter w).

Definition apache2_parser_set (w : request) (psr : parser) : presult (Z * request) :=
  obind (fun '(f, c, w) =>
    Ok (match f_parser c with
        | None => (APR_SUCCESS, put_ctx f (ctx_parser (Some psr) c) w)
        | Some _ => (APREQ_ERROR_NOTEMPTY, w)
        end)) (filter_context w).

Definition apache2_hook_add (w : request) (hook : hooks) : presult (Z * request) :=
  obind (fun '(f, c, w) =>
    Ok (match f_parser c with
        | Some psr => let '(s, psr) := apreq_parser_add_hook psr hook in
                      (s, put_ctx f (ctx_parser (Some psr) c) w)
        | None => (APR_SUCCESS,
                   put_ctx f (ctx_set (f_hook_queue c ++ hook) (f_find_param c) (f_read_limit c)
                                (f_brigade_limit c) (f_temp_dir c) c) w)
        end)) (filter_context w).

Definition apache2_brigade_limit_set (w : request) (bytes : nat) : presult (Z * request) :=
  obind (fun '(f, c, w) =>
    Ok (if (f_body_status c =? APR_EINIT)%Z || (Z.of_nat bytes <? f_brigade_limit c)%Z
        then (APR_SUCCESS, put_ctx f (ctx_set (f_hook_queue c) (f_find_param c) (f_read_limit c)
                                        (Z.of_nat bytes) (f_temp_dir c) c) w)
        else (APREQ_ERROR_MISMATCH, w))) (filter_context w).

Definition apache2_brigade_limit_get (w : request) : presult (Z * nat * request) :=
  obind (fun '(f, c, w) => Ok (APR_SUCCESS, Z.to_nat (f_brigade_limit c), w)) (filter_context w).

Definition apache2_read_limit_set (w : request) (bytes : Z) : presult (Z * request) :=
  obind (fun '(f, c, w) =>
    Ok (if (bytes <? f_read_limit c)%Z && (f_bytes_read c <? bytes)%Z
        then (APR_SUCCESS, put_ctx f (ctx_set (f_hook_queue c) (f_find_param c) bytes (f_brigade_limit c)
                                        (f_temp_dir c) c) w)
        else (APREQ_ERROR_MISMATCH, w))) (filter_context w).

Definition apache2_read_limit_get (w : request) : presult (Z * Z * request) :=
  obind (fun '(f, c, w) => Ok (APR_SUCCESS, f_read_limit c, w)) (filter_context w).

Definition apache2_temp_dir_set (w : request) (path : option bytes) : presult (Z * request) :=
  obind (fun '(f, c, w) =>
    Ok (match f_temp_dir c with
        | Some _ => (APREQ_ERROR_NOTEMPTY, w)
        | None =>
            if negb (f_bytes_read c =? 0)%Z then (APREQ_ERROR_NOTEMPTY, w)
            else (APR_SUCCESS, put_ctx f (ctx_set (f_hook_queue c) (f_find_param c) (f_read_limit c)
                                            (f_brigade_limit c) path c) w)
        end)) (filter_context w).

Definition apache2_temp_dir_get (w : request) : presult (Z * option bytes * request) :=
  obind (fun '(f, c, w) =>
    Ok (APR_SUCCESS, match f_parser c with Some psr => ps_temp_dir psr | None => f_temp_dir c end, w))
    (filter_context w).

Definition apache2_module : apreq_module_t (U := U) request := {|
  name := str "apache2"; magic_number := 20050427;
  jar := apache2_jar; args := apache2_args; body := apache2_body;
  jar_get := apache2_jar_get; args_get := apache2_args_get; body_get := apache2_body_get;
  parser_get := apache2_parser_get; parser_set := apache2_parser_set; hook_add := apache2_hook_add;
  brigade_limit_get := apache2_brigade_limit_get; brigade_limit_set := apache2_brigade_limit_set;
  read_limit_get := apache2_read_limit_get; read_limit_set := apache2_read_limit_set;
  temp_dir_get := apache2_temp_dir_get; temp_dir_set := apache2_temp_dir_set
|}.

(** ** Hooks of the module *)

(** Before the handler of the request runs: only the filter on top goes on. *)
Definition apreq_filter_init (f : nat) (w : request) : presult (Z * request) :=
  obind (fun w =>
    with_handle (fun h =>
      let set_f g w := set_handle (set_h_f g h) w in
      if is_get then Ok (APR_SUCCESS, w)
      else
        match ctx_of w f with
        | Some c =>
            if negb (f_body_status c =? APR_EINIT)%Z then
              if bool_decide (h_f h = Some f) then
                let c := if (f_body_status c =? APR_INCOMPLETE)%Z
                         then ctx_status APREQ_ERROR_INTERRUPT c else c in
                Ok (APR_SUCCESS, set_f None (put_ctx f c w))
              else Ok (APR_SUCCESS, w)
            else
              match a_input_filters w with
              | LApreq g :: _ =>
                  if bool_decide (g = f) then Ok (APR_SUCCESS, set_f (Some f) w)
                  else
                    let w := if bool_decide (h_f h = Some f) then set_f (Some g) w else w in
                    Ok (APR_SUCCESS, ap_remove_input_filter f w)
              | _ => Ok (APR_SUCCESS, set_f (Some f) (apreq_filter_relocate f w))
              end
        | None =>
            match a_input_filters w with
            | LApreq g :: _ =>
                if bool_decide (g = f) then Ok (APR_SUCCESS, set_f (Some f) w)
                else
                  let w := if bool_decide (h_f h = Some f) then set_f (Some g) w else w in
                  Ok (APR_SUCCESS, ap_remove_input_filter f w)
            | _ => Ok (APR_SUCCESS, set_f (Some f) (apreq_filter_relocate f w))
            end
        end) w) (apreq_handle_apache2 w).

End Apache2.

(** ** Start of the server *)

(** [OK] is 0, [HTTP_INTERNAL_SERVER_ERROR] 500. *)
Definition apreq_pre_init {E : AprErrno} (pool_status : Z) (g : registry) : Z * registry :=
  let '(status, g) := apreq_pre_initialize pool_status g in
  if negb (status =? APR_SUCCESS)%Z then (500%Z, g) else (0%Z, g).

Definition apreq_post_init {E : AprErrno} (g : registry) : Z * registry :=
  let '(status, g) := apreq_post_initialize g in
  if negb (status =? APR_SUCCESS)%Z then (500%Z, g) else (0%Z, g).
