(* ===== verification/FilterRuns.v ===== *)
(** * What passes the filter of Apache 2

    A handler reads the body through the filter while apreq asks the filter to
    fetch it: in any order of reads and fetches the handler gets the whole body,
    unchanged, and its end only behind it. *)
From S2P Require Import Prelude Apr Url Util Brigade Param Parser Urlencoded Header Boundary.
From S2P Require Import Multipart FormData StreamEnd ParserRun Cookie Module Custom Cgi Filter Apache2.

(** ** The end of the stream *)

(** Behind an EOS bucket there is no data, here and in what is to come. *)
Definition eos_ends (l : brigade) (r : bytes) : Prop :=
  forall a b, l = a ++ BEos :: b -> brigade_data b = [] /\ r = [].

Lemma plain_no_eos cl a b : forallb plain cl = true -> cl = a ++ BEos :: b -> False.
Proof. intros Hp ->. rewrite forallb_app in Hp. by apply andb_true_iff in Hp as [_ Hp]. Qed.

(** The next piece of the stream. *)
Lemma eos_ends_piece l1 l2 cl fin r :
  eos_ends (l1 ++ l2) (brigade_data cl ++ r) -> brigade_data l2 = [] -> forallb plain cl = true ->
  (fin = true -> r = []) -> eos_ends (l1 ++ (cl ++ eos_if fin) ++ l2) r.
Proof.
  intros He Hl2 Hp Hfin a b [(b' & -> & ->)|(a' & Heq & ->)]%app_cons_inv.
  - destruct (He a (b' ++ l2)) as [H1 H2]; [by rewrite <- app_assoc|].
    apply app_eq_nil in H2 as [H2 ->]. rewrite !brigade_data_app in *. rewrite H2, Hl2, app_nil_r in *.
    rewrite H1. by destruct fin.
  - apply app_cons_inv in Heq as [(b' & Heq & ->)|(a2 & -> & ->)].
    + apply app_cons_inv in Heq as [(b2 & Heq & _)|(a2 & Heq & _)]; [by edestruct plain_no_eos|].
      destruct fin; [|by destruct a2]. assert (b' = []) as -> by (by destruct a2 as [|? [|]]; simplify_eq/=).
      split; [done|by apply Hfin].
    + destruct (He (l1 ++ a2) b) as [H1 H2]; [by rewrite <- app_assoc|].
      by apply app_eq_nil in H2 as [_ H2].
Qed.

(** Data is cut in another way. *)
Lemma eos_ends_same x m m' y r :
  eos_ends (x ++ m ++ y) r -> brigade_data m' = brigade_data m ->
  (forall a b, m' = a ++ BEos :: b -> False) -> eos_ends (x ++ m' ++ y) r.
Proof.
  intros He Hd Hm a b [(b' & -> & ->)|(a' & Heq & ->)]%app_cons_inv.
  - rewrite <- app_assoc in He. destruct (He a (b' ++ m ++ y) eq_refl) as [H1 H2].
    by rewrite !brigade_data_app, Hd, <- !brigade_data_app.
  - apply app_cons_inv in Heq as [(b' & Heq & _)|(a2 & -> & ->)]; [by edestruct Hm|].
    apply (He (x ++ m ++ a2)). by rewrite <- !app_assoc.
Qed.

Section Facts.
Context {E : AprErrno} {W : Type} {F : AprFile W} {AP : AprPartition} (FILE_BUCKET_LIMIT : nat).

(** After a concatenation that is successful. *)
Lemma eos_ends_concat got (w : W) limit out in_bb r :
  let res := apreq_brigade_concat FILE_BUCKET_LIMIT false w limit out in_bb in
  eos_ends (got ++ out ++ in_bb) r -> cr_status res = APR_SUCCESS ->
  brigade_data (cr_out res) = brigade_data out ++ brigade_data in_bb ->
  eos_ends (got ++ cr_out res) r.
Proof.
  cbn zeta. set (res := apreq_brigade_concat _ _ _ _ _ _). intros He Hs Hd a b Heq.
  apply app_cons_inv in Heq as [(b' & -> & ->)|(a' & Heq & ->)].
  - rewrite <- app_assoc in He. destruct (He a (b' ++ out ++ in_bb) eq_refl) as [H1 H2].
    by rewrite brigade_data_app, Hd, <- !brigade_data_app.
  - assert (Hall : exists x y, out ++ in_bb = x ++ BEos :: y /\ brigade_data b = brigade_data y).
    { pose proof (concat_bb_eos FILE_BUCKET_LIMIT w limit out in_bb a' b Hs Heq) as [(b' & Ho)|(x & Hi)].
      - exists a', (b' ++ in_bb). split; [by rewrite Ho, <- app_assoc|].
        destruct (He (got ++ a') (b' ++ in_bb)) as [H1 _]; [by rewrite Ho, <- !app_assoc|].
        rewrite Heq, Ho, !brigade_data_app, !brigade_data_cons in Hd. cbn [apr_bucket_read snd app] in Hd.
        rewrite <- app_assoc in Hd. apply app_inv_head in Hd. by rewrite Hd, brigade_data_app.
      - exists (out ++ x), b. by rewrite Hi, <- app_assoc. }
    destruct Hall as (x & y & Hxy & ->). apply (He (got ++ x)). by rewrite Hxy, <- app_assoc.
Qed.

(** [apr_brigade_partition] may cut one bucket. *)
Lemma partition_keeps bb n s bb' e :
  apr_brigade_partition bb n = (s, bb', e) ->
  brigade_data bb' = brigade_data bb /\
  (forallb readable bb = true -> forallb readable bb' = true) /\
  (spool_open FILE_BUCKET_LIMIT bb -> spool_open FILE_BUCKET_LIMIT bb') /\
  (forall x y r, eos_ends (x ++ bb ++ y) r -> eos_ends (x ++ bb' ++ y) r).
Proof.
  intros Hp. destruct (partition_split _ _ _ _ _ Hp) as [_ [->|(a & b & k & c & -> & Hk & -> & _)]]; [done|].
  assert (Hd : brigade_data [(apr_bucket_split b k).1; (apr_bucket_split b k).2] = brigade_data [b]).
  { destruct (split_data b k) as [H1 H2]; [lia|].
    rewrite brigade_data_cons, !brigade_data_one, H1, H2. apply take_drop. }
  split_and!.
  - rewrite !brigade_data_app, (brigade_data_cons b), <- (app_nil_r (apr_bucket_read b).2).
    change ((apr_bucket_split b k).1 :: (apr_bucket_split b k).2 :: c)
      with ([(apr_bucket_split b k).1; (apr_bucket_split b k).2] ++ c).
    rewrite brigade_data_app, Hd. by rewrite brigade_data_one, app_nil_r.
  - rewrite !forallb_app. cbn [forallb]. rewrite !andb_true_iff. intros (Ha & Hb & Hc).
    by destruct (split_readable b k Hb) as [-> ->].
  - unfold spool_open. rewrite !last_app. destruct c as [|x c]; [|done]. cbn [last].
    destruct b as [| | | |[]]; cbn in *; try done. rewrite length_take, length_drop in Hk. lia.
  - intros x y r He.
    change (a ++ b :: c) with (a ++ [b] ++ c) in He. rewrite <- !app_assoc, (app_assoc x a) in He.
    change (a ++ (apr_bucket_split b k).1 :: (apr_bucket_split b k).2 :: c)
      with (a ++ [(apr_bucket_split b k).1; (apr_bucket_split b k).2] ++ c).
    rewrite <- !app_assoc, (app_assoc x a). apply (eos_ends_same _ [b]); [done..|].
    intros a' b'. apply plain_no_eos. by destruct b; cbn in Hk |- *; try lia.
Qed.

Lemma data_take_le bb n k : n <= k ->
  length (brigade_data (take n bb)) <= length (brigade_data (take k bb)).
Proof.
  intros Hn. replace n with (Nat.min n k) by lia. rewrite <- take_take.
  rewrite <- (take_drop n (take k bb)) at 2. rewrite brigade_data_app, length_app. lia.
Qed.

(** What [apreq_brigade_move] leaves. *)
Lemma move_keeps spool n bb rest :
  apreq_brigade_move [] spool n = (bb, rest) ->
  spool = bb ++ rest /\ (spool_open FILE_BUCKET_LIMIT spool -> spool_open FILE_BUCKET_LIMIT rest).
Proof.
  unfold apreq_brigade_move. destruct (n <? length spool); intros [= <- <-].
  - split; [by rewrite app_nil_r, take_drop|]. intros Ho.
    destruct (drop (S n) spool) as [|e l] eqn:Ed; [done|]. rewrite <- (take_drop (S n) spool), Ed in Ho.
    unfold spool_open in *. by rewrite last_app in Ho; destruct (last (e :: l)) eqn:El; [|apply last_None in El].
  - split; [by rewrite app_nil_r|done].
Qed.

End Facts.

Section Runs.
Context {E : AprErrno} {T : AprTable} {TM : AprTableMerge} {X : Type} {XP : AprXml X} {H : HookEnv X}
        {W : Type} {F : AprFile W} {SM : AprStrmatch} {U : Type} {UP : UserParsers (X := X) (W := W) U}
        {AP : AprPartition} {AC : ApChain} {In : Type}.

Abbreviation table := (apr_table apreq_param_t).
Abbreviation parser := (apreq_parser_t (X := X) (parser_ctx (X := X) U)).
Abbreviation request := (a2 (X := X) (W := W) (U := U) (In := In)).
Abbreviation context := (filter_ctx (X := X) (U := U)).

Context (FILE_BUCKET_LIMIT : nat) (hole : nat -> Byte.byte) (apr_strtoi64 : bytes -> Z * bytes)
        (reg : registry) (is_get : bool) (headers_in : apr_table bytes)
        (dir : option dir_config) (APR_EGENERAL : Z)
        (core : ap_input_mode_t -> nat -> In -> Z * brigade * In)
        (other : nat -> (ap_input_mode_t -> nat -> request -> presult (Z * brigade * request)) ->
                 ap_input_mode_t -> nat -> request -> presult (Z * brigade * request)).

Abbreviation make_context := (with_context is_get dir).
Abbreviation init_context := (apreq_filter_init_context apr_strtoi64 reg is_get headers_in).
Abbreviation parser_run := (apreq_parser_run FILE_BUCKET_LIMIT hole).
Abbreviation prefetch := (apreq_filter_prefetch FILE_BUCKET_LIMIT hole apr_strtoi64 reg is_get headers_in
  dir APR_EGENERAL core other).
Abbreviation get_brigade := (ap_get_brigade FILE_BUCKET_LIMIT hole apr_strtoi64 reg is_get headers_in
  dir core other).

(** ** Runs *)

Inductive reader_op := Prefetch (n : nat) | Read (n : nat).

Definition op_size (op : reader_op) : nat := match op with Prefetch n | Read n => n end.

(** apreq fetches, or the handler reads at the top of the chain: what it gets. *)
Definition reader_step (f : nat) (op : reader_op) (w : request) : presult (list (Z * brigade) * request) :=
  match op with
  | Prefetch n => obind (fun w => obind (fun '(_, w) => Ok ([], w)) (prefetch f n w)) (make_context f w)
  | Read n => obind (fun '(rv, bb, w) => Ok ([(rv, bb)], w))
                (get_brigade (a_input_filters w) AP_MODE_READBYTES n w)
  end.

Fixpoint run_reader (f : nat) (ops : list reader_op) (w : request)
  : presult (list (Z * brigade) * request) :=
  match ops with
  | [] => Ok ([], w)
  | op :: ops =>
      obind (fun '(o, w) => obind (fun '(os, w) => Ok (o ++ os, w)) (run_reader f ops w))
        (reader_step f op w)
  end.

(** The buckets a handler got. *)
Definition received (os : list (Z * brigade)) : brigade := concat (map snd os).

(** What a filter keeps for the handler. *)
Definition kept (f : nat) (w : request) : brigade :=
  match ctx_of w f with Some c => f_spool c | None => [] end.

(** Below the filter, every read yields the next piece of the body, or its end. *)
Definition core_streams (rest : In -> bytes) : Prop :=
  forall i n, 0 < n -> exists cl fin i',
    core AP_MODE_READBYTES n i = (APR_SUCCESS, cl ++ eos_if fin, i') /\ forallb clean cl = true /\
    rest i = brigade_data cl ++ rest i' /\ (fin = true -> rest i' = []) /\
    (brigade_data cl = [] -> fin = true).

(** What the parser of a request does with a body [whole]: [P psr t y] says that
    it waits for [y], [D s t] that [s] and [t] are a result, [Last psr] that the
    next call is the last. *)
Record parses (whole : bytes) (P : parser -> table -> bytes -> Prop) (D : Z -> table -> Prop)
    (Last : parser -> Prop) : Prop := {
  pa_made ct pf limit d : apr_table_get headers_in (str "Content-Type") = Some ct ->
    apreq_parser reg (Some ct) = Some pf -> P (apreq_parser_make ct pf limit d [] None) apr_table_make whole;
  pa_turn psr (sys : W) t cl fin y : P psr t (brigade_data cl ++ y) -> forallb clean cl = true ->
    (fin = true -> y = []) ->
    exists s sys' psr' t' bb', parser_run sys psr t (Some (cl ++ eos_if fin)) = Ok (s, sys', psr', t', bb') /\
      s <> APR_EINIT /\ (s = APR_INCOMPLETE -> P psr' t' y) /\ (s <> APR_INCOMPLETE -> D s t') /\
      (fin = true -> s = APR_INCOMPLETE -> Last psr') /\ (Last psr -> s <> APR_INCOMPLETE)
}.

(** ** Contexts and chains *)

Lemma ctx_of_put f c c' (w : request) : ctx_of w f = Some c -> ctx_of (put_ctx f c' w) f = Some c'.
Proof.
  unfold ctx_of, put_ctx. destruct (a_fctx w !! f) as [i|] eqn:Ef; cbn; [|done]. intros _.
  rewrite Ef. cbn. apply lookup_insert_eq.
Qed.

Lemma put_chain f c (w : request) : a_input_filters (put_ctx f c w) = a_input_filters w.
Proof. unfold put_ctx. by destruct (a_fctx w !! f). Qed.

Lemma put_handle f c (w : request) : a_handle (put_ctx f c w) = a_handle w.
Proof. unfold put_ctx. by destruct (a_fctx w !! f). Qed.

Lemma put_in f c (w : request) : a_in (put_ctx f c w) = a_in w.
Proof. unfold put_ctx. by destruct (a_fctx w !! f). Qed.

Lemma remove_same f (w : request) :
  a_input_filters (ap_remove_input_filter f w) =
    List.filter (fun l => negb (bool_decide (l = LApreq f))) (a_input_filters w) /\
  a_in (ap_remove_input_filter f w) = a_in w /\
  a_handle (ap_remove_input_filter f w) = a_handle w /\
  forall g, ctx_of (ap_remove_input_filter f w) g = ctx_of w g.
Proof.
  unfold ap_remove_input_filter.
  pose proof (chain_removed (LApreq f) (a_input_filters w) (a_proto w)) as Hr.
  destruct (chain_remove _ _ _) as [chain proto]. cbn in Hr. by subst chain.
Qed.

Lemma copy_clean cl : forallb clean cl = true -> map apr_bucket_copy cl = cl.
Proof.
  induction cl as [|e cl IH]; cbn; [done|]. rewrite andb_true_iff. intros [He Hc].
  rewrite (IH Hc). f_equal. apply andb_true_iff in He as [_ He]. by destruct e as [| | | |[]].
Qed.

Lemma copy_piece cl fin : forallb clean cl = true ->
  map apr_bucket_copy (cl ++ eos_if fin) = cl ++ eos_if fin.
Proof. intros Hc. rewrite map_app, copy_clean by done. by destruct fin. Qed.

Lemma clean_piece cl fin : forallb clean cl = true ->
  forallb plain cl = true /\ forallb readable (cl ++ eos_if fin) = true /\
  forallb not_spool (cl ++ eos_if fin) = true /\ brigade_data (cl ++ eos_if fin) = brigade_data cl.
Proof.
  intros Hc. assert (Hp : forallb plain cl = true /\ forallb not_spool cl = true).
  { unfold clean in Hc. rewrite !forallb_forall in *. split; intros e He; apply Hc, andb_true_iff in He; tauto. }
  destruct Hp as [Hp Hn]. rewrite brigade_data_app, !forallb_app, Hn, (plain_readable _ Hp).
  split_and!; [done|by destruct fin..|destruct fin; apply app_nil_r].
Qed.

(** ** The body stays whole *)

Section Whole.
Context (f : nat) (rest : In -> bytes) (whole : bytes) (hnd : option apache2_handle)
        (P : parser -> table -> bytes -> Prop) (D : Z -> table -> Prop) (Last : parser -> Prop).
Context (Hlimit : 0 < FILE_BUCKET_LIMIT) (Hos : os_reliable (W := W)) (Hcore : core_streams rest)
        (Hparse : parses whole P D Last) (Hfits : (Z.of_nat (length whole) < 2 ^ 64)%Z).

Abbreviation fresh := (new_context (X := X) (U := U) dir).

(** The read limit of the request, and the status with which its body starts. *)
Definition limit0 : Z := f_read_limit fresh.
Definition status0 : Z := f_body_status (init_context fresh).

(** Why the body is not parsed, or what it was parsed to. *)
Definition outcome (s : Z) (t : option table) : Prop :=
  (status0 <> APR_INCOMPLETE /\ s = status0) \/
  (status0 = APR_INCOMPLETE /\
   (s = APREQ_ERROR_OVERLIMIT /\ (limit0 < Z.of_nat (length whole))%Z \/ exists t', t = Some t' /\ D s t')).

(** A filter that waits has a parser, which waits for what is to come, [r]. *)
Definition waits (c : context) (r : bytes) : Prop :=
  status0 = APR_INCOMPLETE /\ f_bb c = [] /\
  (f_bytes_read c + Z.of_nat (length r) = Z.of_nat (length whole))%Z /\
  exists psr t, f_parser c = Some psr /\ P psr t r /\ f_body c = Some t.

Definition parsing (c : context) (r : bytes) : Prop :=
  f_read_limit c = limit0 /\ (f_body_status c = APR_INCOMPLETE -> waits c r) /\
  (f_body_status c <> APR_INCOMPLETE -> outcome (f_body_status c) (f_body c)).

(** [got] was read so far, and [r] is to come. *)
Record ctx_ok (got : brigade) (c : context) (r : bytes) : Prop := {
  co_spool : forallb readable (f_spool c) = true;
  co_open : spool_open FILE_BUCKET_LIMIT (f_spool c);
  co_tmp : forallb readable (f_bbtmp c) = true /\ forallb not_spool (f_bbtmp c) = true /\
           brigade_data (f_bbtmp c) = [];
  co_error : f_filter_error c = 0%Z;
  co_parsing : parsing c r;
  co_eos : eos_ends (got ++ f_spool c ++ f_bbtmp c) r;
  co_all : brigade_data got ++ brigade_data (f_spool c) ++ r = whole
}.

(** In the chain, or taken out of it. *)
Definition placed (c : context) (w : request) : Prop :=
  a_input_filters w = [LApreq f] \/
  a_input_filters w = [] /\ f_spool c = [] /\ f_body_status c <> APR_INCOMPLETE.

Definition run_ok (got : brigade) (w : request) : Prop :=
  a_handle w = hnd /\
  ((ctx_of w f = None /\ a_input_filters w = [LApreq f] /\ got = [] /\ rest (a_in w) = whole) \/
   exists c, ctx_of w f = Some c /\ ctx_ok got c (rest (a_in w)) /\ f_body_status c <> APR_EINIT /\
     placed c w).

Definition initialized (c : context) : context :=
  if (f_body_status c =? APR_EINIT)%Z then init_context c else c.

Ltac status_lia :=
  intros; pose proof einit_range; pose proof apr_einit_apart; pose proof incomplete_range;
  unfold APREQ_ERROR_BADHEADER, APREQ_ERROR_OVERLIMIT, APREQ_ERROR_NOHEADER, APREQ_ERROR_NOPARSER,
    APREQ_ERROR_NODATA, APREQ_ERROR_BADDATA, APREQ_ERROR_MISMATCH, APREQ_ERROR_GENERAL, APR_SUCCESS in *;
  lia.

(** The fields of a context, without the numbers in it. *)
Ltac cbn_ctx :=
  cbn [f_spool f_bbtmp f_filter_error f_bb f_parser f_body f_body_status f_bytes_read f_read_limit
    ctx_body ctx_status ctx_set new_context forallb brigade_data flat_map app].

(** A new context, set up for the request. *)
Lemma init_fresh :
  ctx_ok [] (init_context fresh) whole /\ status0 <> APR_EINIT /\
  f_spool (init_context fresh) = [].
Proof.
  assert (Hst : forall s, init_context fresh = ctx_status s fresh ->
    s <> APR_INCOMPLETE -> s <> APR_EINIT ->
    ctx_ok [] (init_context fresh) whole /\ status0 <> APR_EINIT /\
    f_spool (init_context fresh) = []).
  { intros s Heq Hi Hn. assert (Hs0 : status0 = s) by (unfold status0; by rewrite Heq).
    rewrite Hs0, Heq. split; [|done]. split; cbn_ctx; try done; [|by intros [|]].
    split; [done|]. split; [done|]. left. by rewrite Hs0. }
  unfold apreq_filter_init_context in Hst |- *. destruct is_get eqn:Eg; [eapply Hst; [done|status_lia..]|].
  destruct (announced _ _ _) as [s|] eqn:Ea.
  { assert (s = APREQ_ERROR_BADHEADER \/ s = APREQ_ERROR_OVERLIMIT) as Hs'.
    { revert Ea. unfold announced. repeat case_match; intros; simplify_eq; auto. }
    eapply Hst; [done|destruct Hs' as [-> | ->]; status_lia..]. }
  unfold filter_parser in Hst |- *. cbn [f_parser new_context] in *.
  destruct (apr_table_get headers_in (str "Content-Type")) as [ct|] eqn:Ect;
    [|eapply Hst; [done|status_lia..]].
  destruct (apreq_parser reg (Some ct)) as [pf|] eqn:Epf; [|eapply Hst; [done|status_lia..]].
  assert (Hs0 : status0 = APR_INCOMPLETE).
  { unfold status0, apreq_filter_init_context. rewrite Eg, Ea. unfold filter_parser. cbn [f_parser new_context].
    by rewrite Ect, Epf. }
  rewrite Hs0. split; [|split; [status_lia|done]]. split; cbn_ctx; try done; [|by intros [|]].
  split; [done|split; [|done]]. intros _. split_and!; [done..|]. eexists _, _. split_and!; [done| |done].
  by apply (pa_made _ _ _ _ Hparse ct pf).
Qed.

(** The context that an operation works on. *)
Lemma opened got (w : request) : run_ok got w ->
  exists w1 c1, make_context f w = Ok w1 /\ ctx_of w1 f = Some c1 /\
    ctx_ok got (initialized c1) (rest (a_in w1)) /\ f_body_status (initialized c1) <> APR_EINIT /\
    placed (initialized c1) w1 /\ a_input_filters w1 = a_input_filters w /\ a_in w1 = a_in w /\
    f_spool (initialized c1) = kept f w /\ a_handle w1 = hnd.
Proof.
  intros [Hh [(Hc & Hch & -> & Hr)|(c & Hc & Hok & Hst & Hpl)]]; unfold with_context, kept; rewrite Hc.
  - unfold apreq_filter_make_context. rewrite Hch. eexists _, _. split; [reflexivity|].
    unfold ctx_of. cbn [a_fctx a_ctxs set_ctxs]. rewrite lookup_insert_eq. cbn [mbind option_bind].
    rewrite lookup_insert_eq. split; [reflexivity|]. unfold initialized. cbn [f_body_status new_context].
    rewrite Z.eqb_refl. cbn [a_in a_input_filters a_handle set_ctxs]. rewrite Hr.
    destruct init_fresh as (H1 & H2 & H3). split_and!; [exact H1|exact H2|by left|done..].
  - exists w, c. unfold initialized. rewrite (proj2 (Z.eqb_neq _ _) Hst). by split_and!.
Qed.

(** A piece goes to the parser. *)
Lemma feed_piece sys (c c0 : context) cl fin r :
  waits c0 (brigade_data cl ++ r) -> f_read_limit c = limit0 -> f_bytes_read c = f_bytes_read c0 ->
  f_parser c = f_parser c0 -> f_body c = f_body c0 ->
  f_bb c = cl ++ eos_if fin -> forallb clean cl = true -> (fin = true -> r = []) ->
  length (brigade_data cl ++ r) <= length whole ->
  exists sys' c', filter_feed FILE_BUCKET_LIMIT hole (length_of (cl ++ eos_if fin)) sys c = Ok (sys', c') /\
    parsing c' r /\ f_body_status c' <> APR_EINIT /\ f_spool c' = f_spool c /\ f_bbtmp c' = f_bbtmp c /\
    f_filter_error c' = f_filter_error c /\
    (f_body_status c' = APR_INCOMPLETE -> ~ (exists psr, f_parser c0 = Some psr /\ Last psr) /\
       (fin = true -> exists psr, f_parser c' = Some psr /\ Last psr)).
Proof.
  intros (Hs0 & _ & Hn & psr & t & Hp & HP & Ht) Hl Hbr Hpar Hbody Hbb Hcl Hfin Hle. unfold filter_feed.
  destruct (clean_piece cl fin Hcl) as (Hplain & Hrd & _ & Hd). rewrite length_app in Hle, Hn.
  assert (Hlen : length_of (cl ++ eos_if fin) = Z.of_nat (length (brigade_data cl))).
  { unfold length_of. by rewrite (brigade_length_readable _ Hrd), Z.eqb_refl, Hd. }
  assert (Hu : u64 (f_bytes_read c + length_of (cl ++ eos_if fin)) =
    (f_bytes_read c + Z.of_nat (length (brigade_data cl)))%Z)
    by (rewrite Hlen; unfold u64; apply Z.mod_small; lia).
  rewrite Hu. cbn [f_read_limit ctx_body]. rewrite Hl, Hbr.
  destruct (_ <? _)%Z eqn:El.
  - apply Z.ltb_lt in El. eexists _, _. split; [reflexivity|].
    assert (Hno : APREQ_ERROR_OVERLIMIT <> APR_INCOMPLETE) by status_lia.
    split; [|cbn; split_and!; try done; status_lia]. split; [done|split; [done|]]. intros _. right. split; [done|left].
    split; [done|lia].
  - cbn [f_parser f_body f_bb ctx_body]. rewrite Hpar, Hbody, Hp, Ht, Hbb.
    destruct (pa_turn _ _ _ _ Hparse psr sys t cl fin r HP Hcl Hfin)
      as (s & sys' & psr' & t' & bb' & -> & Hs & HP' & HD & HL & HL').
    cbn [obind]. eexists _, _. split; [reflexivity|]. cbn. split_and!; try done.
    + split; [done|split; cbn].
      * intros Hi. split_and!; try done.
        { cbn. lia. } eexists _, _. by split_and!; [|by apply HP'|].
      * intros Hi. right. split; [done|right]. eauto.
    + intros Hi. split; [intros (psr2 & Heq & Hlast); simplify_eq; by apply HL'|]. intros Hf. eauto.
Qed.

(** What is to come does not matter when the filter does not wait. *)
Lemma parsed_rest (c : context) r r' : f_body_status c <> APR_INCOMPLETE -> parsing c r -> parsing c r'.
Proof. intros Hi (H1 & H2 & H3). by split_and!. Qed.

Lemma ctx_ok_le got (c : context) r : ctx_ok got c r -> length r <= length whole.
Proof. intros Hok. rewrite <- (co_all _ _ _ Hok), !length_app. lia. Qed.

(** What is below the filter. *)
Lemma get_core n (w : request) : 0 < n ->
  exists cl fin i', get_brigade [] AP_MODE_READBYTES n w = Ok (APR_SUCCESS, cl ++ eos_if fin, set_io i' (a_sys w) w) /\
    forallb clean cl = true /\ rest (a_in w) = brigade_data cl ++ rest i' /\
    (fin = true -> rest i' = []) /\ (brigade_data cl = [] -> fin = true).
Proof.
  intros Hn. destruct (Hcore (a_in w) n Hn) as (cl & fin & i' & Hg & Hc). exists cl, fin, i'.
  split; [|done]. cbn [ap_get_brigade]. by rewrite Hg.
Qed.

(** The handler is given the next piece. *)
Lemma ctx_ok_given got (c c' : context) cl fin r :
  ctx_ok got c (brigade_data cl ++ r) -> forallb clean cl = true -> (fin = true -> r = []) ->
  f_spool c = [] -> f_spool c' = [] -> f_bbtmp c' = f_bbtmp c -> f_filter_error c' = f_filter_error c ->
  parsing c' r -> ctx_ok (got ++ cl ++ eos_if fin) c' r.
Proof.
  intros [Hsp Hop Htm Her _ Heo Hal] Hc Hfin Hs Hs' Ht' He' Hpr.
  destruct (clean_piece cl fin Hc) as (Hp & _ & _ & Hd).
  rewrite Hs in *. cbn [app brigade_data flat_map] in *.
  split; rewrite ?Hs', ?Ht', ?He'; try done.
  - cbn [app]. rewrite <- (app_assoc got). apply eos_ends_piece; tauto.
  - rewrite <- Hal. cbn [app]. by rewrite brigade_data_app, Hd, <- app_assoc.
Qed.

(** A read that is answered from the spool. *)
Lemma read_spool got (c : context) n r :
  ctx_ok got c r -> 0 < n -> f_spool c <> [] ->
  exists s spool e e' bb spool', apr_brigade_partition (f_spool c) n = (s, spool, e) /\
    (s = APR_SUCCESS \/ s = APR_INCOMPLETE) /\
    e' = match spool !! e with Some b => if bucket_is_eos b then S e else e | None => e end /\
    apreq_brigade_move [] spool e' = (bb, spool') /\
    (forall c', f_spool c' = spool' -> f_bbtmp c' = f_bbtmp c -> f_filter_error c' = f_filter_error c ->
       parsing c' r -> ctx_ok (got ++ bb) c' r) /\
    (spool' = [] \/ length (brigade_data spool') < length (brigade_data (f_spool c))).
Proof.
  intros [Hsp Hop Htm Her _ Heo Hal] Hn Hne.
  destruct (apr_brigade_partition (f_spool c) n) as [[s spool] e] eqn:Ep.
  pose proof (partition_works (f_spool c) n Hsp) as Hs. rewrite Ep in Hs. cbn [fst] in Hs.
  destruct (partition_keeps FILE_BUCKET_LIMIT _ _ _ _ _ Ep) as (Kd & Kr & Ko & Ke).
  set (e' := match spool !! e with Some b => if bucket_is_eos b then S e else e | None => e end).
  destruct (apreq_brigade_move [] spool e') as [bb spool'] eqn:Em.
  destruct (move_keeps FILE_BUCKET_LIMIT _ _ _ _ Em) as [-> Mo].
  exists s, (bb ++ spool'), e, e', bb, spool'. split_and!; try done.
  - intros c' Hs' Ht' He' Hw'. split; rewrite ?Hs', ?Ht', ?He'; try done.
    + specialize (Kr Hsp). rewrite forallb_app in Kr. by apply andb_true_iff in Kr as [_ Kr].
    + by apply Mo, Ko.
    + rewrite <- app_assoc, (app_assoc bb). by apply Ke.
    + by rewrite <- Hal, <- Kd, !brigade_data_app, <- !app_assoc.
  - destruct Hs as [->| ->].
    + apply partition_success in Ep. right. rewrite <- Kd, brigade_data_app, length_app.
      assert (n <= length (brigade_data bb)); [|lia]. rewrite <- Ep.
      assert (He' : e <= e') by (subst e'; repeat case_match; lia).
      revert Em. unfold apreq_brigade_move. destruct (_ <? _).
      * intros [= Hb _]. rewrite <- Hb at 2. rewrite app_nil_r. apply data_take_le. lia.
      * intros [= Hb _]. rewrite <- Hb at 2. rewrite <- (take_ge (bb ++ spool') (length (bb ++ spool') + e)) at 2 by lia.
        apply data_take_le. lia.
    + left. apply partition_incomplete in Ep as [-> _]; [|done]. revert Em. subst e'.
      rewrite lookup_ge_None_2 by lia. unfold apreq_brigade_move. rewrite Nat.ltb_irrefl. by intros [= _ ->].
Qed.

(** How much is left to read. *)
Definition left_over (w : request) : nat :=
  2 * (length (brigade_data (kept f w)) + length (rest (a_in w))) +
  match kept f w with [] => 0 | _ => 1 end.

Lemma kept_ctx (w : request) c : ctx_of w f = Some c -> kept f w = f_spool c.
Proof. unfold kept. by intros ->. Qed.

(** What a read does. *)
Definition read_well (got : brigade) (w : request) (x : presult (Z * brigade * request)) : Prop :=
  exists bb w', x = Ok (APR_SUCCESS, bb, w') /\ run_ok (got ++ bb) w' /\
    (BEos ∈ bb \/ left_over w' < left_over w).

(** A piece that comes from below, in a request [w'] of the context [c']. *)
Lemma given_well got (w w' : request) (c c' : context) cl fin i' :
  ctx_ok got c (rest (a_in w)) -> f_spool c = [] -> kept f w = [] ->
  forallb clean cl = true -> rest (a_in w) = brigade_data cl ++ rest i' ->
  (fin = true -> rest i' = []) -> (brigade_data cl = [] -> fin = true) ->
  ctx_of w' f = Some c' -> a_in w' = i' -> placed c' w' ->
  f_spool c' = [] -> f_bbtmp c' = f_bbtmp c -> f_filter_error c' = f_filter_error c ->
  parsing c' (rest i') -> f_body_status c' <> APR_EINIT -> a_handle w' = hnd ->
  read_well got w (Ok (APR_SUCCESS, cl ++ eos_if fin, w')).
Proof.
  intros Hok Hs Hk Hc Hd Hfin Hpr Hw' <- Hpl Hs' Ht' He' Hwt Hst Hh. eexists _, _. split; [reflexivity|]. split.
  - split; [done|]. right. exists c'. split_and!; try done. rewrite Hd in Hok. by apply (ctx_ok_given _ c).
  - destruct fin; [left; apply elem_of_app; right; by left|right].
    unfold left_over. rewrite Hk, (kept_ctx _ _ Hw'), Hs', Hd, length_app. cbn.
    destruct (brigade_data cl); [by specialize (Hpr eq_refl)|cbn; lia].
Qed.

Lemma get_above n w :
  get_brigade [LApreq f] AP_MODE_READBYTES n w =
  apreq_filter FILE_BUCKET_LIMIT hole apr_strtoi64 reg is_get headers_in dir (get_brigade []) f
    AP_MODE_READBYTES n w.
Proof. reflexivity. Qed.

Lemma filter_reads got (w : request) n :
  run_ok got w -> a_input_filters w = [LApreq f] -> 0 < n ->
  read_well got w (get_brigade [LApreq f] AP_MODE_READBYTES n w).
Proof.
  intros Hok Hch Hn.
  destruct (opened got w Hok) as (w1 & c1 & Hm & Hc1 & Hcok & Hst & Hpl & Hch1 & Hin1 & Hk & Hh).
  rewrite get_above. unfold apreq_filter. rewrite Hm. cbn [obind]. rewrite Hc1.
  cbv zeta. fold (initialized c1). set (c := initialized c1) in *.
  pose proof (put_chain f c w1) as Pc. pose proof (put_in f c w1) as Pi.
  pose proof (put_handle f c w1) as Ph. pose proof (ctx_of_put f c1 c w1 Hc1) as Hp.
  rewrite Hin1 in Hcok. destruct (f_spool c) as [|e0 sp0] eqn:Es.
  - destruct (get_core n (put_ctx f c w1) Hn) as (cl & fin & i' & Hg & Hcl & Hd & Hfin & Hpr).
    rewrite Pi, Hin1 in Hd.
    destruct (f_body_status c =? APR_INCOMPLETE)%Z eqn:Ei; cbn [negb].
    + apply Z.eqb_eq in Ei. rewrite Hg. cbn [obind]. rewrite Z.eqb_refl. cbn [negb].
      change (ctx_of (set_io i' (a_sys (put_ctx f c w1)) (put_ctx f c w1)) f) with (ctx_of (put_ctx f c w1) f).
      rewrite Hp. destruct (co_parsing _ _ _ Hcok) as (Hl & Hw & _). specialize (Hw Ei).
      pose proof (ctx_ok_le _ _ _ Hcok) as Hle. rewrite Hd in Hw, Hle. pose proof Hw as (_ & Hbb & _).
      unfold apreq_brigade_copy. rewrite Hbb. cbn [app]. rewrite (copy_piece cl fin Hcl).
      set (cb := ctx_body _ _ _ _ _ _ _ c).
      destruct (feed_piece (a_sys (put_ctx f c w1)) cb c cl fin _ Hw Hl) as (sys' & c' & Hf & Hwt & Hst' & F1 & F2 & F3 & _);
        [done..|].
      cbn [a_sys set_io]. rewrite Hf. cbn [obind].
      eapply (given_well got w _ c c'); try done.
      * eapply ctx_of_put. exact Hp.
      * by rewrite put_in.
      * left. rewrite put_chain. cbn. by rewrite Pc, Hch1.
      * by rewrite F1.
      * rewrite put_handle. cbn. by rewrite Ph.
    + rewrite (co_error _ _ _ Hcok). cbn [Z.eqb negb]. rewrite Hg. cbn [obind]. apply Z.eqb_neq in Ei.
      destruct (remove_same f (set_io i' (a_sys (put_ctx f c w1)) (put_ctx f c w1))) as (R1 & R2 & R3 & R4).
      eapply (given_well got w _ c c); try done.
      * rewrite R4. exact Hp.
      * right. rewrite R1. cbn. rewrite Pc, Hch1, Hch. cbn. by rewrite bool_decide_eq_true_2 by done.
      * eapply parsed_rest; [done|]. by destruct Hcok.
      * rewrite R3. cbn. by rewrite Ph.
  - assert (Hne : f_spool c <> []) by (by rewrite Es). rewrite <- Es in *.
    destruct (read_spool got c n _ Hcok Hn Hne) as (s & spool & e & e' & bb & spool' & Hpt & Hs & He' & Hmv & Hnew & Hlt).
    rewrite Hpt. assert (negb (s =? APR_SUCCESS)%Z && negb (s =? APR_INCOMPLETE)%Z = false) as ->
      by (destruct Hs as [-> | ->]; by rewrite Z.eqb_refl, ?andb_false_r).
    rewrite <- He', Hmv. set (c' := ctx_body _ _ _ _ _ _ spool' _).
    assert (Hp' : ctx_of (put_ctx f c' (put_ctx f c w1)) f = Some c') by (by eapply ctx_of_put).
    eexists _, _. split; [reflexivity|]. split.
    + split; [by rewrite put_handle, Ph|]. right. exists c'. rewrite put_in, Pi, Hin1.
      split_and!; [done| |done|left; by rewrite put_chain, Pc, Hch1]. apply Hnew; try done. by destruct Hcok.
    + right. unfold left_over. rewrite (kept_ctx _ _ Hp'), put_in, Pi, Hin1, <- Hk. cbn [f_spool c' ctx_body].
      destruct (f_spool c) eqn:E0; [done|]. destruct Hlt as [-> |Hlt]; [cbn; lia|].
      destruct spool'; lia.
Qed.

(** A piece that apreq fetches goes to the spool. *)
Lemma fetched sys got (c : context) limit cl fin r :
  ctx_ok got c (brigade_data cl ++ r) -> forallb clean cl = true -> (fin = true -> r = []) ->
  let res := apreq_brigade_concat FILE_BUCKET_LIMIT false sys limit (f_spool c)
               (f_bbtmp c ++ cl ++ eos_if fin) in
  (cr_status res = APR_SUCCESS \/ cr_status res = APR_EOF) /\
  forall c', f_spool c' = cr_out res -> f_bbtmp c' = cr_in res -> f_filter_error c' = f_filter_error c ->
    parsing c' r -> ctx_ok got c' r.
Proof.
  intros [Hsp Hop (Ht1 & Ht2 & Ht3) Her _ Heo Hal] Hc Hfin.
  destruct (clean_piece cl fin Hc) as (Hp & Hr & Hn & Hd).
  assert (Heo' : eos_ends (got ++ f_spool c ++ f_bbtmp c ++ cl ++ eos_if fin) r).
  { rewrite (app_assoc (f_spool c)), (app_assoc got), <- (app_nil_r (cl ++ _)).
    apply eos_ends_piece; [by rewrite app_nil_r|done..]. }
  assert (Hd' : brigade_data (f_bbtmp c ++ cl ++ eos_if fin) = brigade_data cl)
    by (by rewrite brigade_data_app, Ht3, Hd).
  assert (Hr' : forallb readable (f_bbtmp c ++ cl ++ eos_if fin) = true) by (by rewrite forallb_app, Ht1).
  assert (Hn' : forallb not_spool (f_bbtmp c ++ cl ++ eos_if fin) = true) by (by rewrite forallb_app, Ht2).
  destruct (last_is_eos (f_spool c)) eqn:El; cbn zeta.
  - unfold apreq_brigade_concat. rewrite El. cbn [cr_status cr_out cr_in]. split; [by right|].
    apply last_is_eos_removelast in El.
    destruct (Heo (got ++ removelast (f_spool c)) (f_bbtmp c)) as [_ Hnil].
    { rewrite El at 1. by rewrite <- !app_assoc. }
    apply app_eq_nil in Hnil as [Hcl ->].
    intros c' Hs' Ht' He' Hw. split; rewrite ?Hs', ?Ht', ?He'; try done.
    + by rewrite Hd'.
    + by rewrite <- Hal, Hcl.
  - set (res := apreq_brigade_concat _ _ _ _ _ _).
    destruct (concat_bb_runs FILE_BUCKET_LIMIT readable (fun _ h => h) (fun _ _ _ _ => eq_refl) sys limit
      (f_spool c) (f_bbtmp c ++ cl ++ eos_if fin) Hos Hop El Hsp Hr') as [Hs Hro]. fold res in Hs, Hro.
    destruct (concat_bb_data FILE_BUCKET_LIMIT sys limit (f_spool c) (f_bbtmp c ++ cl ++ eos_if fin)
      Hlimit Hop Hn' Hs) as (Hdo & Hi & Hoo & _). fold res in Hdo, Hi, Hoo.
    split; [by left|]. intros c' Hs' Ht' He' Hw. rewrite Hi in Ht'. split; rewrite ?Hs', ?Ht', ?He'; try done.
    + rewrite app_nil_r. by apply (eos_ends_concat FILE_BUCKET_LIMIT got sys limit (f_spool c)
        (f_bbtmp c ++ cl ++ eos_if fin)).
    + by rewrite Hdo, Hd', <- Hal, <- !app_assoc.
Qed.

Lemma keep_same g (w : request) :
  a_input_filters (keep_across_redirects g w) = a_input_filters w /\
  a_in (keep_across_redirects g w) = a_in w /\ a_handle (keep_across_redirects g w) = a_handle w /\
  forall h, ctx_of (keep_across_redirects g w) h = ctx_of w h.
Proof. unfold keep_across_redirects. by repeat case_match. Qed.

(** The next call of the parser is its last. *)
Definition ending (c : context) : Prop := exists psr, f_parser c = Some psr /\ Last psr.

(** What a fetch does: the status it returns, and, when the body is not complete,
    what it brings. *)
Lemma fetch_turn got (w : request) c1 n :
  ctx_of w f = Some c1 -> ctx_ok got (initialized c1) (rest (a_in w)) ->
  f_body_status (initialized c1) <> APR_EINIT -> placed (initialized c1) w -> a_handle w = hnd -> 0 < n ->
  exists w' c', prefetch f n w = Ok (f_body_status c', w') /\ ctx_of w' f = Some c' /\ run_ok got w' /\
    (f_body_status c' = APR_INCOMPLETE -> ~ ending (initialized c1) /\
       (ending c' \/ length (rest (a_in w')) < length (rest (a_in w)))).
Proof.
  intros Hc1 Hcok Hst Hpl Hh Hn. unfold apreq_filter_prefetch. rewrite Hc1.
  cbv zeta. fold (initialized c1). set (c := initialized c1) in *.
  pose proof (put_chain f c w) as Pc. pose proof (put_in f c w) as Pi.
  pose proof (put_handle f c w) as Ph. pose proof (ctx_of_put f c1 c w Hc1) as Hp.
  destruct (negb _ || _) eqn:Ei.
  { eexists _, c. split; [reflexivity|]. split; [done|]. split.
    - split; [by rewrite Ph|]. right. exists c. rewrite Pi. split_and!; try done.
      unfold placed. by rewrite Pc.
    - intros Hi. rewrite Hi, Z.eqb_refl in Ei. apply Nat.eqb_eq in Ei. lia. }
  apply orb_false_iff in Ei as [Ei _]. apply negb_false_iff, Z.eqb_eq in Ei.
  destruct Hpl as [Hch|(_ & _ & Hno)]; [|done]. rewrite Pc, Hch. cbn [below].
  rewrite bool_decide_eq_true_2 by done.
  destruct (get_core n (put_ctx f c w) Hn) as (cl & fin & i' & Hg & Hcl & Hd & Hfin & Hpr).
  rewrite Pi in Hd. pose proof (ctx_ok_le _ _ _ Hcok) as Hle. rewrite Hd in Hcok, Hle.
  rewrite Hg. cbn [obind].
  change (ctx_of (set_io i' (a_sys (put_ctx f c w)) (put_ctx f c w)) f) with (ctx_of (put_ctx f c w) f).
  rewrite Hp, Z.eqb_refl. cbn [negb].
  destruct (co_parsing _ _ _ Hcok) as (Hl & Hw & _). specialize (Hw Ei). pose proof Hw as (_ & Hbb & _).
  rewrite Hbb. cbn [app a_sys set_io].
  cbn [f_brigade_limit f_spool f_bbtmp ctx_body]. unfold apreq_brigade_copy. rewrite (copy_piece cl fin Hcl).
  destruct (fetched (a_sys (put_ctx f c w)) got c (Z.to_nat (f_brigade_limit c)) cl fin _ Hcok Hcl Hfin)
    as [Hs Hnew].
  set (res := apreq_brigade_concat _ _ _ _ _ _) in *.
  assert (negb (cr_status res =? APR_SUCCESS)%Z && negb (cr_status res =? APR_EOF)%Z = false) as ->
    by (destruct Hs as [-> | ->]; by rewrite Z.eqb_refl, ?andb_false_r).
  set (cb := ctx_body _ _ _ _ _ (cr_in res) (cr_out res) _).
  destruct (feed_piece (cr_world res) cb c cl fin _ Hw Hl) as (sys' & c' & Hf & Hwt & Hst' & F1 & F2 & F3 & Hmore);
    [done..|].
  rewrite Hf. cbn [obind]. eexists _, c'. split; [reflexivity|].
  set (w2 := set_io _ sys' _). destruct (keep_same f w2) as (K1 & K2 & K3 & K4).
  assert (Hp' : ctx_of (put_ctx f c' (keep_across_redirects f w2)) f = Some c')
    by (eapply ctx_of_put; rewrite K4; exact Hp).
  split; [done|]. rewrite put_in, K2. split.
  - split; [rewrite put_handle, K3; cbn; by rewrite Ph|]. right. exists c'. rewrite put_in, K2.
    split_and!; [done|by apply Hnew|done|left; rewrite put_chain, K1; cbn; by rewrite Pc].
  - intros Hi. destruct (Hmore Hi) as [Hne Hend]. split; [done|]. destruct fin; [left; by apply Hend|right].
    cbn. rewrite Hd, length_app. destruct (brigade_data cl); [by specialize (Hpr eq_refl)|cbn; lia].
Qed.

Lemma prefetch_keeps got (w : request) n :
  run_ok got w -> 0 < n ->
  exists w', reader_step f (Prefetch n) w = Ok ([], w') /\ run_ok got w'.
Proof.
  intros Hok Hn.
  destruct (opened got w Hok) as (w1 & c1 & Hm & Hc1 & Hcok & Hst & Hpl & _ & _ & _ & Hh).
  cbn [reader_step]. rewrite Hm. cbn [obind].
  destruct (fetch_turn got w1 c1 n) as (w' & c' & -> & _ & Hok' & _); [done..|].
  cbn [obind]. by exists w'.
Qed.

(** A step of a run. *)
Definition steps_well (got : brigade) (op : reader_op) (w : request) : Prop :=
  exists o w', reader_step f op w = Ok (o, w') /\ run_ok (got ++ received o) w' /\
    Forall (fun x => x.1 = APR_SUCCESS) o /\
    (forall n, op = Read n -> BEos ∈ received o \/ left_over w' < left_over w).

Lemma step_well got op (w : request) : run_ok got w -> 0 < op_size op -> steps_well got op w.
Proof.
  intros Hok Hn. destruct op as [n|n].
  - destruct (prefetch_keeps got w n Hok Hn) as (w' & Hr & Hok').
    exists [], w'. split_and!; [done|by rewrite app_nil_r|done|done].
  - assert (Hr : read_well got w (get_brigade (a_input_filters w) AP_MODE_READBYTES n w)).
    { destruct (decide (a_input_filters w = [LApreq f])) as [Hch|Hch].
      - rewrite Hch. by apply filter_reads.
      - destruct Hok as [Hh [(_ & ? & _)|(c & Hc & Hcok & Hst & [?|(Hch' & Hs & Hi)])]]; [done..|].
        rewrite Hch'. destruct (get_core n w Hn) as (cl & fin & i' & -> & Hcl & Hd & Hfin & Hpr).
        eapply (given_well got w _ c c); try done; [by rewrite (kept_ctx _ _ Hc)|by right|].
        eapply parsed_rest; [done|]. by destruct Hcok. }
    destruct Hr as (bb & w' & Hr & Hok' & Hl). unfold steps_well.
    cbn [reader_step]. rewrite Hr. cbn [obind]. eexists _, w'. split; [reflexivity|].
    unfold received. cbn. rewrite app_nil_r. split_and!; [done|by repeat constructor|by intros].
Qed.

Lemma received_app a b : received (a ++ b) = received a ++ received b.
Proof. unfold received. by rewrite map_app, concat_app. Qed.

Lemma run_well got ops (w : request) :
  run_ok got w -> Forall (fun op => 0 < op_size op) ops ->
  exists os w', run_reader f ops w = Ok (os, w') /\ run_ok (got ++ received os) w' /\
    Forall (fun x => x.1 = APR_SUCCESS) os.
Proof.
  revert got w. induction ops as [|op ops IH]; intros got w Hok Hn.
  { exists [], w. by rewrite app_nil_r. }
  apply Forall_cons in Hn as [Hn Hns].
  destruct (step_well got op w Hok Hn) as (o & w1 & Hr & Hok1 & Ho & _). cbn [run_reader]. rewrite Hr. cbn [obind].
  destruct (IH _ w1 Hok1 Hns) as (os & w' & -> & Hok' & Hos'). cbn [obind].
  exists (o ++ os), w'. rewrite received_app, app_assoc. by rewrite Forall_app.
Qed.

(** Who goes on reading comes to the end. *)
Lemma reads_end got ns (w : request) :
  run_ok got w -> Forall (fun n => 0 < n) ns -> left_over w < length ns ->
  exists os w', run_reader f (map Read ns) w = Ok (os, w') /\ run_ok (got ++ received os) w' /\
    BEos ∈ received os.
Proof.
  revert got w. induction ns as [|n ns IH]; intros got w Hok Hn Hl; [cbn [length] in Hl; lia|].
  apply Forall_cons in Hn as [Hn Hns].
  destruct (step_well got (Read n) w Hok Hn) as (o & w1 & Hr & Hok1 & _ & Hlt). cbn [run_reader map]. rewrite Hr.
  cbn [obind]. destruct (Hlt n eq_refl) as [He|He].
  - destruct (run_well _ (map Read ns) w1 Hok1) as (os & w' & -> & Hok' & _); [by apply Forall_map|].
    cbn [obind]. exists (o ++ os), w'. rewrite received_app, app_assoc. split_and!; [done..|].
    apply elem_of_app. by left.
  - cbn [length] in Hl. destruct (IH _ w1 Hok1 Hns ltac:(lia)) as (os & w' & -> & Hok' & Hend).
    cbn [obind]. exists (o ++ os), w'. rewrite received_app, app_assoc. split_and!; [done..|].
    apply elem_of_app. by right.
Qed.

Lemma run_ok_whole got (w : request) : run_ok got w ->
  brigade_data got ++ brigade_data (kept f w) ++ rest (a_in w) = whole /\
  (BEos ∈ got -> brigade_data got = whole).
Proof.
  intros [_ [(Hc & _ & -> & Hr)|(c & Hc & [_ _ (_ & _ & Ht) _ _ He Ha] & _)]].
  - unfold kept. rewrite Hc. split; [done|by intros ?%elem_of_nil].
  - rewrite (kept_ctx _ _ Hc). split; [done|]. intros (a & b & ->)%list_elem_of_split.
    destruct (He a (b ++ f_spool c ++ f_bbtmp c)) as [H1 H2]; [by rewrite <- app_assoc|].
    rewrite !brigade_data_app, Ht, app_nil_r in H1. apply app_eq_nil in H1 as [_ H1].
    by rewrite <- Ha, H1, H2, !app_nil_r.
Qed.

(** ** The body that apreq answers with *)

Lemma run_ok_ctx got (w : request) c : run_ok got w -> ctx_of w f = Some c ->
  ctx_ok got c (rest (a_in w)) /\ f_body_status c <> APR_EINIT /\ placed c w /\ initialized c = c.
Proof.
  intros [_ [(Hc & _)|(c' & Hc & Hok & Hst & Hpl)]] Hc'; [congruence|].
  assert (c' = c) as -> by congruence. split_and!; try done.
  unfold initialized. by rewrite (proj2 (Z.eqb_neq _ _) Hst).
Qed.

Abbreviation loop := (prefetch_loop FILE_BUCKET_LIMIT hole apr_strtoi64 reg is_get headers_in dir
  APR_EGENERAL core other).

Lemma block_size : 0 < APREQ_DEFAULT_READ_BLOCK_SIZE.
Proof. unfold APREQ_DEFAULT_READ_BLOCK_SIZE. lia. Qed.

Lemma loop_ends turns got (w : request) c :
  run_ok got w -> ctx_of w f = Some c ->
  (ending c /\ 1 <= turns \/ length (rest (a_in w)) + 2 <= turns) ->
  exists w' c', loop turns f w = Ok w' /\ ctx_of w' f = Some c' /\ run_ok got w' /\
    f_body_status c' <> APR_INCOMPLETE.
Proof.
  revert w c. induction turns as [|turns IH]; intros w c Hok Hc Hl; [lia|]. cbn [prefetch_loop].
  destruct (run_ok_ctx got w c Hok Hc) as (Hcok & Hst & Hpl & Hi). rewrite <- Hi in Hcok, Hst, Hpl.
  destruct (fetch_turn got w c _ Hc Hcok Hst Hpl (proj1 Hok) block_size) as (w' & c' & -> & Hc' & Hok' & Hmore).
  cbn [obind]. destruct (Z.eqb_spec (f_body_status c') APR_INCOMPLETE) as [Hinc|Hinc]; [|eauto 6].
  destruct (Hmore Hinc) as [Hne Hgo]. rewrite Hi in Hne. apply (IH w' c'); [done..|].
  destruct Hl as [[? _]|Hl]; [done|]. destruct Hgo as [?|?]; [left; split; [done|lia]|right; lia].
Qed.

Abbreviation body turns := (apache2_body FILE_BUCKET_LIMIT hole apr_strtoi64 reg is_get headers_in dir
  APR_EGENERAL core other turns).

Lemma body_answers turns got (w : request) h :
  run_ok got w -> hnd = Some h -> h_f h = Some f -> length whole + 2 <= turns ->
  exists s t w', body turns w = Ok (s, t, w') /\ outcome s t /\ run_ok got w'.
Proof.
  intros Hok Hh Hf Ht.
  destruct (opened got w Hok) as (w1 & c1 & Hm & Hc1 & Hcok & Hst & Hpl & _ & _ & _ & Hh1).
  unfold apache2_body, filter_context, get_apreq_filter. rewrite (proj1 Hok), Hh, Hf. cbn [obind].
  rewrite Hm. cbn [obind]. rewrite Hc1. cbn [obind]. cbv zeta. fold (initialized c1).
  set (c := initialized c1) in *. set (w2 := put_ctx f c w1).
  assert (Hc2 : ctx_of w2 f = Some c) by (by eapply ctx_of_put).
  assert (Hok2 : run_ok got w2).
  { split; [by unfold w2; rewrite put_handle|]. right. exists c. unfold placed, w2.
    rewrite put_in, put_chain. by split_and!. }
  destruct (Z.eqb_spec (f_body_status c) APR_INCOMPLETE) as [Hi|Hi].
  - assert ((f_body_status c1 =? APR_EINIT)%Z || (f_body_status c1 =? APR_INCOMPLETE)%Z = true) as ->.
    { unfold c, initialized in Hi. destruct (f_body_status c1 =? APR_EINIT)%Z; [done|]. by rewrite Hi, Z.eqb_refl. }
    cbn [andb]. destruct (loop_ends turns got w2 c Hok2 Hc2) as (w' & c' & -> & Hc' & Hok' & Hi').
    { right. apply ctx_ok_le in Hcok. unfold w2. rewrite put_in. lia. }
    cbn [obind]. rewrite Hc'. eexists _, _, _. split; [reflexivity|]. split; [|done].
    destruct (run_ok_ctx got w' c' Hok' Hc') as (Hcok' & _).
    by apply (proj2 (proj2 (co_parsing _ _ _ Hcok'))).
  - rewrite andb_false_r. cbn [obind]. rewrite Hc2. eexists _, _, _. split; [reflexivity|]. split; [|done].
    by apply (proj2 (proj2 (co_parsing _ _ _ Hcok))).
Qed.

End Whole.

(** ** Urlencoded bodies *)

Definition urlencoded_only : Prop :=
  forall ct pf, apr_table_get headers_in (str "Content-Type") = Some ct ->
    apreq_parser reg (Some ct) = Some pf -> pf = apreq_parse_urlencoded_f.

Definition form_of (l : bytes) : Z * table := urlencoded_form hole apr_table_make l.

Lemma url_parses whole : urlencoded_only ->
  parses whole (url_waits hole (form_of whole)) (fun s t => t = (form_of whole).2 /\ s = url_status (form_of whole))
    (fun psr => url_failed (seen_as as_url psr)).
Proof.
  intros Hu. split.
  - intros ct pf limit d Hct Hpf. rewrite (Hu ct pf Hct Hpf). split; [done|split; [done|left]].
    exists []. split; [by apply fresh_pending|done].
  - intros psr sys t cl fin y HP [Hcl _]%(fun h => clean_piece cl false h) Hfin.
    destruct (url_turn FILE_BUCKET_LIMIT hole (form_of whole) psr t cl fin y sys HP Hcl Hfin)
      as (s & psr' & t' & bb' & Hr & (H1 & H2 & _ & H3) & H4).
    exists s, sys, psr', t', bb'. split_and!; try done.
    destruct (decide (s = APR_INCOMPLETE)) as [->|Hi]; [apply incomplete_not_einit|].
    destruct (H2 Hi) as [_ ->]. by apply url_status_einit, form_status.
Qed.

(** ** Forms *)

Section Form.
Context (b : bytes) (Hlimit : 0 < FILE_BUCKET_LIMIT) (Hos : os_reliable (W := W)) (Hb : x0d ∉ b)
        (parts : list part) (Hparts : forallb (pt_ok b) parts = true) (epilogue : bytes).
Abbreviation parse := (apreq_parse_multipart (W := W) (X := X) FILE_BUCKET_LIMIT).

(** [psr] behaves as a parser that has read some of the parts. *)
Definition form_waits (psr : parser) (t : table) (y : bytes) : Prop :=
  ps_parser psr = apreq_parse_multipart_f /\ exists psr0 ps1 ps2,
    ps_parser psr0 = apreq_parse_multipart_f /\
    (forall (w : W) t bb, parse w (seen_as as_form psr) t (Some bb) = parse w psr0 t (Some bb)) /\
    parts = ps1 ++ ps2 /\ Forall2 part_gives ps1 (apr_table_elts t) /\
    forall w : W, form_pending FILE_BUCKET_LIMIT b psr0 w t y ps2 epilogue.

Abbreviation form_parser := (apreq_parser_t (X := X) (mfd_ctx T X (mixed_parser T X))).

Lemma parse_keeps_fn (w : W) psr t bb s w' psr' t' bb' :
  parse w psr t bb = Ok (s, w', psr', t', bb') -> ps_parser psr' = ps_parser psr.
Proof.
  unfold apreq_parse_multipart.
  destruct (match ps_ctx psr with Some c => _ | None => _ end) as [[c|]| |]; cbn [obind]; try done.
  - destruct (multipart_run _ _ _ _ _ _ _ _ bb) as [[s0 r]| |]; cbn [obind]; [|done..]. by intros [= _ _ <- _ _].
  - by intros [= _ _ <- _ _].
Qed.

Lemma form_seen_stored (p : form_parser) : seen_as as_form (stored_as (U := U) FormParser p) = p.
Proof. by destruct p as [? ? ? ? ? [c|]]. Qed.

Lemma form_parses whole :
  (forall ct pf, apr_table_get headers_in (str "Content-Type") = Some ct ->
     apreq_parser reg (Some ct) = Some pf -> pf = apreq_parse_multipart_f /\ boundary_of ct = Attr b) ->
  whole = form_text b parts epilogue ->
  parses whole form_waits (fun s t => s = APR_SUCCESS /\ Forall2 part_gives parts (apr_table_elts t))
    (fun _ => False).
Proof.
  intros Hct ->. split.
  - intros ct pf limit d H1 H2. destruct (Hct ct pf H1 H2) as [-> Hbd]. split; [done|].
    set (psr := apreq_parser_make ct apreq_parse_multipart_f limit d [] None : form_parser).
    exists (set_ctx psr (first_ctx b psr)), [], parts. split_and!; [done| |done|rewrite elts_make; constructor|].
    + intros w t bb. by apply first_parse.
    + intros w. by apply first_pending.
  - intros psr sys t cl fin y (Hp & psr0 & ps1 & ps2 & Hp0 & Hsame & Hps & Hg & Hpend) Hcl Hfin.
    assert (Hok : forallb (pt_ok b) ps2 = true).
    { rewrite Hps, forallb_app, andb_true_iff in Hparts. by destruct Hparts. }
    destruct (parse_pending FILE_BUCKET_LIMIT b Hlimit Hos Hb psr0 sys t cl y ps2 epilogue (Hpend sys) Hcl Hok)
      as (s & w' & psr' & t' & bb' & ps3 & ps4 & es & Hr & -> & Hf & He & Hs).
    assert (Hg' : Forall2 part_gives (ps1 ++ ps3) (apr_table_elts t')) by (rewrite He; by apply Forall2_app).
    unfold apreq_parser_run. rewrite Hp, Hsame.
    destruct Hs as [(-> & Hy & -> & Hp')|(-> & -> & _ & Hd)].
    + destruct fin; [by specialize (Hfin eq_refl)|]. cbn [eos_if]. rewrite app_nil_r, Hr. cbn [obind].
      eexists _, _, _, _, _. split; [reflexivity|].
      split_and!; [apply incomplete_not_einit| |done|done|done]. intros _. split.
      { cbn. rewrite <- Hp0. by eapply parse_keeps_fn. }
      exists psr', (ps1 ++ ps3), ps4. rewrite form_seen_stored, <- app_assoc.
      pose proof (parse_keeps_fn _ _ _ _ _ _ _ _ _ Hr) as Hfn. rewrite Hp0 in Hfn. split_and!; try done.
    + assert (Hrun : exists bb2, parse sys psr0 t (Some (cl ++ eos_if fin)) = Ok (APR_SUCCESS, w', psr', t', bb2)).
      { destruct fin; cbn [eos_if]; [|rewrite app_nil_r; by eexists].
        eexists. by apply (parse_multipart_behind [BEos] eq_refl). }
      destruct Hrun as [bb2 ->]. cbn [obind]. eexists _, _, _, _, _. split; [reflexivity|].
      rewrite app_nil_r in Hps. rewrite <- Hps in Hg'.
      split_and!; [|intros; exfalso|done|intros _ ?; exfalso|done]; pose proof einit_range; errno_lia.
Qed.

End Form.

(** ** Claims *)

(** What is asked of a body, and what it is parsed to: a urlencoded body, or one for
    which there is no parser; or the text of a [multipart/form-data] form. *)
Inductive parsed_body (whole : bytes) : (Z -> table -> Prop) -> Prop :=
  | UrlBody : urlencoded_only ->
      parsed_body whole (fun s t => t = (form_of whole).2 /\ s = url_status (form_of whole))
  | FormBody b parts epilogue :
      (forall ct pf, apr_table_get headers_in (str "Content-Type") = Some ct ->
         apreq_parser reg (Some ct) = Some pf -> pf = apreq_parse_multipart_f /\ boundary_of ct = Attr b) ->
      x0d ∉ b -> forallb (pt_ok b) parts = true -> whole = form_text b parts epilogue ->
      parsed_body whole (fun s t => s = APR_SUCCESS /\ Forall2 part_gives parts (apr_table_elts t)).

Section Claims.
Context (f : nat) (rest : In -> bytes) (Hlimit : 0 < FILE_BUCKET_LIMIT) (Hos : os_reliable (W := W))
        (Hcore : core_streams rest).

Lemma parsed_body_parses whole D : parsed_body whole D -> exists P Last, parses whole P D Last.
Proof.
  intros [Hu|b parts epi Hct Hb Hparts Hw].
  - eexists _, _. by apply url_parses.
  - eexists _, _. by apply (form_parses b Hlimit Hos Hb parts Hparts epi whole Hct Hw).
Qed.

(** The filter is new, and on top of the chain; the length of the body fits the counters. *)
Definition new_request (w : request) : Prop :=
  ctx_of w f = None /\ a_input_filters w = [LApreq f] /\ (Z.of_nat (length (rest (a_in w))) < 2 ^ 64)%Z.

Definition positive (ops : list reader_op) : Prop := Forall (fun op => 0 < op_size op) ops.

Section Parsed.
Context (w : request) (D : Z -> table -> Prop) (P : parser -> table -> bytes -> Prop) (Last : parser -> Prop)
        (Hw : new_request w) (Hparse : parses (rest (a_in w)) P D Last).
Abbreviation well := (run_ok f rest (rest (a_in w)) (a_handle w) P D).

Lemma new_well : well [] w.
Proof. destruct Hw as (H1 & H2 & _). split; [done|]. by left. Qed.

Lemma new_runs ops : positive ops ->
  exists os w', run_reader f ops w = Ok (os, w') /\ well (received os) w' /\
    Forall (fun x => x.1 = APR_SUCCESS) os.
Proof.
  intros Hops. eapply (run_well f rest _ _ _ _ _ Hlimit Hos Hcore Hparse (proj2 (proj2 Hw)) []);
    [by apply new_well|done].
Qed.

(** Who goes on reading comes to the end. *)
Lemma well_ends got (w1 : request) (ns : list nat) :
  well got w1 -> Forall (fun n => 0 < n) ns -> 2 * length (rest (a_in w)) + 1 < length ns ->
  exists os w2, run_reader f (map Read ns) w1 = Ok (os, w2) /\
    BEos ∈ got ++ received os /\ brigade_data (got ++ received os) = rest (a_in w).
Proof.
  intros Hok Hns Hl. destruct (run_ok_whole _ _ _ _ _ _ _ _ Hok) as [Hd _].
  destruct (reads_end f rest _ _ _ _ _ Hlimit Hos Hcore Hparse (proj2 (proj2 Hw)) _ ns w1 Hok Hns)
    as (os & w2 & Hr & Hok' & He).
  { apply (f_equal length) in Hd. rewrite !length_app in Hd. unfold left_over. case_match; lia. }
  destruct (run_ok_whole _ _ _ _ _ _ _ _ Hok') as [_ H2]. exists os, w2. split; [done|].
  assert (BEos ∈ got ++ received os) by (apply elem_of_app; by right). auto.
Qed.

End Parsed.

Lemma run_reader_app ops ops' (w w1 : request) os :
  run_reader f ops w = Ok (os, w1) ->
  run_reader f (ops ++ ops') w = obind (fun '(os', w') => Ok (os ++ os', w')) (run_reader f ops' w1).
Proof.
  revert w os. induction ops as [|op ops IH]; intros w os; cbn [run_reader app].
  { intros [= <- <-]. by destruct (run_reader f ops' w) as [[]| |]. }
  destruct (reader_step f op w) as [[o w2]| |]; cbn [obind]; [|done..].
  destruct (run_reader f ops w2) as [[os2 w3]| |] eqn:Er; cbn [obind]; [|done..].
  intros [= <- ->]. rewrite (IH _ _ Er). destruct (run_reader f ops' w1) as [[os' w']| |]; [|done..].
  cbn. by rewrite app_assoc.
Qed.

(** C13: the filter loses and changes nothing.  It is the only one between the
    handler and a connection that hands out the body piece by piece; the body is
    urlencoded, or has no parser, or is the text of a [multipart/form-data] form; its
    length fits the counters, and spooling to a file works.  Then in any order of
    fetches by apreq and reads by the handler, of at least one byte each, every read
    succeeds, and what the handler got, what the filter keeps for it and what is to
    come make the body; the end is handed out only behind all of it. *)
Theorem filter_loses_nothing (ops : list reader_op) (w : request) (D : Z -> table -> Prop) :
  new_request w -> parsed_body (rest (a_in w)) D -> positive ops ->
  exists os w', run_reader f ops w = Ok (os, w') /\ Forall (fun x => x.1 = APR_SUCCESS) os /\
    brigade_data (received os) ++ brigade_data (kept f w') ++ rest (a_in w') = rest (a_in w) /\
    (BEos ∈ received os -> brigade_data (received os) = rest (a_in w)).
Proof.
  intros Hw (P & L & Hp)%parsed_body_parses Hops. destruct (new_runs w D P L Hw Hp ops Hops) as (os & w' & Hr & Hok & Hs).
  exists os, w'. destruct (run_ok_whole _ _ _ _ _ _ _ _ Hok) as [H1 H2]. by split_and!.
Qed.

(** C33: a handler that goes on reading gets to the end.  With the filter alone
    between the handler and the connection, and a body that is urlencoded, has no
    parser, or is the text of a form: after any fetches and reads, as many further
    reads as twice the length of the body and two hand out the rest of the body and
    its end. *)
Theorem reader_reaches_end (ops : list reader_op) (ns : list nat) (w : request) (D : Z -> table -> Prop) :
  new_request w -> parsed_body (rest (a_in w)) D -> positive ops -> Forall (fun n => 0 < n) ns ->
  2 * length (rest (a_in w)) + 1 < length ns ->
  exists os w', run_reader f (ops ++ map Read ns) w = Ok (os, w') /\
    BEos ∈ received os /\ brigade_data (received os) = rest (a_in w).
Proof.
  intros Hw (P & L & Hp)%parsed_body_parses Hops Hns Hl.
  destruct (new_runs w D P L Hw Hp ops Hops) as (os & w1 & Hr & Hok & _).
  destruct (well_ends w D P L Hw Hp _ w1 ns Hok Hns Hl) as (os' & w' & Hr' & Hend).
  rewrite (run_reader_app _ _ _ _ _ Hr), Hr'. cbn [obind]. eexists _, w'. split; [reflexivity|].
  by rewrite received_app.
Qed.

(** The body is one to be parsed, and not too long. *)
Definition accepted (w : request) : Prop :=
  is_get = false /\ announced apr_strtoi64 headers_in limit0 = None /\
  (exists ct pf, apr_table_get headers_in (str "Content-Type") = Some ct /\
     apreq_parser reg (Some ct) = Some pf) /\
  (Z.of_nat (length (rest (a_in w))) <= limit0)%Z.

Lemma accepted_status (w : request) : accepted w -> status0 = APR_INCOMPLETE.
Proof.
  intros (Hg & Ha & (ct & pf & Hct & Hp) & _). unfold status0, apreq_filter_init_context.
  unfold limit0 in Ha. rewrite Hg, Ha. unfold filter_parser. cbn [f_parser new_context]. by rewrite Hct, Hp.
Qed.

(** C12: what apreq answers and what the handler reads are the same body.  The
    filter is alone between the handler and the connection, the request is no GET,
    its body has a parser and is not longer than the read limit, and it is urlencoded
    or the text of a [multipart/form-data] form.  Then at any moment of a run of
    fetches and reads [apache2_body] ends, with the result of parsing the urlencoded
    body as one string, or with success and one entry for each part of the form, and
    the handler that reads on still gets all of the body. *)
Theorem apache2_body_any_time (turns : nat) (h : apache2_handle) (ops : list reader_op) (ns : list nat)
    (w : request) (D : Z -> table -> Prop) :
  new_request w -> accepted w -> parsed_body (rest (a_in w)) D -> a_handle w = Some h -> h_f h = Some f ->
  positive ops -> Forall (fun n => 0 < n) ns ->
  length (rest (a_in w)) + 2 <= turns -> 2 * length (rest (a_in w)) + 1 < length ns ->
  exists os w1 s t w2 os' w3,
    run_reader f ops w = Ok (os, w1) /\
    apache2_body FILE_BUCKET_LIMIT hole apr_strtoi64 reg is_get headers_in dir APR_EGENERAL core other
      turns w1 = Ok (s, Some t, w2) /\ D s t /\
    run_reader f (map Read ns) w2 = Ok (os', w3) /\
    brigade_data (received (os ++ os')) = rest (a_in w).
Proof.
  intros Hw Ha (P & L & Hp)%parsed_body_parses Hh Hf Hops Hns Ht Hl.
  destruct (new_runs w D P L Hw Hp ops Hops) as (os & w1 & Hr & Hok & _).
  destruct (body_answers f rest _ _ _ _ _ Hlimit Hos Hcore Hp (proj2 (proj2 Hw)) turns _ w1 h
    Hok Hh Hf Ht) as (s & t & w2 & Hb & Hout & Hok2).
  destruct (well_ends w D P L Hw Hp _ w2 ns Hok2 Hns Hl) as (os' & w3 & Hr3 & _ & Hd).
  destruct Hout as [[Hs _]|[_ [[_ Hlt]|(t' & -> & Hv)]]].
  - by apply accepted_status in Ha.
  - destruct Ha as (_ & _ & _ & Hle). lia.
  - exists os, w1, s, t', w2, os', w3. rewrite received_app. by split_and!.
Qed.

End Claims.

End Runs.

(** ** Witnesses *)

(** A connection that hands out what is asked for, the end with the last of it. *)
Definition text_core (_ : ap_input_mode_t) (n : nat) (i : bytes) : Z * brigade * bytes :=
  (APR_SUCCESS, [BData (take n i)] ++ eos_if (length i <=? n), drop n i).

Lemma text_core_streams : core_streams text_core id.
Proof.
  intros i n Hn. exists [BData (take n i)], (length i <=? n), (drop n i). unfold id.
  rewrite brigade_data_one. cbn [apr_bucket_read snd]. rewrite take_drop. split_and!; try done.
  - intros Hl%Nat.leb_le. by apply drop_ge.
  - destruct n, i; try done. lia.
Qed.

(** A request for a form, right after [apreq_handle_apache2], with a heap limit of
    four bytes. *)
Definition form_headers : apr_table (AprTable := list_table) bytes :=
  [(str "Content-Type", str "application/x-www-form-urlencoded")].
Definition small_heap : option dir_config := Some (DirConfig None 100 4).

Abbreviation text_request := (a2 (T := list_table) (X := unit) (W := unit) (U := unit) (In := bytes)).

Definition bare_request (text : bytes) : text_request := A2 [] None ∅ ∅ None 0 text tt.
Definition form_request : text_request :=
  match apreq_handle_apache2 (bare_request (str "a=1&b=2")) with Ok w => w | _ => bare_request [] end.

Lemma form_request_new : new_request 0 id form_request.
Proof. split; [vm_compute; reflexivity|]. split; [reflexivity|]. vm_compute. reflexivity. Qed.

Lemma form_urlencoded : urlencoded_only an_initialized_registry form_headers.
Proof. intros ct pf Hct Hpf. vm_compute in Hct. injection Hct as <-. vm_compute in Hpf. by injection Hpf as <-. Qed.

Lemma form_request_parsed : parsed_body (fun _ => x00) an_initialized_registry form_headers
  (a_in form_request) (fun s t => t = (form_of (fun _ => x00) (a_in form_request)).2 /\
    s = url_status (form_of (fun _ => x00) (a_in form_request))).
Proof. apply UrlBody, form_urlencoded. Qed.

Abbreviation run_with headers dir := (run_reader (T := list_table) (X := unit) (W := unit) (U := unit) 1000 (fun _ => x00)
  (fun s => (0%Z, s)) an_initialized_registry false headers dir 20014 text_core (fun _ next => next) 0).
Abbreviation run_form := (run_with form_headers small_heap).

(** The same for a form with a field and a file. *)
Definition upload_headers : apr_table (AprTable := list_table) bytes :=
  [(str "Content-Type", str "multipart/form-data; boundary=B")].
Definition upload_heap : option dir_config := Some (DirConfig None 1000 4).
Definition upload_text : bytes := form_text (str "B") two_parts (str "end").
Definition upload_request : text_request :=
  match apreq_handle_apache2 (bare_request upload_text) with Ok w => w | _ => bare_request [] end.

Lemma upload_request_new : new_request 0 id upload_request.
Proof. split; [vm_compute; reflexivity|]. split; [reflexivity|]. vm_compute. reflexivity. Qed.

Lemma upload_parsed : parsed_body (fun _ => x00) an_initialized_registry upload_headers
  (a_in upload_request) (fun s t => s = APR_SUCCESS /\ Forall2 part_gives two_parts (apr_table_elts t)).
Proof.
  apply (FormBody _ _ _ _ (str "B") two_parts (str "end")).
  - intros ct pf Hct Hpf. vm_compute in Hct. injection Hct as <-. vm_compute in Hpf. injection Hpf as <-.
    split; vm_compute; reflexivity.
  - cbn. rewrite elem_of_cons, elem_of_nil. naive_solver.
  - vm_compute. reflexivity.
  - reflexivity.
Qed.

(** A read from the spool moves the bucket behind the bytes that were asked for as
    well: a handler that asks for one byte is handed three. *)
Example spooled_read_gives_more :
  exists w, run_form [Prefetch 3; Prefetch 4; Read 1] form_request =
    Ok ([(0%Z, [BData (str "a"); BData (str "=1")])], w).
Proof. eexists. vm_compute. reflexivity. Qed.

Lemma filter_loses_nothing_witness :
  exists os w', run_with upload_headers upload_heap [Prefetch 3; Read 1; Prefetch 40; Read 2] upload_request = Ok (os, w') /\
    brigade_data (received os) ++ brigade_data (kept 0 w') ++ a_in w' = upload_text.
Proof.
  destruct (filter_loses_nothing (T := list_table) (X := unit) (W := unit) (U := unit) 1000 (fun _ => x00)
    (fun s => (0%Z, s)) an_initialized_registry false upload_headers upload_heap 20014 text_core (fun _ next => next)
    0 id ltac:(lia) short_writes_reliable text_core_streams
    [Prefetch 3; Read 1; Prefetch 40; Read 2] upload_request _ upload_request_new upload_parsed
    ltac:(repeat constructor)) as (os & w' & H1 & _ & H2 & _).
  exists os, w'. split; [exact H1|exact H2].
Defined.

Lemma reader_reaches_end_witness :
  exists os w', run_form ([Prefetch 3] ++ map Read (replicate 16 2)) form_request = Ok (os, w') /\
    BEos ∈ received os /\ brigade_data (received os) = str "a=1&b=2".
Proof.
  apply (reader_reaches_end (T := list_table) (X := unit) (W := unit) (U := unit) 1000 (fun _ => x00)
    (fun s => (0%Z, s)) an_initialized_registry false form_headers small_heap 20014 text_core (fun _ next => next)
    0 id ltac:(lia) short_writes_reliable text_core_streams
    [Prefetch 3] (replicate 16 2) form_request _ form_request_new form_request_parsed); [repeat constructor..|].
  vm_compute. lia.
Defined.

Lemma apache2_body_any_time_witness :
  exists os w1 s t w2 os' w3,
    run_with upload_headers upload_heap [Read 4] upload_request = Ok (os, w1) /\
    apache2_body (T := list_table) (X := unit) (W := unit) (U := unit) 1000 (fun _ => x00)
      (fun s => (0%Z, s)) an_initialized_registry false upload_headers upload_heap 20014 text_core
      (fun _ next => next) 400 w1 = Ok (s, Some t, w2) /\
    (s = APR_SUCCESS /\ Forall2 part_gives two_parts (apr_table_elts t)) /\
    run_with upload_headers upload_heap (map Read (replicate 800 2)) w2 = Ok (os', w3) /\
    brigade_data (received (os ++ os')) = upload_text.
Proof.
  apply (apache2_body_any_time (T := list_table) (X := unit) (W := unit) (U := unit) 1000 (fun _ => x00)
    (fun s => (0%Z, s)) an_initialized_registry false upload_headers upload_heap 20014 text_core (fun _ next => next)
    0 id ltac:(lia) short_writes_reliable text_core_streams 400
    (Apache2Handle None None APR_EINIT APR_EINIT (Some 0)) [Read 4] (replicate 800 2) upload_request
    (fun s t => s = APR_SUCCESS /\ Forall2 part_gives two_parts (apr_table_elts t)) upload_request_new).
  - split; [done|]. split; [reflexivity|]. split; [|vm_compute; discriminate].
    exists (str "multipart/form-data; boundary=B"), apreq_parse_multipart_f. split; vm_compute; reflexivity.
  - apply upload_parsed.
  - reflexivity.
  - reflexivity.
  - repeat constructor.
  - apply Forall_replicate. lia.
  - vm_compute. lia.
  - rewrite length_replicate. vm_compute. lia.
Defined.
