(* ===== verification/Apache1.v ===== *)
(** * The module of Apache 1 ([src/libapreq2/module/apache/])

    The handle of a request of Apache 1 ([handle.c]) reads the body from the
    client itself, in blocks, when it is asked for; the directives and the start
    of the module ([command.c]) are those of Apache 2. *)
From S2P Require Import Prelude Apr Url Util Brigade Param Parser Urlencoded Header Boundary.
From S2P Require Import Multipart ParserRun Cookie Module Custom Cgi Filter.

(** ** Configuration ([command.c]) *)

Definition apache1_create_dir_config : dir_config := apreq_create_dir_config.
Definition apache1_merge_dir_config (a b : dir_config) : dir_config := apreq_merge_dir_config a b.
Definition apache1_set_temp_dir := apreq_set_temp_dir.
Definition apache1_set_read_limit := apreq_set_read_limit.
Definition apache1_set_brigade_limit := apreq_set_brigade_limit.

(** [pool]: what the registration of the cleanup says. *)
Definition apache1_init (pool : Z) (reg : registry) : registry := (apreq_initialize pool reg).2.

(** ** The client *)

(** [ap_get_client_block] puts at most [n] bytes into a buffer; [None]: the
    connection is broken.  [client_rest]: what it yields before it fails or is at
    the end of the body. *)
Class ApClient (In : Type) := {
  client_rest : In -> bytes;
  ap_get_client_block : In -> nat -> option bytes * In;
  client_block : forall i n, 0 < n ->
    match ap_get_client_block i n with
    | (Some (b :: d), i') => client_rest i = (b :: d) ++ client_rest i' /\ length (b :: d) <= n
    | (_, i') => client_rest i = [] /\ client_rest i' = []
    end
}.

Section Apache1.
Context {E : AprErrno} {T : AprTable} {TM : AprTableMerge} {X : Type} {XP : AprXml X} {H : HookEnv X}
        {W : Type} {F : AprFile W} {SM : AprStrmatch} {U : Type} {UP : UserParsers (X := X) (W := W) U}
        {AP : AprPartition} {In : Type} {CB : ApClient In}.

(** [header]: the headers of the request; [r_args]: its query string; [turns]: how
    many turns of a loop are looked at. *)
Context (FILE_BUCKET_LIMIT HUGE_STRING_LEN : nat) (hole : nat -> Byte.byte)
        (apr_strtoi64 : bytes -> Z * bytes) (apr_date_parse_rfc : bytes -> Z) (now : Z) (junk : bytes)
        (reg : registry) (header : bytes -> option bytes) (r_args : option bytes) (turns : nat).

Abbreviation table := (apr_table apreq_param_t).
Abbreviation jar_table := (apr_table apreq_cookie_t).
Abbreviation parser := (apreq_parser_t (X := X) (parser_ctx (X := X) U)).
Abbreviation hooks := (list (apreq_hook_t (X := X))).

(** An empty [o_hook_queue] is NULL. *)
Record apache_handle := ApacheHandle {
  o_jar : option jar_table;
  o_args : option table;
  o_body : option table;
  o_jar_status : Z;
  o_args_status : Z;
  o_body_status : Z;
  o_parser : option parser;
  o_hook_queue : hooks;
  o_temp_dir : option bytes;
  o_brigade_limit : Z;                    (** [apr_size_t] *)
  o_read_limit : Z;                       (** [apr_uint64_t] *)
  o_bytes_read : Z;
  o_in : brigade;
  o_client : In;                          (** the connection *)
  o_err_headers_out : list (bytes * bytes);
  o_sys : W;
  o_log : list cgi_message                (** lines at level [APLOG_ERR] *)
}.

(** The handle with another body and what belongs to it. *)
Definition set_o_body (t : option table) (s : Z) (psr : option parser) (n : Z) (i : brigade) (cl : In) (w : W)
    (log : list cgi_message) (req : apache_handle) : apache_handle :=
  ApacheHandle (o_jar req) (o_args req) t (o_jar_status req) (o_args_status req) s psr (o_hook_queue req)
    (o_temp_dir req) (o_brigade_limit req) (o_read_limit req) n i cl (o_err_headers_out req) w log.

Definition set_o_status (s : Z) (log : list cgi_message) (req : apache_handle) : apache_handle :=
  set_o_body (o_body req) s (o_parser req) (o_bytes_read req) (o_in req) (o_client req) (o_sys req) log req.

Definition set_o_parser (psr : option parser) (req : apache_handle) : apache_handle :=
  set_o_body (o_body req) (o_body_status req) psr (o_bytes_read req) (o_in req) (o_client req) (o_sys req)
    (o_log req) req.

(** The handle with other settings. *)
Definition set_o_conf (hs : hooks) (dir : option bytes) (blimit rlimit : Z) (req : apache_handle)
  : apache_handle :=
  ApacheHandle (o_jar req) (o_args req) (o_body req) (o_jar_status req) (o_args_status req)
    (o_body_status req) (o_parser req) hs dir blimit rlimit (o_bytes_read req) (o_in req) (o_client req)
    (o_err_headers_out req) (o_sys req) (o_log req).

Definition set_o_jar (j : option jar_table) (s : Z) (req : apache_handle) : apache_handle :=
  ApacheHandle j (o_args req) (o_body req) s (o_args_status req) (o_body_status req) (o_parser req)
    (o_hook_queue req) (o_temp_dir req) (o_brigade_limit req) (o_read_limit req) (o_bytes_read req) (o_in req)
    (o_client req) (o_err_headers_out req) (o_sys req) (o_log req).

Definition set_o_args (t : option table) (s : Z) (req : apache_handle) : apache_handle :=
  ApacheHandle (o_jar req) t (o_body req) (o_jar_status req) s (o_body_status req) (o_parser req)
    (o_hook_queue req) (o_temp_dir req) (o_brigade_limit req) (o_read_limit req) (o_bytes_read req) (o_in req)
    (o_client req) (o_err_headers_out req) (o_sys req) (o_log req).

(** ** Headers *)

Definition apache_header_in (name : bytes) : option bytes := header name.

Definition apache_header_out (name value : bytes) (req : apache_handle) : Z * apache_handle :=
  (APR_SUCCESS,
   ApacheHandle (o_jar req) (o_args req) (o_body req) (o_jar_status req) (o_args_status req)
     (o_body_status req) (o_parser req) (o_hook_queue req) (o_temp_dir req) (o_brigade_limit req)
     (o_read_limit req) (o_bytes_read req) (o_in req) (o_client req)
     (o_err_headers_out req ++ [(name, value)]) (o_sys req) (o_log req)).

(** ** The body *)

(** The test of the length that was announced: a status and what is logged. *)
Definition apache_content_length (limit : Z) : option (Z * cgi_message) :=
  match apache_header_in (str "Content-Length") with
  | None => None
  | Some cl_header =>
      let '(content_length, dummy) := apr_strtoi64 cl_header in
      match dummy with
      | _ :: _ => Some (APREQ_ERROR_BADHEADER, InvalidContentLength cl_header)
      | [] => if (limit <? u64 content_length)%Z
              then Some (APREQ_ERROR_OVERLIMIT, ContentLengthExceeds cl_header limit) else None
      end
  end.

(** The parser of the body: a new one, or the one that was set. *)
Definition apache_parser_for (req : apache_handle) : Z + parser :=
  match o_parser req with
  | None =>
      match apache_header_in (str "Content-Type") with
      | None => inl APREQ_ERROR_NOHEADER
      | Some ct_header =>
          match apreq_parser reg (Some ct_header) with
          | None => inl APREQ_ERROR_NOPARSER
          | Some pf => inr (apreq_parser_make ct_header pf (Z.to_nat (o_brigade_limit req)) (o_temp_dir req)
                              (o_hook_queue req) None)
          end
      end
  | Some psr =>
      let psr := set_temp_dir (match o_temp_dir req with Some d => Some d | None => ps_temp_dir psr end)
                   (set_brigade_limit (Nat.min (ps_brigade_limit psr) (Z.to_nat (o_brigade_limit req))) psr) in
      inr (match o_hook_queue req with
           | [] => psr
           | hs => (apreq_parser_add_hook psr hs).2
           end)
  end.

Definition apache_init_body (req : apache_handle) : apache_handle :=
  let req := set_o_body (Some apr_table_make) (o_body_status req) (o_parser req) (o_bytes_read req)
               (o_in req) (o_client req) (o_sys req) (o_log req) req in
  match apache_content_length (o_read_limit req) with
  | Some (s, msg) => set_o_status s (o_log req ++ [msg]) req
  | None =>
      match apache_parser_for req with
      | inl s => set_o_status s (o_log req) req
      | inr psr =>
          let req := set_o_conf [] (o_temp_dir req) (o_brigade_limit req) (o_read_limit req) req in
          set_o_body (o_body req) APR_INCOMPLETE (Some psr) (o_bytes_read req) [] (o_client req) (o_sys req)
            (o_log req) req
      end
  end.

(** The bucket for what the client sent; an error is taken for the end. *)
Definition client_bucket (got : option bytes) : apr_bucket * Z :=
  match got with
  | Some (b :: d) => (BData (b :: d), Z.of_nat (length (b :: d)))
  | _ => (BEos, 0%Z)
  end.

Definition apache_read (req : apache_handle) (bytes : nat) : presult (Z * apache_handle) :=
  let req := if (o_body_status req =? APR_EINIT)%Z then apache_init_body req else req in
  if negb (o_body_status req =? APR_INCOMPLETE)%Z then Ok (o_body_status req, req)
  else
    let want := if HUGE_STRING_LEN <? bytes then HUGE_STRING_LEN else bytes in
    let '(got, cl) := ap_get_client_block (o_client req) want in
    let '(e, n) := client_bucket got in
    let read := u64 (o_bytes_read req + n) in
    let req := set_o_body (o_body req) (o_body_status req) (o_parser req) read (o_in req ++ [e]) cl
                 (o_sys req) (o_log req) req in
    if (read <=? o_read_limit req)%Z then
      match o_parser req, o_body req with
      | Some psr, Some t =>
          obind (fun '(s, w, psr, t, _) =>
            Ok (s, set_o_body (Some t) s (Some psr) read [] cl w (o_log req) req))
          (apreq_parser_run FILE_BUCKET_LIMIT hole (o_sys req) psr t (Some (o_in req)))
      | _, _ => Aborts
      end
    else Ok (APREQ_ERROR_OVERLIMIT,
             set_o_status APREQ_ERROR_OVERLIMIT
               (o_log req ++ [BytesReadExceeds read (o_read_limit req)]) req).

(** ** The functions of the module *)

Definition apache_jar (req : apache_handle) : presult (Z * option jar_table * apache_handle) :=
  let req :=
    if (o_jar_status req =? APR_EINIT)%Z then
      match apache_header_in (str "Cookie") with
      | Some cookies =>
          let '(s, j) := apreq_parse_cookie_header apr_strtoi64 apr_date_parse_rfc now junk
                           apr_table_make cookies in
          set_o_jar (Some j) s req
      | None => set_o_jar (o_jar req) APREQ_ERROR_NODATA req
      end
    else req in
  Ok (o_jar_status req, o_jar req, req).

Definition apache_args (req : apache_handle) : presult (Z * option table * apache_handle) :=
  let req :=
    if (o_args_status req =? APR_EINIT)%Z then
      match r_args with
      | Some qs =>
          let '(s, t) := apreq_parse_query_string hole apr_table_make qs in set_o_args (Some t) s req
      | None => set_o_args (o_args req) APREQ_ERROR_NODATA req
      end
    else req in
  Ok (o_args_status req, o_args req, req).

Definition apache_jar_get (req : apache_handle) (name : option bytes)
  : presult (option apreq_cookie_t * apache_handle) :=
  obind (fun '(_, t, req) => obind (fun c => Ok (c, req)) (lookup_entry t name))
    (if (o_jar_status req =? APR_EINIT)%Z then apache_jar req else Ok (o_jar_status req, o_jar req, req)).

Definition apache_args_get (req : apache_handle) (name : option bytes)
  : presult (option apreq_param_t * apache_handle) :=
  obind (fun '(_, t, req) => obind (fun p => Ok (p, req)) (lookup_entry t name))
    (if (o_args_status req =? APR_EINIT)%Z then apache_args req
     else Ok (o_args_status req, o_args req, req)).

(** [while (apache_read(...) == APR_INCOMPLETE);] *)
Fixpoint apache_read_loop (fuel : nat) (req : apache_handle) : presult apache_handle :=
  match fuel with
  | O => NoFuel
  | S fuel =>
      obind (fun '(s, req) => if (s =? APR_INCOMPLETE)%Z then apache_read_loop fuel req else Ok req)
        (apache_read req APREQ_DEFAULT_READ_BLOCK_SIZE)
  end.

Definition apache_body (req : apache_handle) : presult (Z * option table * apache_handle) :=
  let s := o_body_status req in
  let req := if (s =? APR_EINIT)%Z then apache_init_body req else req in
  obind (fun req => Ok (o_body_status req, o_body req, req))
    (if ((s =? APR_EINIT)%Z || (s =? APR_INCOMPLETE)%Z) && (o_body_status req =? APR_INCOMPLETE)%Z
     then apache_read_loop turns req else Ok req).

(** [apr_table_get], which follows the table and the name. *)
Definition entry_of (t : option table) (name : option bytes) : presult (option apreq_param_t) :=
  match t, name with
  | Some t, Some name => Ok (apr_table_get t name)
  | _, _ => Aborts
  end.

(** The loop from its label [default]. *)
Fixpoint apache_find_loop (fuel : nat) (name : option bytes) (req : apache_handle)
  : presult (option apreq_param_t * apache_handle) :=
  obind (fun val =>
    match val with
    | Some p => Ok (Some p, req)
    | None =>
        if (o_body_status req =? APR_INCOMPLETE)%Z then
          match fuel with
          | O => NoFuel
          | S fuel => obind (fun '(_, req) => apache_find_loop fuel name req)
                        (apache_read req APREQ_DEFAULT_READ_BLOCK_SIZE)
          end
        else Ok (None, req)
    end) (entry_of (o_body req) name).

(** The case [APR_INCOMPLETE]. *)
Definition apache_find (req : apache_handle) (name : option bytes)
  : presult (option apreq_param_t * apache_handle) :=
  obind (fun val =>
    match val with
    | Some p => Ok (Some p, req)
    | None => obind (fun '(_, req) => apache_find_loop turns name req)
                (apache_read req APREQ_DEFAULT_READ_BLOCK_SIZE)
    end) (entry_of (o_body req) name).

Definition apache_body_get (req : apache_handle) (name : option bytes)
  : presult (option apreq_param_t * apache_handle) :=
  if (o_body_status req =? APR_EINIT)%Z then
    let req := apache_init_body req in
    if negb (o_body_status req =? APR_INCOMPLETE)%Z then Ok (None, req)
    else obind (fun '(_, req) => apache_find req name) (apache_read req APREQ_DEFAULT_READ_BLOCK_SIZE)
  else if (o_body_status req =? APR_INCOMPLETE)%Z then apache_find req name
  else apache_find_loop turns name req.

Definition apache_parser_get (req : apache_handle) : presult (Z * option parser * apache_handle) :=
  Ok (APR_SUCCESS, o_parser req, req).

(** Directory and limit of the handle are assigned to themselves. *)
Definition apache_parser_set (req : apache_handle) (psr : parser) : presult (Z * apache_handle) :=
  match o_parser req with
  | Some _ => Ok (APREQ_ERROR_MISMATCH, req)
  | None =>
      let '(s, psr) := match o_hook_queue req with
                       | [] => (APR_SUCCESS, psr)
                       | hs => apreq_parser_add_hook psr hs
                       end in
      if negb (s =? APR_SUCCESS)%Z then Ok (s, req)
      else Ok (APR_SUCCESS,
               set_o_parser (Some psr)
                 (set_o_conf [] (o_temp_dir req) (o_brigade_limit req) (o_read_limit req) req))
  end.

Definition apache_hook_add (req : apache_handle) (hook : hooks) : presult (Z * apache_handle) :=
  match o_parser req with
  | Some psr =>
      let '(s, psr) := apreq_parser_add_hook psr hook in Ok (s, set_o_parser (Some psr) req)
  | None =>
      Ok (APR_SUCCESS,
          set_o_conf (o_hook_queue req ++ hook) (o_temp_dir req) (o_brigade_limit req) (o_read_limit req) req)
  end.

Definition apache_brigade_limit_set (req : apache_handle) (bytes : nat) : presult (Z * apache_handle) :=
  Ok (match o_parser req with
      | None =>
          if (Z.of_nat bytes <? o_brigade_limit req)%Z
          then (APR_SUCCESS, set_o_conf (o_hook_queue req) (o_temp_dir req) (Z.of_nat bytes)
                               (o_read_limit req) req)
          else (APREQ_ERROR_MISMATCH, req)
      | Some psr =>
          if bytes <? ps_brigade_limit psr
          then (APR_SUCCESS, set_o_parser (Some (set_brigade_limit bytes psr)) req)
          else (APREQ_ERROR_MISMATCH, req)
      end).

Definition apache_brigade_limit_get (req : apache_handle) : presult (Z * nat * apache_handle) :=
  Ok (APR_SUCCESS, match o_parser req with
                   | None => Z.to_nat (o_brigade_limit req) | Some psr => ps_brigade_limit psr end, req).

Definition apache_read_limit_set (req : apache_handle) (bytes : Z) : presult (Z * apache_handle) :=
  Ok (if (bytes <? o_read_limit req)%Z && (o_bytes_read req <? bytes)%Z
      then (APR_SUCCESS, set_o_conf (o_hook_queue req) (o_temp_dir req) (o_brigade_limit req) bytes req)
      else (APREQ_ERROR_MISMATCH, req)).

Definition apache_read_limit_get (req : apache_handle) : presult (Z * Z * apache_handle) :=
  Ok (APR_SUCCESS, o_read_limit req, req).

Definition apache_temp_dir_set (req : apache_handle) (path : option bytes) : presult (Z * apache_handle) :=
  let curpath := match o_parser req with None => o_temp_dir req | Some psr => ps_temp_dir psr end in
  Ok (match curpath with
      | Some _ => (APREQ_ERROR_NOTEMPTY, req)
      | None =>
          (APR_SUCCESS,
           match o_parser req with
           | None => set_o_conf (o_hook_queue req) path (o_brigade_limit req) (o_read_limit req) req
           | Some psr => set_o_parser (Some (set_temp_dir path psr)) req
           end)
      end).

Definition apache_temp_dir_get (req : apache_handle) : presult (Z * option bytes * apache_handle) :=
  Ok (APR_SUCCESS, match o_parser req with
                   | Some psr => ps_temp_dir psr | None => o_temp_dir req end, req).

Definition apache_module : apreq_module_t (U := U) apache_handle := {|
  name := str "apache"; magic_number := 20050227;
  jar := apache_jar; args := apache_args; body := apache_body;
  jar_get := apache_jar_get; args_get := apache_args_get; body_get := apache_body_get;
  parser_get := apache_parser_get; parser_set := apache_parser_set; hook_add := apache_hook_add;
  brigade_limit_get := apache_brigade_limit_get; brigade_limit_set := apache_brigade_limit_set;
  read_limit_get := apache_read_limit_get; read_limit_set := apache_read_limit_set;
  temp_dir_get := apache_temp_dir_get; temp_dir_set := apache_temp_dir_set
|}.

(** ** The handle of a request *)

(** The handle that the configuration of the request holds.  For a new one the
    pool is stored in the handle before there is a handle, through a NULL pointer. *)
Definition apreq_handle_apache (config : option apache_handle) : presult apache_handle :=
  match config with
  | Some req => Ok req
  | None => Aborts
  end.

End Apache1.

(** * Properties *)

Section Facts.
Context {E : AprErrno} {T : AprTable} {TM : AprTableMerge} {X : Type} {XP : AprXml X} {H : HookEnv X}
        {W : Type} {F : AprFile W} {SM : AprStrmatch} {U : Type} {UP : UserParsers (X := X) (W := W) U}
        {AP : AprPartition} {In : Type} {CB : ApClient In}.
Context (FILE_BUCKET_LIMIT HUGE_STRING_LEN : nat) (Hhuge : 0 < HUGE_STRING_LEN) (hole : nat -> Byte.byte)
        (apr_strtoi64 : bytes -> Z * bytes) (apr_date_parse_rfc : bytes -> Z) (now : Z) (junk : bytes)
        (reg : registry) (header : bytes -> option bytes) (r_args : option bytes) (turns : nat).
Abbreviation table := (apr_table apreq_param_t).
Abbreviation parser := (apreq_parser_t (X := X) (parser_ctx (X := X) U)).
Abbreviation handle := (apache_handle (X := X) (W := W) (U := U) (In := In)).
Abbreviation url_of psr := (seen_as as_url psr).
Abbreviation init := (apache_init_body apr_strtoi64 reg header).
Abbreviation read := (apache_read FILE_BUCKET_LIMIT HUGE_STRING_LEN hole apr_strtoi64 reg header).
Abbreviation read_loop := (apache_read_loop FILE_BUCKET_LIMIT HUGE_STRING_LEN hole apr_strtoi64 reg header).
Abbreviation find_loop := (apache_find_loop FILE_BUCKET_LIMIT HUGE_STRING_LEN hole apr_strtoi64 reg header).

(** ** A read *)

(** Cookies and query string stay. *)
Definition others_same (req req' : handle) : Prop :=
  o_jar req' = o_jar req /\ o_jar_status req' = o_jar_status req /\
  o_args req' = o_args req /\ o_args_status req' = o_args_status req.

Lemma others_trans r1 r2 r3 : others_same r1 r2 -> others_same r2 r3 -> others_same r1 r3.
Proof. unfold others_same. intros (? & ? & ? & ?) (? & ? & ? & ?). split_and!; congruence. Qed.

(** A handle that reads a urlencoded body which parses to [v]; at most [n] reads
    are left. *)
Definition expects (n : nat) (v : Z * table) (req : handle) : Prop :=
  o_body_status req = APR_INCOMPLETE /\ o_in req = [] /\
  (0 <= o_bytes_read req)%Z /\ (o_read_limit req < 2 ^ 64)%Z /\
  (o_bytes_read req + Z.of_nat (length (client_rest (o_client req))) <= o_read_limit req)%Z /\
  exists psr t, o_parser req = Some psr /\ o_body req = Some t /\
    url_waits hole v psr t (client_rest (o_client req)) /\
    (length (client_rest (o_client req)) + 2 <= n \/ url_failed (url_of psr) /\ 1 <= n).

(** A body that has been read. *)
Definition over (v : Z * table) (req : handle) : Prop :=
  o_body_status req = url_status v /\ o_body req = Some v.2.

Lemma over_done v req : over v req -> o_body_status req <> APR_INCOMPLETE.
Proof. intros [-> _]. apply url_status_done. Qed.

Lemma expects_positive n v req : expects n v req -> 1 <= n.
Proof. intros (_ & _ & _ & _ & _ & ? & ? & _ & _ & _ & [Hn|[_ Hn]]); lia. Qed.

(** What a read takes from the client. *)
Lemma client_reads (i : In) bytes : 0 < bytes ->
  let '(got, i') := ap_get_client_block i (if HUGE_STRING_LEN <? bytes then HUGE_STRING_LEN else bytes) in
  exists bb fin, [(client_bucket got).1] = bb ++ eos_if fin /\ forallb plain bb = true /\
    (client_bucket got).2 = Z.of_nat (length (brigade_data bb)) /\
    client_rest i = brigade_data bb ++ client_rest i' /\
    (if fin then client_rest i' = [] else length (client_rest i') < length (client_rest i)).
Proof.
  intros Hb. set (want := if _ : bool then _ else _).
  assert (Hw : 0 < want) by (subst want; destruct (_ <? _); lia). pose proof (client_block i want Hw) as Hc.
  destruct (ap_get_client_block i want) as [[[|b d]|] i']; cbn [client_bucket fst snd].
  - exists [], true. destruct Hc as [-> ->]. by split_and!.
  - exists [BData (b :: d)], false. destruct Hc as [-> _]. rewrite length_app.
    split_and!; cbn; rewrite ?app_nil_r; try done; lia.
  - exists [], true. destruct Hc as [-> ->]. by split_and!.
Qed.

Lemma read_expected n v req bytes : 0 < bytes -> expects (S n) v req ->
  exists s req', read req bytes = Ok (s, req') /\ o_body_status req' = s /\ others_same req req' /\
    (exists t t', o_body req = Some t /\ o_body req' = Some t' /\ table_adds t t') /\
    (expects n v req' \/ over v req').
Proof.
  intros Hb (Hs & Hi & H0 & H64 & Hl & psr & t & Hp & Ht & Hw & Hn).
  pose proof (client_reads (o_client req) bytes Hb) as Hc. unfold apache_read. rewrite Hs.
  rewrite (proj2 (Z.eqb_neq _ _) incomplete_not_einit), Hs, Z.eqb_refl. cbn [negb].
  destruct (ap_get_client_block _ _) as [got i']. destruct Hc as (bb & fin & Hbb & Hpl & Hlen & Hd & Hfin).
  destruct (client_bucket got) as [e k]. cbn [fst snd] in Hbb, Hlen. subst k.
  rewrite Hd in Hl, Hw, Hn. rewrite length_app in Hl, Hn.
  assert (Hu : u64 (o_bytes_read req + Z.of_nat (length (brigade_data bb))) =
    (o_bytes_read req + Z.of_nat (length (brigade_data bb)))%Z) by (unfold u64; apply Z.mod_small; lia).
  cbn [set_o_body o_read_limit o_parser o_body o_sys o_in]. rewrite Hu, Hi, Hp, Ht, app_nil_l, Hbb.
  assert ((o_bytes_read req + Z.of_nat (length (brigade_data bb)) <=? o_read_limit req)%Z = true) as ->
    by (apply Z.leb_le; lia).
  destruct (url_turn FILE_BUCKET_LIMIT hole v psr t bb fin (client_rest i') (o_sys req) Hw Hpl)
    as (s & psr' & t' & b & Hrun & (H1 & H2 & _ & H3) & H4); [by intros ->|].
  rewrite Hrun. cbn [obind]. eexists _, _. split; [reflexivity|]. split; [done|]. split; [done|].
  split; [exists t, t'; cbn; split_and!; [done..|by eapply parser_run_adds]|].
  destruct (decide (s = APR_INCOMPLETE)) as [->|Hne]; [left|right; by destruct (H2 Hne) as [-> ->]].
  unfold expects. cbn. split_and!; [done..|lia|done|lia|]. exists psr', t'. split_and!; [done..|by apply H1|].
  destruct Hn as [Hn|[Hf _]]; [|by apply H4 in Hf].
  destruct fin; [right; split; [by apply H3|lia]|left]. rewrite Hd, length_app in Hfin. lia.
Qed.

(** A body that is over is not read. *)
Lemma read_over v req bytes : v.1 <> APR_EINIT -> over v req -> read req bytes = Ok (o_body_status req, req).
Proof.
  intros Hv Ho. pose proof (over_done v req Ho) as Hd. unfold apache_read.
  assert (He : o_body_status req <> APR_EINIT) by (destruct Ho as [-> _]; by apply url_status_einit).
  apply Z.eqb_neq in He, Hd. by rewrite He, Hd.
Qed.

Lemma block_positive : 0 < APREQ_DEFAULT_READ_BLOCK_SIZE.
Proof. unfold APREQ_DEFAULT_READ_BLOCK_SIZE. lia. Qed.

Lemma client_reads_end n fuel v req : expects n v req -> n <= fuel ->
  exists req', read_loop fuel req = Ok req' /\ over v req' /\ others_same req req' /\
    exists t, o_body req = Some t /\ table_adds t v.2.
Proof.
  revert fuel req. induction n as [|n IH]; intros fuel req He Hf; [by apply expects_positive in He; lia|].
  destruct fuel as [|fuel]; [lia|]. cbn [apache_read_loop].
  destruct (read_expected n v req _ block_positive He) as (s & r1 & -> & <- & Ho & (t & t' & Ht & Ht' & Ha) & Hn).
  cbn [obind]. destruct Hn as [Hn|Hn].
  - pose proof Hn as (-> & _). rewrite Z.eqb_refl. destruct (IH fuel r1 Hn ltac:(lia)) as (r2 & -> & Hv & Ho2 & t2 & Ht2 & Ha2).
    rewrite Ht' in Ht2. injection Ht2 as ->. exists r2.
    split_and!; [done|done|by eapply others_trans|exists t; split; [done|by eapply adds_trans]].
  - rewrite (proj2 (Z.eqb_neq _ _) (over_done _ _ Hn)). exists r1. split_and!; [done..|]. exists t.
    split; [done|]. destruct Hn as [_ Hn]. rewrite Ht' in Hn. by injection Hn as <-.
Qed.

(** The handle is being read or has been read, with [n] reads to come. *)
Definition stage (n : nat) (v : Z * table) (req : handle) : Prop := expects n v req \/ over v req.

Lemma stage_body n v req : stage n v req -> exists t, o_body req = Some t /\ table_adds t v.2.
Proof.
  intros [He|[_ Hb]]; [|exists v.2; split; [done|apply adds_refl]].
  by destruct (client_reads_end n n v req He) as (_ & _ & _ & _ & Ht).
Qed.

Lemma stage_le n m v req : n <= m -> stage n v req -> stage m v req.
Proof.
  intros Hm [(H1 & H2 & H3 & H4 & H5 & psr & t & H6 & H7 & H8 & H9)|Ho]; [left|by right].
  split_and!; [done..|]. exists psr, t. split_and!; [done..|]. destruct H9 as [?|[? ?]]; [left|right; split]; done || lia.
Qed.

(** A read, whatever the stage. *)
Lemma stage_read n v req : v.1 <> APR_EINIT -> stage n v req ->
  exists s req', read req APREQ_DEFAULT_READ_BLOCK_SIZE = Ok (s, req') /\ stage n v req' /\ others_same req req'.
Proof.
  intros Hv [He|Ho].
  - destruct n as [|n]; [by apply expects_positive in He; lia|].
    destruct (read_expected n v req _ block_positive He) as (s & r1 & -> & _ & Ho & _ & Hn).
    exists s, r1. split_and!; [done|by apply (stage_le n); [lia|]|done].
  - rewrite (read_over v req _ Hv Ho). exists (o_body_status req), req.
    split_and!; [done|by right|by split_and!].
Qed.

(** A search in a table that is there. *)
Lemma find_loop_with fuel k req t : o_body req = Some t ->
  find_loop fuel (Some k) req =
    match apr_table_get t k with
    | Some p => Ok (Some p, req)
    | None =>
        if (o_body_status req =? APR_INCOMPLETE)%Z then
          match fuel with
          | O => NoFuel
          | S fuel => obind (fun '(_, req) => find_loop fuel (Some k) req)
                        (read req APREQ_DEFAULT_READ_BLOCK_SIZE)
          end
        else Ok (None, req)
    end.
Proof. intros Ht. destruct fuel; cbn [apache_find_loop]; by rewrite Ht. Qed.

Lemma find_ends n fuel v req k : v.1 <> APR_EINIT -> stage n v req -> n <= fuel ->
  exists req', find_loop fuel (Some k) req = Ok (apr_table_get v.2 k, req') /\ stage n v req' /\
    others_same req req'.
Proof.
  intros Hv. revert fuel req. induction n as [|n IH]; intros fuel req Hs Hf;
    destruct (stage_body _ v req Hs) as (t & Ht & Ha); rewrite (find_loop_with _ _ _ _ Ht);
    (destruct (apr_table_get t k) as [p|] eqn:Hp;
      [exists req; rewrite (get_adds t v.2 k p Ha Hp); by split_and!|]).
  all: destruct Hs as [He|Ho];
    [|exists req; rewrite (proj2 (Z.eqb_neq _ _) (over_done _ _ Ho)); pose proof Ho as [_ Hb]; rewrite Ht in Hb;
      injection Hb as ->; rewrite Hp; split_and!; by try right].
  { apply expects_positive in He. lia. }
  destruct fuel as [|fuel]; [lia|]. pose proof He as (-> & _). rewrite Z.eqb_refl.
  destruct (read_expected n v req _ block_positive He) as (s & r1 & -> & _ & Ho & _ & Hn). cbn [obind].
  destruct (IH fuel r1 Hn ltac:(lia)) as (r2 & -> & Hs2 & Ho2). exists r2.
  split_and!; [done|by apply (stage_le n); [lia|]|by eapply others_trans].
Qed.

(** ** The handle as a front end *)

Section Front.
(** The read limit, and the body. *)
Context (limit : Z) (whole : bytes).
Context (Hlimit : (Z.of_nat (length whole) <= limit < 2 ^ 64)%Z) (Hturns : length whole + 2 <= turns).
Context (Hurl : forall ct pf, header (str "Content-Type") = Some ct ->
  apreq_parser reg (Some ct) = Some pf -> pf = apreq_parse_urlencoded_f).

(** Why a body is not read, if it is not. *)
Definition apache_refusal : option Z :=
  match apache_content_length apr_strtoi64 header limit with
  | Some (s, _) => Some s
  | None =>
      match header (str "Content-Type") with
      | None => Some APREQ_ERROR_NOHEADER
      | Some ct => match apreq_parser reg (Some ct) with
                   | None => Some APREQ_ERROR_NOPARSER | Some _ => None end
      end
  end.

Lemma apache_refusal_status s : apache_refusal = Some s -> s <> APR_EINIT /\ s <> APR_INCOMPLETE.
Proof.
  unfold apache_refusal, apache_content_length. intros Hs. pose proof incomplete_range. pose proof einit_range.
  repeat case_match; simplify_eq; unfold APREQ_ERROR_BADHEADER, APREQ_ERROR_OVERLIMIT, APREQ_ERROR_NOHEADER,
    APREQ_ERROR_NOPARSER, APREQ_ERROR_BADDATA, APREQ_ERROR_NODATA, APREQ_ERROR_MISMATCH,
    APREQ_ERROR_GENERAL in *; lia.
Qed.

Definition form1 : Z * table := urlencoded_form hole apr_table_make whole.

Definition body_view : Z * option table :=
  match apache_refusal with
  | Some e => (e, Some apr_table_make)
  | None => (url_status form1, Some form1.2)
  end.

(** A handle whose body was not asked for. *)
Definition unread (req : handle) : Prop :=
  o_body_status req = APR_EINIT /\ o_parser req = None /\ o_hook_queue req = [] /\ o_bytes_read req = 0%Z /\
  o_read_limit req = limit /\ client_rest (o_client req) = whole.

(** A handle that [init_body] has seen. *)
Definition inited (req : handle) : Prop :=
  match apache_refusal with
  | Some e => o_body_status req = e /\ o_body req = Some apr_table_make
  | None => stage turns form1 req
  end.

Lemma init_unread req : unread req -> inited (init req) /\ others_same req (init req) /\
  (o_body_status (init req) = APR_INCOMPLETE \/ o_body (init req) = Some apr_table_make).
Proof.
  intros (H1 & H2 & H3 & H4 & H5 & H6). unfold inited, apache_refusal, apache_init_body.
  cbn [set_o_body o_read_limit]. rewrite H5.
  destruct (apache_content_length _ _ _) as [[s m]|]; [by split_and!; try right|].
  unfold apache_parser_for, apache_header_in. cbn [set_o_body o_parser o_brigade_limit o_temp_dir o_hook_queue]. rewrite H2.
  destruct (header (str "Content-Type")) as [ct|] eqn:Ect; [|by split_and!; try right].
  destruct (apreq_parser reg (Some ct)) as [pf|] eqn:Epf; [|by split_and!; try right].
  rewrite (Hurl ct pf eq_refl Epf). split; [|split; [by split_and!|by left]]. left.
  unfold expects. cbn [set_o_body set_o_conf o_body_status o_in o_bytes_read o_read_limit o_client o_parser o_body].
  rewrite H4, ?H5, H6. split_and!; [done..|lia|lia|lia|]. eexists _, _. split_and!; [reflexivity..| |by left].
  split_and!; [done|by rewrite H3|left]. exists []. split; [|done]. apply fresh_pending; [by rewrite H3|done].
Qed.

Lemma form1_status : form1.1 <> APR_EINIT.
Proof. apply form_status. Qed.

Lemma inited_status req : inited req -> o_body_status req <> APR_EINIT.
Proof.
  unfold inited. destruct apache_refusal as [e|] eqn:Er.
  - intros [-> _]. by apply apache_refusal_status in Er as [? _].
  - intros [(-> & _)|[-> _]]; [apply incomplete_not_einit|apply url_status_einit, form1_status].
Qed.

Lemma inited_done req : inited req -> o_body_status req <> APR_INCOMPLETE ->
  body_view = (o_body_status req, o_body req).
Proof.
  unfold inited, body_view. destruct apache_refusal as [e|]; [by intros [-> ->]|].
  by intros [(? & _)|[-> ->]].
Qed.

Lemma inited_reading req : inited req -> o_body_status req = APR_INCOMPLETE ->
  apache_refusal = None /\ stage turns form1 req.
Proof.
  unfold inited. destruct apache_refusal as [e|] eqn:Er; [|done].
  intros [-> _] Hi. by apply apache_refusal_status in Er as [_ ?].
Qed.

Definition body_fine (req : handle) : Prop := unread req \/ inited req.

Lemma body_asked req : body_fine req ->
  exists req', apache_body FILE_BUCKET_LIMIT HUGE_STRING_LEN hole apr_strtoi64 reg header turns req =
      Ok (body_view, req') /\ body_fine req' /\ others_same req req'.
Proof.
  intros Hok. unfold apache_body. set (req1 := if _ : bool then init req else req).
  assert (Hr : inited req1 /\ others_same req req1 /\
    ((o_body_status req =? APR_EINIT)%Z || (o_body_status req =? APR_INCOMPLETE)%Z = false ->
     (o_body_status req1 =? APR_INCOMPLETE)%Z = false)).
  { subst req1. destruct Hok as [Hu|Hi].
    - pose proof Hu as (-> & _). rewrite Z.eqb_refl. destruct (init_unread req Hu) as (H1 & H2 & _). by split_and!.
    - pose proof (inited_status req Hi) as He. apply Z.eqb_neq in He. rewrite He. by split_and!. }
  clearbody req1. destruct Hr as (Hi & Ho & Hc).
  destruct (Z.eqb_spec (o_body_status req1) APR_INCOMPLETE) as [Hs|Hs].
  - destruct (_ || _); [|by specialize (Hc eq_refl)]. cbn [andb].
    destruct (inited_reading req1 Hi Hs) as [Hn [He|Hov]]; [|by apply over_done in Hov].
    destruct (client_reads_end turns turns form1 req1 He ltac:(lia)) as (r2 & -> & Hov & Ho2 & _). cbn [obind].
    exists r2. unfold body_view, body_fine, inited. rewrite Hn. pose proof Hov as [-> ->].
    split_and!; [done|right; by right|by eapply others_trans].
  - rewrite andb_false_r. cbn [obind]. exists req1. rewrite (inited_done req1 Hi Hs). by split_and!; [|right|].
Qed.

Abbreviation find := (apache_find FILE_BUCKET_LIMIT HUGE_STRING_LEN hole apr_strtoi64 reg header turns).
Abbreviation body_get := (apache_body_get FILE_BUCKET_LIMIT HUGE_STRING_LEN hole apr_strtoi64 reg header turns).

(** A search of a body that is read, from its table on. *)
Lemma find_asked req k : stage turns form1 req ->
  exists req', find req (Some k) = Ok (apr_table_get form1.2 k, req') /\ stage turns form1 req' /\
    others_same req req'.
Proof.
  intros Hs. destruct (stage_body _ _ _ Hs) as (t & Ht & Ha). unfold apache_find. rewrite Ht. cbn [entry_of obind].
  destruct (apr_table_get t k) as [p|] eqn:Hp.
  - exists req. rewrite (get_adds t form1.2 k p Ha Hp). by split_and!.
  - destruct (stage_read turns form1 req form1_status Hs) as (s & r1 & -> & Hs1 & Ho1). cbn [obind].
    destruct (find_ends turns turns form1 r1 k form1_status Hs1 ltac:(lia)) as (r2 & -> & Hs2 & Ho2).
    exists r2. split_and!; [done|done|by eapply others_trans].
Qed.

Lemma make_get {A} k : apr_table_get (A := A) apr_table_make k = None.
Proof. by rewrite get_elts, elts_make. Qed.

Lemma field_asked req k : body_fine req ->
  exists req', body_get req (Some k) = Ok (first_of body_view.2 k, req') /\ body_fine req' /\
    others_same req req'.
Proof.
  assert (Hread : forall r', apache_refusal = None -> stage turns form1 r' -> body_fine r')
    by (intros r' Hn Hs; right; unfold inited; by rewrite Hn).
  intros Hok. unfold apache_body_get. destruct Hok as [Hu|Hi].
  - pose proof Hu as (-> & _). rewrite Z.eqb_refl. destruct (init_unread req Hu) as (Hi & Ho & Hm).
    set (r0 := init req) in *. clearbody r0.
    destruct (Z.eqb_spec (o_body_status r0) APR_INCOMPLETE) as [Hs|Hs]; cbn [negb].
    + destruct (inited_reading r0 Hi Hs) as [Hn Hst]. unfold body_view. rewrite Hn.
      destruct (stage_read turns form1 r0 form1_status Hst) as (s & r1 & -> & Hs1 & Ho1). cbn [obind].
      destruct (find_asked r1 k Hs1) as (r2 & -> & Hs2 & Ho2). exists r2.
      split_and!; [done|by apply Hread|by do 2 (eapply others_trans; [eassumption|])].
    + destruct Hm as [Hm|Hm]; [done|]. exists r0. rewrite (inited_done r0 Hi Hs). cbn. rewrite Hm. cbn.
      rewrite make_get. by split_and!; [|right|].
  - rewrite (proj2 (Z.eqb_neq _ _) (inited_status req Hi)).
    destruct (Z.eqb_spec (o_body_status req) APR_INCOMPLETE) as [Hs|Hs].
    + destruct (inited_reading req Hi Hs) as [Hn Hst]. unfold body_view. rewrite Hn.
      destruct (find_asked req k Hst) as (r2 & -> & Hs2 & Ho2). exists r2. split_and!; [done|by apply Hread|done].
    + pose proof Hi as Hi'. unfold inited in Hi'. unfold body_view. destruct apache_refusal as [e|] eqn:Er.
      * destruct Hi' as [He Hb]. rewrite (find_loop_with _ _ _ _ Hb), make_get, (proj2 (Z.eqb_neq _ _) Hs).
        exists req. cbn. rewrite make_get. by split_and!; [|right|..].
      * destruct (find_ends turns turns form1 req k form1_status Hi' ltac:(lia)) as (r2 & -> & Hs2 & Ho2).
        exists r2. split_and!; [done|by apply Hread|done].
Qed.

(** ** Cookies and query string *)

Abbreviation the_jar := (jar_view apr_strtoi64 apr_date_parse_rfc now junk (header (str "Cookie"))).
Abbreviation the_args := (args_view hole r_args).
Abbreviation read_jar := (apache_jar apr_strtoi64 apr_date_parse_rfc now junk header).
Abbreviation read_args := (apache_args hole r_args).

Definition jar_fine (req : handle) : Prop :=
  o_jar_status req = APR_EINIT /\ o_jar req = None \/ (o_jar_status req, o_jar req) = the_jar.
Definition args_fine (req : handle) : Prop :=
  o_args_status req = APR_EINIT /\ o_args req = None \/ (o_args_status req, o_args req) = the_args.
Definition apache_ok (req : handle) : Prop := jar_fine req /\ args_fine req /\ body_fine req.

Lemma fine_set_jar j s req : body_fine req -> body_fine (set_o_jar j s req).
Proof. intros H1. exact H1. Qed.
Lemma fine_set_args t s req : body_fine req -> body_fine (set_o_args t s req).
Proof. intros H1. exact H1. Qed.

Lemma jar_asked req : apache_ok req ->
  exists req', read_jar req = Ok (the_jar, req') /\ apache_ok req' /\
    (o_jar_status req <> APR_EINIT -> req' = req /\ (o_jar_status req, o_jar req) = the_jar).
Proof.
  unfold apache_ok, apache_jar, jar_fine, jar_view, apache_header_in. intros (Hj & Ha & Hb).
  destruct (Z.eqb_spec (o_jar_status req) APR_EINIT) as [Hs|Hs].
  - destruct (header (str "Cookie")) as [c|].
    + destruct (apreq_parse_cookie_header _ _ _ _ _ _) as [s j] eqn:Ec. eexists. split; [reflexivity|].
      split; [|done]. split; [right; cbn; exact eq_refl|]. split; [exact Ha|by apply fine_set_jar].
    + assert (o_jar req = None) as Hnone by (destruct Hj as [[_ Hj]|Hj]; [done|by injection Hj]).
      rewrite Hnone. eexists. split; [reflexivity|]. split; [|done].
      split; [by right|]. split; [exact Ha|by apply fine_set_jar].
  - destruct Hj as [[Hj _]|Hj]; [done|]. exists req. rewrite Hj. by split_and!; [|right|..].
Qed.

Lemma args_asked req : apache_ok req ->
  exists req', read_args req = Ok (the_args, req') /\ apache_ok req' /\
    (o_args_status req <> APR_EINIT -> req' = req /\ (o_args_status req, o_args req) = the_args).
Proof.
  unfold apache_ok, apache_args, args_fine, args_view. intros (Hj & Ha & Hb).
  destruct (Z.eqb_spec (o_args_status req) APR_EINIT) as [Hs|Hs].
  - destruct r_args as [q|].
    + destruct (apreq_parse_query_string _ _ _) as [s t] eqn:Eq. eexists. split; [reflexivity|].
      split; [|done]. split; [exact Hj|]. split; [right; cbn; exact eq_refl|by apply fine_set_args].
    + assert (o_args req = None) as Hnone by (destruct Ha as [[_ Ha]|Ha]; [done|by injection Ha]).
      rewrite Hnone. eexists. split; [reflexivity|]. split; [|done].
      split; [exact Hj|]. split; [by right|by apply fine_set_args].
  - destruct Ha as [[Ha _]|Ha]; [done|]. exists req. rewrite Ha. by split_and!; [| |right|..].
Qed.

Lemma others_ok req req' : others_same req req' -> apache_ok req -> body_fine req' -> apache_ok req'.
Proof.
  intros (H1 & H2 & H3 & H4) (Hj & Ha & _) Hb. unfold apache_ok, jar_fine, args_fine.
  by rewrite H1, H2, H3, H4.
Qed.

#[local] Instance the_apache_module : apreq_module_t (U := U) handle :=
  apache_module FILE_BUCKET_LIMIT HUGE_STRING_LEN hole apr_strtoi64 apr_date_parse_rfc now junk reg header r_args
    turns.

Definition apache_view (_ : handle) : view := View the_jar the_args body_view.

Lemma apache_frontend : Frontend apache_ok apache_view.
Proof.
  split; intros req.
  - intros Hok. destruct (jar_asked req Hok) as (req' & Hj & Hok' & _). by exists req'.
  - intros Hok. destruct (args_asked req Hok) as (req' & Ha & Hok' & _). by exists req'.
  - intros Hok. destruct (body_asked req) as (req' & Hb & Hb' & Hsame); [apply Hok|].
    exists req'. split_and!; [exact Hb|by eapply others_ok|done].
  - intros k Hok. destruct (jar_asked req Hok) as (req' & Hj & Hok' & Hsame). exists req'.
    split_and!; [|done..]. unfold apreq_jar_get. cbn [jar_get the_apache_module apache_module apache_view v_jar].
    unfold apache_jar_get. destruct (Z.eqb_spec (o_jar_status req) APR_EINIT) as [Hs|Hs].
    + rewrite Hj. destruct the_jar as [s t]. cbn [obind]. by rewrite lookup_first.
    + destruct (Hsame Hs) as [-> Heq]. rewrite <- Heq. cbn [obind snd]. by rewrite lookup_first.
  - intros k Hok. destruct (args_asked req Hok) as (req' & Ha & Hok' & Hsame). exists req'.
    split_and!; [|done..]. unfold apreq_args_get. cbn [args_get the_apache_module apache_module apache_view v_args].
    unfold apache_args_get. destruct (Z.eqb_spec (o_args_status req) APR_EINIT) as [Hs|Hs].
    + rewrite Ha. destruct the_args as [s t]. cbn [obind]. by rewrite lookup_first.
    + destruct (Hsame Hs) as [-> Heq]. rewrite <- Heq. cbn [obind snd]. by rewrite lookup_first.
  - intros k Hok. destruct (field_asked req k) as (req' & Hb & Hb' & Hsame); [apply Hok|].
    exists req'. split_and!; [exact Hb|by eapply others_ok|done].
Qed.

End Front.

(** ** Claims *)

(** A handle of which nothing was asked yet, with its client and read limit.  The code
    does not make one (see [first_handle_aborts]): these are the fields its functions
    start from, whoever filled them in. *)
Definition unasked (limit : Z) (cl : In) (req : handle) : Prop :=
  (o_jar req = None /\ o_jar_status req = APR_EINIT) /\ (o_args req = None /\ o_args_status req = APR_EINIT) /\
  (o_body req = None /\ o_body_status req = APR_EINIT) /\ (o_parser req = None /\ o_hook_queue req = []) /\
  (o_bytes_read req = 0%Z /\ o_in req = [] /\ o_read_limit req = limit /\ o_client req = cl).

(** A handle of which nothing was asked answers as the request says, whatever is asked
    in whatever order, and however the client sends the body: with the [Cookie]
    header, the query string and the urlencoded body, each parsed as one string,
    or with the reason why a body is not read.  A connection that breaks ends the
    body: what had arrived is the answer. *)
Theorem apache_handle_refines_request (limit : Z) (cl : In) (req : handle) :
  unasked limit cl req ->
  (Z.of_nat (length (client_rest cl)) <= limit < 2 ^ 64)%Z -> length (client_rest cl) + 2 <= turns ->
  (forall ct pf, header (str "Content-Type") = Some ct ->
     apreq_parser reg (Some ct) = Some pf -> pf = apreq_parse_urlencoded_f) ->
  let v := urlencoded_form hole apr_table_make (client_rest cl) in
  let body := match apache_refusal limit with
              | Some e => (e, Some apr_table_make)
              | None => (url_status v, Some v.2)
              end in
  forall qs, exists req',
    ask_all (Mod := apache_module FILE_BUCKET_LIMIT HUGE_STRING_LEN hole apr_strtoi64 apr_date_parse_rfc now junk
                      reg header r_args turns) qs req =
      Ok (map (answer_of (View (jar_view apr_strtoi64 apr_date_parse_rfc now junk (header (str "Cookie")))
            (args_view hole r_args) body)) qs, req').
Proof.
  intros ((Hj & Hjs) & (Ha & Has) & (Hb & Hbs) & (Hp & Hh) & Hn & Hi & Hl & Hc) Hlim Hturns Hurl v body qs; subst limit cl.
  destruct (questions_refine_view (FE := apache_frontend _ _ Hlim Hturns Hurl) qs req)
    as (req' & Hq & _); [|by exists req'].
  split_and!; [by left|by left|]. left. unfold unread. by split_and!.
Qed.

End Facts.

(** ** Witness *)

(** A client that has the body ready. *)
#[export] Program Instance text_client : ApClient bytes := {|
  client_rest i := i;
  ap_get_client_block i n := (Some (take n i), drop n i)
|}.
Next Obligation.
  intros i n Hn. destruct n as [|n]; [lia|]. destruct i as [|b i]; cbn; [done|].
  split; [by rewrite take_drop|]. rewrite length_take. lia.
Qed.

Definition a_header (name : bytes) : option bytes :=
  if bool_decide (name = str "Content-Type") then Some (str "application/x-www-form-urlencoded")
  else if bool_decide (name = str "Cookie") then Some (str "sid=7")
  else None.

(** A handle with the default limits. *)
Definition bare_handle : apache_handle (X := unit) (W := unit) (U := unit) (In := bytes) :=
  ApacheHandle None None None APR_EINIT APR_EINIT APR_EINIT None [] None (Z.of_nat APREQ_DEFAULT_BRIGADE_LIMIT)
    (2 ^ 64 - 1) 0 [] (str "a=1&b=2") [] tt [].

Lemma apache_handle_refines_request_witness :
  let v := urlencoded_form (T := list_table) (fun _ => x00) apr_table_make (str "a=1&b=2") in
  exists req',
    ask_all (Mod := apache_module (X := unit) (W := unit) (U := unit) 1000 4 (fun _ => x00)
                      (fun _ => (7%Z, [])) (fun _ => 0%Z) 0 [] an_initialized_registry a_header
                      (Some (str "a=0")) 9) some_questions bare_handle =
      Ok (map (answer_of (View cgi_jar_of_env (args_view (fun _ => x00) (Some (str "a=0")))
            (url_status v, Some v.2))) some_questions, req').
Proof.
  refine (apache_handle_refines_request (T := list_table) (X := unit) (W := unit) (U := unit) 1000 4 ltac:(lia)
    (fun _ => x00) (fun _ => (7%Z, [])) (fun _ => 0%Z) 0 [] an_initialized_registry a_header (Some (str "a=0")) 9
    (2 ^ 64 - 1) (str "a=1&b=2") bare_handle _ _ _ _ some_questions).
  - by split_and!.
  - cbn. lia.
  - cbn. lia.
  - intros ct pf Hct Hpf. vm_compute in Hct. injection Hct as <-. vm_compute in Hpf. by injection Hpf as <-.
Defined.

(** A parser that is set keeps its own limit and directory, whatever the handle
    was told. *)
Lemma set_parser_keeps_settings {T : AprTable} {X W U In : Type}
    (req : apache_handle (X := X) (W := W) (U := U) (In := In)) psr s req' :
  o_parser req = None -> apache_parser_set req psr = Ok (s, req') ->
  exists psr', o_parser req' = Some psr' /\ ps_brigade_limit psr' = ps_brigade_limit psr /\
    ps_temp_dir psr' = ps_temp_dir psr.
Proof.
  intros Hp. unfold apache_parser_set. rewrite Hp.
  destruct (o_hook_queue req); intros [= <- <-]; eexists; (split; [reflexivity|done]).
Qed.

(** Asked for the first time, the handle of a request is not made. *)
Lemma first_handle_aborts {T : AprTable} {X W U In : Type} :
  apreq_handle_apache (X := X) (W := W) (U := U) (In := In) None = Aborts.
Proof. done. Qed.
