(* ===== verification/PerlGlue.v ===== *)
(** * The Perl glue ([glue/perl/xsbuilder])

    The functions that give Perl programs the requests, parameters and cookies of
    the library: [apreq_xs_postperl.h], [apreq_xs_tables.h] and the files
    [APR__Request.h], [APR__Request__Param.h] and [APR__Request__Cookie.h].

    Perl is outside the library.  A Perl value is what the calls of its API that
    make it say; references lead into a heap of objects and hashes; the classes a
    package is derived from, the conversion of values, and the subs of the program
    are a class.  The table of an object, its parent and the class of its values are
    what the glue keeps in the magic of the object, and the position of the iterator
    is the length field of its string ([SvCUR]). *)
From S2P Require Import Prelude Apr Url Util Brigade Param Parser Urlencoded Header Boundary.
From S2P Require Import Multipart ParserRun Cookie Module Errors Custom.

(** ** Values *)

Abbreviation addr := nat (only parsing).

(** What a scalar holds: a string with its flags, or the text of a status together
    with the status. *)
Inductive sv :=
  | SvUndef
  | SvIV (n : Z)
  | SvPV (d : bytes) (tainted utf8 : bool)
  | SvError (msg : bytes) (s : Z)
  | SvRV (a : addr).

#[export] Instance sv_eq_dec : EqDecision sv.
Proof. solve_decision. Defined.

(** [GIMME_V]. *)
Inductive context := G_VOID | G_SCALAR | G_ARRAY.
#[export] Instance context_eq_dec : EqDecision context.
Proof. solve_decision. Defined.

Definition HANDLE_CLASS : bytes := str "APR::Request".
Definition COOKIE_CLASS : bytes := str "APR::Request::Cookie".
Definition PARAM_CLASS : bytes := str "APR::Request::Param".
Definition ERROR_CLASS : bytes := str "APR::Request::Error".
Definition COOKIE_TABLE_CLASS : bytes := str "APR::Request::Cookie::Table".
Definition PARAM_TABLE_CLASS : bytes := str "APR::Request::Param::Table".

(** Why a call dies with a message of its own. *)
Inductive message :=
  | Usage (text : bytes)
  | NotFound (key : Byte.byte)            (** [object attr `%c' not found] *)
  | UnsupportedType (a : addr)            (** [panic: unsupported SV type] *)
  | NoTiedScalar
  | ObjectNotFound (class : bytes)
  | NotDerived (class base : bytes).

Section Glue.
Context {E : AprErrno} {T : AprTable} {TM : AprTableMerge} {X : Type} {XP : AprXml X} {H : HookEnv X}
        {U : Type} {S : Type} {Mod : apreq_module_t (X := X) (U := U) S}.
(** [V]: the variables of the Perl program. *)
Context {V : Type}.

(** ** The interpreter *)

(** What the integer value of an object points to. *)
Inductive ptr :=
  | PtrHandle                                   (** the request *)
  | PtrParam (p : apreq_param_t)
  | PtrCookie (c : apreq_cookie_t)
  | PtrParamTable (t : apr_table apreq_param_t)
  | PtrCookieTable (t : apr_table apreq_cookie_t)
  | PtrBrigade (bb : brigade).

Record object := Object {
  o_class : bytes;
  o_ptr : ptr;
  o_cur : nat;                                  (** [SvCUR] *)
  o_magic : option (addr * option bytes);       (** [mg_obj] and [mg_ptr] of its ext magic *)
  o_tainted : bool
}.

(** What a reference leads to: a hash with its package, its tied magic and its
    entries, a file handle with its magic, an object, a string with the memory behind
    it, or something else. *)
Inductive referent :=
  | PVHV (package : option bytes) (tied : option sv) (entries : list (bytes * sv))
  | PVIO (package : option bytes) (tied : option sv)
  | PVMG (o : object)
  | PVBuf (d room : bytes) (tainted : bool)
  | OtherSV (package : option bytes).

Definition package_of (r : referent) : option bytes :=
  match r with
  | PVHV p _ _ | PVIO p _ | OtherSV p => p
  | PVMG o => Some (o_class o)
  | PVBuf _ _ _ => None
  end.

Record interp := Interp {
  i_req : S;
  i_heap : list referent;
  i_cop : bytes * Z;                            (** [PL_curcop]: file and line *)
  i_vars : V
}.

Definition set_req (req : S) (w : interp) : interp := Interp req (i_heap w) (i_cop w) (i_vars w).
Definition set_heap (h : list referent) (w : interp) : interp := Interp (i_req w) h (i_cop w) (i_vars w).

(** How a call ends: it returns, it dies with a message or with an error object, the
    process crashes, or it does not end. *)
Inductive ended (A : Type) :=
  | Ret (a : A) (w : interp)
  | Croaks (m : message) (w : interp)
  | Throws (e : addr) (w : interp)
  | Faults
  | Forever.
Arguments Ret {A}.
Arguments Croaks {A}.
Arguments Throws {A}.
Arguments Faults {A}.
Arguments Forever {A}.

Definition xs (A : Type) : Type := interp -> ended A.

Definition xret {A} (a : A) : xs A := Ret a.
Definition xbind {A B} (m : xs A) (f : A -> xs B) : xs B := fun w =>
  match m w with
  | Ret a w => f a w
  | Croaks m w => Croaks m w
  | Throws e w => Throws e w
  | Faults => Faults
  | Forever => Forever
  end.
Definition croak {A} (m : message) : xs A := Croaks m.
Definition fault {A} : xs A := fun _ => Faults.
Definition heap_at (a : addr) : xs (option referent) := fun w => Ret (i_heap w !! a) w.
Definition new_sv (r : referent) : xs addr := fun w =>
  Ret (length (i_heap w)) (set_heap (i_heap w ++ [r]) w).
Definition store (a : addr) (r : referent) : xs unit := fun w =>
  Ret tt (set_heap (<[a := r]> (i_heap w)) w).

Notation "'let*' x := m 'in' k" := (xbind m (fun x => k))
  (at level 10, x pattern, m at level 100, k at level 200).

(** A function of the library on the request. *)
Definition call {A} (f : S -> presult (A * S)) : xs A := fun w =>
  match f (i_req w) with
  | Ok (a, req) => Ret a (set_req req w)
  | Aborts => Faults
  | NoFuel => Forever
  end.

(** What Perl does: the classes a class is derived from, the values as strings and as
    integers, and the subs of the program. *)
Class Perl := {
  isa : bytes -> bytes -> bool;
  isa_refl : forall c, isa c c = true;
  SvPV_nolen : sv -> bytes;
  SvPV_string : forall d t u, SvPV_nolen (SvPV d t u) = d;
  SvIV_of : sv -> Z;
  SvIV_int : forall n, SvIV_of (SvIV n) = n;
  call_sv : sv -> list sv -> xs (list sv)
}.
Context {P : Perl} (APR_OS_START_EAIERR : Z) (apr_strerror : Z -> nat -> bytes).

Definition SvROK (v : sv) : bool := match v with SvRV _ => true | _ => false end.

Definition sv_derived_from (w : interp) (v : sv) (class : bytes) : bool :=
  match v with
  | SvRV a => match i_heap w !! a ≫= package_of with Some c => isa c class | None => false end
  | SvPV d _ _ => isa d class
  | _ => false
  end.

(** The object of an address; anything else is no object of the glue. *)
Definition object_at (a : addr) : xs object :=
  let* r := heap_at a in
  match r with Some (PVMG o) => xret o | _ => fault end.

(** ** apreq_xs_postperl.h *)

Definition hv_fetch (entries : list (bytes * sv)) (k : bytes) : option sv :=
  snd <$> List.find (fun e => bool_decide (e.1 = k)) entries.

(** One turn of the search. *)
Inductive found :=
  | FoundAt (a : addr)
  | NextIn (v : sv)
  | Stops (m : message)
  | Crashes.

(** A hash without the key is reported with the format [%s] and a character. *)
Definition find_step (key : Byte.byte) (h : list referent) (v : sv) : found :=
  match v with
  | SvRV a =>
      match h !! a with
      | Some (PVHV _ (Some obj) _) => NextIn obj
      | Some (PVHV _ None entries) =>
          match hv_fetch entries [key] with
          | Some v => NextIn v
          | None =>
              match hv_fetch entries (str "_" ++ [key]) with
              | Some v => NextIn v
              | None => Crashes
              end
          end
      | Some (PVMG _) => FoundAt a
      | Some (PVIO _ _) | Some (PVBuf _ _ _) | Some (OtherSV _) => Stops (UnsupportedType a)
      | None => Crashes
      end
  | _ => Stops (NotFound key)
  end.

Fixpoint find_loop (fuel : nat) (key : Byte.byte) (v : sv) : xs addr := fun w =>
  match find_step key (i_heap w) v with
  | FoundAt a => Ret a w
  | Stops m => Croaks m w
  | Crashes => Faults
  | NextIn v =>
      match fuel with
      | O => Forever
      | Datatypes.S fuel => find_loop fuel key v w
      end
  end.

(** The object is the one the result refers to.  A search that visits no hash twice
    ends within as many turns as there are values ([find_obj_or_never]). *)
Definition apreq_xs_find_obj (v : sv) (key : Byte.byte) : xs addr := fun w =>
  find_loop (length (i_heap w)) key v w.

Definition apreq_xs_object2sv (p : ptr) (class : bytes) (parent : addr) (base : bytes) : xs sv :=
  let* a := new_sv (PVMG (Object class p 0 (Some (parent, None)) false)) in
  if isa class base then xret (SvRV a) else croak (NotDerived class base).

Definition apreq_xs_handle2sv (class : bytes) (parent : addr) : xs sv :=
  apreq_xs_object2sv PtrHandle class parent HANDLE_CLASS.

(** The string that a parameter is in Perl. *)
Definition param_string (p : apreq_param_t) : sv :=
  if negb (apreq_param_is_tainted p =? 0)%Z then SvPV (p_data p) true false
  else SvPV (p_data p) false (apreq_param_charset_get p =? charset_val APREQ_CHARSET_UTF8)%Z.

Definition apreq_xs_param2sv (p : apreq_param_t) (class : option bytes) (parent : addr) : xs sv :=
  match class with
  | None => xret (param_string p)
  | Some class => apreq_xs_object2sv (PtrParam p) class parent PARAM_CLASS
  end.

Definition cookie_string (c : apreq_cookie_t) : sv :=
  SvPV (c_data c) (negb (apreq_cookie_is_tainted c =? 0)%Z) false.

Definition apreq_xs_cookie2sv (c : apreq_cookie_t) (class : option bytes) (parent : addr) : xs sv :=
  match class with
  | None => xret (cookie_string c)
  | Some class => apreq_xs_object2sv (PtrCookie c) class parent COOKIE_CLASS
  end.

Definition apreq_xs_error2sv (s : Z) : sv :=
  SvError (cstr (apreq_strerror APR_OS_START_EAIERR apr_strerror s 256)) s.

(** The object itself, or its parent, is of the class. *)
Definition apreq_xs_sv2object (v : sv) (class : bytes) (attr : Byte.byte) : xs addr :=
  let* a := apreq_xs_find_obj v attr in
  fun w =>
    if sv_derived_from w (SvRV a) class then Ret a w
    else match i_heap w !! a with
         | Some (PVMG (Object _ _ _ (Some (parent, _)) _)) =>
             if sv_derived_from w (SvRV parent) class then Ret parent w
             else Croaks (ObjectNotFound class) w
         | _ => Croaks (ObjectNotFound class) w
         end.

(** An object that says it is of the class and points to something else is misread. *)
Definition apreq_xs_sv2handle (v : sv) : xs unit :=
  let* a := apreq_xs_sv2object v HANDLE_CLASS "r" in
  let* o := object_at a in
  match o_ptr o with PtrHandle => xret tt | _ => fault end.

Definition apreq_xs_sv2param (v : sv) : xs apreq_param_t :=
  let* a := apreq_xs_sv2object v PARAM_CLASS "p" in
  let* o := object_at a in
  match o_ptr o with PtrParam p => xret p | _ => fault end.

Definition apreq_xs_sv2cookie (v : sv) : xs apreq_cookie_t :=
  let* a := apreq_xs_sv2object v COOKIE_CLASS "c" in
  let* o := object_at a in
  match o_ptr o with PtrCookie c => xret c | _ => fault end.

(** The error object gets its entries behind those of [data]. *)
Definition apreq_xs_croak {A} (data : list (bytes * sv)) (rc : Z) (func class : bytes) : xs A := fun w =>
  let e := length (i_heap w) in
  Throws e (set_heap (i_heap w ++
    [PVHV (Some class) None
       (data ++ [(str "rc", SvIV rc); (str "file", SvPV (i_cop w).1 false false);
                 (str "line", SvIV (i_cop w).2); (str "func", SvPV func false false)])]) w).

(** [v] is what the method was called on, [obj] the object found from it. *)
Definition APREQ_XS_THROW_ERROR (attr : Byte.byte) (status : Z) (func errpkg : bytes) (v : sv) (obj : addr)
  : xs unit := fun w =>
  if sv_derived_from w v errpkg then Ret tt w
  else apreq_xs_croak [(str "_" ++ [attr], SvRV obj)] status func errpkg w.

(** ** Tables ([apreq_xs_tables.h])

    The functions for parameters and those for cookies are the same but for the type
    of the values. *)

Class TableKind (A : Type) := {
  tk_2sv : A -> option bytes -> addr -> xs sv;
  tk_string : A -> sv;
  tk_plain : forall c parent, tk_2sv c None parent = xret (tk_string c);
  tk_name : A -> bytes;                            (** [v.name], [v.nlen] bytes *)
  tk_tainted : A -> bool;
  tk_class : bytes;
  tk_to : apr_table A -> ptr;
  tk_of : ptr -> option (apr_table A);
  tk_of_to : forall t, tk_of (tk_to t) = Some t
}.

Definition param_kind : TableKind apreq_param_t := {|
  tk_2sv := apreq_xs_param2sv;
  tk_string := param_string;
  tk_name := p_name;
  tk_tainted p := negb (apreq_param_is_tainted p =? 0)%Z;
  tk_class := PARAM_TABLE_CLASS;
  tk_to := PtrParamTable;
  tk_of p := match p with PtrParamTable t => Some t | _ => None end;
  tk_plain _ _ := eq_refl;
  tk_of_to _ := eq_refl
|}.
#[local] Existing Instance param_kind.

Definition cookie_kind : TableKind apreq_cookie_t := {|
  tk_2sv := apreq_xs_cookie2sv;
  tk_string := cookie_string;
  tk_name := c_name;
  tk_tainted c := negb (apreq_cookie_is_tainted c =? 0)%Z;
  tk_class := COOKIE_TABLE_CLASS;
  tk_to := PtrCookieTable;
  tk_of p := match p with PtrCookieTable t => Some t | _ => None end;
  tk_plain _ _ := eq_refl;
  tk_of_to _ := eq_refl
|}.
#[local] Existing Instance cookie_kind.

Section Kind.
Context {A : Type} {K : TableKind A}.

(** [newSVpvn(key, nlen)]: the key is where the name begins, so that the bytes behind
    its NUL are those of the name. *)
Definition key_sv (key : bytes) (a : A) : sv :=
  SvPV (take (length (tk_name a)) (key ++ drop (length key) (tk_name a))) (tk_tainted a) false.

(** What [apr_table_do] runs: the Perl stack grows by a value. *)
Definition table_keys (st : ended (list sv)) (key : bytes) (val : A) : ended (list sv) * bool :=
  match st with
  | Ret l w => (Ret (l ++ [key_sv key val]) w, true)
  | st => (st, false)
  end.

Definition table_values (class : option bytes) (parent : addr) (st : ended (list sv)) (key : bytes) (val : A)
  : ended (list sv) * bool :=
  match st with
  | Ret l w =>
      match xbind (tk_2sv val class parent) (fun v => xret (l ++ [v])) w with
      | Ret l w => (Ret l w, true)
      | st => (st, false)
      end
  | st => (st, false)
  end.

Definition push_keys (t : apr_table A) : xs (list sv) := fun w =>
  apr_table_do table_keys (Ret [] w) t None.
Definition push_values (class : option bytes) (parent : addr) (t : apr_table A) (key : bytes)
  : xs (list sv) := fun w =>
  apr_table_do (table_values class parent) (Ret [] w) t (Some (cstr key)).

(** A hash tied to an object that holds the table, with the class of its values. *)
Definition table2sv (t : apr_table A) (class : bytes) (parent : addr) (value_class : option bytes) : xs sv :=
  let* a := new_sv (PVMG (Object class (tk_to t) 0 (Some (parent, value_class)) false)) in
  let* h := new_sv (PVHV (Some class) (Some (SvRV a)) []) in
  xret (SvRV h).

(** The object that [obj] is, with its table. *)
Definition table_of (obj : addr) : xs (object * apr_table A) :=
  let* o := object_at obj in
  match tk_of (o_ptr o) with Some t => xret (o, t) | None => fault end.

(** The object that [obj] is, its table, and its ext magic. *)
Definition table_magic (obj : addr) : xs (object * apr_table A * addr * option bytes) :=
  let* (o, t) := table_of obj in
  match o_magic o with Some (parent, class) => xret (o, t, parent, class) | None => fault end.

(** The prefetched value of an element that is read while the iterator stands on an
    entry: [obj] is what the hash is tied to, [name] the key of the element. *)
Definition table_magic_copy (obj : addr) (name : bytes) : xs (option sv) :=
  let* (o, t) := table_of obj in
  let idx := o_cur o in
  if (0 <? idx) && (idx <=? length (apr_table_elts t)) then
    match o_magic o, apr_table_elts t !! (idx - 1) with
    | Some (parent, class), Some (_, val) => let* v := tk_2sv val class parent in xret (Some v)
    | _, _ => fault
    end
  else xret None.

(** ** Methods of tables ([APR__Request__Param.h], [APR__Request__Cookie.h]) *)

(** The sub gets the name and the value; [int rv = POPi]. *)
Definition table_do_sub (class : option bytes) (parent : addr) (sub : sv) (st : ended Z) (key : bytes)
    (val : A) : ended Z * bool :=
  match st with
  | Ret _ w =>
      let st :=
        (let* v := tk_2sv val class parent in
         let* l := call_sv sub [SvPV (tk_name val) false false; v] in
         xret (match l with [v] => int32 (SvIV_of v) | _ => 1%Z end)) w in
      (st, match st with Ret rv _ => negb (rv =? 0)%Z | _ => false end)
  | st => (st, false)
  end.

(** [apr_table_do] is 0 when a callback was. *)
Definition do_one (class : option bytes) (parent : addr) (sub : sv) (t : apr_table A) (key : option bytes)
  : xs Z := fun w =>
  xbind (fun w => apr_table_do (table_do_sub class parent sub) (Ret 1%Z w) t key)
    (fun rv => xret (if (rv =? 0)%Z then 0%Z else 1%Z)) w.

Fixpoint do_keys (class : option bytes) (parent : addr) (sub : sv) (t : apr_table A) (rv : Z)
    (keys : list sv) : xs Z :=
  match keys with
  | [] => xret rv
  | key :: keys =>
      let* rv := do_one class parent sub t (Some (cstr (SvPV_nolen key))) in
      if (rv =? 0)%Z then xret rv else do_keys class parent sub t rv keys
  end.

Definition table_do (args : list sv) : xs (list sv) :=
  match args with
  | SvRV s :: SvRV f :: keys =>
      let* t_obj := apreq_xs_sv2object (SvRV s) tk_class "t" in
      let* (_, t, parent, class) := table_magic t_obj in
      let* rv := match keys with
            | [] => do_one class parent (SvRV f) t None
            | keys => do_keys class parent (SvRV f) t 1 keys
            end in
      xret [SvIV rv]
  | _ => croak (Usage (str "$object->do(\&callback, @keys)"))
  end.

Definition table_FETCH (gimme : context) (args : list sv) : xs (list sv) := fun w =>
  let usage := croak (Usage (tk_class ++ str "::FETCH($table, $key)")) w in
  match args with
  | [SvRV s as table; key] =>
      if negb (sv_derived_from w table tk_class) then usage
      else
        (let* t_obj := apreq_xs_sv2object table tk_class "t" in
         let* (o, t, parent, class) := table_magic t_obj in
         match gimme with
         | G_SCALAR =>
             let key := cstr (SvPV_nolen key) in
             let idx := o_cur o in
             let val :=
               match apr_table_elts t !! (idx - 1) with
               | Some (k, val) =>
                   if (0 <? idx) && strcaseeq key k then Some val else apr_table_get t key
               | None => apr_table_get t key
               end in
             match val with
             | Some val => let* v := tk_2sv val class parent in xret [v]
             | None => xret [SvUndef]
             end
         | G_ARRAY => push_values class parent t (SvPV_nolen key)
         | G_VOID => xret []
         end) w
  | _ => usage
  end.

Definition set_cur (n : nat) (o : object) : referent :=
  PVMG (Object (o_class o) (o_ptr o) n (o_magic o) (o_tainted o)).

(** [items == 1] is the call for the first key. *)
Definition next_key (obj : addr) (first : bool) : xs (list sv) :=
  let* (o, t) := table_of obj in
  let cur := if first then 0 else o_cur o in
  match apr_table_elts t !! cur with
  | None => let* _ := store obj (set_cur 0 o) in xret [SvUndef]
  | Some (key, _) => let* _ := store obj (set_cur (Datatypes.S cur) o) in xret [SvPV key false false]
  end.

End Kind.

Definition apreq_xs_param_table_magic_copy := table_magic_copy (K := param_kind).
Definition apreq_xs_cookie_table_magic_copy := table_magic_copy (K := cookie_kind).
Definition apreq_xs_param_table2sv := table2sv (K := param_kind).
Definition apreq_xs_cookie_table2sv := table2sv (K := cookie_kind).
Definition apreq_xs_param_table_keys := table_keys (K := param_kind).
Definition apreq_xs_cookie_table_keys := table_keys (K := cookie_kind).
Definition apreq_xs_param_table_values := table_values (K := param_kind).
Definition apreq_xs_cookie_table_values := table_values (K := cookie_kind).
Definition apreq_xs_param_table_do_sub := table_do_sub (K := param_kind).
Definition apreq_xs_cookie_table_do_sub := table_do_sub (K := cookie_kind).
Definition apreq_xs_param_table_do := table_do (K := param_kind).
Definition apreq_xs_cookie_table_do := table_do (K := cookie_kind).
Definition apreq_xs_param_table_FETCH := table_FETCH (K := param_kind).
Definition apreq_xs_cookie_table_FETCH := table_FETCH (K := cookie_kind).

Definition apreq_xs_param_table_NEXTKEY (args : list sv) : xs (list sv) := fun w =>
  match args with
  | [] => Faults
  | table :: rest =>
      if negb (SvROK table && sv_derived_from w table PARAM_TABLE_CLASS)
      then croak (Usage (PARAM_TABLE_CLASS ++ str "::NEXTKEY($table, $key)")) w
      else (let* obj := apreq_xs_sv2object table PARAM_TABLE_CLASS "t" in
            next_key (K := param_kind) obj (bool_decide (rest = []))) w
  end.

Definition apreq_xs_cookie_table_NEXTKEY (args : list sv) : xs (list sv) :=
  match args with
  | [] => fault
  | table :: rest =>
      if negb (SvROK table) then croak (Usage (str "$table->NEXTKEY($prev)"))
      else let* obj := apreq_xs_sv2object table COOKIE_TABLE_CLASS "t" in
           next_key (K := cookie_kind) obj (bool_decide (rest = []))
  end.

(** ** Methods of requests ([APR__Request.h]) *)

(** A method is called on [ST(0)], with a name or without; [get] and [table] are the
    functions of the library behind it. *)
Section Method.
Context {A : Type} {K : TableKind A}.
Context (get : S -> option bytes -> presult (option A * S)) (tab : S -> presult (Z * option (apr_table A) * S)).

(** What follows the checks of the arguments. *)
Definition get_table (func : bytes) (v : sv) (obj : addr) : xs (option (apr_table A)) :=
  let* (s, t) := call tab in
  let* _ := (if apreq_module_status_is_error s then APREQ_XS_THROW_ERROR "r" s func ERROR_CLASS v obj else xret tt) in
  xret t.

Definition method_answer (gimme : context) (func : bytes) (v : sv) (obj : addr) (name : option sv)
  : xs (list sv) :=
  match name, gimme with
  | Some name, G_SCALAR =>
      let* c := call (fun req => get req (Some (cstr (SvPV_nolen name)))) in
      match c with
      | Some c => let* v := tk_2sv c None obj in xret [v]
      | None => let* _ := get_table func v obj in xret [SvUndef]
      end
  | _, _ =>
      let* t := get_table func v obj in
      match t with
      | None => xret []
      | Some t =>
          match gimme with
          | G_ARRAY =>
              match name with
              | None => push_keys t
              | Some name => push_values None obj t (SvPV_nolen name)
              end
          | G_SCALAR => let* v := table2sv t tk_class obj None in xret [v]
          | G_VOID => xret []
          end
      end
  end.

End Method.

(** The checks: a request, and at most one name. *)
Definition with_request (usage : bytes) (args : list sv) (f : sv -> addr -> option sv -> xs (list sv))
  : xs (list sv) := fun w =>
  let run v name :=
    if negb (SvROK v && sv_derived_from w v HANDLE_CLASS) then croak (Usage usage) w
    else (let* obj := apreq_xs_sv2object v HANDLE_CLASS "r" in
          let* o := object_at obj in
          match o_ptr o with PtrHandle => f v obj name | _ => fault end) w in
  match args with
  | [v] => run v None
  | [v; name] => run v (Some name)
  | _ => croak (Usage usage) w
  end.

Definition apreq_xs_jar (gimme : context) (args : list sv) : xs (list sv) :=
  with_request (str "APR::Request::jar($req [,$name])") args
    (method_answer apreq_jar_get apreq_jar gimme (str "APR::Request::jar")).

Definition apreq_xs_args (gimme : context) (args : list sv) : xs (list sv) :=
  with_request (str "APR::Request::args($req [,$name])") args
    (method_answer apreq_args_get apreq_args gimme (str "APR::Request::args")).

Definition apreq_xs_body (gimme : context) (args : list sv) : xs (list sv) :=
  with_request (str "APR::Request::body($req [,$name])") args
    (method_answer apreq_body_get apreq_body gimme (str "APR::Request::body")).

(** The entries of a table, when there is one: names, or the values of a name. *)
Definition push_entries (obj : addr) (name : option sv) (t : option (apr_table apreq_param_t))
  : xs (list sv) :=
  match t, name with
  | None, _ => xret []
  | Some t, None => push_keys t
  | Some t, Some name => push_values None obj t (SvPV_nolen name)
  end.

(** The statuses of the query string and of the body are not looked at. *)
Definition apreq_xs_param (gimme : context) (args : list sv) : xs (list sv) :=
  with_request (str "APR::Request::param($req [,$name])") args (fun v obj name =>
    match name, gimme with
    | Some name, G_SCALAR =>
        let* p := call (fun req => apreq_param req (Some (cstr (SvPV_nolen name)))) in
        match p with
        | Some p => let* v := apreq_xs_param2sv p None obj in xret [v]
        | None => xret [SvUndef]
        end
    | _, G_ARRAY =>
        let* (_, t) := call apreq_args in
        let* l := push_entries obj name t in
        let* (_, t) := call apreq_body in
        let* l' := push_entries obj name t in
        xret (l ++ l')
    | _, G_SCALAR =>
        let* t := call apreq_params in
        match t with
        | None => xret [SvUndef]
        | Some t => let* v := table2sv t PARAM_TABLE_CLASS obj None in xret [v]
        end
    | _, G_VOID => xret []
    end).

Definition apreq_xs_parse (args : list sv) : xs (list sv) :=
  match args with
  | [SvRV s] =>
      let* _ := apreq_xs_sv2handle (SvRV s) in
      let* (s1, _) := call apreq_jar in
      let* (s2, _) := call apreq_args in
      let* (s3, _) := call apreq_body in
      xret [apreq_xs_error2sv s1; apreq_xs_error2sv s2; apreq_xs_error2sv s3]
  | _ => croak (Usage (str "APR::Request::parse($req)"))
  end.

(** ** The hook for uploads *)

(** [hook_ctx_t]: the buffer is a string, or undef at the end of an upload. *)
Record perl_hook := PerlHook { ph_hook : sv; ph_bucket_data : sv; ph_parent : addr }.

(** [G_EVAL]: a sub that dies leaves its reason in [ERRSV], and the upload stops. *)
Definition eval_upload_hook (upload : apreq_param_t) (ctx : perl_hook) : xs Z := fun w =>
  let len := match ph_bucket_data ctx with SvPV d _ _ => Z.of_nat (length d) | _ => 0%Z end in
  match apreq_xs_param2sv upload (Some PARAM_CLASS) (ph_parent ctx) w with
  | Ret v w =>
      match call_sv (ph_hook ctx) [v; ph_bucket_data ctx; SvIV len] w with
      | Ret _ w => Ret APR_SUCCESS w
      | Croaks _ w | Throws _ w => Ret APREQ_ERROR_GENERAL w
      | Faults => Faults
      | Forever => Forever
      end
  | Croaks m w => Croaks m w
  | Throws e w => Throws e w
  | Faults => Faults
  | Forever => Forever
  end.

(** The loop over the buckets: the status when it returns from within; the buffer is
    tainted since it was made. *)
Fixpoint upload_hook_loop (ctx : perl_hook) (upload : apreq_param_t) (bb : brigade) : xs (option Z) :=
  match bb with
  | [] => xret None
  | e :: bb =>
      if bucket_is_eos e then
        let* s := eval_upload_hook upload (PerlHook (ph_hook ctx) SvUndef (ph_parent ctx)) in
        xret (if (s =? APR_SUCCESS)%Z then None else Some s)
      else
        let '(s, data) := apr_bucket_read e in
        if negb (s =? APR_SUCCESS)%Z then upload_hook_loop ctx upload bb
        else
          let* s := eval_upload_hook upload (PerlHook (ph_hook ctx) (SvPV data true false) (ph_parent ctx)) in
          if (s =? APR_SUCCESS)%Z then upload_hook_loop ctx upload bb else xret (Some s)
  end.

(** [next]: the hooks behind this one. *)
Definition apreq_xs_upload_hook (ctx : perl_hook) (next : list (apreq_hook_t (X := X)))
    (upload : apreq_param_t) (bb : option brigade)
  : xs (Z * list (apreq_hook_t (X := X)) * apreq_param_t * option brigade) :=
  match bb with
  | None => xret (apreq_hook_run next upload None)
  | Some buckets =>
      let* s := upload_hook_loop ctx upload buckets in
      match s with
      | Some s => xret (s, next, upload, bb)
      | None => xret (apreq_hook_run next upload bb)
      end
  end.

(** What the overloading of Perl asks for: the methods do nothing. *)
Definition XS_APR__Request__Param_nil (args : list sv) : xs (list sv) := xret [].
Definition XS_APR__Request__Cookie_nil (args : list sv) : xs (list sv) := xret [].

(** ** Brigades ([APR__Request__Param.h]) *)

(** A value that is no reference is taken for the object itself. *)
Fixpoint find_bb_loop (fuel : nat) (v : sv) : xs addr := fun w =>
  match v with
  | SvRV a =>
      match i_heap w !! a with
      | Some (PVIO _ (Some obj)) =>
          match fuel with
          | O => Forever
          | Datatypes.S fuel => find_bb_loop fuel obj w
          end
      | Some (PVIO _ None) => Croaks NoTiedScalar w
      | Some (PVMG _) => Ret a w
      | Some _ => Croaks (UnsupportedType a) w
      | None => Faults
      end
  | _ => Faults
  end.

Definition apreq_xs_find_bb_obj (v : sv) : xs addr := fun w => find_bb_loop (length (i_heap w)) v w.

(** The object behind a brigade of Perl, with its brigade. *)
Definition brigade_of (v : sv) : xs (addr * object * brigade) :=
  let* obj := apreq_xs_find_bb_obj v in
  let* o := object_at obj in
  match o_ptr o with PtrBrigade bb => xret (obj, o, bb) | _ => fault end.

Definition set_brigade (bb : brigade) (o : object) : referent :=
  PVMG (Object (o_class o) (PtrBrigade bb) (o_cur o) (o_magic o) (o_tainted o)).

Definition SvPOK (v : sv) : bool := match v with SvPV _ _ _ | SvError _ _ => true | _ => false end.

Definition apreq_xs_brigade_copy (args : list sv) : xs (list sv) :=
  match args with
  | [class; SvRV s] =>
      if negb (SvPOK class) then croak (Usage (str "APR::Request::Brigade->new($bb)"))
      else
        let* (_, o, bb) := brigade_of (SvRV s) in
        let* a := new_sv (PVMG (Object (SvPV_nolen class) (PtrBrigade (apreq_brigade_copy [] bb)) 0 None
                             (o_tainted o))) in
        xret [SvRV a]
  | _ => croak (Usage (str "APR::Request::Brigade->new($bb)"))
  end.

(** [SvCUR_set(sv, offset)]: the string now ends at the offset, be it within the memory
    it has or not. *)
Definition SvCUR_set (buf : addr) (offset : Z) : xs unit :=
  let* r := heap_at buf in
  match r with
  | Some (PVBuf d room t) =>
      if (0 <=? offset)%Z && (offset <=? Z.of_nat (length (d ++ room)))%Z
      then let n := Z.to_nat offset in store buf (PVBuf (take n (d ++ room)) (drop n (d ++ room)) t)
      else fault
  | _ => fault
  end.

(** [SvGROW]: the memory reaches to [n] bytes; [hole] is what new memory holds. *)
Definition grown (hole : nat -> Byte.byte) (mem : bytes) (n : nat) : bytes :=
  mem ++ map hole (seq (length mem) (n - length mem)).

(** The buckets before [end] are copied and deleted, until one cannot be read. *)
Fixpoint copy_out (n : nat) (bb : brigade) (out : bytes) : brigade * bytes * Z :=
  match n, bb with
  | Datatypes.S n, e :: bb' =>
      let '(s, data) := apr_bucket_read e in
      if (s =? APR_SUCCESS)%Z then copy_out n bb' (out ++ data) else (bb, out, s)
  | _, _ => (bb, out, APR_SUCCESS)
  end.

Section Reads.
Context {AP : AprPartition} (hole : nat -> Byte.byte).

Definition read_fails {B} (s : Z) : xs B :=
  apreq_xs_croak [] s (str "APR::Request::Brigade::READ") (str "APR::Error").

(** The brigade with its end marked, and how many bytes there are before it: the first
    bucket, or [want] bytes as far as there are as many.  APR answers a negative length
    with [APR_EINVAL]. *)
Definition read_extent (obj : addr) (o : object) (bb : brigade) (want : Z) : xs (brigade * nat * nat) :=
  if (want =? -1)%Z then
    match bb with
    | e :: _ =>
        let '(s, data) := apr_bucket_read e in
        if (s =? APR_SUCCESS)%Z then xret (bb, 1, length data) else read_fails s
    | [] => fault
    end
  else if (want <? 0)%Z then read_fails APR_EINVAL
  else
    let '(s, bb, n) := apr_brigade_partition bb (Z.to_nat want) in
    let* _ := store obj (set_brigade bb o) in
    if (s =? APR_INCOMPLETE)%Z then
      let '(s, len) := brigade_length bb in
      if (s =? APR_SUCCESS)%Z then xret (bb, n, len) else read_fails s
    else if (s =? APR_SUCCESS)%Z then xret (bb, n, Z.to_nat want)
    else read_fails s.

(** [buf] is the variable that is passed; an offset before its string is not looked
    at, and the data is written there. *)
Definition apreq_xs_brigade_read (self : sv) (buf : addr) (want offset : option sv) : xs (list sv) :=
  let want := from_option SvIV_of (-1)%Z want in
  let offset := from_option SvIV_of 0%Z offset in
  if negb (SvROK self) then croak (Usage (str "$bb->READ($buf,$len,$off)"))
  else
    let* (obj, o, bb) := brigade_of self in
    if (want =? 0)%Z then let* _ := SvCUR_set buf offset in xret [SvIV 0]
    else if bool_decide (bb = []) then let* _ := SvCUR_set buf offset in xret [SvUndef]
    else
      let* (bb, n, want) := read_extent obj o bb want in
      let* r := heap_at buf in
      match r with
      | Some (PVBuf d room t) =>
          if (offset <? 0)%Z then fault
          else
            let off := Z.to_nat offset in
            let mem := grown hole (d ++ room) (want + off + 1) in
            let '(bb, data, s) := copy_out n bb [] in
            let written := take off mem ++ data in
            let mem :=
              if (s =? APR_SUCCESS)%Z
              then written ++ [x00] ++ drop (length written + 1) mem
              else written ++ drop (length written) mem in
            let* _ := store obj (set_brigade bb o) in
            let* _ := store buf (PVBuf (take (want + off) mem) (drop (want + off) mem) (t || o_tainted o)) in
            if (s =? APR_SUCCESS)%Z then xret [SvIV (Z.of_nat want)] else read_fails s
      | _ => fault
      end.

End Reads.

(** The lines that were read, the brigade that is left, and the status. *)
Fixpoint readline_loop (fuel : nat) (gimme : context) (lines : list bytes) (line : bytes) (bb : brigade)
  : option (list bytes * brigade * Z) :=
  match bb with
  | [] => Some (lines ++ [line], [], APR_SUCCESS)
  | e :: rest =>
      match fuel with
      | O => None
      | Datatypes.S fuel =>
          let '(s, data) := apr_bucket_read e in
          if negb (s =? APR_SUCCESS)%Z then Some (lines ++ [line], bb, s)
          else
            match memchr data x0a with
            | Some k =>
                let '(data, rest) :=
                  if Datatypes.S k <? length data
                  then (take (Datatypes.S k) data, (apr_bucket_split e (Datatypes.S k)).2 :: rest)
                  else (data, rest) in
                let line := line ++ data in
                if negb (bool_decide (gimme = G_ARRAY)) || bool_decide (rest = [])
                then Some (lines ++ [line], rest, APR_SUCCESS)
                else readline_loop fuel gimme (lines ++ [line]) [] rest
            | None => readline_loop fuel gimme lines (line ++ data) rest
            end
      end
  end.

(** A turn deletes a bucket, or bytes of one. *)
Definition readline_fuel (bb : brigade) : nat := length bb + length (brigade_data bb).

Definition apreq_xs_brigade_readline (gimme : context) (args : list sv) : xs (list sv) :=
  match args with
  | [SvRV s] =>
      let* (obj, o, bb) := brigade_of (SvRV s) in
      if bool_decide (bb = []) then xret []
      else
        match readline_loop (readline_fuel bb) gimme [] [] bb with
        | None => fun _ => Forever
        | Some (lines, bb, s) =>
            let* _ := store obj (set_brigade bb o) in
            if (s =? APR_SUCCESS)%Z then xret (map (fun l => SvPV l (o_tainted o) false) lines)
            else apreq_xs_croak [] s (str "APR::Request::Brigade::READLINE") (str "APR::Error")
        end
  | _ => croak (Usage (str "$bb->READLINE"))
  end.

(** ** The search for an object *)

(** The hashes a search visits before it ends. *)
Inductive visits (key : Byte.byte) (h : list referent) : sv -> list addr -> Prop :=
  | visits_end v : (forall v', find_step key h v <> NextIn v') -> visits key h v []
  | visits_next a v l : find_step key h (SvRV a) = NextIn v -> visits key h v l ->
      visits key h (SvRV a) (a :: l).

Lemma visits_unique key h v l l' : visits key h v l -> visits key h v l' -> l = l'.
Proof.
  intros Hl. revert l'. induction Hl as [v Hend|a v l Hs Hl IH]; intros l' Hl'; inversion Hl'; subst.
  - done.
  - by edestruct Hend.
  - edestruct H0; eauto.
  - f_equal. apply IH. congruence.
Qed.

Lemma visits_later key h v l a : visits key h v l -> a ∈ l ->
  exists l', visits key h (SvRV a) l' /\ length l' <= length l.
Proof.
  intros Hl. induction Hl as [v Hend|b v l Hs Hl IH]; [by intros ?%not_elem_of_nil|].
  rewrite elem_of_cons. intros [->|Ha].
  - exists (b :: l). split; [by econstructor|done].
  - destruct (IH Ha) as (l' & Hl' & Hlen). exists l'. split; [done|cbn; lia].
Qed.

(** No hash is visited twice, and all of them are in the heap. *)
Lemma visits_bound key h v l : visits key h v l -> length l <= length h.
Proof.
  intros Hl.
  assert (Hin : forall a, a ∈ l -> a < length h).
  { induction Hl as [v Hend|b v l Hs Hl IH]; intros a; [by intros ?%not_elem_of_nil|].
    rewrite elem_of_cons. intros [->|Ha]; [|by apply IH].
    cbn in Hs. apply lookup_lt_is_Some_1. destruct (h !! b); [by eexists|done]. }
  assert (Hnd : NoDup l).
  { clear Hin. induction Hl as [v Hend|b v l Hs Hl IH]; [constructor|constructor; [|done]].
    intros Hb. destruct (visits_later _ _ _ _ _ Hl Hb) as (l' & Hl' & Hlen).
    assert (Heq : b :: l = l') by (eapply visits_unique; [by econstructor|done]).
    subst l'. cbn in Hlen. lia. }
  rewrite <- (length_seq (length h) 0). apply NoDup_incl_length; [by apply NoDup_ListNoDup|].
  intros a Ha. apply in_seq. apply list_elem_of_In, Hin in Ha. lia.
Qed.

Lemma find_loop_visits fuel key v w : find_loop fuel key v w <> Forever ->
  exists l, visits key (i_heap w) v l /\ length l <= fuel.
Proof.
  revert v. induction fuel as [|fuel IH]; intros v; cbn [find_loop];
    destruct (find_step key (i_heap w) v) as [a|v'|m|] eqn:Es; intros Hr; try done.
  all: try (exists []; split; [constructor; intros v'; by rewrite Es|cbn; lia]).
  destruct (IH v' Hr) as (l & Hl & Hlen).
  destruct v as [| | | |a]; try done. exists (a :: l). split; [by econstructor|cbn; lia].
Qed.

Lemma find_loop_enough fuel fuel' key v w l : visits key (i_heap w) v l ->
  length l <= fuel -> length l <= fuel' -> find_loop fuel key v w = find_loop fuel' key v w.
Proof.
  intros Hl. revert fuel fuel'.
  induction Hl as [v Hend|a v l Hs Hl IH]; intros [|fuel] [|fuel'] H1 H2; cbn [length] in *; try lia;
    cbn [find_loop].
  1-4: destruct (find_step key (i_heap w) v) eqn:Es; first [done|by edestruct Hend].
  rewrite Hs. apply IH; lia.
Qed.

(** The search for an object that ends with any number of turns ends with the ones it is
    given; else it never ends. *)
Lemma find_obj_or_never key v w fuel :
  find_loop fuel key v w <> Forever -> apreq_xs_find_obj v key w = find_loop fuel key v w.
Proof.
  intros Hr. destruct (find_loop_visits _ _ _ _ Hr) as (l & Hl & Hlen).
  unfold apreq_xs_find_obj. eapply find_loop_enough; [done|by eapply visits_bound|done].
Qed.

(** ** Iterating over a table *)

Section Iteration.
Context {A : Type} {K : TableKind A}.

(** [each]: Perl asks for the next key and then for the element of the key, which is
    prefetched. *)
Definition each_entry (obj : addr) (first : bool) : xs (option (sv * sv)) :=
  let* k := next_key (A := A) obj first in
  match k with
  | [SvPV key _ _ as k] =>
      let* v := table_magic_copy (A := A) obj key in
      xret ((fun v => (k, v)) <$> v)
  | _ => xret None
  end.

(** [while (my ($k, $v) = each %$t)]. *)
Fixpoint each_loop (fuel : nat) (obj : addr) (first : bool) : xs (list (sv * sv)) :=
  match fuel with
  | O => fun _ => Forever
  | Datatypes.S fuel =>
      let* e := each_entry obj first in
      match e with
      | None => xret []
      | Some e => let* l := each_loop fuel obj false in xret (e :: l)
      end
  end.

(** [obj] is the object [o], which holds the table [t]. *)
Definition holds (w : interp) (obj : addr) (o : object) (t : apr_table A) : Prop :=
  i_heap w !! obj = Some (PVMG o) /\ tk_of (o_ptr o) = Some t.

Definition at_cur (n : nat) (obj : addr) (o : object) (w : interp) : interp :=
  set_heap (<[obj := set_cur n o]> (i_heap w)) w.

Lemma table_of_holds w obj o t : holds w obj o t -> table_of (A := A) obj w = Ret (o, t) w.
Proof. intros [Ho Ht]. unfold table_of, object_at, heap_at, xbind, xret. by rewrite Ho, Ht. Qed.

(** The object with its iterator on the [n]th entry. *)
Definition obj_at (n : nat) (o : object) : object :=
  Object (o_class o) (o_ptr o) n (o_magic o) (o_tainted o).

Lemma at_cur_holds w obj o t n : holds w obj o t -> holds (at_cur n obj o w) obj (obj_at n o) t.
Proof.
  intros [Ho Ht]. split; [|done]. cbn. apply list_lookup_insert_eq. by eapply lookup_lt_Some.
Qed.

Lemma at_cur_twice w obj o m n : at_cur m obj (obj_at n o) (at_cur n obj o w) = at_cur m obj o w.
Proof. unfold at_cur, set_heap, set_cur. cbn. by rewrite list_insert_insert_eq. Qed.

(** The next entry, whatever element is asked for. *)
Lemma next_key_entry w obj o t (first : bool) k a :
  holds w obj o t -> apr_table_elts t !! (if first then 0 else o_cur o) = Some (k, a) ->
  next_key (A := A) obj first w =
    Ret [SvPV k false false] (at_cur (Datatypes.S (if first then 0 else o_cur o)) obj o w).
Proof.
  intros Hh Hk. unfold next_key, xbind. rewrite (table_of_holds _ _ _ _ Hh). by rewrite Hk.
Qed.

Lemma next_key_end w obj o t (first : bool) :
  holds w obj o t -> apr_table_elts t !! (if first then 0 else o_cur o) = None ->
  next_key (A := A) obj first w = Ret [SvUndef] (at_cur 0 obj o w).
Proof.
  intros Hh Hk. unfold next_key, xbind. rewrite (table_of_holds _ _ _ _ Hh). by rewrite Hk.
Qed.

Lemma magic_copy_current w obj o t n k a parent class name :
  holds w obj o t -> o_cur o = Datatypes.S n -> apr_table_elts t !! n = Some (k, a) ->
  o_magic o = Some (parent, class) ->
  table_magic_copy (A := A) obj name w = xbind (tk_2sv (A := A) a class parent) (fun v => xret (Some v)) w.
Proof.
  intros Hh Hc Hn Hm. unfold table_magic_copy, xbind at 1. rewrite (table_of_holds _ _ _ _ Hh).
  rewrite Hc, Hm. replace (Datatypes.S n - 1) with n by lia. rewrite Hn.
  assert (Hlt : n < length (apr_table_elts t)) by (by eapply lookup_lt_Some).
  by rewrite (proj2 (Nat.leb_le (Datatypes.S n) (length (apr_table_elts t))) Hlt).
Qed.

(** The value that is fetched by the key of the entry the iterator stands on is that of
    the entry, also when other entries have the key. *)
Lemma FETCH_current w s obj o t n k k' a parent class :
  sv_derived_from w (SvRV s) tk_class = true ->
  apreq_xs_sv2object (SvRV s) tk_class "t" w = Ret obj w ->
  holds w obj o t -> o_cur o = Datatypes.S n -> apr_table_elts t !! n = Some (k, a) ->
  o_magic o = Some (parent, class) -> strcaseeq (cstr (SvPV_nolen k')) k = true ->
  table_FETCH (A := A) G_SCALAR [SvRV s; k'] w =
    xbind (tk_2sv (A := A) a class parent) (fun v => xret [v]) w.
Proof.
  intros Hd Ho Hh Hc Hn Hm Hk. unfold table_FETCH. rewrite Hd. cbn [negb].
  unfold table_magic, xbind at 1 2 3. rewrite Ho, (table_of_holds _ _ _ _ Hh), Hm. cbn [xret].
  rewrite Hc. replace (Datatypes.S n - 1) with n by lia. by rewrite Hn, Hk.
Qed.

Lemma each_entry_some w obj o t (first : bool) k a parent :
  holds w obj o t -> o_magic o = Some (parent, None) ->
  apr_table_elts t !! (if first then 0 else o_cur o) = Some (k, a) ->
  each_entry obj first w =
    Ret (Some (SvPV k false false, tk_string a)) (at_cur (Datatypes.S (if first then 0 else o_cur o)) obj o w).
Proof.
  intros Hh Hm Hk. unfold each_entry, xbind at 1. rewrite (next_key_entry _ _ _ _ _ _ _ Hh Hk).
  unfold xbind. erewrite magic_copy_current; [|by apply at_cur_holds|done|done|exact Hm].
  unfold xbind. by rewrite tk_plain.
Qed.

Lemma each_loop_from fuel w obj o t parent (first : bool) :
  holds w obj o t -> o_magic o = Some (parent, None) ->
  let rest := drop (if first then 0 else o_cur o) (apr_table_elts t) in
  length rest < fuel ->
  each_loop fuel obj first w =
    Ret (map (fun e => (SvPV e.1 false false, tk_string e.2)) rest) (at_cur 0 obj o w).
Proof.
  cbn zeta. revert w o first. induction fuel as [|fuel IH]; intros w o first Hh Hm Hf; [lia|].
  cbn [each_loop]. destruct (apr_table_elts t !! (if first then 0 else o_cur o)) as [[k a]|] eqn:Ek.
  - unfold xbind at 1. rewrite (each_entry_some _ _ _ _ _ _ _ _ Hh Hm Ek).
    rewrite (drop_S _ _ _ Ek) in Hf |- *. cbn [length map fst snd] in *. unfold xbind at 1.
    rewrite (IH _ (obj_at (Datatypes.S (if first then 0 else o_cur o)) o)); [|by apply at_cur_holds|done|cbn [o_cur obj_at]; lia].
    cbn [o_cur obj_at]. by rewrite at_cur_twice.
  - unfold xbind at 1. unfold each_entry, xbind at 1. rewrite (next_key_end _ _ _ _ _ Hh Ek).
    rewrite drop_ge; [done|]. by apply lookup_ge_None.
Qed.

(** C36: a loop with [each] over a table of parameters or of cookies yields every entry
    once and in order, the name with the value of that very entry, also where several
    entries have the same name; it leaves the iterator at the start, wherever it was
    before, so that the next loop yields them all again. *)
Theorem each_yields_entries w obj o (t : apr_table A) parent :
  holds w obj o t -> o_magic o = Some (parent, None) ->
  each_loop (Datatypes.S (length (apr_table_elts t))) obj true w =
    Ret (map (fun e => (SvPV e.1 false false, tk_string e.2)) (apr_table_elts t)) (at_cur 0 obj o w).
Proof. intros Hh Hm. rewrite (each_loop_from _ _ _ _ _ _ true Hh Hm); [done|]. rewrite drop_0. lia. Qed.

(** *** The method [do] *)

Section Do.
Context (sub : sv) (parent : addr) (seen : interp -> list (sv * sv)) (rv : sv -> sv -> Z).
Context (sub_notes : forall n v w, exists w',
  call_sv sub [n; v] w = Ret [SvIV (rv n v)] w' /\ seen w' = seen w ++ [(n, v)]).

Definition entry_svs (e : bytes * A) : sv * sv := (SvPV (tk_name e.2) false false, tk_string e.2).
Definition goes_on (p : sv * sv) : bool := negb (int32 (rv p.1 p.2) =? 0)%Z.

(** The entries up to the first that the sub answers with 0. *)
Fixpoint visited (ps : list (sv * sv)) : list (sv * sv) :=
  match ps with
  | [] => []
  | p :: ps => if goes_on p then p :: visited ps else [p]
  end.

(** [do] calls the sub with the name and the value of each entry, or of those with the
    key, in order, until it answers 0, and says whether it never did. *)
Lemma do_visits t key w :
  let ps := map entry_svs (key_filter key (apr_table_elts t)) in
  exists w', do_one None parent sub t key w = Ret (if forallb goes_on ps then 1%Z else 0%Z) w' /\
    seen w' = seen w ++ visited ps.
Proof.
  cbn zeta. unfold do_one, xbind at 1. rewrite do_elts.
  assert (Hg : forall es r w, r <> 0%Z -> exists r' w',
    do_entries (table_do_sub None parent sub) (Ret r w) es = Ret r' w' /\
    (r' =? 0)%Z = negb (forallb goes_on (map entry_svs es)) /\
    seen w' = seen w ++ visited (map entry_svs es)).
  { induction es as [|[k a] es IH]; intros r w1 Hr; cbn [do_entries map forallb visited entry_svs fst snd].
    - exists r, w1. rewrite app_nil_r. split_and!; [done|by apply Z.eqb_neq|done].
    - destruct (sub_notes (SvPV (tk_name a) false false) (tk_string a) w1) as (w2 & Hc & Hs).
      assert (Hcb : table_do_sub None parent sub (Ret r w1) k a =
        (Ret (int32 (rv (SvPV (tk_name a) false false) (tk_string a))) w2,
         goes_on (entry_svs (k, a)))).
      { unfold table_do_sub, xbind, xret. rewrite tk_plain. unfold xret. by rewrite Hc, SvIV_int. }
      rewrite Hcb. unfold goes_on, entry_svs in *. cbn [fst snd] in *.
      destruct (int32 _ =? 0)%Z eqn:Ez; cbn [negb andb].
      + eexists _, w2. split_and!; [reflexivity|done|done].
      + apply Z.eqb_neq in Ez. destruct (IH _ w2 Ez) as (r' & w' & -> & Hr' & Hs').
        exists r', w'. split_and!; [done|done|]. by rewrite Hs', Hs, <- app_assoc. }
  destruct (Hg (key_filter key (apr_table_elts t)) 1%Z w ltac:(done)) as (r' & w' & -> & Hr & Hs).
  exists w'. unfold xret. rewrite Hr. split; [by destruct (forallb _ _)|done].
Qed.

End Do.
End Iteration.

(** ** Reading lines *)

(** The next line of a brigade, and what is left of it. *)
Fixpoint next_line (bb : brigade) : bytes * brigade :=
  match bb with
  | [] => ([], [])
  | e :: rest =>
      let data := (apr_bucket_read e).2 in
      match memchr data x0a with
      | Some k =>
          if Datatypes.S k <? length data
          then (take (Datatypes.S k) data, (apr_bucket_split e (Datatypes.S k)).2 :: rest)
          else (data, rest)
      | None => (data ++ (next_line rest).1, (next_line rest).2)
      end
  end.

(** A line feed, and only at the end. *)
Definition is_line (l : bytes) : Prop := exists body, l = body ++ [x0a] /\ memchr body x0a = None.

Lemma memchr_is_line d k : memchr d x0a = Some k -> is_line (take (Datatypes.S k) d).
Proof.
  intros Hk. pose proof (memchr_lt _ _ _ Hk) as Hlt. destruct (memchr_Some _ _ _ Hk) as (_ & Hd & Hn).
  exists (take k d). split; [by apply take_S_r|].
  destruct (memchr (take k d) x0a) as [j|] eqn:Ej; [|done]. exfalso.
  pose proof (memchr_lt _ _ _ Ej) as Hj. rewrite length_take in Hj.
  apply memchr_Some in Ej as (_ & Ej & _). rewrite lookup_take_lt in Ej by lia.
  by apply (Hn j); [lia|].
Qed.

Lemma next_line_spec bb : forallb readable bb = true ->
  let '(l, bb') := next_line bb in
  brigade_data bb = l ++ brigade_data bb' /\ forallb readable bb' = true /\
  (bb <> [] -> readline_fuel bb' < readline_fuel bb) /\
  (is_line l \/ bb' = [] /\ memchr l x0a = None).
Proof.
  unfold readline_fuel. induction bb as [|e bb IH]; intros Hr; [cbn; split_and!; first [done|by right]|].
  cbn [forallb] in Hr. rewrite andb_true_iff in Hr. destruct Hr as [He Hr].
  cbn [next_line]. rewrite brigade_data_cons, length_app. cbn [length].
  destruct (memchr _ x0a) as [k|] eqn:Ek.
  - pose proof (memchr_lt _ _ _ Ek) as Hk. pose proof (memchr_is_line _ _ Ek) as Hl.
    destruct (_ <? _) eqn:Elt.
    + apply Nat.ltb_lt in Elt. destruct (split_data e (Datatypes.S k)) as [_ D]; [lia|].
      destruct (split_readable e (Datatypes.S k) He) as [_ R].
      rewrite brigade_data_cons, D, length_app, length_drop. cbn [forallb length]. rewrite R, Hr.
      split_and!; [by rewrite app_assoc, take_drop|done|lia|by left].
    + apply Nat.ltb_ge in Elt. rewrite take_ge in Hl by lia.
      split_and!; [done..|lia|by left].
  - specialize (IH Hr). assert (Hn : bb = [] -> (next_line bb).2 = []) by (by intros ->).
    destruct (next_line bb) as [l bb']. destruct IH as (Hd & Hr' & Hf & Hl).
    cbn [fst snd]. split_and!; [by rewrite Hd, app_assoc|done| |].
    + intros _. destruct bb as [|e' bb]; [|specialize (Hf ltac:(done)); lia].
      assert (bb' = []) as ->; [|cbn; lia]. by destruct Hn.
    + rewrite memchr_app_None by done. destruct Hl as [(body & -> & Hb)|[-> Hl]].
      * left. exists ((apr_bucket_read e).2 ++ body). rewrite app_assoc, memchr_app_None by done.
        by rewrite Hb.
      * right. by rewrite Hl.
Qed.

(** The loop reads the next line, and in list context goes on with the rest. *)
Lemma loop_next fuel lines line bb gimme :
  forallb readable bb = true -> readline_fuel bb <= fuel ->
  let '(l, bb') := next_line bb in
  exists fuel', readline_fuel bb' <= fuel' /\
    readline_loop fuel gimme lines line bb =
      if negb (bool_decide (gimme = G_ARRAY)) || bool_decide (bb' = [])
      then Some (lines ++ [line ++ l], bb', APR_SUCCESS)
      else readline_loop fuel' gimme (lines ++ [line ++ l]) [] bb'.
Proof.
  revert lines line bb. induction fuel as [|fuel IH]; intros lines line [|e bb] Hr Hf; cbn [next_line].
  1, 3: exists 0; cbn; by rewrite app_nil_r, orb_true_r.
  { unfold readline_fuel in Hf. cbn in Hf. lia. }
  pose proof (next_line_spec (e :: bb) Hr) as Hspec. cbn [next_line] in Hspec.
  cbn [forallb] in Hr. rewrite andb_true_iff in Hr. destruct Hr as [He Hr].
  pose proof (readable_read e He) as Hs. cbn [readline_loop].
  destruct (apr_bucket_read e) as [s0 d] eqn:Ee. cbn [fst snd] in *. subst s0.
  rewrite Z.eqb_refl. cbn [negb].
  destruct (memchr d x0a) as [k|] eqn:Ek.
  - destruct (_ <? _).
    all: destruct Hspec as (_ & _ & Hlt & _); specialize (Hlt ltac:(done)); exists fuel; split; [lia|done].
  - specialize (IH lines (line ++ d) bb Hr). destruct (next_line bb) as [l bb'].
    destruct IH as (fuel' & Hf' & IH); [unfold readline_fuel in *; rewrite brigade_data_cons, length_app in Hf; cbn [length] in Hf; lia|].
    exists fuel'. split; [done|]. cbn [fst snd]. by rewrite app_assoc.
Qed.

(** The lines of a brigade, read one at a time until it is empty. *)
Inductive lines_of : brigade -> list bytes -> Prop :=
  | lines_last bb l : next_line bb = (l, []) -> lines_of bb [l]
  | lines_more bb l bb' ls : next_line bb = (l, bb') -> bb' <> [] -> lines_of bb' ls ->
      lines_of bb (l :: ls).

Lemma loop_lines fuel lines bb : forallb readable bb = true -> readline_fuel bb <= fuel ->
  bb <> [] -> exists ls, lines_of bb ls /\
    readline_loop fuel G_ARRAY lines [] bb = Some (lines ++ ls, [], APR_SUCCESS).
Proof.
  remember (readline_fuel bb) as n eqn:Hn. revert fuel lines bb Hn.
  induction n as [n IH] using lt_wf_ind. intros fuel lines bb -> Hr Hf Hne.
  pose proof (loop_next fuel lines [] bb G_ARRAY Hr Hf) as Hl. pose proof (next_line_spec bb Hr) as Hs.
  destruct (next_line bb) as [l bb'] eqn:En. destruct Hl as (fuel' & Hf' & ->).
  destruct Hs as (_ & Hr' & Hlt & _). specialize (Hlt Hne). cbn [app].
  destruct (decide (bb' = [])) as [->|Hb].
  - exists [l]. split; [by constructor|done].
  - rewrite (bool_decide_eq_false_2 (bb' = [])) by done.
    destruct (IH _ Hlt fuel' (lines ++ [l]) bb' eq_refl Hr' Hf' Hb) as (ls & Hls & ->).
    exists (l :: ls). split; [by econstructor|]. by rewrite <- app_assoc.
Qed.

Lemma lines_of_data bb ls : lines_of bb ls -> forallb readable bb = true ->
  concat ls = brigade_data bb /\
  exists init last, ls = init ++ [last] /\ Forall is_line init /\
    (is_line last \/ memchr last x0a = None).
Proof.
  induction 1 as [bb l En|bb l bb' ls En Hb _ IH]; intros Hr;
    pose proof (next_line_spec bb Hr) as Hs; rewrite En in Hs; destruct Hs as (Hd & Hr' & _ & Hl).
  - split; [by rewrite Hd|]. exists [], l. split_and!; [done|constructor|]. by destruct Hl as [|[_ ?]]; [left|right].
  - destruct (IH Hr') as (Hc & init & last & -> & Hi & Hla). split; [by rewrite Hd, <- Hc|].
    exists (l :: init), last. split_and!; [done| |done]. constructor; [by destruct Hl as [|[? _]]|done].
Qed.

(** The object of a brigade stays where it is when its brigade changes. *)
Lemma find_bb_kept fuel v w obj o o' : find_bb_loop fuel v w = Ret obj w ->
  i_heap w !! obj = Some (PVMG o) ->
  find_bb_loop fuel v (set_heap (<[obj := PVMG o']> (i_heap w)) w) =
    Ret obj (set_heap (<[obj := PVMG o']> (i_heap w)) w).
Proof.
  intros Hf Ho. revert v Hf. induction fuel as [|fuel IH]; intros [| | | |a]; cbn [find_bb_loop]; try done;
    cbn [i_heap set_heap]; destruct (decide (a = obj)) as [->|Hne].
  1, 3: rewrite Ho; intros _; by rewrite list_lookup_insert_eq by (by eapply lookup_lt_Some).
  all: rewrite list_lookup_insert_ne by done; destruct (i_heap w !! a) as [[? ? ?|? [?|]|?|? ? ?|?]|];
    try done; try (intros [= ->]; done).
  apply IH.
Qed.

Lemma brigade_of_at v w obj o bb : brigade_of v w = Ret (obj, o, bb) w ->
  i_heap w !! obj = Some (PVMG o).
Proof.
  unfold brigade_of, apreq_xs_find_bb_obj, object_at, heap_at, xbind, xret.
  destruct (find_bb_loop _ _ w) as [a w1|m w1|e w1| |]; try done.
  destruct (i_heap w1 !! a) as [[? ? ?|? ?|o1|? ? ?|?]|] eqn:Ea; try done.
  destruct (o_ptr o1); try done. by intros [= -> -> _ <-].
Qed.

Lemma brigade_of_store v w obj o bb bb' : brigade_of v w = Ret (obj, o, bb) w ->
  let w' := set_heap (<[obj := set_brigade bb' o]> (i_heap w)) w in
  exists o', brigade_of v w' = Ret (obj, o', bb') w' /\ o_tainted o' = o_tainted o.
Proof.
  unfold brigade_of, apreq_xs_find_bb_obj, object_at, heap_at, xbind, xret. cbn zeta.
  destruct (find_bb_loop _ _ w) as [a w1|m w1|e w1| |] eqn:Ef; try done.
  destruct (i_heap w1 !! a) as [[? ? ?|? ?|o1|? ? ?|?]|] eqn:Ea; try done.
  destruct (o_ptr o1) eqn:Ep; try done. intros [= -> -> <- ->].
  cbn [i_heap set_heap]. rewrite length_insert.
  unfold set_brigade. rewrite (find_bb_kept _ _ _ _ _ _ Ef Ea). cbn [i_heap set_heap].
  rewrite list_lookup_insert_eq by (by eapply lookup_lt_Some).
  eexists. split; [done|done].
Qed.

Definition put_brigade (obj : addr) (o : object) (bb : brigade) (w : interp) : interp :=
  set_heap (<[obj := set_brigade bb o]> (i_heap w)) w.

Lemma readline_scalar s w obj o bb : brigade_of (SvRV s) w = Ret (obj, o, bb) w ->
  forallb readable bb = true -> bb <> [] ->
  apreq_xs_brigade_readline G_SCALAR [SvRV s] w =
    Ret [SvPV (next_line bb).1 (o_tainted o) false] (put_brigade obj o (next_line bb).2 w).
Proof.
  intros Hb Hr Hne. unfold apreq_xs_brigade_readline, xbind at 1. rewrite Hb, bool_decide_eq_false_2 by done.
  pose proof (loop_next (readline_fuel bb) [] [] bb G_SCALAR Hr (le_n _)) as Hl.
  destruct (next_line bb) as [l bb']. destruct Hl as (fuel' & _ & ->). done.
Qed.

(** [READLINE] in scalar context, [n] times. *)
Fixpoint readlines (n : nat) (args : list sv) : xs (list (list sv)) :=
  match n with
  | O => xret []
  | Datatypes.S n =>
      let* l := apreq_xs_brigade_readline G_SCALAR args in let* ls := readlines n args in xret (l :: ls)
  end.

Lemma readlines_all s w obj o bb ls : brigade_of (SvRV s) w = Ret (obj, o, bb) w ->
  forallb readable bb = true -> bb <> [] -> lines_of bb ls ->
  exists w', readlines (Datatypes.S (length ls)) [SvRV s] w =
    Ret (map (fun l => [SvPV l (o_tainted o) false]) ls ++ [[]]) w'.
Proof.
  intros Hb Hr Hne Hls. revert w o Hb Hr Hne.
  induction Hls as [bb l En|bb l bb' ls En Hb' Hls IH]; intros w o Hb Hr Hne;
    cbn [readlines length]; unfold xbind at 1; rewrite (readline_scalar _ _ _ _ _ Hb Hr Hne), En; cbn [fst snd].
  - destruct (brigade_of_store _ _ _ _ _ [] Hb) as (o' & Hb2 & _). eexists.
    unfold xbind at 1 2. unfold apreq_xs_brigade_readline, xbind at 1.
    unfold put_brigade. rewrite Hb2. done.
  - destruct (brigade_of_store _ _ _ _ _ bb' Hb) as (o' & Hb2 & Ht).
    pose proof (next_line_spec bb Hr) as Hs. rewrite En in Hs. destruct Hs as (_ & Hr' & _).
    destruct (IH (put_brigade obj o bb' w) o' Hb2 Hr' Hb') as (w' & Hw). rewrite Ht in Hw.
    cbn [readlines length] in Hw. eexists. unfold xbind at 1. by rewrite Hw.
Qed.

(** C38: the lines of a brigade: asked in list context, [READLINE] gives strings that
    together are the data of the brigade, each with a line feed at its end and nowhere
    else, the last one perhaps without; asked in scalar context again and again it gives
    the same strings one after the other, and then nothing. *)
Theorem readline_lines s w obj o bb :
  brigade_of (SvRV s) w = Ret (obj, o, bb) w -> forallb readable bb = true -> bb <> [] ->
  exists ls,
    apreq_xs_brigade_readline G_ARRAY [SvRV s] w =
      Ret (map (fun l => SvPV l (o_tainted o) false) ls) (put_brigade obj o [] w) /\
    concat ls = brigade_data bb /\
    (exists init last, ls = init ++ [last] /\ Forall is_line init /\
       (is_line last \/ memchr last x0a = None)) /\
    exists w', readlines (Datatypes.S (length ls)) [SvRV s] w =
      Ret (map (fun l => [SvPV l (o_tainted o) false]) ls ++ [[]]) w'.
Proof.
  intros Hb Hr Hne. destruct (loop_lines _ [] bb Hr (le_n _) Hne) as (ls & Hls & Hl).
  destruct (lines_of_data _ _ Hls Hr) as [Hc Hi]. exists ls. split_and!; [|done..|by eapply readlines_all].
  unfold apreq_xs_brigade_readline, xbind at 1. by rewrite Hb, bool_decide_eq_false_2, Hl by done.
Qed.

(** ** Reading bytes *)

Section ReadFacts.
Context {AP : AprPartition} (hole : nat -> Byte.byte).

Lemma partition_same bb n s bb' e : apr_brigade_partition bb n = (s, bb', e) ->
  brigade_data bb' = brigade_data bb /\ (forallb readable bb = true -> forallb readable bb' = true).
Proof.
  intros Hp. destruct (partition_split _ _ _ _ _ Hp) as [_ [->|(a & b & k & c & -> & Hk & -> & _)]]; [done|].
  destruct (split_data b k) as [D1 D2]; [lia|]. split.
  - rewrite !brigade_data_app, !brigade_data_cons, D1, D2, (app_assoc (take k _)). by rewrite take_drop.
  - rewrite !forallb_app. cbn [forallb]. rewrite !andb_true_iff. intros (Ha & Hb & Hc).
    by destruct (split_readable b k Hb) as [-> ->].
Qed.

Lemma copy_out_readable n bb out : forallb readable bb = true ->
  copy_out n bb out = (drop n bb, out ++ brigade_data (take n bb), APR_SUCCESS).
Proof.
  revert bb out. induction n as [|n IH]; intros [|e bb] out Hr; cbn [copy_out take drop];
    rewrite ?app_nil_r; try done.
  cbn [forallb] in Hr. rewrite andb_true_iff in Hr. destruct Hr as [He Hr].
  apply readable_read in He. rewrite brigade_data_cons.
  destruct (apr_bucket_read e) as [s d]. cbn [fst snd] in *. subst s. rewrite Z.eqb_refl.
  by rewrite IH, app_assoc.
Qed.

(** Where the read ends: what is before the mark is what is given. *)
Lemma read_extent_spec obj o bb want w : forallb readable bb = true -> bb <> [] -> (0 < want)%Z ->
  exists bb' e n w',
    read_extent obj o bb want w = Ret (bb', e, n) w' /\
    w' = put_brigade obj o bb' w /\ forallb readable bb' = true /\
    n = Nat.min (Z.to_nat want) (length (brigade_data bb)) /\
    brigade_data (take e bb') = take n (brigade_data bb) /\
    brigade_data (drop e bb') = drop n (brigade_data bb).
Proof.
  intros Hr Hne Hw. unfold read_extent.
  rewrite (proj2 (Z.eqb_neq want (-1))) by lia. rewrite (proj2 (Z.ltb_ge want 0)) by lia.
  pose proof (partition_works bb (Z.to_nat want) Hr) as Hs.
  destruct (apr_brigade_partition bb (Z.to_nat want)) as [[s bb'] e] eqn:Ep. cbn [fst] in Hs.
  destruct (partition_same _ _ _ _ _ Ep) as [Hd Hr']. specialize (Hr' Hr).
  pose proof (take_drop e bb') as Htd. apply (f_equal brigade_data) in Htd.
  rewrite brigade_data_app, Hd in Htd. unfold xbind, store, put_brigade, xret.
  destruct Hs as [->| ->].
  - pose proof (partition_success _ _ _ _ Ep) as Hl.
    replace (APR_SUCCESS =? APR_INCOMPLETE)%Z with false by (symmetry; apply Z.eqb_neq; errno_lia).
    rewrite Z.eqb_refl. eexists bb', e, _, _. split; [reflexivity|].
    assert (Hn : Nat.min (Z.to_nat want) (length (brigade_data bb)) = Z.to_nat want)
      by (rewrite <- Htd, length_app; lia).
    rewrite Hn, <- Htd, <- Hl, take_app_length, drop_app_length. split_and!; done.
  - destruct (partition_incomplete _ _ _ _ Hr Ep) as [-> Hl]. rewrite Z.eqb_refl.
    rewrite brigade_length_readable by done. rewrite Z.eqb_refl. eexists bb', (length bb'), _, _.
    split; [reflexivity|]. rewrite Hd in Hl |- *.
    rewrite take_ge, drop_ge, Hd by lia. rewrite (take_ge (brigade_data bb)), (drop_ge (brigade_data bb)) by lia.
    split_and!; try done. lia.
Qed.

(** C39: [READ] of a number of bytes at an offset within the string of a variable: the
    string is what it was up to the offset and then the next bytes of the brigade, as
    many as were asked for or as there are, which is the number that is returned; the
    brigade keeps the rest, and what comes from a tainted brigade is tainted. *)
Theorem read_takes self w obj o bb buf d room t want offset :
  brigade_of self w = Ret (obj, o, bb) w -> SvROK self = true ->
  forallb readable bb = true -> bb <> [] -> i_heap w !! buf = Some (PVBuf d room t) ->
  (0 < want)%Z -> (0 <= offset <= Z.of_nat (length d))%Z ->
  exists bb' room' w',
    let n := Nat.min (Z.to_nat want) (length (brigade_data bb)) in
    apreq_xs_brigade_read hole self buf (Some (SvIV want)) (Some (SvIV offset)) w =
      Ret [SvIV (Z.of_nat n)] w' /\
    i_heap w' !! buf = Some (PVBuf (take (Z.to_nat offset) d ++ take n (brigade_data bb)) room'
                               (t || o_tainted o)) /\
    i_heap w' !! obj = Some (set_brigade bb' o) /\
    brigade_data bb' = drop n (brigade_data bb).
Proof.
  intros Hb Hrok Hr Hne Hbuf Hw Ho.
  destruct (read_extent_spec obj o bb want w Hr Hne Hw)
    as (bb1 & e & n & w1 & Hx & -> & Hr1 & Hn & Ht & Hd). rewrite <- Hn in *.
  pose proof (brigade_of_at _ _ _ _ _ Hb) as Hobj.
  assert (Hne' : obj <> buf) by congruence.
  assert (Hlen : length (take n (brigade_data bb)) = n) by (rewrite length_take; lia).
  unfold apreq_xs_brigade_read. rewrite Hrok. cbn [negb from_option]. rewrite !SvIV_int.
  unfold xbind at 1. rewrite Hb, (proj2 (Z.eqb_neq want 0)), bool_decide_eq_false_2 by first [done|lia].
  unfold xbind at 1. rewrite Hx. unfold heap_at, xbind at 1, put_brigade. cbn [i_heap set_heap].
  rewrite list_lookup_insert_ne, Hbuf, (proj2 (Z.ltb_ge offset 0)) by first [done|lia].
  rewrite copy_out_readable, Ht by done. rewrite Z.eqb_refl. cbn [app].
  set (off := Z.to_nat offset). set (mem := grown hole (d ++ room) (n + off + 1)).
  assert (Hm : take off mem = take off d).
  { unfold mem, grown. rewrite <- !app_assoc, take_app_le; [done|]. unfold off. lia. }
  assert (Hoff : length (take off d) = off) by (rewrite length_take; unfold off; lia).
  rewrite Hm. set (written := take off d ++ take n (brigade_data bb)).
  assert (Hwl : length written = n + off) by (unfold written; rewrite length_app, Hlen, Hoff; lia).
  unfold xbind, store, xret. cbn [i_heap set_heap]. eexists (drop e bb1), _, _. split; [reflexivity|].
  cbn [i_heap set_heap]. rewrite list_insert_insert_eq.
  split_and!; [| |done].
  - rewrite list_lookup_insert_eq by (rewrite length_insert; by eapply lookup_lt_Some).
    rewrite take_app_length' by done. done.
  - rewrite list_lookup_insert_ne by done. by rewrite list_lookup_insert_eq by (by eapply lookup_lt_Some).
Qed.

End ReadFacts.

(** ** The hook for uploads *)

(** What the sub is given after the upload itself: a string and its length for every
    bucket that can be read, undef at the end. *)
Fixpoint hook_pieces (bb : brigade) : list (sv * Z) :=
  match bb with
  | [] => []
  | e :: bb =>
      if bucket_is_eos e then [(SvUndef, 0%Z)]
      else
        let '(s, data) := apr_bucket_read e in
        if (s =? APR_SUCCESS)%Z then (SvPV data true false, Z.of_nat (length data)) :: hook_pieces bb
        else hook_pieces bb
  end.

Section Upload.
Context (upload : apreq_param_t) (next : list (apreq_hook_t (X := X))) (ctx : perl_hook).
(** [seen]: what the sub has noted of the pieces it was given with the upload. *)
Context (seen : interp -> list (sv * Z)).
Context (seen_heap : forall h w, seen (set_heap h w) = seen w).
Context (sub_notes : forall a o d n w, i_heap w !! a = Some (PVMG o) -> o_ptr o = PtrParam upload ->
  exists l w', call_sv (ph_hook ctx) [SvRV a; d; SvIV n] w = Ret l w' /\ seen w' = seen w ++ [(d, n)]).

Lemma eval_notes d w :
  let n := match d with SvPV d _ _ => Z.of_nat (length d) | _ => 0%Z end in
  exists w', eval_upload_hook upload (PerlHook (ph_hook ctx) d (ph_parent ctx)) w = Ret APR_SUCCESS w' /\
    seen w' = seen w ++ [(d, n)].
Proof.
  cbn zeta. unfold eval_upload_hook, apreq_xs_param2sv, apreq_xs_object2sv, new_sv, xbind, xret.
  rewrite isa_refl. cbn [ph_bucket_data ph_hook ph_parent].
  match goal with |- context [call_sv _ [_; _; SvIV ?n] ?w1] =>
    destruct (sub_notes (length (i_heap w)) (Object PARAM_CLASS (PtrParam upload) 0
      (Some (ph_parent ctx, None)) false) d n w1) as (l & w' & -> & Hs) end; [|done|].
  - cbn. by rewrite list_lookup_middle.
  - eexists. split; [done|]. by rewrite Hs, seen_heap.
Qed.

Lemma hook_loop_notes bb w : exists w',
  upload_hook_loop ctx upload bb w = Ret None w' /\ seen w' = seen w ++ hook_pieces bb.
Proof.
  revert w. induction bb as [|e bb IH]; intros w; cbn [upload_hook_loop hook_pieces].
  - exists w. by rewrite app_nil_r.
  - destruct (bucket_is_eos e).
    + unfold xbind. destruct (eval_notes SvUndef w) as (w' & -> & Hs). rewrite Z.eqb_refl. by exists w'.
    + destruct (apr_bucket_read e) as [s d]. destruct (s =? APR_SUCCESS)%Z; cbn [negb]; [|apply IH].
      unfold xbind. destruct (eval_notes (SvPV d true false) w) as (w1 & -> & Hs). rewrite Z.eqb_refl.
      destruct (IH w1) as (w' & -> & Hs'). exists w'. split; [done|]. by rewrite Hs', Hs, <- app_assoc.
Qed.

(** The bytes in what the sub was given. *)
Definition piece_bytes (ps : list (sv * Z)) : bytes :=
  flat_map (fun p => match p.1 with SvPV d _ _ => d | _ => [] end) ps.

Lemma pieces_data bb : forallb plain bb = true ->
  piece_bytes (hook_pieces (bb ++ [BEos])) = brigade_data bb /\
  last (hook_pieces (bb ++ [BEos])) = Some (SvUndef, 0%Z).
Proof.
  induction bb as [|e bb IH]; [done|]. cbn [forallb app hook_pieces]. rewrite andb_true_iff. intros [He Hb].
  destruct (IH Hb) as [Hd Hl]. destruct (plain_read e He) as [-> Hr]. rewrite brigade_data_cons, Hr, Z.eqb_refl.
  cbn [piece_bytes flat_map fst snd]. split; [by rewrite <- Hd|].
  destruct (hook_pieces (bb ++ [BEos])) as [|p ps] eqn:Ep; [done|]. by rewrite <- Hl.
Qed.

(** The hook that a Perl program sets for uploads: a sub that returns is called with
    the upload and each piece of data as it arrives, and at the end with undef; the pieces
    of an upload are together its bytes, and then the hooks behind run as if the Perl
    hook were not there. *)
Theorem upload_hook_notes bb w : forallb plain bb = true ->
  exists w',
    apreq_xs_upload_hook ctx next upload (Some (bb ++ [BEos])) w =
      Ret (apreq_hook_run next upload (Some (bb ++ [BEos]))) w' /\
    seen w' = seen w ++ hook_pieces (bb ++ [BEos]) /\
    piece_bytes (hook_pieces (bb ++ [BEos])) = brigade_data bb /\
    last (hook_pieces (bb ++ [BEos])) = Some (SvUndef, 0%Z).
Proof.
  intros Hb. destruct (hook_loop_notes (bb ++ [BEos]) w) as (w' & Hl & Hs). exists w'.
  split; [|split; [done|by apply pieces_data]]. unfold apreq_xs_upload_hook, xbind. by rewrite Hl.
Qed.

End Upload.

(** A sub that dies ends the upload: the hooks behind are not run. *)
Lemma upload_hook_dies ctx next upload e bb w m w' :
  bucket_is_eos e = false -> readable e = true ->
  (forall a n w1, call_sv (ph_hook ctx) [SvRV a; SvPV (apr_bucket_read e).2 true false; SvIV n] w1 =
                  Croaks m w') ->
  apreq_xs_upload_hook ctx next upload (Some (e :: bb)) w =
    Ret (APREQ_ERROR_GENERAL, next, upload, Some (e :: bb)) w'.
Proof.
  intros He Hr Hdie. unfold apreq_xs_upload_hook. cbn [upload_hook_loop]. rewrite He.
  apply readable_read in Hr. destruct (apr_bucket_read e) as [s d]. cbn [fst snd] in *. subst s.
  rewrite Z.eqb_refl. cbn [negb]. unfold xbind, eval_upload_hook, apreq_xs_param2sv, apreq_xs_object2sv, new_sv.
  unfold xbind, xret. rewrite isa_refl. cbn [ph_bucket_data ph_hook]. rewrite Hdie.
  replace (APREQ_ERROR_GENERAL =? APR_SUCCESS)%Z with false; [done|].
  symmetry. apply Z.eqb_neq. errno_lia.
Qed.

(** ** Taint *)

(** No string of a parameter is both tainted and taken for text. *)
Lemma param_string_safe p : exists d t u, param_string p = SvPV d t u /\ (t && u) = false.
Proof.
  unfold param_string. destruct (negb _); do 3 eexists; (split; [reflexivity|done]).
Qed.

(** ** What the methods of a request answer *)

Section Answers.
Context {A : Type} {K : TableKind A}.

Definition names_of (t : apr_table A) : list sv := map (fun e => key_sv e.1 e.2) (apr_table_elts t).
Definition values_of (t : apr_table A) (k : bytes) : list sv :=
  map (fun e => tk_string e.2) (key_filter (Some k) (apr_table_elts t)).

Lemma push_keys_names t w : push_keys t w = Ret (names_of t) w.
Proof.
  unfold push_keys, names_of. rewrite do_elts. cbn [key_filter].
  assert (Hg : forall es l, do_entries table_keys (Ret l w) es =
    Ret (l ++ map (fun e => key_sv e.1 e.2) es) w).
  { induction es as [|[k a] es IH]; intros l; cbn; [by rewrite app_nil_r|]. by rewrite IH, <- app_assoc. }
  apply (Hg _ []).
Qed.

Lemma push_values_of t key parent w :
  push_values None parent t key w = Ret (values_of t (cstr key)) w.
Proof.
  unfold push_values, values_of. rewrite do_elts.
  assert (Hg : forall es l, do_entries (table_values None parent) (Ret l w) es =
    Ret (l ++ map (fun e => tk_string e.2) es) w).
  { induction es as [|[k a] es IH]; intros l; cbn [do_entries table_values map fst snd]; [by rewrite app_nil_r|].
    unfold xbind. rewrite tk_plain. cbn [xret]. by rewrite IH, <- app_assoc. }
  apply (Hg _ []).
Qed.

(** The objects a table is made of. *)
Definition table_objects (n : addr) (t : apr_table A) (obj : addr) : list referent :=
  [PVMG (Object tk_class (tk_to t) 0 (Some (obj, None)) false);
   PVHV (Some tk_class) (Some (SvRV n)) []].

Lemma table_sv t obj w :
  xbind (table2sv t tk_class obj None) (fun v => xret [v]) w =
    Ret [SvRV (Datatypes.S (length (i_heap w)))]
        (set_heap (i_heap w ++ table_objects (length (i_heap w)) t obj) w).
Proof.
  unfold table2sv, new_sv, xbind, xret, set_heap. cbn. by rewrite length_app, Nat.add_1_r, <- app_assoc.
Qed.

(** What Perl is given: values, an object with a table, or an error. *)
Inductive perl_answer :=
  | Values (l : list sv)
  | TableOf (t : apr_table A)
  | Raises (s : Z).

(** An error of the library is raised, unless the method was called on an error object;
    a value that is there is given in any case. *)
Definition method_spec (on_error : bool) (gimme : context) (name : option bytes)
    (st : Z * option (apr_table A)) : perl_answer :=
  let unless_error a := if apreq_module_status_is_error st.1 && negb on_error then Raises st.1 else a in
  match name, gimme with
  | Some k, G_SCALAR =>
      match first_of st.2 k with
      | Some a => Values [tk_string a]
      | None => unless_error (Values [SvUndef])
      end
  | _, _ =>
      unless_error
        (match st.2, gimme with
         | None, _ | _, G_VOID => Values []
         | Some t, G_ARRAY => Values (match name with None => names_of t | Some k => values_of t k end)
         | Some t, G_SCALAR => TableOf t
         end)
  end.

End Answers.

Section Methods.
Context {ok : S -> Prop} {see : S -> view (T := T)} {FE : Frontend ok see}.

(** The heap grew by [new], and the request shows what it showed before. *)
Definition grew (w w' : interp) (new : list referent) : Prop :=
  i_heap w' = i_heap w ++ new /\ i_cop w' = i_cop w /\ i_vars w' = i_vars w /\
  ok (i_req w') /\ see (i_req w') = see (i_req w).

(** The error object for a call on the request [obj]. *)
Definition error_object (obj : addr) (s : Z) (cop : bytes * Z) (func : bytes) : referent :=
  PVHV (Some ERROR_CLASS) None
    [(str "_r", SvRV obj); (str "rc", SvIV s); (str "file", SvPV cop.1 false false);
     (str "line", SvIV cop.2); (str "func", SvPV func false false)].

Definition gives {A} {K : TableKind A} (w : interp) (obj : addr) (func : bytes) (r : ended (list sv))
    (a : perl_answer) : Prop :=
  let n := length (i_heap w) in
  match a with
  | Values l => exists w', r = Ret l w' /\ grew w w' []
  | TableOf t => exists w', r = Ret [SvRV (Datatypes.S n)] w' /\
      grew w w' (table_objects n t obj)
  | Raises s => exists w', r = Throws n w' /\ grew w w' [error_object obj s (i_cop w) func]
  end.

Lemma grew_refl w : ok (i_req w) -> grew w w [].
Proof. intros Hok. unfold grew. by rewrite app_nil_r. Qed.

(** What the checks of the arguments find. *)
Definition is_request (w : interp) (v : sv) (obj : addr) : Prop :=
  SvROK v = true /\ sv_derived_from w v HANDLE_CLASS = true /\
  apreq_xs_sv2object v HANDLE_CLASS "r" w = Ret obj w /\
  exists o, i_heap w !! obj = Some (PVMG o) /\ o_ptr o = PtrHandle.

Definition method_args (v : sv) (name : option sv) : list sv :=
  match name with None => [v] | Some n => [v; n] end.

Lemma with_request_runs usage w v obj name f : is_request w v obj ->
  with_request usage (method_args v name) f w = f v obj name w.
Proof.
  intros (Hrok & Hd & Hf & o & Ho & Hp). unfold with_request.
  destruct name as [n|]; cbn [method_args]; rewrite Hrok, Hd; cbn [andb negb];
    unfold xbind at 1; rewrite Hf; unfold object_at, heap_at, xbind, xret; by rewrite Ho, Hp.
Qed.

Section Generic.
Context {A : Type} {K : TableKind A} (get : S -> option bytes -> presult (option A * S)).
Context (tab : S -> presult (Z * option (apr_table A) * S)) (st : view (T := T) -> Z * option (apr_table A)).
Context (get_law : forall req k, ok req -> exists req',
  get req (Some k) = Ok (first_of (st (see req)).2 k, req') /\ ok req' /\ see req' = see req).
Context (tab_law : forall req, ok req -> exists req',
  tab req = Ok (st (see req), req') /\ ok req' /\ see req' = see req).

Lemma get_table_gives w v obj func : ok (i_req w) ->
  let s := (st (see (i_req w))).1 in
  exists w',
    get_table tab func v obj w =
      (if apreq_module_status_is_error s && negb (sv_derived_from w v ERROR_CLASS)
       then Throws (length (i_heap w)) w' else Ret (st (see (i_req w))).2 w') /\
    grew w w' (if apreq_module_status_is_error s && negb (sv_derived_from w v ERROR_CLASS)
               then [error_object obj s (i_cop w) func] else []).
Proof.
  intros Hok. cbn zeta. unfold get_table, call, xbind at 1.
  destruct (tab_law _ Hok) as (req' & Ht & Hok' & Hv). rewrite Ht.
  destruct (st (see (i_req w))) as [s t]. cbn [fst snd].
  unfold xbind, xret. change (i_heap w) with (i_heap (set_req req' w)). revert Hok' Hv.
  change (sv_derived_from w v ERROR_CLASS) with (sv_derived_from (set_req req' w) v ERROR_CLASS).
  destruct (apreq_module_status_is_error s); cbn [andb]; unfold APREQ_XS_THROW_ERROR, apreq_xs_croak.
  1: destruct (sv_derived_from _ v ERROR_CLASS); cbn [negb].
  all: intros Hok' Hv; eexists; split; [reflexivity|]; unfold grew; cbn; by rewrite ?app_nil_r.
Qed.

Lemma grew_set_req req w w' new : see req = see (i_req w) -> grew (set_req req w) w' new -> grew w w' new.
Proof. unfold grew. cbn. by intros ->. Qed.

(** The calls that begin with the table. *)
Lemma rest_answers w v obj func gimme name : ok (i_req w) ->
  gives w obj func
    (xbind (get_table tab func v obj) (fun t =>
       match t with
       | None => xret []
       | Some t =>
           match gimme with
           | G_ARRAY => match name with None => push_keys t | Some n => push_values None obj t (SvPV_nolen n) end
           | G_SCALAR => xbind (table2sv t tk_class obj None) (fun v => xret [v])
           | G_VOID => xret []
           end
       end) w)
    (if apreq_module_status_is_error (st (see (i_req w))).1 && negb (sv_derived_from w v ERROR_CLASS)
     then Raises (st (see (i_req w))).1
     else match (st (see (i_req w))).2, gimme with
          | None, _ | _, G_VOID => Values []
          | Some t, G_ARRAY =>
              Values (match name with None => names_of t | Some n => values_of t (cstr (SvPV_nolen n)) end)
          | Some t, G_SCALAR => TableOf t
          end).
Proof.
  intros Hok. destruct (get_table_gives w v obj func Hok) as (w' & Hg & Hw). unfold xbind at 1. rewrite Hg.
  destruct (st (see (i_req w))) as [s t]. cbn [fst snd] in *.
  destruct (_ && _); [by exists w'|]. destruct t as [t|]; [|by exists w'].
  destruct gimme; [by exists w'| |].
  - destruct Hw as (Hh & Hw). rewrite app_nil_r in Hh. rewrite table_sv. rewrite Hh.
    eexists. split; [reflexivity|]. done.
  - exists w'. destruct name as [n|]; [by rewrite push_values_of|by rewrite push_keys_names].
Qed.

Lemma method_answers w v obj func gimme name : ok (i_req w) ->
  gives w obj func (method_answer get tab gimme func v obj name w)
    (method_spec (sv_derived_from w v ERROR_CLASS) gimme ((fun n => cstr (SvPV_nolen n)) <$> name)
       (st (see (i_req w)))).
Proof.
  intros Hok. 
  destruct name as [n|]; [destruct gimme|]; try first [exact (rest_answers w v obj func G_VOID (Some n) Hok)|exact (rest_answers w v obj func G_ARRAY (Some n) Hok)];
    try exact (rest_answers w v obj func gimme None Hok).
  unfold method_answer, method_spec, call. unfold xbind at 1. cbn [fmap option_fmap option_map].
  destruct (get_law _ (cstr (SvPV_nolen n)) Hok) as (req' & -> & Hok' & Hv).
  destruct (first_of _ _) as [a|].
  - unfold xbind. rewrite tk_plain. exists (set_req req' w). split; [done|]. unfold grew. cbn. by rewrite app_nil_r.
  - destruct (get_table_gives (set_req req' w) v obj func Hok') as (w' & Hg & Hw).
    cbn [i_req set_req] in Hg, Hw. rewrite Hv in Hg, Hw. apply grew_set_req in Hw; [|done].
    unfold xbind. rewrite Hg. change (sv_derived_from (set_req req' w)) with (sv_derived_from w) in *.
    destruct (_ && _); exists w'; by split.
Qed.

End Generic.
Definition entries_of (name : option bytes) (t : option (apr_table apreq_param_t)) : list sv :=
  match t, name with
  | None, _ => []
  | Some t, None => names_of t
  | Some t, Some k => values_of t k
  end.

(** The query string comes before the body, and no error is raised. *)
Definition param_spec (gimme : context) (name : option bytes) (v : view (T := T))
  : perl_answer (A := apreq_param_t) :=
  match name, gimme with
  | Some k, G_SCALAR =>
      Values [match first_of (v_args v).2 k, first_of (v_body v).2 k with
              | Some p, _ | None, Some p => param_string p
              | None, None => SvUndef
              end]
  | _, G_ARRAY => Values (entries_of name (v_args v).2 ++ entries_of name (v_body v).2)
  | _, G_SCALAR => match all_params v with None => Values [SvUndef] | Some t => TableOf t end
  | _, G_VOID => Values []
  end.

Lemma push_entries_of obj name t w :
  push_entries obj name t w = Ret (entries_of ((fun n => cstr (SvPV_nolen n)) <$> name) t) w.
Proof.
  unfold push_entries, entries_of. destruct t as [t|]; [|done].
  destruct name as [n|]; [by rewrite push_values_of|by rewrite push_keys_names].
Qed.

Definition string_of (n : sv) : bytes := cstr (SvPV_nolen n).

Lemma param_answers w v obj gimme name : is_request w v obj -> ok (i_req w) ->
  gives w obj (str "APR::Request::param") (apreq_xs_param gimme (method_args v name) w)
    (param_spec gimme (string_of <$> name) (see (i_req w))).
Proof.
  intros Hreq Hok. unfold apreq_xs_param. rewrite (with_request_runs _ _ _ _ _ _ Hreq).
  assert (HG : forall name, gives w obj (str "APR::Request::param")
    (xbind (call apreq_args) (fun '(_, t) => xbind (push_entries obj name t) (fun l =>
       xbind (call apreq_body) (fun '(_, t) => xbind (push_entries obj name t) (fun l' => xret (l ++ l'))))) w)
    (Values (entries_of (string_of <$> name) (v_args (see (i_req w))).2 ++
             entries_of (string_of <$> name) (v_body (see (i_req w))).2))).
  { intros nm. unfold call, xbind. destruct (fe_args _ Hok) as (r1 & -> & Hok1 & Hv1).
    destruct (v_args (see (i_req w))) as [s1 t1]. rewrite push_entries_of. cbn [i_req set_req].
    destruct (fe_body _ Hok1) as (r2 & -> & Hok2 & Hv2). rewrite Hv1.
    destruct (v_body (see (i_req w))) as [s2 t2]. rewrite push_entries_of. eexists. split; [done|].
    unfold grew. cbn. rewrite app_nil_r, Hv2. done. }
  assert (HS : gives w obj (str "APR::Request::param")
    (xbind (call apreq_params) (fun t =>
       match t with
       | None => xret [SvUndef]
       | Some t => xbind (table2sv t PARAM_TABLE_CLASS obj None) (fun v => xret [v])
       end) w)
    (match all_params (see (i_req w)) with None => Values [SvUndef] | Some t => TableOf t end)).
  { destruct (ask_answers AskParams (i_req w) (see (i_req w)) Hok eq_refl) as (r1 & Ha & Hok1 & Hv1).
    cbn [ask answer_of] in Ha. unfold call, xbind at 1.
    destruct (apreq_params (i_req w)) as [[t r]| |]; try done. injection Ha as -> ->.
    destruct (all_params (see (i_req w))) as [t|].
    - change PARAM_TABLE_CLASS with (tk_class (A := apreq_param_t)). rewrite table_sv.
      eexists. by split.
    - eexists. split; [reflexivity|]. unfold grew. cbn. by rewrite app_nil_r. }
  destruct gimme, name as [n|]; try exact (HG None); try exact (HG (Some n)); try exact HS;
    try (exists w; split; [done|by apply grew_refl]).
  destruct (ask_answers (AskParam (string_of n)) (i_req w) (see (i_req w)) Hok eq_refl) as (r1 & Ha & Hok1 & Hv1).
  cbn [ask answer_of param_spec fmap option_fmap option_map] in *. unfold call, xbind at 1. fold (string_of n).
  destruct (apreq_param (i_req w) _) as [[p r]| |]; try done. injection Ha as -> ->.
  destruct (first_of (v_args _).2 _) as [p|]; [|destruct (first_of (v_body _).2 _) as [q|]];
    (eexists; split; [reflexivity|]); unfold grew; cbn; by rewrite app_nil_r.
Qed.

(** C26: the methods [jar], [args], [body] and [param] of a request in Perl answer as
    the request does, in any context, with a name or without, on any front end that keeps
    its promises: a name in scalar context gives the first value with that name, in list
    context all of them in order, no name gives all names in order, or the table; an error
    of the library is raised as an object with its status, unless the value is there, and
    what the methods answer does not depend on what was asked before. *)
Theorem methods_refine_view w v obj gimme name : is_request w v obj -> ok (i_req w) ->
  let on_error := sv_derived_from w v ERROR_CLASS in
  let view := see (i_req w) in
  let name' := string_of <$> name in
  gives w obj (str "APR::Request::jar") (apreq_xs_jar gimme (method_args v name) w)
    (method_spec on_error gimme name' (v_jar view)) /\
  gives w obj (str "APR::Request::args") (apreq_xs_args gimme (method_args v name) w)
    (method_spec on_error gimme name' (v_args view)) /\
  gives w obj (str "APR::Request::body") (apreq_xs_body gimme (method_args v name) w)
    (method_spec on_error gimme name' (v_body view)) /\
  gives w obj (str "APR::Request::param") (apreq_xs_param gimme (method_args v name) w)
    (param_spec gimme name' view).
Proof.
  intros Hreq Hok. cbn zeta. unfold apreq_xs_jar, apreq_xs_args, apreq_xs_body.
  rewrite !(with_request_runs _ _ _ _ _ _ Hreq).
  split_and!; [| | |by apply param_answers].
  - exact (method_answers _ _ v_jar fe_jar_get fe_jar w v obj _ gimme name Hok).
  - exact (method_answers _ _ v_args fe_args_get fe_args w v obj _ gimme name Hok).
  - exact (method_answers _ _ v_body fe_body_get fe_body w v obj _ gimme name Hok).
Qed.

(** An error that was raised leads back to the request. *)
Lemma error_is_request w w' obj o s func :
  isa ERROR_CLASS HANDLE_CLASS = true -> isa (o_class o) HANDLE_CLASS = true ->
  i_heap w !! obj = Some (PVMG o) -> o_ptr o = PtrHandle ->
  grew w w' [error_object obj s (i_cop w) func] ->
  is_request w' (SvRV (length (i_heap w))) obj /\
  sv_derived_from w' (SvRV (length (i_heap w))) ERROR_CLASS = true.
Proof.
  intros He Hc Ho Hp (Hh & _).
  assert (H1 : i_heap w' !! length (i_heap w) = Some (error_object obj s (i_cop w) func))
    by (by rewrite Hh, list_lookup_middle).
  assert (H2 : i_heap w' !! obj = Some (PVMG o))
    by (rewrite Hh; by apply lookup_app_l_Some).
  unfold is_request, sv_derived_from. rewrite H1. cbn. split_and!; [done|done| |by eexists|apply isa_refl].
  unfold apreq_xs_sv2object, apreq_xs_find_obj, xbind.
  destruct (length (i_heap w')) as [|n] eqn:El; [rewrite Hh, length_app in El; cbn in El; lia|].
  cbn [find_loop find_step]. rewrite H1. cbn [error_object hv_fetch].
  replace (hv_fetch _ ["r"%byte]) with (@None sv) by done.
  replace (hv_fetch _ (str "_" ++ ["r"%byte])) with (Some (SvRV obj)) by done.
  assert (Hf : find_loop n "r" (SvRV obj) w' = Ret obj w')
    by (destruct n; cbn [find_loop find_step]; by rewrite H2).
  rewrite Hf. unfold sv_derived_from. rewrite H2. by replace (match Some (PVMG o) ≫= package_of with Some c => isa c _ | None => false end) with true.
Qed.

(** A method that raises, and the same method called on the error. *)
Lemma error_serves {A} {K : TableKind A} get tab (st : view (T := T) -> Z * option (apr_table A))
    usage func w v obj o gimme name s t :
  (forall req k, ok req -> exists req',
     get req (Some k) = Ok (first_of (st (see req)).2 k, req') /\ ok req' /\ see req' = see req) ->
  (forall req, ok req -> exists req', tab req = Ok (st (see req), req') /\ ok req' /\ see req' = see req) ->
  isa ERROR_CLASS HANDLE_CLASS = true -> isa (o_class o) HANDLE_CLASS = true ->
  is_request w v obj -> i_heap w !! obj = Some (PVMG o) -> o_ptr o = PtrHandle ->
  sv_derived_from w v ERROR_CLASS = false -> ok (i_req w) ->
  st (see (i_req w)) = (s, t) -> apreq_module_status_is_error s = true ->
  exists e w',
    with_request usage [v] (method_answer get tab G_ARRAY func) w = Throws e w' /\
    i_heap w' !! e = Some (error_object obj s (i_cop w) func) /\
    gives w' obj func
      (with_request usage (method_args (SvRV e) name) (method_answer get tab gimme func) w')
      (method_spec true gimme (string_of <$> name) (s, t)).
Proof.
  intros Hget Htab He Hc Hreq Ho Hp Hv Hok Hst Hs.
  rewrite (with_request_runs usage w v obj None _ Hreq).
  pose proof (method_answers get tab st Hget Htab w v obj func G_ARRAY None Hok) as Hm.
  rewrite Hst, Hv in Hm. unfold method_spec in Hm. cbn [fst snd fmap option_fmap option_map] in Hm.
  rewrite Hs in Hm. destruct Hm as (w' & Hm & Hw).
  destruct (error_is_request _ _ _ _ _ _ He Hc Ho Hp Hw) as [Hreq' Hd].
  exists (length (i_heap w)), w'. split; [exact Hm|]. destruct Hw as (Hh & Hw).
  split; [by rewrite Hh, list_lookup_middle|]. rewrite (with_request_runs _ _ _ _ _ _ Hreq').
  destruct Hw as (_ & _ & Hok' & Hsee). rewrite <- Hst, <- Hsee, <- Hd.
  exact (method_answers get tab st Hget Htab w' _ obj func gimme name Hok').
Qed.

(** C37: an error of parsing is raised in Perl as an object that still serves as the
    request: it holds the status and leads to the request, and the methods that raised
    it, called on it, do not raise it again but answer with what could be parsed. *)
Theorem error_object_serves w v obj o gimme name s t :
  isa ERROR_CLASS HANDLE_CLASS = true -> isa (o_class o) HANDLE_CLASS = true ->
  is_request w v obj -> i_heap w !! obj = Some (PVMG o) -> o_ptr o = PtrHandle ->
  sv_derived_from w v ERROR_CLASS = false -> ok (i_req w) -> apreq_module_status_is_error s = true ->
  (v_args (see (i_req w)) = (s, t) -> exists e w',
     apreq_xs_args G_ARRAY [v] w = Throws e w' /\
     i_heap w' !! e = Some (error_object obj s (i_cop w) (str "APR::Request::args")) /\
     gives w' obj (str "APR::Request::args") (apreq_xs_args gimme (method_args (SvRV e) name) w')
       (method_spec true gimme (string_of <$> name) (s, t))) /\
  (v_body (see (i_req w)) = (s, t) -> exists e w',
     apreq_xs_body G_ARRAY [v] w = Throws e w' /\
     i_heap w' !! e = Some (error_object obj s (i_cop w) (str "APR::Request::body")) /\
     gives w' obj (str "APR::Request::body") (apreq_xs_body gimme (method_args (SvRV e) name) w')
       (method_spec true gimme (string_of <$> name) (s, t))).
Proof.
  intros He Hc Hreq Ho Hp Hv Hok Hs. split; intros Hst.
  - exact (error_serves apreq_args_get apreq_args v_args _ _ w v obj o gimme name s t
             fe_args_get fe_args He Hc Hreq Ho Hp Hv Hok Hst Hs).
  - exact (error_serves apreq_body_get apreq_body v_body _ _ w v obj o gimme name s t
             fe_body_get fe_body He Hc Hreq Ho Hp Hv Hok Hst Hs).
Qed.

End Methods.

End Glue.
Arguments Ret {T S V A}.
Arguments Croaks {T S V A}.
Arguments Throws {T S V A}.
Arguments Faults {T S V A}.
Arguments Forever {T S V A}.

(** ** Witnesses *)

(** A request that is parsed already. *)
Abbreviation parsed := (view (T := list_table)).

Definition parsed_request : apreq_module_t (T := list_table) (X := unit) (U := unit) parsed := {|
  name := str "parsed";
  magic_number := 0;
  jar req := Ok (v_jar req, req);
  args req := Ok (v_args req, req);
  body req := Ok (v_body req, req);
  jar_get req k := Ok (k ← k; first_of (v_jar req).2 k, req);
  args_get req k := Ok (k ← k; first_of (v_args req).2 k, req);
  body_get req k := Ok (k ← k; first_of (v_body req).2 k, req);
  parser_get req := Ok (APR_ENOTIMPL, None, req);
  parser_set req _ := Ok (APR_ENOTIMPL, req);
  hook_add req _ := Ok (APR_ENOTIMPL, req);
  brigade_limit_get req := Ok (APR_ENOTIMPL, 0, req);
  brigade_limit_set req _ := Ok (APR_ENOTIMPL, req);
  read_limit_get req := Ok (APR_ENOTIMPL, 0%Z, req);
  read_limit_set req _ := Ok (APR_ENOTIMPL, req);
  temp_dir_get req := Ok (APR_ENOTIMPL, None, req);
  temp_dir_set req _ := Ok (APR_ENOTIMPL, req)
|}.
#[local] Existing Instance parsed_request.

Definition parsed_frontend : Frontend (S := parsed) (Mod := parsed_request) (fun _ => True) (fun req => req).
Proof. constructor; intros; by eexists. Qed.

(** A program with one sub, which notes what it is given. *)
Abbreviation notes := (list (sv * Z)).

Definition noting (sub : sv) (l : list sv) : xs (T := list_table) (S := parsed) (V := notes) (list sv) := fun w =>
  match l with
  | [_; d; SvIV n] => Ret [] (Interp (i_req w) (i_heap w) (i_cop w) (i_vars w ++ [(d, n)]))
  | _ => Ret [SvIV 1] w
  end.

Definition small_perl : Perl (T := list_table) (S := parsed) (V := notes).
Proof.
  refine {|
    isa := fun c base => bool_decide (c = base) || (bool_decide (c = ERROR_CLASS) && bool_decide (base = HANDLE_CLASS));
    SvPV_nolen := fun v => match v with SvPV d _ _ | SvError d _ => d | _ => [] end;
    SvIV_of := fun v => match v with SvIV n | SvError _ n => n | _ => 0%Z end;
    call_sv := noting
  |}; [intros c; by rewrite bool_decide_true|done|done].
Defined.
#[local] Existing Instance small_perl.

Definition a_param (name data : bytes) : apreq_param_t (T := list_table) :=
  apreq_param_tainted_on (apreq_param_make name data).

(** Two parameters with the same name, and another one between them. *)
Definition three_params : apr_table (AprTable := list_table) (apreq_param_t (T := list_table)) :=
  [(str "a", a_param (str "a") (str "1")); (str "b", a_param (str "b") (str "2"));
   (str "a", a_param (str "a") (str "3"))].

(** The request of a program whose body breaks off. *)
Definition broken_body : parsed :=
  View (APREQ_ERROR_NODATA, None) (APR_SUCCESS, Some three_params) (APREQ_ERROR_BADSEQ, Some three_params).

Definition a_program : interp (T := list_table) (S := parsed) (V := notes) :=
  Interp broken_body
    [PVMG (Object HANDLE_CLASS PtrHandle 0 None false);
     PVMG (Object PARAM_TABLE_CLASS (PtrParamTable three_params) 2 (Some (0, None)) false);
     PVHV (Some PARAM_TABLE_CLASS) (Some (SvRV 1)) [];
     PVMG (Object (str "APR::Brigade") (PtrBrigade [BData (str "x"); BData (str "y" ++ [x0a] ++ str "z"); BEos]) 0 None true);
     PVBuf (str "abc") (str "defg") false]
    (str "form.pl", 7%Z) [].

(** The current entry is what any element of the table is while the iterator stands on
    it: the second entry is the value asked for the first one's name. *)
Example element_during_each :
  table_magic_copy (K := param_kind) 1 (str "a") a_program =
    Ret (Some (SvPV (str "2") true false)) a_program /\
  xbind (table_magic_copy (K := param_kind) 1 (str "nowhere")) (fun v => xret v) a_program =
    Ret (Some (SvPV (str "2") true false)) a_program.
Proof. by split. Qed.

(** The names that [each] yields are not tainted, those that [keys] in list context
    gives are. *)
Example names_lose_taint :
  push_keys (K := param_kind) three_params a_program =
    Ret [SvPV (str "a") true false; SvPV (str "b") true false; SvPV (str "a") true false] a_program /\
  exists w, each_loop (K := param_kind) 4 1 true a_program =
    Ret [(SvPV (str "a") false false, SvPV (str "1") true false);
         (SvPV (str "b") false false, SvPV (str "2") true false);
         (SvPV (str "a") false false, SvPV (str "3") true false)] w.
Proof. split; [reflexivity|eexists; reflexivity]. Qed.

(** A hash that is no request ends the process, and one that refers to itself is
    followed for ever. *)
Example hash_without_request key w :
  find_loop (T := list_table) (S := parsed) (V := notes) 1 key (SvRV 0)
    (set_heap [PVHV (Some HANDLE_CLASS) None []] w) = Faults.
Proof. reflexivity. Qed.

Lemma hash_of_itself fuel w :
  find_loop (T := list_table) (S := parsed) (V := notes) fuel "r" (SvRV 0)
    (set_heap [PVHV (Some HANDLE_CLASS) None [(str "r", SvRV 0)]] w) = Forever.
Proof. induction fuel as [|fuel IH]; [reflexivity|exact IH]. Qed.

Lemma each_yields_entries_witness :
  each_loop (K := param_kind) 4 1 true a_program =
    Ret (map (fun e => (SvPV e.1 false false, param_string e.2)) three_params)
      (at_cur 0 1 (Object PARAM_TABLE_CLASS (PtrParamTable three_params) 2 (Some (0, None)) false) a_program).
Proof.
  apply (each_yields_entries (K := param_kind) a_program 1
    (Object PARAM_TABLE_CLASS (PtrParamTable three_params) 2 (Some (0, None)) false) three_params 0);
    [split; reflexivity|reflexivity].
Defined.

Lemma readline_lines_witness : exists ls,
  apreq_xs_brigade_readline G_ARRAY [SvRV 3] a_program =
    Ret (map (fun l => SvPV l true false) ls)
      (put_brigade 3 (Object (str "APR::Brigade")
         (PtrBrigade [BData (str "x"); BData (str "y" ++ [x0a] ++ str "z"); BEos]) 0 None true) [] a_program) /\
  concat ls = str "xy" ++ [x0a] ++ str "z".
Proof.
  pose proof (readline_lines 3 a_program 3
    (Object (str "APR::Brigade") (PtrBrigade [BData (str "x"); BData (str "y" ++ [x0a] ++ str "z"); BEos]) 0 None true)
    [BData (str "x"); BData (str "y" ++ [x0a] ++ str "z"); BEos] eq_refl eq_refl ltac:(done)) as (ls & Hl & Hc & _).
  by exists ls.
Defined.

Lemma read_takes_witness : exists bb' room' w',
  apreq_xs_brigade_read (AP := list_partitions) (fun _ => x00) (SvRV 3) 4 (Some (SvIV 3)) (Some (SvIV 2)) a_program =
    Ret [SvIV 3] w' /\
  i_heap w' !! 4 = Some (PVBuf (str "abxy" ++ [x0a]) room' true) /\
  i_heap w' !! 3 = Some (set_brigade bb' (Object (str "APR::Brigade")
    (PtrBrigade [BData (str "x"); BData (str "y" ++ [x0a] ++ str "z"); BEos]) 0 None true)) /\
  brigade_data bb' = str "z".
Proof.
  apply (read_takes (AP := list_partitions) (fun _ => x00) (SvRV 3) a_program 3
    (Object (str "APR::Brigade") (PtrBrigade [BData (str "x"); BData (str "y" ++ [x0a] ++ str "z"); BEos]) 0 None true)
    [BData (str "x"); BData (str "y" ++ [x0a] ++ str "z"); BEos] 4 (str "abc") (str "defg") false 3 2);
    first [reflexivity|done].
Defined.

Lemma upload_hook_notes_witness : exists w',
  apreq_xs_upload_hook (X := unit) (PerlHook SvUndef SvUndef 0) [] (a_param (str "file") (str "f.txt"))
    (Some [BData (str "some "); BData (str "text"); BEos]) a_program =
    Ret (APR_SUCCESS, [], a_param (str "file") (str "f.txt"),
         Some [BData (str "some "); BData (str "text"); BEos]) w' /\
  i_vars w' = hook_pieces [BData (str "some "); BData (str "text"); BEos].
Proof.
  destruct (upload_hook_notes (X := unit) (S := parsed) (V := notes) (a_param (str "file") (str "f.txt")) []
    (PerlHook SvUndef SvUndef 0) i_vars ltac:(done)
    ltac:(intros; by do 2 eexists) [BData (str "some "); BData (str "text")] a_program eq_refl)
    as (w' & Hw & Hs & _).
  by exists w'.
Defined.

Lemma is_request_program : is_request a_program (SvRV 0) 0.
Proof. split_and!; [done..|by eexists]. Qed.

Lemma methods_refine_view_witness : exists w',
  apreq_xs_args G_ARRAY [SvRV 0; SvPV (str "a") false false] a_program =
    Ret [SvPV (str "1") true false; SvPV (str "3") true false] w' /\
  i_heap w' = i_heap a_program.
Proof.
  destruct (methods_refine_view (FE := parsed_frontend) a_program (SvRV 0) 0 G_ARRAY
    (Some (SvPV (str "a") false false)) is_request_program I) as (_ & Hargs & _).
  destruct Hargs as (w' & Hw & Hh & _). exists w'. split; [exact Hw|]. rewrite Hh. apply app_nil_r.
Defined.

Lemma error_object_serves_witness : exists e w' w'',
  apreq_xs_body G_ARRAY [SvRV 0] a_program = Throws e w' /\
  apreq_xs_body G_ARRAY [SvRV e; SvPV (str "b") false false] w' = Ret [SvPV (str "2") true false] w''.
Proof.
  destruct (error_object_serves (E := apr_1_errno) (P := small_perl) (FE := parsed_frontend) a_program (SvRV 0) 0
    (Object HANDLE_CLASS PtrHandle 0 None false) G_ARRAY (Some (SvPV (str "b") false false))
    (APREQ_ERROR_BADSEQ (E := apr_1_errno)) (Some three_params) eq_refl eq_refl is_request_program eq_refl eq_refl eq_refl I ltac:(vm_compute; reflexivity))
    as (_ & Hbody).
  destruct (Hbody eq_refl) as (e & w' & Hw & _ & w'' & Hw' & _). by exists e, w', w''.
Defined.
