(* ===== verification/Samples.v ===== *)
(** * Sample programs ([module/test_cgi.c], [module/t/c-modules], [module/apache/t/c-modules])

    The CGI program and the Apache modules that the tests of libapreq2 are run against.
    They are written here for any front end; [discard] is [ap_discard_request_body].
    Log lines are left out. *)
From S2P Require Import Prelude Apr Url Util Brigade Param Parser Urlencoded Header Boundary.
From S2P Require Import Multipart ParserRun Cookie Module.

Definition OK : Z := 0.
Definition DECLINED : Z := -1.
Definition HTTP_FORBIDDEN : Z := 403.

Section Samples.
Context {E : AprErrno} {T : AprTable} {TM : AprTableMerge} {X : Type} {XP : AprXml X} {H : HookEnv X}
        {U : Type} {S : Type} {Mod : apreq_module_t (X := X) (U := U) S}.
Context (hole : nat -> Byte.byte).   (** what fresh memory holds *)
Context (apr_rfc822_date : Z -> bytes) (now : Z).
Abbreviation table := (apr_table apreq_param_t).

(** ** The module [apreq_request_test] *)

Definition entry_line (key value : bytes) : bytes :=
  [x09] ++ key ++ str " => " ++ value ++ [x0a].

(** [apr_table_do] with the [dump_table] of the module. *)
Definition dump_line (out : bytes) (key : bytes) (p : apreq_param_t) : bytes * bool :=
  (out ++ entry_line key (cstr (p_data p)), true).

Definition dump_entries (out : bytes) (t : option table) : presult bytes :=
  match t with None => Aborts | Some t => Ok (apr_table_do dump_line out t None) end.

(** A handler yields its result, what it wrote, and the request. *)
Definition apreq_request_test_handler (discard : S -> presult (Z * S)) (handler : bytes) (req : S)
  : presult (Z * bytes * S) :=
  if negb (bool_decide (handler = str "apreq_request_test")) then Ok (DECLINED, [], req)
  else
    obind (fun '(_, req) =>
      let out := str "ARGS:" ++ [x0a] in
      obind (fun '(s, t, req) =>
        obind (fun out =>
          obind (fun '(s, t, req) =>
            obind (fun out => Ok (OK, out, req))
              (if (s =? APR_SUCCESS)%Z then dump_entries (out ++ str "BODY:" ++ [x0a]) t else Ok out))
            (apreq_body req))
          (if (s =? APR_SUCCESS)%Z then dump_entries out t else Ok out))
        (apreq_args req)) (discard req).

(** ** The module [apreq_big_request_test] *)

(** An [int] counts. *)
Definition count_entry (c : Z) (key : bytes) (p : apreq_param_t) : Z * bool :=
  (int32 (c + Z.of_nat (length key) + Z.of_nat (length (cstr (p_data p)))), true).

Definition apreq_big_request_test_handler (handler : bytes) (req : S) : presult (Z * bytes * S) :=
  if negb (bool_decide (handler = str "apreq_big_request_test")) then Ok (DECLINED, [], req)
  else
    obind (fun '(params, req) =>
      match params with
      | None => Aborts
      | Some params => Ok (OK, print_int (apr_table_do count_entry 0%Z params None), req)
      end) (apreq_params req).

(** ** The module [apreq_access_test] *)

(** [cfg->param] is what the directive [TestAccess] was given, or NULL. *)
Definition create_access_config (dummy : option bytes) : option bytes := dummy.
Definition access_config (cfg : option bytes) (arg : bytes) : option bytes := Some arg.

Definition apreq_access_checker (cfg : option (option bytes)) (req : S) : presult (Z * S) :=
  match cfg with
  | None | Some None => Ok (DECLINED, req)
  | Some (Some param) =>
      obind (fun '(p, req) =>
        match p with
        | Some _ => Ok (OK, req)
        | None => obind (fun '(_, req) => Ok (HTTP_FORBIDDEN, req)) (apreq_params req)
        end) (apreq_param req (Some param))
  end.

(** ** The module [apreq_redirect_test] *)

(** With the place the request is redirected to. *)
Definition apreq_redirect_test_handler (handler : bytes) (req : S) : presult (Z * option bytes * S) :=
  if negb (bool_decide (handler = str "apreq_redirect_test")) then Ok (DECLINED, None, req)
  else
    obind (fun '(loc, req) =>
      match loc with
      | None => Ok (DECLINED, None, req)
      | Some loc => Ok (OK, Some (cstr (p_data loc)), req)
      end) (apreq_param req (Some (str "location"))).

(** ** The module [apreq_cookie_test] *)

(** The header that is added, and what is written.  A missing parameter or cookie is
    a null pointer that is followed. *)
Definition apreq_cookie_test_handler (handler : bytes) (req : S)
  : presult (Z * option (bytes * bytes) * bytes * S) :=
  if negb (bool_decide (handler = str "apreq_cookie_test")) then Ok (DECLINED, None, [], req)
  else
    obind (fun '(_, args, req) =>
      match args with
      | None => Aborts
      | Some args =>
          let value name := (fun p => cstr (p_data p)) <$> apr_table_get args (str name) in
          obind (fun '(cookie, req) =>
            match value "test"%string, cookie with
            | Some test, Some cookie =>
                if bool_decide (test = str "bake")
                then Ok (OK, Some (str "Set-Cookie", apreq_cookie_as_string apr_rfc822_date now cookie), [], req)
                else if bool_decide (test = str "bake2")
                then Ok (OK, Some (str "Set-Cookie2", apreq_cookie_as_string apr_rfc822_date now cookie), [], req)
                else
                  let '(s, dest) := apreq_decode false (cstr (c_data cookie)) in
                  Ok (OK, None, if (s =? APR_SUCCESS)%Z then cstr (resolve hole 0 dest) else [], req)
            | _, _ => Aborts
            end) (apreq_jar_get req (value "key"%string))
      end) (apreq_args req).

(** ** The module [apreq_output_filter_test] *)

Definition filter_text (t : option table) (heading : bytes) : bytes :=
  match t with None => [] | Some t => heading ++ apr_table_do dump_line [] t None end.

(** The brigade that is passed on. *)
Definition apreq_output_filter_test (bb : brigade) (req : S) : presult (brigade * S) :=
  if negb (last_is_eos bb) then Ok (bb, req)
  else
    let eos := drop (length bb - 1) bb in
    let bb := take (length bb - 1) bb in
    let bb := bb ++ [BData ([x0a] ++ str "--APREQ OUTPUT FILTER--" ++ [x0a] ++ str "ARGS:" ++ [x0a])] in
    obind (fun '(_, t, req) =>
      let bb := bb ++ [BData (filter_text t [])] in
      obind (fun '(_, t, req) =>
        Ok (bb ++ [BData (filter_text t (str "BODY:" ++ [x0a]))] ++ eos, req))
        (apreq_body req)) (apreq_args req).

(** ** The CGI program *)

(** [key - value - 1], which is taken for the length of the value: [gap] is how far the
    name of a parameter lies behind its value. *)
Section Cgi.
Context (gap : apreq_param_t -> Z).

Definition dump_table (c : Z) (key : bytes) (p : apreq_param_t) : Z * bool :=
  let value_len := (gap p - 1)%Z in
  (if (value_len =? 0)%Z then c else int32 (c + Z.of_nat (length key) + value_len), true).

(** The exit status of the process, and its output; [exit(-1)] is 255. *)
Definition EXIT_FAILED : Z := 255.
Definition plain_header : bytes := str "Content-Type: text/plain" ++ [x0a; x0a].

Definition shown (name : bytes) (p : option apreq_param_t) : bytes :=
  match p with None => [] | Some p => entry_line name (cstr (p_data p)) end.

Definition cookie_part (test key : apreq_param_t) (req : S) : presult (Z * bytes) :=
  obind (fun '(cookie, req) =>
    match cookie with
    | None => Ok (EXIT_FAILED, [])
    | Some cookie =>
        let baked :=
          if bool_decide (cstr (p_data test) = str "bake")
          then str "Set-Cookie: " ++ apreq_cookie_as_string apr_rfc822_date now cookie ++ [x0a]
          else if bool_decide (cstr (p_data test) = str "bake2")
          then str "Set-Cookie2: " ++ apreq_cookie_as_string apr_rfc822_date now cookie ++ [x0a]
          else [] in
        let '(s, dest) := apreq_decode false (c_data cookie) in
        if (s =? APR_SUCCESS)%Z
        then Ok (0%Z, baked ++ plain_header ++ cstr (resolve (fun _ => x00) 0 dest))
        else Ok (EXIT_FAILED, baked ++ plain_header)
    end) (apreq_jar_get req (Some (cstr (p_data key)))).

Definition count_part (req : S) : presult (Z * bytes) :=
  obind (fun '(params, req) =>
    match params with
    | None => Ok (EXIT_FAILED, plain_header)
    | Some params => Ok (0%Z, plain_header ++ print_int (apr_table_do dump_table 0%Z params None))
    end) (apreq_params req).

Definition test_cgi_main (req : S) : presult (Z * bytes) :=
  let ask name k req := obind k (apreq_param req (Some (str name))) in
  ask "foo"%string (fun '(foo, req) => ask "bar"%string (fun '(bar, req) =>
  ask "test"%string (fun '(test, req) => ask "key"%string (fun '(key, req) =>
    match foo, bar with
    | None, None =>
        match test, key with
        | Some test, Some key => cookie_part test key req
        | _, _ => count_part req
        end
    | _, _ => Ok (0%Z, plain_header ++ shown (str "foo") foo ++ shown (str "bar") bar)
    end) req) req) req) req.

End Cgi.
(** ** What they show *)

Section Shown.
Context {ok : S -> Prop} {see : S -> view (T := T)} {FE : Frontend ok see}.

(** The lines for the entries of a table. *)
Definition listed (t : option table) : bytes :=
  match t with
  | None => []
  | Some t => flat_map (fun e => entry_line e.1 (cstr (p_data e.2))) (apr_table_elts t)
  end.

Lemma dump_lines out t :
  apr_table_do dump_line out t None = out ++ listed (Some t).
Proof.
  rewrite do_elts. cbn [key_filter listed]. revert out.
  induction (apr_table_elts t) as [|[k p] es IH]; intros out; cbn; [by rewrite app_nil_r|].
  by rewrite IH, <- app_assoc.
Qed.

Definition param_in (v : view (T := T)) (k : bytes) : option apreq_param_t :=
  match first_of (v_args v).2 k with Some p => Some p | None => first_of (v_body v).2 k end.

Lemma param_shown req v k : ok req -> see req = v ->
  exists req', apreq_param req (Some k) = Ok (param_in v k, req') /\ ok req' /\ see req' = v.
Proof.
  intros Hok Hv. destruct (ask_answers (AskParam k) req v Hok Hv) as (r & Ha & Hr).
  cbn [ask answer_of] in Ha. destruct (apreq_param req (Some k)) as [[p r']| |]; try done.
  injection Ha as -> ->. exists r. by split.
Qed.

Lemma params_shown req v : ok req -> see req = v ->
  exists req', apreq_params req = Ok (all_params v, req') /\ ok req' /\ see req' = v.
Proof.
  intros Hok Hv. destruct (ask_answers AskParams req v Hok Hv) as (r & Ha & Hr).
  cbn [ask answer_of] in Ha. destruct (apreq_params req) as [[p r']| |]; try done.
  injection Ha as -> ->. exists r. by split.
Qed.

(** The access checker lets in who brings the parameter, in the query string or in the
    body. *)
Theorem access_checker_decides param req : ok req ->
  exists req', apreq_access_checker (Some (Some param)) req =
    Ok (match param_in (see req) param with Some _ => OK | None => HTTP_FORBIDDEN end, req').
Proof.
  intros Hok. cbn [apreq_access_checker].
  destruct (param_shown req _ param Hok eq_refl) as (r1 & -> & Hok1 & Hv1). cbn [obind].
  destruct (param_in _ param); [by exists r1|].
  destruct (params_shown r1 _ Hok1 eq_refl) as (r2 & -> & _). by exists r2.
Qed.

(** The module [apreq_request_test] writes every entry of what could be parsed, though
    it throws the body away first, on a front end that keeps what is thrown away. *)
Theorem request_test_shows discard req :
  ok req ->
  (forall req, ok req -> exists s req', discard req = Ok (s, req') /\ ok req' /\ see req' = see req) ->
  ((v_args (see req)).1 = APR_SUCCESS -> is_Some (v_args (see req)).2) ->
  ((v_body (see req)).1 = APR_SUCCESS -> is_Some (v_body (see req)).2) ->
  let lines st := if (st.1 =? APR_SUCCESS)%Z then listed st.2 else [] in
  let heading := if ((v_body (see req)).1 =? APR_SUCCESS)%Z then str "BODY:" ++ [x0a] else [] in
  exists req', apreq_request_test_handler discard (str "apreq_request_test") req =
    Ok (OK, str "ARGS:" ++ [x0a] ++ lines (v_args (see req)) ++ heading ++ lines (v_body (see req)), req').
Proof.
  intros Hok Hd Ha Hb. cbn zeta. unfold apreq_request_test_handler.
  rewrite bool_decide_eq_true_2 by done. cbn [negb].
  destruct (Hd req Hok) as (s & r1 & -> & Hok1 & Hv1). cbn [obind].
  destruct (fe_args r1 Hok1) as (r2 & -> & Hok2 & Hv2). rewrite Hv1 in *.
  destruct (v_args (see req)) as [s1 t1]. cbn [obind fst snd] in *.
  assert (HA : (if (s1 =? APR_SUCCESS)%Z then dump_entries (str "ARGS:" ++ [x0a]) t1
                else Ok (str "ARGS:" ++ [x0a])) =
               Ok (str "ARGS:" ++ [x0a] ++ if (s1 =? APR_SUCCESS)%Z then listed t1 else [])).
  { destruct (s1 =? APR_SUCCESS)%Z eqn:E1; [|by rewrite app_nil_r].
    apply Z.eqb_eq, Ha in E1 as [t ->]. unfold dump_entries. by rewrite dump_lines, app_assoc. }
  rewrite HA. cbn [obind]. destruct (fe_body r2 Hok2) as (r3 & -> & Hok3 & Hv3). rewrite Hv2.
  destruct (v_body (see req)) as [s2 t2]. cbn [obind fst snd] in *.
  destruct (s2 =? APR_SUCCESS)%Z eqn:E2.
  - apply Z.eqb_eq, Hb in E2 as [t ->]. unfold dump_entries. rewrite dump_lines. cbn [obind].
    exists r3. by rewrite <- !app_assoc.
  - exists r3. cbn [obind]. by rewrite !app_nil_r.
Qed.

(** The output filter appends what was parsed behind the data of a response, and passes
    its end on. *)
Theorem output_filter_appends bb req : ok req ->
  exists out req',
    apreq_output_filter_test (bb ++ [BEos]) req = Ok (out ++ [BEos], req') /\
    brigade_data out = brigade_data bb ++ [x0a] ++ str "--APREQ OUTPUT FILTER--" ++ [x0a] ++
      str "ARGS:" ++ [x0a] ++ listed (v_args (see req)).2 ++
      match (v_body (see req)).2 with None => [] | t => str "BODY:" ++ [x0a] ++ listed t end.
Proof.
  intros Hok. unfold apreq_output_filter_test, last_is_eos. rewrite last_snoc. cbn [negb].
  rewrite length_app. cbn [length]. replace (length bb + 1 - 1) with (length bb) by lia.
  rewrite drop_app_length, take_app_length.
  destruct (fe_args req Hok) as (r1 & -> & Hok1 & Hv1). destruct (v_args (see req)) as [s1 t1]. cbn [obind].
  destruct (fe_body r1 Hok1) as (r2 & -> & Hok2 & Hv2). rewrite Hv1.
  destruct (v_body (see req)) as [s2 t2]. cbn [obind fst snd].
  eexists (((bb ++ [_]) ++ [_]) ++ [_]), r2. rewrite <- !app_assoc. split; [reflexivity|].
  rewrite !brigade_data_app, !brigade_data_one. cbn [apr_bucket_read snd app]. rewrite <- !app_assoc.
  do 2 f_equal.
  assert (Hf : forall t h, filter_text t h = match t with None => [] | t => h ++ listed t end).
  { intros [t|] h; [|done]. unfold filter_text. by rewrite dump_lines. }
  rewrite !Hf. destruct t1, t2; cbn [app]; by rewrite <- ?app_assoc.
Qed.

(** The CGI program as a function of what the front end shows. *)
Definition test_cgi_spec (gap : apreq_param_t -> Z) (v : view (T := T)) : Z * bytes :=
  let get name := param_in v (str name) in
  match get "foo"%string, get "bar"%string with
  | None, None =>
      match get "test"%string, get "key"%string with
      | Some test, Some key =>
          match first_of (v_jar v).2 (cstr (p_data key)) with
          | None => (EXIT_FAILED, [])
          | Some cookie =>
              let baked :=
                if bool_decide (cstr (p_data test) = str "bake")
                then str "Set-Cookie: " ++ apreq_cookie_as_string apr_rfc822_date now cookie ++ [x0a]
                else if bool_decide (cstr (p_data test) = str "bake2")
                then str "Set-Cookie2: " ++ apreq_cookie_as_string apr_rfc822_date now cookie ++ [x0a]
                else [] in
              let '(s, dest) := apreq_decode false (c_data cookie) in
              if (s =? APR_SUCCESS)%Z
              then (0%Z, baked ++ plain_header ++ cstr (resolve (fun _ => x00) 0 dest))
              else (EXIT_FAILED, baked ++ plain_header)
          end
      | _, _ =>
          match all_params v with
          | None => (EXIT_FAILED, plain_header)
          | Some t => (0%Z, plain_header ++ print_int (apr_table_do (dump_table gap) 0%Z t None))
          end
      end
  | foo, bar => (0%Z, plain_header ++ shown (str "foo") foo ++ shown (str "bar") bar)
  end.

Theorem test_cgi_refines_spec gap req : ok req -> test_cgi_main gap req = Ok (test_cgi_spec gap (see req)).
Proof.
  intros Hok. unfold test_cgi_main, test_cgi_spec. remember (see req) as v eqn:Hv. symmetry in Hv.
  destruct (param_shown req v (str "foo") Hok Hv) as (r1 & -> & Hok1 & Hv1). cbn [obind].
  destruct (param_shown r1 v (str "bar") Hok1 Hv1) as (r2 & -> & Hok2 & Hv2). cbn [obind].
  destruct (param_shown r2 v (str "test") Hok2 Hv2) as (r3 & -> & Hok3 & Hv3). cbn [obind].
  destruct (param_shown r3 v (str "key") Hok3 Hv3) as (r4 & -> & Hok4 & Hv4). cbn [obind].
  assert (Hcount : count_part gap r4 = Ok (match all_params v with
    | None => (EXIT_FAILED, plain_header)
    | Some t => (0%Z, plain_header ++ print_int (apr_table_do (dump_table gap) 0%Z t None)) end)).
  { unfold count_part. destruct (params_shown r4 v Hok4 Hv4) as (r5 & -> & _). cbn [obind].
    by destruct (all_params v). }
  destruct (param_in v (str "foo")), (param_in v (str "bar")); try done.
  destruct (param_in v (str "test")) as [test|], (param_in v (str "key")) as [key|]; try exact Hcount.
  unfold cookie_part. destruct (fe_jar_get r4 (cstr (p_data key)) Hok4) as (r5 & -> & _). rewrite Hv4.
  cbn [obind]. destruct (first_of (v_jar v).2 _) as [cookie|]; [|done].
  destruct (apreq_decode _ _) as [s dest]. by destruct (s =? APR_SUCCESS)%Z.
Qed.

End Shown.
End Samples.
