(* ===== verification/RTable.v ===== *)
(** * R values and the lists handed to R ([src/mod_R.c])

    The R objects the module builds and reads, and the conversion of an APR
    table into a named R list. *)
From S2P Require Import Prelude Apr Url Brigade Param.

(** An R object, as far as the module looks at it.  Doubles are their 64-bit
    patterns, complex numbers pairs of them. *)
#[warnings="-register-all"]
Inductive SEXP :=
  | RNil
  | RStr (l : list bytes)
  | RLgl (l : list Z)
  | RInt (l : list Z)
  | RReal (l : list Z)
  | RCplx (l : list (Z * Z))
  | RRaw (l : bytes)
  | RList (l : list SEXP) (names : list bytes)
  | RClassed (cls : list bytes) (x : SEXP)     (** with a class attribute *)
  | RLang (id : nat)                           (** a call *)
  | RExprs (ids : list nat)                    (** an expression vector *)
  | RFun (id : nat)                            (** a function *)
  | REnvir (e : nat).                          (** an environment *)

(** [mkChar(v)]: a C string. *)
Definition mkString (v : bytes) : SEXP := RStr [v].

Definition NewLogical (tf : bool) : SEXP := RLgl [if tf then 1 else 0]%Z.
Definition NewInteger (i : Z) : SEXP := RInt [i].

(** [length(x)] *)
Fixpoint r_length (x : SEXP) : nat :=
  match x with
  | RNil => 0
  | RStr l => length l
  | RLgl l | RInt l | RReal l => length l
  | RCplx l => length l
  | RRaw l => length l
  | RList l _ => length l
  | RClassed _ x => r_length x
  | RExprs l => length l
  | RLang _ | RFun _ => 1
  | REnvir _ => 0
  end.

(** The vector itself, whatever its class: what [TYPEOF] sees. *)
Fixpoint unclassed (x : SEXP) : SEXP :=
  match x with RClassed _ x => unclassed x | _ => x end.

(** The elements of a character vector; [NULL] has none. *)
Definition string_elts (x : SEXP) : list bytes :=
  match x with RStr l => l | _ => [] end.

(** ** Tables *)

(** [struct TableCtx]: the elements set so far; [size] is their number. *)
Record TableCtx := Ctx { ctx_list : list SEXP; ctx_names : list bytes }.

Definition ctx_size (c : TableCtx) : nat := length (ctx_list c).

Definition ctx_push (c : TableCtx) (n : bytes) (v : SEXP) : TableCtx :=
  Ctx (ctx_list c ++ [v]) (ctx_names c ++ [n]).

(** [if (!v || !strcmp(v,""))] *)
Definition value_of (v : bytes) : SEXP :=
  match v with [] => RNil | _ => mkString v end.

Definition TableCallback (c : TableCtx) (n v : bytes) : TableCtx * bool :=
  (ctx_push c n (value_of v), true).

(** [nlen > 2 && n[nlen-2] == '[' && n[nlen-1] == ']']: the name without the
    brackets. *)
Definition array_name (n : bytes) : option bytes :=
  let nlen := length n in
  if (2 <? nlen) && (nth (nlen - 2) n x00 =b? "[") && (nth (nlen - 1) n x00 =b? "]")
  then Some (take (nlen - 2) n) else None.

(** The loop over [ctx->names]. *)
Fixpoint find_name (names : list bytes) (s : bytes) : option nat :=
  match names with
  | [] => None
  | x :: names => if bool_decide (x = s) then Some 0 else S <$> find_name names s
  end.

Definition ParamsCallback (c : TableCtx) (n v : bytes) : TableCtx * bool :=
  match array_name n with
  | Some key =>
      match find_name (ctx_names c) key with
      | Some i =>
          let old := default RNil (ctx_list c !! i) in
          (Ctx (<[i := RStr (string_elts old ++ [v])]> (ctx_list c)) (ctx_names c), true)
      | None => (ctx_push c key (value_of v), true)
      end
  | None => (ctx_push c n (value_of v), true)
  end.

Section Tables.
Context {T : AprTable}.

(** The list has as many elements as were set; without entries it is [NULL]. *)
Definition AprTableToList (t : option (apr_table bytes))
    (callback : TableCtx -> bytes -> bytes -> TableCtx * bool) : SEXP :=
  match t with
  | None => RNil
  | Some t =>
      let len := length (apr_table_elts t) in
      if len =? 0 then RNil
      else
        let c := apr_table_do callback (Ctx [] []) t None in
        if ctx_size c <? len
        then RList (take (ctx_size c) (ctx_list c)) (take (ctx_size c) (ctx_names c))
        else RList (ctx_list c) (ctx_names c)
  end.

(** A table of parameters holds their values as C strings. *)
Definition params_table (l : list (bytes * apreq_param_t)) : apr_table bytes :=
  foldl (fun t e => apr_table_add t e.1 (cstr (p_data e.2))) apr_table_make l.

(** ** Uploads *)

(** The name and the size of the temporary file of an upload, when APR can give
    them. *)
Context (file_info : bytes -> option (bytes * nat)).

Record RApacheFileUploads := Uploads { fu_files : list SEXP; fu_names : list bytes }.

Definition FileUploadsCallback (pf : RApacheFileUploads) (key : bytes) (p : apreq_param_t)
  : RApacheFileUploads * bool :=
  let f := apreq_brigade_spoolfile (default [] (p_upload p)) in
  let elem :=
    match f ≫= file_info with
    | Some (fname, size) =>
        if size =? 0 then RNil
        else RList [RStr [cstr (p_data p)]; RStr [fname]] [str "name"; str "tmp_name"]
    | None => RNil
    end in
  (Uploads (fu_files pf ++ [elem]) (fu_names pf ++ [key]), true).

Definition uploads_list (t : apr_table apreq_param_t) : SEXP :=
  let uploads := apreq_uploads t in
  if length (apr_table_elts uploads) =? 0 then RNil
  else
    let fu := apr_table_do FileUploadsCallback (Uploads [] []) uploads None in
    RList (fu_files fu) (fu_names fu).

End Tables.

(** * Properties *)

(** The values of the array parameter [k]: those of the entries [k[]]. *)
Definition array_values (k : bytes) (l : list (bytes * bytes)) : list bytes :=
  map snd (List.filter (fun e => bool_decide (array_name e.1 = Some k)) l).

(** How R sees them: an empty first value counts as no value. *)
Definition r_values (vs : list bytes) : SEXP :=
  match vs with
  | [] => RNil
  | [] :: [] => RNil
  | [] :: vs => RStr vs
  | vs => RStr vs
  end.

Definition run_params (c : TableCtx) (l : list (bytes * bytes)) : TableCtx :=
  do_entries ParamsCallback c l.

Lemma find_name_Some names s i :
  find_name names s = Some i -> names !! i = Some s /\ (forall j, j < i -> names !! j <> Some s).
Proof.
  revert i. induction names as [|x names IH]; intros i; cbn; [done|].
  case_bool_decide as Hx.
  - intros [= <-]. subst. split; [done|lia].
  - destruct (find_name names s) as [k|]; cbn; [|done]. intros [= <-].
    destruct (IH k eq_refl) as [H1 H2]. split; [done|].
    intros [|j] Hj; cbn; [congruence|]. apply H2. lia.
Qed.

Lemma find_name_None names s : find_name names s = None -> s ∉ names.
Proof.
  induction names as [|x names IH]; cbn; [set_solver|].
  case_bool_decide as Hx; [done|]. destruct (find_name names s); [done|].
  specialize (IH eq_refl). set_solver.
Qed.

Lemma find_name_snoc_ne names n s :
  n <> s -> find_name (names ++ [n]) s = find_name names s.
Proof.
  intros Hn. induction names as [|x names IH]; cbn; [by rewrite bool_decide_false|].
  case_bool_decide; [done|]. by rewrite IH.
Qed.

Lemma find_name_snoc_new names s :
  find_name names s = None -> find_name (names ++ [s]) s = Some (length names).
Proof.
  induction names as [|x names IH]; cbn; [by rewrite bool_decide_true|].
  case_bool_decide as Hx; [done|]. destruct (find_name names s); [done|].
  intros _. by rewrite IH.
Qed.

(** The two vectors have one length. *)
Definition ctx_ok (c : TableCtx) : Prop := length (ctx_names c) = length (ctx_list c).

Lemma params_callback_ok c n v : ctx_ok c -> ctx_ok (ParamsCallback c n v).1.
Proof.
  unfold ctx_ok, ParamsCallback. intros Hc. destruct (array_name n) as [key|].
  - destruct (find_name _ key); cbn; rewrite ?length_insert, ?length_app; cbn; lia.
  - cbn. rewrite !length_app. cbn. lia.
Qed.

Lemma params_callback_size c n v :
  ctx_size (ParamsCallback c n v).1 <= S (ctx_size c).
Proof.
  unfold ctx_size, ParamsCallback. destruct (array_name n) as [key|].
  - destruct (find_name _ key); cbn; rewrite ?length_insert, ?length_app; cbn; lia.
  - cbn. rewrite length_app. cbn. lia.
Qed.

Lemma run_params_cons c n v l :
  run_params c ((n, v) :: l) = run_params (ParamsCallback c n v).1 l.
Proof.
  unfold run_params. cbn [do_entries].
  assert (Hb : (ParamsCallback c n v).2 = true)
    by (unfold ParamsCallback; destruct (array_name n); [destruct (find_name _ _)|]; done).
  destruct (ParamsCallback c n v) as [c' b]. cbn in *. by subst b.
Qed.

Lemma run_params_size c l :
  ctx_size (run_params c l) <= ctx_size c + length l.
Proof.
  revert c. induction l as [|[n v] l IH]; intros c; [cbn; lia|].
  rewrite run_params_cons. pose proof (IH (ParamsCallback c n v).1) as H1.
  pose proof (params_callback_size c n v). cbn [length]. lia.
Qed.

Lemma run_params_ok c l : ctx_ok c -> ctx_ok (run_params c l).
Proof.
  revert c. induction l as [|[n v] l IH]; intros c Hc; [done|].
  rewrite run_params_cons. apply IH, params_callback_ok, Hc.
Qed.

(** The element named [k], when no entry has that very name. *)
Definition lookup_name (c : TableCtx) (k : bytes) : option SEXP :=
  i ← find_name (ctx_names c) k; ctx_list c !! i.

Lemma lookup_push_ne c n v k :
  ctx_ok c -> n <> k -> lookup_name (ctx_push c n v) k = lookup_name c k.
Proof.
  intros Hc Hn. unfold lookup_name, ctx_push. cbn. rewrite find_name_snoc_ne by done.
  destruct (find_name (ctx_names c) k) as [i|] eqn:Ei; cbn; [|done].
  apply find_name_Some in Ei as [Hi _]. apply lookup_lt_Some in Hi.
  rewrite lookup_app_l by (unfold ctx_ok in Hc; lia). done.
Qed.

Lemma array_name_ne n k : array_name n <> Some k -> forall key, array_name n = Some key -> key <> k.
Proof. congruence. Qed.

(** One entry, as the element named [k] sees it. *)
Lemma params_callback_lookup c n v k :
  ctx_ok c -> (array_name n = None -> n <> k) ->
  lookup_name (ParamsCallback c n v).1 k =
    if bool_decide (array_name n = Some k) then
      Some (match lookup_name c k with
            | Some old => RStr (string_elts old ++ [v])
            | None => value_of v
            end)
    else lookup_name c k.
Proof.
  intros Hc Hk. unfold ParamsCallback. destruct (array_name n) as [key|] eqn:En.
  - case_bool_decide as Hkey.
    + injection Hkey as ->. destruct (find_name (ctx_names c) k) as [i|] eqn:Ei.
      * pose proof (find_name_Some _ _ _ Ei) as [Hi _]. apply lookup_lt_Some in Hi.
        unfold ctx_ok in Hc.
        unfold lookup_name. cbn. rewrite Ei. cbn. rewrite list_lookup_insert_eq by lia.
        destruct (ctx_list c !! i) as [old|] eqn:Eo; cbn; [done|].
        apply lookup_ge_None in Eo. lia.
      * unfold lookup_name at 1, ctx_push. cbn. rewrite find_name_snoc_new by done. cbn.
        rewrite Hc, lookup_app_r, Nat.sub_diag by lia. cbn.
        unfold lookup_name. by rewrite Ei.
    + assert (Hne : key <> k) by congruence.
      destruct (find_name (ctx_names c) key) as [i|] eqn:Ei; [|by apply lookup_push_ne].
      unfold lookup_name. cbn. destruct (find_name (ctx_names c) k) as [j|] eqn:Ej; cbn; [|done].
      rewrite list_lookup_insert_ne; [done|]. intros ->.
      apply find_name_Some in Ei as [Hi _]. apply find_name_Some in Ej as [Hj _]. congruence.
  - rewrite bool_decide_false by done. apply lookup_push_ne; [done|]. by apply Hk.
Qed.

Lemma run_params_lookup c l k :
  ctx_ok c -> Forall (fun e => array_name e.1 = None -> e.1 <> k) l ->
  lookup_name (run_params c l) k =
    match lookup_name c k, array_values k l with
    | None, [] => None
    | None, vs => Some (r_values vs)
    | Some old, [] => Some old
    | Some old, vs => Some (RStr (string_elts old ++ vs))
    end.
Proof.
  revert c. induction l as [|[n v] l IH]; intros c Hc Hl.
  { cbn. by destruct (lookup_name c k). }
  inversion Hl as [|? ? Hn Hl']; subst. cbn in Hn. rewrite run_params_cons.
  rewrite IH by (try apply params_callback_ok; done).
  rewrite params_callback_lookup by done. unfold array_values. cbn [List.filter fst].
  case_bool_decide as Hk.
  - cbn [map snd]. destruct (lookup_name c k) as [old|].
    + destruct (map snd _); cbn; [done|by rewrite <- app_assoc].
    + destruct (map snd _) as [|w ws]; destruct v as [|b v]; cbn; done.
  - done.
Qed.

Section Claims.
Context {T : AprTable}.

(** The list R gets for query or body parameters never has more elements
    than the table has entries (the size the vectors were allocated with), and
    the values sent as [k[]], [k[]], ... are gathered, in the order they were
    sent, in the one element named [k]. *)
Lemma params_to_list (t : apr_table bytes) (k : bytes) :
  Forall (fun e => array_name e.1 = None -> e.1 <> k) (apr_table_elts t) ->
  array_values k (apr_table_elts t) <> [] ->
  exists l names i,
    AprTableToList (Some t) ParamsCallback = RList l names /\
    length l = length names /\ length l <= length (apr_table_elts t) /\
    names !! i = Some k /\ l !! i = Some (r_values (array_values k (apr_table_elts t))).
Proof.
  intros Hk Hne. unfold AprTableToList. rewrite do_elts. cbn [key_filter].
  change (do_entries ParamsCallback) with run_params.
  set (l := apr_table_elts t) in *. set (c := run_params (Ctx [] []) l).
  assert (Hlen : (length l =? 0) = false).
  { apply Nat.eqb_neq. by destruct l. }
  rewrite Hlen.
  assert (Hok : ctx_ok c) by (by apply run_params_ok).
  pose proof (run_params_size (Ctx [] []) l) as Hsz. fold c in Hsz. cbn [ctx_size ctx_list length] in Hsz.
  pose proof (run_params_lookup (Ctx [] []) l k eq_refl Hk) as Hlk. fold c in Hlk.
  change (lookup_name (Ctx [] []) k) with (@None SEXP) in Hlk.
  destruct (array_values k l) as [|v vs] eqn:Ev; [done|].
  unfold lookup_name in Hlk. destruct (find_name (ctx_names c) k) as [i|] eqn:Ei; [|done].
  cbn in Hlk. apply find_name_Some in Ei as [Hi _].
  exists (ctx_list c), (ctx_names c), i. split_and!; try done.
  destruct (ctx_size c <? length l); [|done]. unfold ctx_size.
  unfold ctx_ok in Hok. by rewrite !take_ge by lia.
Qed.

End Claims.

Lemma params_to_list_witness :
  let t := [(str "a[]", str "1"); (str "b", str "2"); (str "a[]", str "3")] in
  exists l names i,
    AprTableToList (T := list_table) (Some t) ParamsCallback = RList l names /\
    length l = length names /\ length l <= 3 /\
    names !! i = Some (str "a") /\ l !! i = Some (RStr [str "1"; str "3"]).
Proof.
  apply (params_to_list (T := list_table)
    [(str "a[]", str "1"); (str "b", str "2"); (str "a[]", str "3")] (str "a")).
  - repeat constructor; cbn; done.
  - vm_compute. done.
Defined.
