(* ===== verification/SendBin.v ===== *)
(** * Binary output ([swapb], [RApache_sendBin] of [src/mod_R.c])

    Vectors are sent in the memory layout of a little-endian machine; doubles
    are their 64-bit patterns. *)
From S2P Require Import Prelude Apr RTable.

(** ** swapb *)

(** The [n] turns of the loop from index [i]. *)
Fixpoint swap_loop (n i size : nat) (p : bytes) : bytes :=
  match n with
  | O => p
  | S n =>
      let a := nth i p x00 in
      let b := nth (size - i - 1) p x00 in
      swap_loop n (S i) size (<[size - i - 1 := a]> (<[i := b]> p))
  end.

Definition swapb (p : bytes) (size : nat) : bytes :=
  if size =? 1 then p else swap_loop (size / 2) 0 size p.

(** ** Elements *)

(** The [n] bytes of an integer cast to that width. *)
Fixpoint le_bytes (n : nat) (z : Z) : bytes :=
  match n with O => [] | S n => bz z :: le_bytes n (z / 256) end.

Definition NA_INTEGER : Z := (- 2 ^ 31)%Z.

(** [for (i = 0; i < len; i++) swapb(buf + size*i, size)] *)
Fixpoint swap_each (n size : nat) (buf : bytes) : bytes :=
  match n with
  | O => buf
  | S n => swapb (take size buf) size ++ swap_each n size (drop size buf)
  end.

Inductive send_result :=
  | SendError                  (** an R error *)
  | SendNothing                (** an empty vector *)
  | SendBytes (buf : bytes).

Section Send.

(** The C type widths of the build that are optional, and the conversions of
    the floating-point unit. *)
Context (has_long8 has_long_double : bool) (float_bits : Z -> Z) (long_double_bits : Z -> Z)
        (translateChar : bytes -> bytes).

Definition or_default (size d : Z) : Z := if (size =? NA_INTEGER)%Z then d else size.

(** The layout of a numeric vector: the number of elements, the bytes and the
    width the bytes are swapped by; [None]: an R error. *)
Definition layout (object : SEXP) (size : Z) : option (nat * bytes * nat) :=
  match object with
  | RLgl l | RInt l =>
      let size := or_default size 4 in
      if bool_decide (size ∈ [1; 2; 4]%Z) || ((size =? 8)%Z && has_long8)
      then let s := Z.to_nat size in
           Some (length l, flat_map (le_bytes s) l, s)
      else None
  | RReal l =>
      let size := or_default size 8 in
      if (size =? 8)%Z then Some (length l, flat_map (le_bytes 8) l, 8)
      else if (size =? 4)%Z then Some (length l, flat_map (fun x => le_bytes 4 (float_bits x)) l, 4)
      else if (size =? 16)%Z && has_long_double
      then Some (length l, flat_map (fun x => le_bytes 16 (long_double_bits x)) l, 16)
      else None
  | RCplx l =>
      if (or_default size 16 =? 16)%Z
      then Some (2 * length l, flat_map (fun c => le_bytes 8 c.1 ++ le_bytes 8 c.2) l, 8)
      else None
  | RRaw l => if (or_default size 1 =? 1)%Z then Some (length l, l, 1) else None
  | _ => None
  end.

Definition is_atomic (x : SEXP) : bool :=
  match x with
  | RStr _ | RLgl _ | RInt _ | RReal _ | RCplx _ | RRaw _ => true
  | _ => false
  end.

(** [swap] is [asLogical(sswap)]: [None] is NA. *)
Definition sendBin (object : SEXP) (size : Z) (swap : option bool) : send_result :=
  let object := unclassed object in
  if negb (is_atomic object) then SendError
  else match swap with
  | None => SendError
  | Some swap =>
      if r_length object =? 0 then SendNothing
      else match object with
      | RStr l => SendBytes (flat_map (fun s => cstr (translateChar s)) l)
      | _ =>
          match layout object size with
          | None => SendError
          | Some (n, buf, width) =>
              SendBytes (if swap && (1 <? width) then swap_each n width buf else buf)
          end
      end
  end.

End Send.

(** * Properties *)

Definition of_le (b : bytes) : Z := foldr (fun x acc => zb x + 256 * acc)%Z 0%Z b.
Definition of_be (b : bytes) : Z := of_le (rev b).

Lemma of_le_bytes n z : of_le (le_bytes n z) = (z mod 2 ^ (8 * Z.of_nat n))%Z.
Proof.
  revert z. induction n as [|n IH]; intros z.
  { cbn. by rewrite Z.mod_1_r. }
  cbn [le_bytes of_le foldr]. change (foldr _ 0%Z (le_bytes n (z / 256))) with (of_le (le_bytes n (z / 256))).
  rewrite IH, zb_bz.
  replace (8 * Z.of_nat (S n))%Z with (8 + 8 * Z.of_nat n)%Z by lia.
  rewrite Z.pow_add_r by lia. change (2 ^ 8)%Z with 256%Z.
  rewrite Z.rem_mul_r by (try apply Z.pow_nonzero; lia). lia.
Qed.

Lemma le_bytes_length n z : length (le_bytes n z) = n.
Proof. revert z. induction n as [|n IH]; intros z; cbn; [done|by rewrite IH]. Qed.

(** The state of the buffer inside the loop: what is outside [i .. size-i-1] is
    already reversed. *)
Lemma swap_loop_lookup n i size p j :
  length p = size -> 2 * (i + n) <= size -> j < size ->
  swap_loop n i size p !! j =
    if (i <=? j) && (j <? i + n) || (size - (i + n) <=? j) && (j <? size - i)
    then p !! (size - 1 - j) else p !! j.
Proof.
  revert i p. induction n as [|n IH]; intros i p Hp Hn Hj; cbn [swap_loop].
  { destruct (_ || _) eqn:Eb; [|done].
    rewrite orb_true_iff, !andb_true_iff, !Nat.leb_le, !Nat.ltb_lt in Eb. lia. }
  set (q := <[size - i - 1 := nth i p x00]> (<[i := nth (size - i - 1) p x00]> p)).
  assert (Hq : length q = size) by (unfold q; by rewrite !length_insert).
  assert (Hnth : forall k, k < size -> p !! k = Some (nth k p x00)).
  { intros k Hk. destruct (lookup_lt_is_Some_2 p k ltac:(lia)) as [x Hx].
    by rewrite nth_lookup, Hx. }
  rewrite IH by lia.
  assert (Hqk : forall k, k < size -> q !! k =
    if k =? i then p !! (size - i - 1) else if k =? size - i - 1 then p !! i else p !! k).
  { intros k Hk. unfold q. destruct (k =? i) eqn:E1.
    - apply Nat.eqb_eq in E1 as ->. destruct (decide (size - i - 1 = i)) as [He|He].
      + rewrite He, list_lookup_insert_eq by (rewrite length_insert; lia). by rewrite Hnth by lia.
      + rewrite list_lookup_insert_ne, list_lookup_insert_eq by (done || lia).
        by rewrite (Hnth (size - i - 1)) by lia.
    - apply Nat.eqb_neq in E1. destruct (k =? size - i - 1) eqn:E2.
      + apply Nat.eqb_eq in E2 as ->. rewrite list_lookup_insert_eq by (rewrite length_insert; lia).
        by rewrite Hnth by lia.
      + apply Nat.eqb_neq in E2. by rewrite !list_lookup_insert_ne by lia. }
  rewrite !Hqk by lia.
  repeat match goal with
  | |- context [?a <=? ?b] => destruct (a <=? b) eqn:?; cbn [andb orb]
  | |- context [?a <? ?b] => destruct (a <? b) eqn:?; cbn [andb orb]
  | |- context [?a =? ?b] => destruct (a =? b) eqn:?; cbn [andb orb]
  end;
  repeat match goal with
  | H : (_ <=? _) = true |- _ => apply Nat.leb_le in H
  | H : (_ <=? _) = false |- _ => apply Nat.leb_gt in H
  | H : (_ <? _) = true |- _ => apply Nat.ltb_lt in H
  | H : (_ <? _) = false |- _ => apply Nat.ltb_ge in H
  | H : (_ =? _) = true |- _ => apply Nat.eqb_eq in H
  | H : (_ =? _) = false |- _ => apply Nat.eqb_neq in H
  end; try (exfalso; lia); try done; f_equal; lia.
Qed.

Lemma swap_loop_length n i size p : length (swap_loop n i size p) = length p.
Proof. revert i p. induction n as [|n IH]; intros i p; cbn; [done|]. by rewrite IH, !length_insert. Qed.

(** Swapping reverses the bytes. *)
Lemma swapb_rev p : swapb p (length p) = rev p.
Proof.
  unfold swapb. destruct (length p =? 1) eqn:E1.
  { apply Nat.eqb_eq in E1. by destruct p as [|a [|b p]]. }
  apply list_eq. intros j. change (rev p) with (List.rev p).
  pose proof (Nat.div_mod_eq (length p) 2) as Hd.
  pose proof (Nat.mod_upper_bound (length p) 2 ltac:(lia)) as Hm.
  destruct (decide (j < length p)) as [Hj|Hj].
  - rewrite (swap_loop_lookup (length p / 2) 0 (length p) p j) by lia.
    assert (Hr : List.rev p !! j = p !! (length p - 1 - j)).
    { rewrite rev_alt. change (rev_append p []) with (reverse p).
      rewrite reverse_lookup by lia. f_equal. lia. }
    rewrite Hr. destruct (_ || _) eqn:Eb; [done|].
    rewrite orb_false_iff, !andb_false_iff, !Nat.leb_gt, !Nat.ltb_ge in Eb.
    f_equal. lia.
  - rewrite !lookup_ge_None_2; [done|rewrite length_rev; lia|rewrite swap_loop_length; lia].
Qed.

(** The elements of a vector laid out in [width] bytes each. *)
Fixpoint chunks (n width : nat) (buf : bytes) : list bytes :=
  match n with O => [] | S n => take width buf :: chunks n width (drop width buf) end.

Lemma swap_each_chunks n width buf :
  length buf = n * width -> chunks n width (swap_each n width buf) = map (@rev _) (chunks n width buf)
  /\ length (swap_each n width buf) = n * width.
Proof.
  revert buf. induction n as [|n IH]; intros buf Hb; [by destruct buf|].
  cbn [swap_each chunks map]. cbn [Nat.mul] in Hb.
  assert (Ht : length (take width buf) = width) by (rewrite length_take; lia).
  assert (Hs : swapb (take width buf) width = rev (take width buf)).
  { rewrite <- Ht at 2. apply swapb_rev. }
  destruct (IH (drop width buf) ltac:(rewrite length_drop; lia)) as [IH1 IH2].
  rewrite Hs. assert (Hl : length (rev (take width buf)) = width) by (by rewrite length_rev).
  split.
  - rewrite take_app_le, take_ge by lia. rewrite drop_app_ge, Hl, Nat.sub_diag, drop_0 by lia.
    by rewrite IH1.
  - rewrite length_app, Hl, IH2. lia.
Qed.

Lemma chunks_flat_map {A} (f : A -> bytes) width l :
  (forall x, length (f x) = width) ->
  chunks (length l) width (flat_map f l) = map f l /\ length (flat_map f l) = length l * width.
Proof.
  intros Hf. induction l as [|x l [IH1 IH2]]; [done|]. cbn [length flat_map chunks map Nat.mul].
  rewrite length_app, Hf, IH2. rewrite take_app_le, take_ge by (rewrite Hf; lia).
  rewrite drop_app_ge, Hf, Nat.sub_diag, drop_0 by (rewrite Hf; lia). by rewrite IH1.
Qed.

Section Claims.
Context (has_long8 has_long_double : bool) (float_bits : Z -> Z) (long_double_bits : Z -> Z)
        (translateChar : bytes -> bytes).
Abbreviation send := (sendBin has_long8 has_long_double float_bits long_double_bits translateChar).

(** C35: an integer vector sent with a width of 1, 2 or 4 bytes (4 when it is not
    given) reads back, element by element, as the integers cut to that width:
    in little-endian order, and in big-endian order when a swap is asked for. *)
Theorem sendBin_integers (l : list Z) (size : Z) (swap : bool) :
  l <> [] -> size ∈ [1; 2; 4; NA_INTEGER]%Z ->
  let width := Z.to_nat (or_default size 4) in
  exists buf, send (RInt l) size (Some swap) = SendBytes buf /\
    length buf = length l * width /\
    map (if swap then of_be else of_le) (chunks (length l) width buf) =
      map (fun z => z mod 2 ^ (8 * Z.of_nat width))%Z l.
Proof.
  intros Hl Hs. cbn zeta. unfold sendBin. cbn [unclassed is_atomic negb r_length].
  assert ((length l =? 0) = false) as -> by (apply Nat.eqb_neq; by destruct l).
  cbn [layout].
  assert (Hw : or_default size 4 ∈ [1; 2; 4]%Z).
  { unfold or_default. destruct (size =? NA_INTEGER)%Z eqn:En; [set_solver|].
    apply Z.eqb_neq in En. set_solver. }
  rewrite bool_decide_true by done. cbn [orb].
  set (w := Z.to_nat (or_default size 4)).
  destruct (chunks_flat_map (le_bytes w) w l (le_bytes_length w)) as [Hc Hlen].
  assert (Hmod : map of_le (map (le_bytes w) l) = map (fun z => z mod 2 ^ (8 * Z.of_nat w))%Z l).
  { rewrite map_map. apply map_ext. intros z. apply of_le_bytes. }
  eexists. split; [done|]. destruct swap; cbn [andb]; [destruct (1 <? w) eqn:E1|].
  - destruct (swap_each_chunks (length l) w (flat_map (le_bytes w) l) Hlen) as [Hsc Hsl].
    split; [done|]. rewrite Hsc, Hc, map_map, <- Hmod. rewrite !map_map. apply map_ext. intros z.
    unfold of_be. by rewrite rev_involutive.
  - split; [done|]. rewrite Hc, <- Hmod, !map_map. apply map_ext. intros z. unfold of_be.
    apply Nat.ltb_ge in E1. pose proof (le_bytes_length w z) as Hz.
    destruct (le_bytes w z) as [|a [|b r]]; cbn in Hz; try done; lia.
  - split; [done|]. by rewrite Hc.
Qed.

End Claims.

Lemma sendBin_integers_witness :
  exists buf, sendBin false false id id id (RInt [258; -1]%Z) 2 (Some true) = SendBytes buf /\
    length buf = 4 /\ map of_be (chunks 2 2 buf) = [258; 65535]%Z.
Proof.
  apply (sendBin_integers false false id id id [258; -1]%Z 2 true); [done|set_solver].
Defined.
