(* ===== verification/RState.v ===== *)
(** * The state of the module and its output ([src/mod_R.c])

    The globals of mod_R.c ([MR_*]), the request, and the functions every other
    part uses: the console, the error brigade and the reading of the request
    body.  R, Apache and the operating system are parameters. *)
From S2P Require Import Prelude Apr Url Brigade Param Cookie RTable.

(** ** Computations

    A computation changes the state and returns, or ends the process with
    [exit(-1)], or touches memory it must not, or nests more evaluations than
    the bound it is run with. *)
Inductive outcome (W A : Type) :=
  | Ret (a : A) (w : W)
  | Exit (w : W)
  | Crash (w : W)
  | TooDeep.
Arguments Ret {W A}.
Arguments Exit {W A}.
Arguments Crash {W A}.
Arguments TooDeep {W A}.

Definition M (W A : Type) : Type := W -> outcome W A.
Definition ret {W A} (a : A) : M W A := fun w => Ret a w.
Definition bind {W A B} (m : M W A) (k : A -> M W B) : M W B :=
  fun w => match m w with
  | Ret a w => k a w
  | Exit w => Exit w
  | Crash w => Crash w
  | TooDeep => TooDeep
  end.
Definition get {W A} (f : W -> A) : M W A := fun w => Ret (f w) w.
Definition modify {W} (f : W -> W) : M W unit := fun w => Ret tt (f w).
Definition do_exit {W A} : M W A := fun w => Exit w.
Definition do_crash {W A} : M W A := fun w => Crash w.

Notation "'let*' x := m 'in' k" := (bind m (fun x => k))
  (at level 10, x pattern, m at level 100, k at level 200) : c_scope.
Notation "m ;; k" := (bind m (fun _ => k)) (at level 100, right associativity) : c_scope.

(** ** Parameters *)

(** The request body, as [ap_get_brigade] hands it out: at most [n] bytes at a
    time, in order, then the end of the stream. *)
Class ApInput (In : Type) := {
  in_rest : In -> bytes;
  in_get : In -> nat -> Z * brigade * In;
  in_get_data : forall i n s bb i', in_get i n = (s, bb, i') -> s = APR_SUCCESS ->
    in_rest i = brigade_data bb ++ in_rest i' /\ length (brigade_data bb) <= n /\
    forallb readable bb = true /\
    (brigade_data bb = [] -> last_is_eos bb = true)
}.

(** An R program, as the module sees it: it calls the C functions of the module
    and the console, goes on with what they return ([None]: an R error) and with
    the state of the interpreter after the call, and ends with its value or with
    an error. *)
Inductive r_op :=
  | OpSetHeader (header value : SEXP)
  | OpSetStatus (status : SEXP)
  | OpSetContentType (stype : SEXP)
  | OpSetCookie (sname svalue sexpires spath sdomain therest : SEXP)
  | OpUrlEnDecode (s enc : SEXP)
  | OpRApacheInfo
  | OpParseGet | OpParsePost | OpParseFiles | OpParseCookies | OpGetServer
  | OpSendBin (object ssize sswap : SEXP)
  | OpReceiveBin (llen : SEXP)
  | OpInternals (sstr : SEXP)
  | OpWrite (buf : bytes) (errorFlag : bool)
  | OpRead (size : Z)
  | OpSetwd (dir : bytes).       (** R's own [setwd]: the directory is the process's *)

Inductive r_prog (S : Type) :=
  | RDone (st : S) (val : SEXP) (err : bool)
  | RCall (st : S) (op : r_op) (k : S -> option SEXP -> r_prog S).
Arguments RDone {S}.
Arguments RCall {S}.

(** Environments are known by number; [R_GlobalEnv] is 0, [MR_RApacheEnv] 1. *)
Abbreviation r_env := nat (only parsing).

(** What a name is bound to. *)
Inductive r_binding := Unbound | Bound (x : SEXP) | Promise (id : nat).

Class REngine := {
  R_state : Type;
  r_parse : R_state -> bytes -> r_prog R_state;         (** [parse('', NULL, text)] *)
  r_eval : R_state -> nat -> r_env -> r_prog R_state;   (** a call, or forcing a promise *)
  r_getVar : R_state -> bytes -> r_env -> r_binding;    (** with inheritance *)
  r_newEnv : R_state -> r_env * R_state;
  r_defineVar : R_state -> bytes -> SEXP -> r_env -> R_state;
  r_search : R_state -> list r_env;     (** from the parent of [R_GlobalEnv] to before [R_BaseEnv] *)
  r_set_parent : R_state -> r_env -> r_env -> R_state;
  r_lock : R_state -> r_env -> list bytes -> R_state;   (** lock all bindings but these *)
  r_asInteger : SEXP -> Z;
  r_asLogical : SEXP -> option bool;            (** [None]: NA *)
  r_coerceString : SEXP -> list bytes;          (** [coerceVector(x, STRSXP)] *)
  r_time : SEXP -> Z;                           (** [(time_t) REAL(x)[0]] *)
  asInteger_int : forall z l, r_asInteger (RInt (z :: l)) = z
}.

(** ** Types of mod_R.c *)

Inductive RApacheHandlerType := R_HANDLER | R_SCRIPT | R_INFO.

Record RApacheDirective := Directive {
  d_file : option bytes; d_dirname : option bytes; d_function : option bytes;
  d_evalcode : option bytes; d_package : option bytes; d_handlerKey : option bytes;
  d_cmdpath : option bytes
}.

Record RApacheParsedFile := ParsedFile {
  pf_exprs : option SEXP; pf_envir : option r_env; pf_mtime : Z
}.

(** [h_parsedFile] is the key of the file in the cache. *)
Record RApacheHandler := Handler {
  h_expr : option SEXP; h_envir : option r_env; h_parsedFile : option bytes;
  h_directive : option RApacheDirective
}.

Section Types.
Context {T : AprTable}.

(** The strings, numbers and flags of a [request_rec] that the module only
    hands to R. *)
Record request_info := Info {
  i_proto_num : Z; i_protocol : option bytes; i_unparsed_uri : option bytes;
  i_uri : option bytes; i_canonical_filename : option bytes; i_path_info : option bytes;
  i_content_encoding : option bytes; i_range : option bytes; i_hostname : option bytes;
  i_local_ip : option bytes; i_port : Z; i_user : option bytes;
  i_header_only : bool; i_no_cache : bool; i_no_local_copy : bool; i_assbackwards : bool;
  i_method_number : Z; i_eos_sent : bool; i_the_request : option bytes;
  i_status_line : option bytes; i_bytes_sent : Z; i_clength : Z; i_remaining : Z;
  i_read_length : Z; i_request_time : Z; i_mtime : Z; i_remote_ip : option bytes;
  i_remote_host : option bytes
}.

Record request_rec (In : Type) := Request {
  r_info : request_info;
  r_handler : bytes;
  r_method : bytes;
  r_args : option bytes;
  r_filename : bytes;
  r_headers_in : apr_table bytes;
  r_subprocess_env : apr_table bytes;
  r_directive : option RApacheDirective;    (** the per-directory configuration *)
  r_headers_out : apr_table bytes;
  r_content_type : option bytes;
  r_status : Z;
  r_input : In
}.

(** [MR_Request]; [q_r]: the request is set.  The request itself is [w_r]. *)
Record RApacheRequest := Req {
  q_r : bool;
  q_postParsed : bool;
  q_readStarted : bool;
  q_argsTable : option (apr_table apreq_param_t);
  q_postTable : option (apr_table apreq_param_t);
  q_cookiesTable : option (apr_table apreq_cookie_t);
  q_filesVar : option SEXP;
  q_serverVar : option SEXP;
  q_handler : option bytes;                 (** the key of the handler in the cache *)
  q_oldwd : option bytes
}.

Definition req_zero : RApacheRequest :=
  Req false false false None None None None None None None.

(** Which function [ptr_R_WriteConsoleEx] is. *)
Inductive console := WriteConsoleEx_f | WriteConsoleErrorOnly_f | WriteConsoleStderr_f.

Context {R : REngine} {In : Type}.

(** [MR_BBin], [MR_BBout], [MR_BBerr]: NULL, or the bytes written to them. *)
Record world := World {
  w_r : request_rec In;
  w_req : RApacheRequest;
  w_bbin : option bytes;
  w_bbout : option bytes;
  w_bberr : option bytes;
  w_mutex : option Z;                       (** NULL, or how often it is locked *)
  w_handlers : gmap bytes RApacheHandler;   (** [MR_HandlerCache] *)
  w_files : gmap bytes RApacheParsedFile;   (** [MR_ParsedFileCache] *)
  w_cwd : bytes;
  w_client : bytes;                         (** what was flushed to the client *)
  w_error_log : bytes;
  w_notices : nat;                          (** "rApache Notice!" entries of the log *)
  w_stderr : list bytes;
  w_console : console;
  w_R : R_state
}.

End Types.
Arguments request_rec {T}.
Arguments Request {T In}.
Arguments r_info {T In}.
Arguments r_handler {T In}.
Arguments r_method {T In}.
Arguments r_args {T In}.
Arguments r_filename {T In}.
Arguments r_headers_in {T In}.
Arguments r_subprocess_env {T In}.
Arguments r_directive {T In}.
Arguments r_headers_out {T In}.
Arguments r_content_type {T In}.
Arguments r_status {T In}.
Arguments r_input {T In}.
Arguments world {T R} In.

(** ** Assignments *)

Section Setters.
Context {T : AprTable} {R : REngine} {In : Type}.

Definition set_r_headers_out x (r : request_rec In) : request_rec In :=
  Request (r_info r) (r_handler r) (r_method r) (r_args r) (r_filename r) (r_headers_in r)
    (r_subprocess_env r) (r_directive r) x (r_content_type r) (r_status r) (r_input r).
Definition set_r_content_type x (r : request_rec In) : request_rec In :=
  Request (r_info r) (r_handler r) (r_method r) (r_args r) (r_filename r) (r_headers_in r)
    (r_subprocess_env r) (r_directive r) (r_headers_out r) x (r_status r) (r_input r).
Definition set_r_status x (r : request_rec In) : request_rec In :=
  Request (r_info r) (r_handler r) (r_method r) (r_args r) (r_filename r) (r_headers_in r)
    (r_subprocess_env r) (r_directive r) (r_headers_out r) (r_content_type r) x (r_input r).
Definition set_r_input x (r : request_rec In) : request_rec In :=
  Request (r_info r) (r_handler r) (r_method r) (r_args r) (r_filename r) (r_headers_in r)
    (r_subprocess_env r) (r_directive r) (r_headers_out r) (r_content_type r) (r_status r) x.
Definition set_q_r x (q : RApacheRequest) : RApacheRequest :=
  Req x (q_postParsed q) (q_readStarted q) (q_argsTable q) (q_postTable q) (q_cookiesTable q)
    (q_filesVar q) (q_serverVar q) (q_handler q) (q_oldwd q).
Definition set_q_postParsed x (q : RApacheRequest) : RApacheRequest :=
  Req (q_r q) x (q_readStarted q) (q_argsTable q) (q_postTable q) (q_cookiesTable q)
    (q_filesVar q) (q_serverVar q) (q_handler q) (q_oldwd q).
Definition set_q_readStarted x (q : RApacheRequest) : RApacheRequest :=
  Req (q_r q) (q_postParsed q) x (q_argsTable q) (q_postTable q) (q_cookiesTable q)
    (q_filesVar q) (q_serverVar q) (q_handler q) (q_oldwd q).
Definition set_q_argsTable x (q : RApacheRequest) : RApacheRequest :=
  Req (q_r q) (q_postParsed q) (q_readStarted q) x (q_postTable q) (q_cookiesTable q)
    (q_filesVar q) (q_serverVar q) (q_handler q) (q_oldwd q).
Definition set_q_postTable x (q : RApacheRequest) : RApacheRequest :=
  Req (q_r q) (q_postParsed q) (q_readStarted q) (q_argsTable q) x (q_cookiesTable q)
    (q_filesVar q) (q_serverVar q) (q_handler q) (q_oldwd q).
Definition set_q_cookiesTable x (q : RApacheRequest) : RApacheRequest :=
  Req (q_r q) (q_postParsed q) (q_readStarted q) (q_argsTable q) (q_postTable q) x
    (q_filesVar q) (q_serverVar q) (q_handler q) (q_oldwd q).
Definition set_q_filesVar x (q : RApacheRequest) : RApacheRequest :=
  Req (q_r q) (q_postParsed q) (q_readStarted q) (q_argsTable q) (q_postTable q)
    (q_cookiesTable q) x (q_serverVar q) (q_handler q) (q_oldwd q).
Definition set_q_serverVar x (q : RApacheRequest) : RApacheRequest :=
  Req (q_r q) (q_postParsed q) (q_readStarted q) (q_argsTable q) (q_postTable q)
    (q_cookiesTable q) (q_filesVar q) x (q_handler q) (q_oldwd q).
Definition set_q_handler x (q : RApacheRequest) : RApacheRequest :=
  Req (q_r q) (q_postParsed q) (q_readStarted q) (q_argsTable q) (q_postTable q)
    (q_cookiesTable q) (q_filesVar q) (q_serverVar q) x (q_oldwd q).
Definition set_q_oldwd x (q : RApacheRequest) : RApacheRequest :=
  Req (q_r q) (q_postParsed q) (q_readStarted q) (q_argsTable q) (q_postTable q)
    (q_cookiesTable q) (q_filesVar q) (q_serverVar q) (q_handler q) x.
Definition set_w_r x (w : world In) : world In :=
  World x (w_req w) (w_bbin w) (w_bbout w) (w_bberr w) (w_mutex w) (w_handlers w) (w_files w)
    (w_cwd w) (w_client w) (w_error_log w) (w_notices w) (w_stderr w) (w_console w) (w_R w).
Definition set_w_req x (w : world In) : world In :=
  World (w_r w) x (w_bbin w) (w_bbout w) (w_bberr w) (w_mutex w) (w_handlers w) (w_files w)
    (w_cwd w) (w_client w) (w_error_log w) (w_notices w) (w_stderr w) (w_console w) (w_R w).
Definition set_w_bbin x (w : world In) : world In :=
  World (w_r w) (w_req w) x (w_bbout w) (w_bberr w) (w_mutex w) (w_handlers w) (w_files w)
    (w_cwd w) (w_client w) (w_error_log w) (w_notices w) (w_stderr w) (w_console w) (w_R w).
Definition set_w_bbout x (w : world In) : world In :=
  World (w_r w) (w_req w) (w_bbin w) x (w_bberr w) (w_mutex w) (w_handlers w) (w_files w)
    (w_cwd w) (w_client w) (w_error_log w) (w_notices w) (w_stderr w) (w_console w) (w_R w).
Definition set_w_bberr x (w : world In) : world In :=
  World (w_r w) (w_req w) (w_bbin w) (w_bbout w) x (w_mutex w) (w_handlers w) (w_files w)
    (w_cwd w) (w_client w) (w_error_log w) (w_notices w) (w_stderr w) (w_console w) (w_R w).
Definition set_w_mutex x (w : world In) : world In :=
  World (w_r w) (w_req w) (w_bbin w) (w_bbout w) (w_bberr w) x (w_handlers w) (w_files w)
    (w_cwd w) (w_client w) (w_error_log w) (w_notices w) (w_stderr w) (w_console w) (w_R w).
Definition set_w_handlers x (w : world In) : world In :=
  World (w_r w) (w_req w) (w_bbin w) (w_bbout w) (w_bberr w) (w_mutex w) x (w_files w) (w_cwd w)
    (w_client w) (w_error_log w) (w_notices w) (w_stderr w) (w_console w) (w_R w).
Definition set_w_files x (w : world In) : world In :=
  World (w_r w) (w_req w) (w_bbin w) (w_bbout w) (w_bberr w) (w_mutex w) (w_handlers w) x
    (w_cwd w) (w_client w) (w_error_log w) (w_notices w) (w_stderr w) (w_console w) (w_R w).
Definition set_w_cwd x (w : world In) : world In :=
  World (w_r w) (w_req w) (w_bbin w) (w_bbout w) (w_bberr w) (w_mutex w) (w_handlers w)
    (w_files w) x (w_client w) (w_error_log w) (w_notices w) (w_stderr w) (w_console w) (w_R w).
Definition set_w_client x (w : world In) : world In :=
  World (w_r w) (w_req w) (w_bbin w) (w_bbout w) (w_bberr w) (w_mutex w) (w_handlers w)
    (w_files w) (w_cwd w) x (w_error_log w) (w_notices w) (w_stderr w) (w_console w) (w_R w).
Definition set_w_error_log x (w : world In) : world In :=
  World (w_r w) (w_req w) (w_bbin w) (w_bbout w) (w_bberr w) (w_mutex w) (w_handlers w)
    (w_files w) (w_cwd w) (w_client w) x (w_notices w) (w_stderr w) (w_console w) (w_R w).
Definition set_w_notices x (w : world In) : world In :=
  World (w_r w) (w_req w) (w_bbin w) (w_bbout w) (w_bberr w) (w_mutex w) (w_handlers w)
    (w_files w) (w_cwd w) (w_client w) (w_error_log w) x (w_stderr w) (w_console w) (w_R w).
Definition set_w_stderr x (w : world In) : world In :=
  World (w_r w) (w_req w) (w_bbin w) (w_bbout w) (w_bberr w) (w_mutex w) (w_handlers w)
    (w_files w) (w_cwd w) (w_client w) (w_error_log w) (w_notices w) x (w_console w) (w_R w).
Definition set_w_console x (w : world In) : world In :=
  World (w_r w) (w_req w) (w_bbin w) (w_bbout w) (w_bberr w) (w_mutex w) (w_handlers w)
    (w_files w) (w_cwd w) (w_client w) (w_error_log w) (w_notices w) (w_stderr w) x (w_R w).
Definition set_w_R x (w : world In) : world In :=
  World (w_r w) (w_req w) (w_bbin w) (w_bbout w) (w_bberr w) (w_mutex w) (w_handlers w)
    (w_files w) (w_cwd w) (w_client w) (w_error_log w) (w_notices w) (w_stderr w) (w_console w)
    x.

(** [MR_Request.f = ...] and [MR_Request.r->f = ...]. *)
Definition on_req (f : RApacheRequest -> RApacheRequest) (w : world In) : world In :=
  set_w_req (f (w_req w)) w.
Definition on_r (f : request_rec In -> request_rec In) (w : world In) : world In :=
  set_w_r (f (w_r w)) w.

End Setters.

(** ** Output and errors *)

Section Output.
Context {E : AprErrno} {T : AprTable} {R : REngine} {In : Type} {I : ApInput In}.
Abbreviation MW := (M (world In)).

(** [fprintf(stderr, ...)] *)
Definition to_stderr (msg : bytes) : MW unit := modify (fun w => set_w_stderr (w_stderr w ++ [msg]) w).

Definition RApacheError (msg : option bytes) : MW unit :=
  match msg with
  | None => ret tt
  | Some msg =>
      let* bb := get w_bberr in
      match bb with
      | None =>
          let* set := get (fun w => q_r (w_req w)) in
          if set : bool then
            modify (fun w => set_w_bberr (Some (cstr msg)) (set_w_notices (S (w_notices w)) w))
          else do_crash      (* [ap_log_rerror] with a NULL request *)
      | Some b => modify (set_w_bberr (Some (b ++ cstr msg)))
      end
  end.

Definition WriteConsoleStderr (buf : bytes) (errorFlag : bool) : MW unit := to_stderr (cstr buf).

(** [apr_brigade_write(MR_BBout, ...)] *)
Definition bbout_write (buf : bytes) : MW unit :=
  let* bb := get w_bbout in
  match bb with
  | Some b => modify (set_w_bbout (Some (b ++ buf)))
  | None => do_crash
  end.

Definition WriteConsoleEx (buf : bytes) (errorFlag : bool) : MW unit :=
  let* set := get (fun w => q_r (w_req w)) in
  if set : bool then
    if negb errorFlag then bbout_write buf else RApacheError (Some buf)
  else WriteConsoleStderr buf errorFlag.

Definition WriteConsoleErrorOnly (buf : bytes) (errorFlag : bool) : MW unit :=
  let* set := get (fun w => q_r (w_req w)) in
  if set : bool then RApacheError (Some buf) else WriteConsoleStderr buf errorFlag.

(** What R calls to print. *)
Definition r_write (buf : bytes) (errorFlag : bool) : MW unit :=
  let* c := get w_console in
  match c with
  | WriteConsoleEx_f => WriteConsoleEx buf errorFlag
  | WriteConsoleErrorOnly_f => WriteConsoleErrorOnly buf errorFlag
  | WriteConsoleStderr_f => WriteConsoleStderr buf errorFlag
  end.

Definition ShowMessage (s : bytes) : MW unit := r_write s true.

(** ** Reading the request body *)

Definition HUGE_STRING_LEN : nat := 8 * 1024.

(** [while (bpos < size)], with [size] as an [apr_size_t]; [acc] is what was stored
    at [buf], where there is room for [room] bytes.  [None]: more was stored. *)
Fixpoint read_loop (fuel : nat) (size room : Z) (acc : bytes) (i : In) : option (bytes * In) :=
  match fuel with
  | O => Some (acc, i)
  | S fuel =>
      let bpos := Z.of_nat (length acc) in
      if (bpos <? size)%Z then
        let len := Z.to_nat (Z.min (size - bpos) (Z.of_nat HUGE_STRING_LEN)) in
        let '(s, bb, i) := in_get i len in
        if negb (s =? APR_SUCCESS)%Z then Some (acc, i)
        else
          let d := take len (brigade_data bb) in       (* apr_brigade_flatten *)
          match d with
          | [] => Some (acc, i)
          | _ =>
              if (room <? bpos + Z.of_nat (length d))%Z then None
              else read_loop fuel size room (acc ++ d) i
          end
      else Some (acc, i)
  end.

(** The bytes stored at [buf], where there is [room].  The [int] [size] is compared
    with an [apr_size_t], and so converted: a negative one is a huge one.  Every
    turn of the loop but the last takes at least one byte of the body. *)
Definition ReadRequestBody (size room : Z) : MW bytes :=
  let* q := get w_req in
  if negb (q_r q) then do_crash      (* [ap_log_rerror] with a NULL request *)
  else if q_postParsed q then
    RApacheError (Some (str "Can't read with R since libapreq already started!")) ;; ret []
  else
    modify (on_req (set_q_readStarted true)) ;;
    modify (fun w => match w_bbin w with None => set_w_bbin (Some []) w | Some _ => w end) ;;
    let* r := get w_r in
    match read_loop (S (length (in_rest (r_input r)))) (u64 size) room [] (r_input r) with
    | None => do_crash               (* written behind the buffer *)
    | Some (d, i) => modify (on_r (set_r_input i)) ;; ret d
    end.

(** [return (int)bpos] *)
Definition read_count (d : bytes) : Z := int32 (Z.of_nat (length d)).

(** The line and its length; [buf] has [size + 1] bytes. *)
Definition ReadConsole (size : Z) : MW bytes := ReadRequestBody size (size + 1).

End Output.

(** * Properties of reading *)

Section ReadFacts.
Context {E : AprErrno} {In : Type} {I : ApInput In}.

(** Reading never fails, and yields something while the body lasts. *)
Definition in_works : Prop :=
  forall (i : In) n, (in_get i n).1.1 = APR_SUCCESS /\
    (0 < n -> in_rest i <> [] -> brigade_data (in_get i n).1.2 <> []).

Lemma in_get_take i n s bb i' :
  in_get i n = (s, bb, i') -> s = APR_SUCCESS ->
  take n (brigade_data bb) = brigade_data bb /\ in_rest i = brigade_data bb ++ in_rest i'.
Proof.
  intros Hg Hs. destruct (in_get_data _ _ _ _ _ Hg Hs) as (Hr & Hl & _).
  split; [by rewrite take_ge|done].
Qed.

(** What is stored is the beginning of the rest of the body, and no more than was
    asked for. *)
Lemma read_loop_prefix fuel size room acc i d i' :
  (Z.of_nat (length acc) <= size)%Z -> read_loop fuel size room acc i = Some (d, i') ->
  exists d' t, d = acc ++ d' /\ in_rest i = d' ++ t /\ (Z.of_nat (length d) <= size)%Z.
Proof.
  assert (Hstop : (Z.of_nat (length acc) <= size)%Z -> exists d' t,
    acc = acc ++ d' /\ in_rest i = d' ++ t /\ (Z.of_nat (length acc) <= size)%Z).
  { intros Ha. exists [], (in_rest i). by rewrite app_nil_r. }
  revert acc i Hstop. induction fuel as [|fuel IH]; intros acc i Hstop Ha; cbn [read_loop].
  { intros [= <- <-]. by apply Hstop. }
  destruct (_ <? size)%Z eqn:El; [|intros [= <- <-]; by apply Hstop].
  apply Z.ltb_lt in El. set (len := Z.to_nat _).
  destruct (in_get i len) as [[s bb] i1] eqn:Eg.
  destruct (negb (s =? APR_SUCCESS)%Z) eqn:Es; [intros [= <- <-]; by apply Hstop|].
  apply negb_false_iff, Z.eqb_eq in Es. destruct (in_get_take _ _ _ _ _ Eg Es) as [Ht Hr].
  destruct (in_get_data _ _ _ _ _ Eg Es) as (_ & Hl & _). rewrite Ht.
  destruct (brigade_data bb) as [|b l] eqn:Ed; [intros [= <- <-]; by apply Hstop|].
  destruct (room <? _)%Z; [done|]. intros Hd.
  destruct (IH (acc ++ b :: l) i1) as (d' & t & -> & Hrest & Hlen); [|rewrite length_app; lia|done|].
  { intros Ha1. exists [], (in_rest i1). by rewrite app_nil_r. }
  exists ((b :: l) ++ d'), t. by rewrite Hr, Hrest, !app_assoc.
Qed.

(** When reading works, exactly as much as was asked for or is there, if there is
    room for it; else it is written behind the buffer. *)
Lemma read_loop_works fuel size room acc i :
  in_works -> length (in_rest i) < fuel -> (Z.of_nat (length acc) <= room)%Z ->
  let n := Z.to_nat (size - Z.of_nat (length acc)) in
  if (Z.of_nat (length (acc ++ take n (in_rest i))) <=? room)%Z
  then exists i', read_loop fuel size room acc i = Some (acc ++ take n (in_rest i), i') /\
    in_rest i' = drop n (in_rest i)
  else read_loop fuel size room acc i = None.
Proof.
  intros Hw. revert acc i. induction fuel as [|fuel IH]; intros acc i Hf Ha; [lia|]. cbn [read_loop].
  set (n := Z.to_nat _). assert (Hstop : take n (in_rest i) = [] ->
    (Z.of_nat (length (acc ++ take n (in_rest i))) <=? room)%Z = true /\ acc ++ take n (in_rest i) = acc /\
    drop n (in_rest i) = in_rest i).
  { intros Ht. rewrite Ht, app_nil_r. split; [by apply Z.leb_le|]. split; [done|].
    rewrite <- (take_drop n (in_rest i)) at 2. by rewrite Ht. }
  destruct (_ <? size)%Z eqn:El.
  2: { apply Z.ltb_ge in El. assert (Hn : n = 0) by lia.
       destruct Hstop as (-> & -> & ->); [by rewrite Hn|]. eauto. }
  apply Z.ltb_lt in El. set (len := Z.to_nat (Z.min _ _)).
  assert (Hlen : 0 < len) by (unfold len, HUGE_STRING_LEN; lia).
  destruct (Hw i len) as [Hs Hne]. specialize (Hne Hlen).
  destruct (in_get i len) as [[s bb] i'] eqn:Eg. cbn [fst snd] in Hs, Hne. subst s.
  cbn [negb Z.eqb APR_SUCCESS].
  destruct (in_get_take _ _ _ _ _ Eg eq_refl) as [Ht Hr].
  destruct (in_get_data _ _ _ _ _ Eg eq_refl) as (_ & Hl & _). rewrite Ht.
  destruct (brigade_data bb) as [|b d] eqn:Ed.
  { cbn [app] in Hr. destruct (in_rest i) as [|x rest] eqn:Ei; [|by destruct Hne].
    destruct Hstop as (-> & -> & ->); [by rewrite take_nil|]. by exists i'. }
  set (m := b :: d) in *. assert (Hm : 0 < length m) by (cbn; lia).
  assert (Hsz : n = length m + Z.to_nat (size - Z.of_nat (length (acc ++ m))))
    by (rewrite length_app; unfold n, len in *; lia).
  assert (Htk : acc ++ take n (in_rest i) = (acc ++ m) ++
    take (Z.to_nat (size - Z.of_nat (length (acc ++ m)))) (in_rest i')).
  { rewrite Hr, Hsz, take_app_add. by rewrite app_assoc. }
  rewrite Htk. destruct (room <? _)%Z eqn:Er.
  - apply Z.ltb_lt in Er. assert ((_ <=? room)%Z = false) as ->; [|done].
    apply Z.leb_gt. rewrite !length_app. lia.
  - apply Z.ltb_ge in Er. specialize (IH (acc ++ m) i'). cbn zeta in IH.
    rewrite Hr, Hsz, drop_app_add. apply IH; [|rewrite length_app; lia].
    rewrite Hr, length_app in Hf. lia.
Qed.

(** ** Claims *)


End ReadFacts.

(** * Concrete parameters, for witnesses *)

(** A body held in memory. *)
Definition chunk (d : bytes) : brigade := match d with [] => [BEos] | _ => [BData d] end.

#[export] Program Instance bytes_input : ApInput bytes := {|
  in_rest i := i;
  in_get i n := (APR_SUCCESS, chunk (take n i), drop n i)
|}.
Next Obligation.
  intros i n s bb i' [= <- <- <-] _.
  assert (Hd : brigade_data (chunk (take n i)) = take n i)
    by (destruct (take n i); cbn; by rewrite ?app_nil_r).
  rewrite Hd, take_drop, length_take. split_and!; [done|lia|by destruct (take n i)|].
  by intros ->.
Qed.

Lemma bytes_input_works : in_works (In := bytes).
Proof.
  intros i n. split; [done|]. intros Hn Hi. cbn. destruct n as [|n]; [lia|].
  by destruct i.
Qed.

(** An interpreter that knows a few programs: text parses to the call with the
    number of its first byte, the empty text is an error, and call [n] does what
    [progs n] says. *)
Definition toy_engine (progs : nat -> r_prog unit) : REngine := {|
  R_state := unit;
  r_parse st s := match s with
                  | [] => RDone st RNil true
                  | b :: _ => RDone st (RExprs [Z.to_nat (zb b)]) false
                  end;
  r_eval st n e := progs n;
  r_getVar st s e := Bound (RFun 0);
  r_newEnv st := (2, st);
  r_defineVar st s v e := st;
  r_search st := [1];
  r_set_parent st t e := st;
  r_lock st e l := st;
  r_asInteger x := match x with RInt (z :: _) => z | _ => 0%Z end;
  r_asLogical x := match x with RLgl (z :: _) => Some (negb (z =? 0)%Z) | _ => None end;
  r_coerceString x := string_elts x;
  r_time x := 0%Z;
  asInteger_int z l := eq_refl
|}.

#[export] Instance idle_engine : REngine := toy_engine (fun _ => RDone tt RNil false).

Definition no_info : request_info :=
  Info 0 None None None None None None None None None 0 None false false false false 0 false
    None None 0 0 0 0 0 0 None None.

Definition a_request (method handler : bytes) (d : option RApacheDirective)
    (headers : list (bytes * bytes)) (body : bytes) : request_rec (T := list_table) bytes :=
  Request no_info handler method None (str "/srv/app.R") headers [] d [] None 200 body.

(** The module between two requests, for the request [r]. *)
Definition idle_world (r : request_rec (T := list_table) bytes)
  : world (T := list_table) (R := idle_engine) bytes :=
  World r req_zero None None None (Some 0%Z) ∅ ∅ (str "/") [] [] 0 [] WriteConsoleEx_f tt.

(** The same, inside the request. *)
Definition busy_world (r : request_rec (T := list_table) bytes)
  : world (T := list_table) (R := idle_engine) bytes :=
  World r (set_q_r true req_zero) None (Some []) None (Some 1%Z) ∅ ∅ (str "/") [] [] 0 []
    WriteConsoleEx_f tt.

(** A computation that returns, with a test of what it returns. *)
Definition returns {W A} (o : outcome W A) (f : A -> W -> bool) : bool :=
  match o with Ret a w => f a w | _ => false end.

Lemma returns_ret {W A} (o : outcome W A) f :
  returns o f = true -> exists a w, o = Ret a w /\ f a w = true.
Proof. destruct o; cbn; intros; try done. by eexists _, _. Qed.

Definition a_body : request_rec (T := list_table) bytes :=
  a_request (str "POST") (str "r-handler") None [] (str "a=1&b=2").

