(* ===== verification/RCalls.v ===== *)
(** * The functions R code calls ([src/mod_R.c], ".Call functions")

    A function yields what R gets back; [None] is an R error, which leaves the
    call by a jump to the evaluator. *)
From S2P Require Import Prelude Apr Url Util Brigade Param Parser Urlencoded Header Boundary.
From S2P Require Import Multipart Cookie RTable SendBin RState.

Definition r_reply := option SEXP.

(** The parser of [multipart/*] bodies: what [parsePost] uses of it. *)
Class MultipartParser {T : AprTable} := {
  mp_state : Type;
  mp_make : bytes -> option bytes -> mp_state;   (** of a content type, with a temporary directory *)
  mp_run : mp_state -> apr_table apreq_param_t -> brigade ->
           presult (mp_state * apr_table apreq_param_t * brigade)
}.

(** [apreq_parse_multipart] is such a parser; [w]: the system when it is made. *)
Definition multipart_body {E : AprErrno} {T : AprTable} {X : Type} {XP : AprXml X} {H : HookEnv X}
    {W : Type} {F : AprFile W} {SM : AprStrmatch} (FILE_BUCKET_LIMIT : nat) (w : W)
  : MultipartParser := {|
  mp_state := W * apreq_parser_t (X := X) (mfd_ctx T X (mixed_parser T X));
  mp_make ct dir := (w, apreq_parser_make ct apreq_parse_multipart_f 0 dir [] None);
  mp_run st t bb :=
    obind (fun '(_, w, psr, t, bb) => Ok ((w, psr), t, default [] bb))
      (apreq_parse_multipart FILE_BUCKET_LIMIT st.1 st.2 t (Some bb))
|}.

Section Calls.
Context {E : AprErrno} {T : AprTable} {R : REngine} {In : Type} {I : ApInput In}
        {X : Type} {XP : AprXml X} {H : HookEnv X} {MP : MultipartParser}.

(** APR's date and file functions, the bytes behind fresh allocations, the temporary
    directory [apr_temp_dir_get] finds, and the registry of parsers, which is fixed once R is running. *)
Context (apr_strtoi64 : bytes -> Z * bytes) (apr_date_parse_rfc : bytes -> Z)
        (apr_rfc822_date : Z -> bytes) (now : Z) (junk : bytes) (hole : nat -> Byte.byte)
        (tmpdir : option bytes) (file_info : bytes -> option (bytes * nat)) (reg : registry)
        (has_long8 has_long_double : bool) (float_bits long_double_bits : Z -> Z)
        (translateChar : bytes -> bytes).

Abbreviation MW := (M (world In)).

Definition MR_r : MW bool := get (fun w => q_r (w_req w)).

(** [CHAR(STRING_ELT(x, 0))]: an R error unless [x] is a character vector, and
    a read past an empty one. *)
Definition string_elt0 (x : SEXP) : MW (option bytes) :=
  match unclassed x with
  | RStr (s :: _) => ret (Some s)
  | RStr [] => do_crash
  | _ => ret None
  end.

Definition is_nil (x : SEXP) : bool := match x with RNil => true | _ => false end.
Definition isString (x : SEXP) : bool := match unclassed x with RStr _ => true | _ => false end.
Definition inherits (x : SEXP) (cls : bytes) : bool :=
  match x with RClassed l _ => bool_decide (cls ∈ l) | _ => false end.

(** ** Response headers *)

Definition RApache_setHeader (header value : SEXP) : MW r_reply :=
  let* key := string_elt0 header in
  match key with
  | None => ret None
  | Some key =>
      let* set := MR_r in
      if negb set then ret (Some (NewLogical false))
      else if is_nil value then
        modify (on_r (fun r => set_r_headers_out (apr_table_unset (r_headers_out r) key) r)) ;;
        ret (Some (NewLogical true))
      else
        let* val := string_elt0 (if isString value then value else RStr (r_coerceString value)) in
        match val with
        | None => ret None
        | Some val =>
            modify (on_r (fun r => set_r_headers_out (apr_table_set (r_headers_out r) key val) r)) ;;
            ret (Some (NewLogical true))
        end
  end.

Definition RApache_setStatus (status : SEXP) : MW r_reply :=
  let* set := MR_r in
  if negb set then ret (Some (NewLogical false))
  else modify (on_r (set_r_status (r_asInteger status))) ;; ret (Some (NewLogical true)).

Definition RApache_setContentType (stype : SEXP) : MW r_reply :=
  let* set := MR_r in
  if negb set then ret (Some (NewLogical false))
  else if is_nil stype then ret (Some (NewLogical false))
  else
    let* ctype := string_elt0 stype in
    match ctype with
    | None => ret None
    | Some ctype =>
        modify (on_r (set_r_content_type (Some ctype))) ;; ret (Some (NewLogical true))
    end.

(** The cookie's attributes that are given as strings. *)
Definition cookie_part (label : bytes) (x : SEXP) : MW (option bytes) :=
  if negb (is_nil x) && isString x then
    let* s := string_elt0 x in ret (Some (label ++ default [] s))
  else ret None.

(** [as.POSIXct] is called with a NULL error flag, which ends the process. *)
Definition cookie_expires (sexpires : SEXP) : MW bytes :=
  if negb (is_nil sexpires) && inherits sexpires (str "POSIXt") then
    if inherits sexpires (str "POSIXct") then
      ret (str ";expires=" ++ apr_rfc822_date (r_time sexpires * 1000000))
    else if inherits sexpires (str "POSIXlt") then
      to_stderr (str "Internal Error! EvalExprs called with invalid argument.") ;; do_exit
    else do_crash      (* [tmpExpires] is not set *)
  else ret [].

Definition RApache_setCookie (sname svalue sexpires spath sdomain therest : SEXP) : MW r_reply :=
  let* set := MR_r in
  if negb set then ret (Some (NewLogical false))
  else if is_nil sname then ret (Some (NewLogical false))
  else
    let* name := string_elt0 sname in
    match name with
    | None => ret None
    | Some name =>
        let* value := (if is_nil svalue || negb (r_length svalue =? 1) then ret (Some [])
                       else string_elt0 (RStr (r_coerceString svalue))) in
        let* expires := cookie_expires sexpires in
        let* path := cookie_part (str ";path=") spath in
        let* domain := cookie_part (str ";domain=") sdomain in
        let* rest := cookie_part [] therest in
        let rest := match rest with Some ((_ :: _) as s) => str ";" ++ s | _ => [] end in
        let cookie := name ++ str "=" ++ default [] value ++ expires
                      ++ default [] path ++ default [] domain ++ rest in
        modify (on_r (fun r =>
          let h := r_headers_out r in
          let h := match apr_table_get h (str "Cache-Control") with
                   | None => apr_table_set h (str "Cache-Control") (qstr "nocache=`set-cookie`")
                   | Some _ => h
                   end in
          set_r_headers_out (apr_table_add h (str "Set-Cookie") cookie) r)) ;;
        ret (Some (NewLogical true))
    end.

(** ** URL encoding *)

(** [None]: [R_NilValue], which is no element of a character vector. *)
Definition encode (s : bytes) : option bytes :=
  match apreq_encode s with [] => None | e => Some e end.

Definition decode (s : bytes) : option bytes :=
  let '(st, out) := apreq_decode false s in
  if (st =? APR_SUCCESS)%Z then Some (cstr (resolve hole 0 out)) else None.

Fixpoint endecode_all (f : bytes -> option bytes) (l : list bytes) : option (list bytes) :=
  match l with
  | [] => Some []
  | s :: l => x ← f s; r ← endecode_all f l; Some (x :: r)
  end.

Definition RApache_urlEnDecode (s enc : SEXP) : MW r_reply :=
  let f := match unclassed enc with RLgl (1%Z :: _) => encode | _ => decode end in
  match unclassed s with
  | RStr l => ret (RStr <$> endecode_all f l)
  | _ => ret (Some RNil)
  end.

(** ** Parameters *)

Definition to_list (t : option (apr_table apreq_param_t)) : SEXP :=
  AprTableToList (params_table <$> (apr_table_elts <$> t)) ParamsCallback.

Definition RApache_parseGet : MW r_reply :=
  let* q := get w_req in
  if negb (q_r q) then ret (Some RNil)
  else match q_argsTable q with
  | Some t => ret (Some (to_list (Some t)))
  | None =>
      let* r := get w_r in
      match r_args r with
      | None => ret (Some RNil)
      | Some args =>
          let t := (apreq_parse_query_string hole apr_table_make args).2 in
          modify (on_req (set_q_argsTable (Some t))) ;;
          ret (Some (to_list (Some t)))
      end
  end.

Inductive body_parser :=
  | PUrl (psr : apreq_parser_t (X := X) url_ctx)
  | PMultipart (st : mp_state)
  | PNone.

Definition make_parser (pfn : apreq_parser_function_t) (ct : bytes) : body_parser :=
  match pfn with
  | apreq_parse_urlencoded_f => PUrl (apreq_parser_make ct pfn 0 tmpdir [] None)
  | apreq_parse_multipart_f => PMultipart (mp_make ct tmpdir)
  | _ => PNone
  end.

(** [apreq_parser_run(psr, table, bb)]; its status is not looked at. *)
Definition apreq_parser_run (p : body_parser) (t : apr_table apreq_param_t) (bb : brigade)
  : presult (body_parser * apr_table apreq_param_t * brigade) :=
  match p with
  | PUrl psr =>
      let '(_, psr, t, bb) := apreq_parse_urlencoded hole psr t (Some bb) in
      Ok (PUrl psr, t, default [] bb)
  | PMultipart st => obind (fun '(st, t, bb) => Ok (PMultipart st, t, bb)) (mp_run st t bb)
  | PNone => Ok (PNone, t, bb)
  end.

(** The loop over [ap_get_brigade]. *)
Fixpoint post_loop (fuel : nat) (p : body_parser) (t : apr_table apreq_param_t) (i : In)
  : presult (apr_table apreq_param_t * In) :=
  match fuel with
  | O => NoFuel
  | S fuel =>
      let '(s, bb, i) := in_get i HUGE_STRING_LEN in
      if negb (s =? APR_SUCCESS)%Z then Ok (t, i)
      else
        obind (fun '(p, t, bb) =>
          if last_is_eos bb then Ok (t, i) else post_loop fuel p t i)
        (apreq_parser_run p t bb)
  end.

Definition parsePost (returnPost : bool) : MW r_reply :=
  let* q := get w_req in
  let answer q := if returnPost then to_list (q_postTable q) else default RNil (q_filesVar q) in
  let none := modify (on_req (fun q => set_q_filesVar (Some RNil) (set_q_postTable None q))) ;;
              ret (Some RNil) in
  if negb (q_r q) then ret (Some RNil)
  else if q_readStarted q then
    RApacheError (Some (str "Oops! Your R code has already started reading the request.")) ;;
    ret (Some RNil)
  else if q_postParsed q then ret (Some (answer q))
  else
    let* r := get w_r in
    if negb (bool_decide (r_method r = str "POST")) && negb (bool_decide (r_method r = str "PUT"))
    then none
    else
      let ct := apr_table_get (r_headers_in r) (str "Content-Type") in
      match apreq_parser reg ct with
      | None => none
      | Some pfn =>
          modify (on_req (set_q_postParsed true)) ;;
          match post_loop (length (in_rest (r_input r)) + 3) (make_parser pfn (default [] ct))
                  apr_table_make (r_input r) with
          | NoFuel => fun _ => TooDeep
          | Aborts => do_crash
          | Ok (t, i) =>
              modify (on_r (set_r_input i)) ;;
              modify (on_req (fun q => set_q_filesVar (Some (uploads_list file_info t))
                                         (set_q_postTable (Some t) q))) ;;
              let* q := get w_req in
              ret (Some (answer q))
          end
      end.

Definition RApache_parsePost : MW r_reply := parsePost true.
Definition RApache_parseFiles : MW r_reply := parsePost false.

Definition cookies_list (t : apr_table apreq_cookie_t) : SEXP :=
  AprTableToList
    (Some (foldl (fun t' e => apr_table_add t' e.1 (cstr (c_data e.2))) apr_table_make
             (apr_table_elts t))) TableCallback.

Definition RApache_parseCookies : MW r_reply :=
  let* q := get w_req in
  if negb (q_r q) then ret (Some RNil)
  else match q_cookiesTable q with
  | Some t => ret (Some (cookies_list t))
  | None =>
      let* r := get w_r in
      match apr_table_get (r_headers_in r) (str "Cookie") with
      | None => ret (Some RNil)
      | Some cookies =>
          let t := (apreq_parse_cookie_header apr_strtoi64 apr_date_parse_rfc now junk
                      apr_table_make cookies).2 in
          modify (on_req (set_q_cookiesTable (Some t))) ;;
          ret (Some (cookies_list t))
      end
  end.

(** ** The request body, raw *)

(** [size = (apr_size_t)((double)size * 1.5)]: exact for any size memory can have. *)
Definition grow (size : Z) : Z := u64 (size + size / 2).

(** What was written to a buffer, after [d] was written at [blen]. *)
Definition store (buf : bytes) (blen : Z) (d : bytes) : bytes :=
  take (Z.to_nat blen) buf ++ d ++ drop (Z.to_nat blen + length d) buf.

(** The loop that reads the whole body: the buffer has [size] bytes, [buf] was
    written to it, and [blen] is where the next read goes.  The room that is left,
    an [apr_size_t], is passed as an [int], and the count comes back as one. *)
Fixpoint receive_loop (fuel : nat) (size : Z) (buf : bytes) (blen : Z) : MW (bytes * Z) :=
  match fuel with
  | O => fun _ => TooDeep
  | S fuel =>
      let* d := ReadRequestBody (int32 (size - blen)) (Z.max 0 (size - blen)) in
      let len := read_count d in
      if (len =? 0)%Z then ret (buf, blen)
      else receive_loop fuel (grow size) (store buf blen d) (u64 (blen + len))
  end.

(** A length of 0 leaves [buf] unset, and [if (buf) R_Free(buf)] frees it.  A length
    that wrapped around is one [allocVector] refuses. *)
Definition RApache_receiveBin (llen : SEXP) : MW r_reply :=
  let size := r_asInteger llen in
  if (0 <? size)%Z then let* d := ReadRequestBody size size in ret (Some (RRaw d))
  else if (size <? 0)%Z then
    let* r := get w_r in
    let* res := receive_loop (length (in_rest (r_input r)) + 2) 8192 [] 0 in
    let '(buf, len) := res in
    ret (if (len <=? Z.of_nat (length buf))%Z then Some (RRaw (take (Z.to_nat len) buf)) else None)
  else do_crash.

Definition RApache_internals (sstr : SEXP) : MW r_reply :=
  match unclassed sstr with
  | RStr _ =>
      let* s := string_elt0 sstr in
      let* q := get w_req in
      ret (Some (if bool_decide (s = Some (str "postParsed")) then NewLogical (q_postParsed q)
                 else if bool_decide (s = Some (str "readStarted")) then NewLogical (q_readStarted q)
                 else RNil))
  | _ => ret (Some RNil)
  end.

Definition RApache_sendBin (object ssize sswap : SEXP) : MW r_reply :=
  let* set := MR_r in
  if negb set then ret (Some RNil)
  else match sendBin has_long8 has_long_double float_bits long_double_bits translateChar
               object (r_asInteger ssize) (r_asLogical sswap) with
  | SendError => ret None
  | SendNothing => ret (Some RNil)
  | SendBytes buf => bbout_write buf ;; ret (Some RNil)
  end.

(** The calls that evaluate no R code themselves. *)
Definition call_leaf (op : r_op) : option (MW r_reply) :=
  match op with
  | OpSetHeader h v => Some (RApache_setHeader h v)
  | OpSetStatus s => Some (RApache_setStatus s)
  | OpSetContentType s => Some (RApache_setContentType s)
  | OpSetCookie n v e p d r => Some (RApache_setCookie n v e p d r)
  | OpUrlEnDecode s e => Some (RApache_urlEnDecode s e)
  | OpParseGet => Some RApache_parseGet
  | OpParsePost => Some RApache_parsePost
  | OpParseFiles => Some RApache_parseFiles
  | OpParseCookies => Some RApache_parseCookies
  | OpSendBin o s w => Some (RApache_sendBin o s w)
  | OpReceiveBin l => Some (RApache_receiveBin l)
  | OpInternals s => Some (RApache_internals s)
  | OpWrite buf e => Some (r_write buf e ;; ret (Some RNil))
  | OpRead n => Some (let* d := ReadConsole n in ret (Some (RStr [d])))
  | OpSetwd dir => Some (modify (set_w_cwd dir) ;; ret (Some RNil))
  | OpRApacheInfo | OpGetServer => None
  end.

End Calls.

(** * Properties *)

(** Partial correctness of a computation: if it returns, the state is as said. *)
Definition keeps {W A} (P : W -> Prop) (m : M W A) : Prop :=
  forall w, P w -> match m w with Ret _ w' => P w' | _ => True end.

Lemma keeps_ret {W A} (P : W -> Prop) (a : A) : keeps P (ret a).
Proof. by intros w. Qed.
Lemma keeps_get {W A} (P : W -> Prop) (f : W -> A) : keeps P (get f).
Proof. by intros w. Qed.
Lemma keeps_crash {W A} (P : W -> Prop) : keeps P (do_crash (W := W) (A := A)).
Proof. by intros w. Qed.
Lemma keeps_exit {W A} (P : W -> Prop) : keeps P (do_exit (W := W) (A := A)).
Proof. by intros w. Qed.
Lemma keeps_deep {W A} (P : W -> Prop) : keeps P (fun _ => TooDeep (W := W) (A := A)).
Proof. by intros w. Qed.
Lemma keeps_modify {W} (P : W -> Prop) f : (forall w, P w -> P (f w)) -> keeps P (modify f).
Proof. intros H w Hw. by apply H. Qed.
Lemma keeps_bind {W A B} (P : W -> Prop) (m : M W A) (k : A -> M W B) :
  keeps P m -> (forall a, keeps P (k a)) -> keeps P (bind m k).
Proof.
  intros Hm Hk w Hw. unfold bind. specialize (Hm w Hw). destruct (m w); [|done..]. by apply Hk.
Qed.

Create HintDb keeps.
#[export] Hint Resolve keeps_ret keeps_get keeps_crash keeps_exit keeps_deep : keeps.

(** Walks through a computation; what is left are the assignments. *)
Ltac keeps_tac :=
  repeat (first
    [ solve [auto with keeps]
    | simple apply keeps_bind; [|intros ?]
    | progress case_match
    | simple apply keeps_modify ]).

Section Invariants.
Context {E : AprErrno} {T : AprTable} {R : REngine} {In : Type} {I : ApInput In}
        {X : Type} {XP : AprXml X} {H : HookEnv X} {MP : MultipartParser}.

(** An invariant of the request alone survives what does not touch it. *)
Definition req_inv (P : RApacheRequest -> Prop) (w : world In) : Prop := P (w_req w).

Lemma req_inv_error P msg : keeps (req_inv P) (RApacheError msg).
Proof. unfold RApacheError. keeps_tac; done. Qed.

Lemma req_inv_write P buf e : keeps (req_inv P) (r_write buf e).
Proof.
  unfold r_write, WriteConsoleEx, WriteConsoleErrorOnly, WriteConsoleStderr, bbout_write, to_stderr.
  keeps_tac; try done; apply req_inv_error.
Qed.

Lemma req_inv_string_elt0 P x : keeps (req_inv P) (string_elt0 x).
Proof. unfold string_elt0. keeps_tac. Qed.

Lemma req_inv_bbout P buf : keeps (req_inv P) (bbout_write buf).
Proof. unfold bbout_write. keeps_tac; done. Qed.

(** Not both: the body was parsed, and the body was read by R code. *)
Definition body_excl (q : RApacheRequest) : Prop := q_postParsed q && q_readStarted q = false.
Abbreviation excl := (req_inv body_excl).

Lemma excl_read size room : keeps excl (ReadRequestBody size room).
Proof.
  intros w Hw. unfold ReadRequestBody, bind, get.
  destruct (q_r (w_req w)); cbn [negb]; [|done].
  destruct (q_postParsed (w_req w)) eqn:Ep.
  - pose proof (req_inv_error body_excl
      (Some (str "Can't read with R since libapreq already started!")) w Hw) as He.
    destruct (RApacheError _ w); [|done..]. exact He.
  - cbn -[read_loop u64]. destruct (w_bbin w); cbn -[read_loop u64];
      (destruct (read_loop _ _ _ _ _) as [[d i]|]; [|done]);
      cbn; unfold req_inv, body_excl in *; cbn; by rewrite Ep.
Qed.

Lemma excl_receive fuel size buf blen : keeps excl (receive_loop fuel size buf blen).
Proof.
  revert size buf blen. induction fuel as [|fuel IH]; intros size buf blen; cbn [receive_loop]; [auto with keeps|].
  apply keeps_bind; [apply excl_read|]. intros d. cbn zeta. destruct (_ =? 0)%Z; auto with keeps.
Qed.

Context (apr_strtoi64 : bytes -> Z * bytes) (apr_date_parse_rfc : bytes -> Z)
        (apr_rfc822_date : Z -> bytes) (now : Z) (junk : bytes) (hole : nat -> Byte.byte)
        (tmpdir : option bytes) (file_info : bytes -> option (bytes * nat)) (reg : registry)
        (has_long8 has_long_double : bool) (float_bits long_double_bits : Z -> Z)
        (translateChar : bytes -> bytes).
Abbreviation leaf := (call_leaf (In := In) (X := X) apr_strtoi64 apr_date_parse_rfc apr_rfc822_date now
  junk hole tmpdir file_info reg has_long8 has_long_double float_bits long_double_bits translateChar).
Abbreviation post := (parsePost (In := In) (X := X) hole tmpdir file_info reg).

Lemma excl_post b : keeps excl (post b).
Proof.
  intros w Hw. unfold parsePost, bind, get.
  destruct (q_r (w_req w)); cbn [negb]; [|done].
  destruct (q_readStarted (w_req w)) eqn:Er.
  { pose proof (req_inv_error body_excl
      (Some (str "Oops! Your R code has already started reading the request.")) w Hw) as He.
    destruct (RApacheError _ w); [|done..]. exact He. }
  destruct (q_postParsed (w_req w)); [done|].
  cbn beta iota. destruct (_ && _); [done|].
  destruct (apreq_parser reg _) as [pfn|]; [|done]. cbn [modify].
  destruct (post_loop hole _ _ _ _) as [[t i]| |]; [|done..]. cbn.
  unfold req_inv, body_excl. cbn. by rewrite Er.
Qed.

(** The parts of a call that leave the request's bookkeeping alone. *)
Lemma excl_leaf op m : leaf op = Some m -> keeps excl m.
Proof.
  destruct op; intros [= <-];
    try (unfold RApache_setHeader, RApache_setStatus, RApache_setContentType, RApache_setCookie,
      RApache_urlEnDecode, RApache_sendBin, RApache_internals, RApache_parseGet,
      RApache_parseCookies, MR_r, cookie_expires, cookie_part,
      to_stderr);
    try apply excl_post;
    try (keeps_tac; try done;
         first [apply req_inv_string_elt0 | apply req_inv_bbout | apply req_inv_write]).
  - unfold RApache_receiveBin. keeps_tac; first [apply excl_read | apply excl_receive].
  - apply keeps_bind; [apply excl_read|]. auto with keeps.
Qed.

(** ** Reading *)

(** A read, of which [d] is what there is: it fits, or is written behind the buffer. *)
Lemma read_body_works size room (w : world In) :
  in_works (In := In) -> q_r (w_req w) = true -> q_postParsed (w_req w) = false -> (0 <= room)%Z ->
  let n := Z.to_nat (u64 size) in
  let d := take n (in_rest (r_input (w_r w))) in
  if (Z.of_nat (length d) <=? room)%Z then
    exists w', ReadRequestBody size room w = Ret d w' /\
      q_r (w_req w') = true /\ q_postParsed (w_req w') = false /\
      in_rest (r_input (w_r w')) = drop n (in_rest (r_input (w_r w)))
  else exists w', ReadRequestBody size room w = Crash w'.
Proof.
  intros Hw Hr Hp Hroom. unfold ReadRequestBody, bind, get. rewrite Hr, Hp. cbn [negb].
  pose proof (read_loop_works (S (length (in_rest (r_input (w_r w))))) (u64 size) room []
    (r_input (w_r w)) Hw ltac:(lia) Hroom) as Hl.
  cbn [length app] in Hl. rewrite Z.sub_0_r in Hl.
  cbn -[read_loop u64]. destruct (Z.of_nat _ <=? room)%Z; [destruct Hl as (i' & Hl & Hi)|];
    destruct (w_bbin w); cbn -[read_loop u64]; rewrite Hl; cbn -[u64]; eexists; first [reflexivity | by split_and!].
Qed.

Definition readable_world (w : world In) : Prop :=
  in_works (In := In) /\ q_r (w_req w) = true /\ q_postParsed (w_req w) = false.

(** A turn of the loop whose room is an [int]. *)
Lemma receive_turn fuel size buf (w : world In) :
  let room := (size - Z.of_nat (length buf))%Z in
  let d := take (Z.to_nat room) (in_rest (r_input (w_r w))) in
  readable_world w -> (0 < room < 2 ^ 31)%Z -> (size < 2 ^ 63)%Z -> in_rest (r_input (w_r w)) <> [] ->
  exists w', receive_loop (S fuel) size buf (Z.of_nat (length buf)) w =
      receive_loop fuel (grow size) (buf ++ d) (Z.of_nat (length (buf ++ d))) w' /\
    readable_world w' /\ in_rest (r_input (w_r w')) = drop (Z.to_nat room) (in_rest (r_input (w_r w))).
Proof.
  intros room d (Hw & Hr & Hp) Hroom Hsize Hne. cbn [receive_loop]. unfold bind. fold room.
  rewrite int32_small, Z.max_r by lia.
  pose proof (read_body_works room room w Hw Hr Hp ltac:(lia)) as Hread.
  cbn zeta in Hread. rewrite u64_small in Hread by lia. fold d in Hread.
  assert (Hd : length d <= Z.to_nat room) by (unfold d; rewrite length_take; lia).
  assert (Hd0 : 0 < length d).
  { unfold d. rewrite length_take. destruct (in_rest _); [done|cbn; lia]. }
  assert ((Z.of_nat (length d) <=? room)%Z = true) as Hle by (apply Z.leb_le; lia).
  rewrite Hle in Hread. destruct Hread as (w1 & -> & Hr1 & Hp1 & Hi1).
  unfold read_count. rewrite int32_small by lia.
  assert ((Z.of_nat (length d) =? 0)%Z = false) as -> by (apply Z.eqb_neq; lia).
  rewrite u64_small by lia. exists w1. split; [|done]. rewrite length_app, Nat2Z.inj_add. f_equal. unfold store.
  rewrite Nat2Z.id, take_ge, drop_ge, app_nil_r by lia. done.
Qed.

(** The last turn: the body is over. *)
Lemma receive_end fuel size buf (w : world In) :
  readable_world w -> (Z.of_nat (length buf) < 2 ^ 64)%Z -> in_rest (r_input (w_r w)) = [] ->
  exists w', receive_loop (S fuel) size buf (Z.of_nat (length buf)) w = Ret (buf, Z.of_nat (length buf)) w' /\
    in_rest (r_input (w_r w')) = [].
Proof.
  intros (Hw & Hr & Hp) Hb He. cbn [receive_loop]. unfold bind.
  set (room := Z.max 0 _).
  pose proof (read_body_works (int32 (size - Z.of_nat (length buf))) room w Hw Hr Hp ltac:(lia)) as Hread.
  cbn zeta in Hread. rewrite He, take_nil in Hread.
  assert ((Z.of_nat (length (@nil Byte.byte)) <=? room)%Z = true) as Hle by (apply Z.leb_le; cbn; lia).
  rewrite Hle in Hread. destruct Hread as (w1 & -> & _ & _ & Hi1). rewrite drop_nil in Hi1.
  change (read_count []) with 0%Z. by exists w1.
Qed.

Lemma grow_bounds size : (0 <= size < 2 ^ 63)%Z ->
  grow size = (size + size / 2)%Z /\ (2 * (size / 2) <= size < 2 * (size / 2) + 2)%Z.
Proof.
  intros Hs. pose proof (Z.div_mod size 2 ltac:(lia)). pose proof (Z.mod_pos_bound size 2 ltac:(lia)).
  split; [|lia]. unfold grow. apply u64_small. lia.
Qed.

Lemma receive_loop_works fuel size buf (w : world In) :
  readable_world w -> (2 <= size < 2 ^ 62)%Z -> (Z.of_nat (length buf) < size)%Z ->
  (Z.of_nat (length buf + length (in_rest (r_input (w_r w)))) < 2 ^ 32)%Z ->
  (in_rest (r_input (w_r w)) <> [] -> (size - Z.of_nat (length buf) < 2 ^ 31)%Z) ->
  length (in_rest (r_input (w_r w))) < fuel ->
  exists w', receive_loop fuel size buf (Z.of_nat (length buf)) w =
      Ret (buf ++ in_rest (r_input (w_r w)),
           Z.of_nat (length (buf ++ in_rest (r_input (w_r w))))) w' /\
    in_rest (r_input (w_r w')) = [].
Proof.
  revert size buf w. induction fuel as [|fuel IH]; intros size buf w Hw Hs Ha Htot Hroom Hf; [lia|].
  destruct (decide (in_rest (r_input (w_r w)) = [])) as [He|Hne].
  { rewrite He, app_nil_r. apply receive_end; [done|lia|done]. }
  specialize (Hroom Hne).
  destruct (receive_turn fuel size buf w Hw ltac:(lia) ltac:(lia) Hne) as (w1 & -> & Hw1 & Hi1).
  set (rest := in_rest (r_input (w_r w))) in *. set (room := Z.to_nat _) in *.
  destruct (grow_bounds size) as [Hg Hhalf]; [lia|].
  assert (Hr0 : 0 < length rest) by (destruct rest; [done|cbn; lia]).
  assert (Hlen : length (buf ++ take room rest) = length buf + Nat.min room (length rest))
    by (by rewrite length_app, length_take).
  destruct (IH (grow size) (buf ++ take room rest) w1 Hw1) as (w2 & H2 & Hi2);
    [rewrite Hg; lia|rewrite Hg, Hlen; lia|rewrite Hlen, Hi1, length_drop; lia| |rewrite Hi1, length_drop; lia|].
  - rewrite Hi1, Hg, Hlen. intros Hd. assert (length rest > room); [|lia].
    apply Nat.nle_gt. intros Hle. apply Hd. by apply drop_ge.
  - exists w2. by rewrite H2, <- app_assoc, Hi1, take_drop.
Qed.

(** Whether [k] turns of the loop, each filling its buffer, come to a room that is no
    [int], with more than that to come of a body of [total] bytes. *)
Fixpoint overruns (k : nat) (size blen total : Z) : bool :=
  match k with
  | O => false
  | S k =>
      let room := (size - blen)%Z in
      if (room <? 2 ^ 31)%Z
      then (0 <? room)%Z && (size <=? total)%Z && (size <? 2 ^ 63)%Z && overruns k (grow size) size total
      else (room <? 2 ^ 32)%Z && (size <? total)%Z
  end.

Lemma receive_loop_overruns k fuel size buf total (w : world In) :
  readable_world w -> overruns k size (Z.of_nat (length buf)) total = true -> k <= fuel ->
  (total <= Z.of_nat (length buf + length (in_rest (r_input (w_r w)))) < 2 ^ 63)%Z ->
  exists w', receive_loop fuel size buf (Z.of_nat (length buf)) w = Crash w'.
Proof.
  revert fuel size buf w. induction k as [|k IH]; intros fuel size buf w Hw Ho Hk Htot; [done|].
  destruct fuel as [|fuel]; [lia|]. cbn [overruns] in Ho.
  set (rest := in_rest (r_input (w_r w))) in *. set (room := (size - Z.of_nat (length buf))%Z) in *.
  destruct (Z.ltb_spec room (2 ^ 31)) as [Hroom|Hroom].
  - rewrite !andb_true_iff, Z.ltb_lt, Z.leb_le, Z.ltb_lt in Ho. destruct Ho as [[[H0 Hle] Hsz] Ho].
    destruct (receive_turn fuel size buf w Hw) as (w1 & -> & Hw1 & Hi1); try done.
    { intros Hnil. unfold rest in Htot. rewrite Hnil in Htot. cbn in Htot. lia. }
    fold rest room in Hi1 |- *.
    assert (Hlen : length (buf ++ take (Z.to_nat room) rest) = Z.to_nat size)
      by (rewrite length_app, length_take; lia).
    apply IH; [done| |lia|].
    + by rewrite Hlen, Z2Nat.id by lia.
    + rewrite Hi1, Hlen, length_drop. lia.
  - apply andb_true_iff in Ho as [Hr32%Z.ltb_lt Hlt%Z.ltb_lt].
    cbn [receive_loop]. unfold bind. fold room. destruct Hw as (Hw & Hr & Hp).
    assert (Hneg : u64 (int32 room) = (2 ^ 64 + (room - 2 ^ 32))%Z).
    { unfold int32, u64. replace (room + 2 ^ 31)%Z with (room - 2 ^ 31 + 1 * 2 ^ 32)%Z by lia.
      rewrite Z.mod_add, (Z.mod_small (room - 2 ^ 31)) by lia.
      replace (room - 2 ^ 31 - 2 ^ 31)%Z with (2 ^ 64 + (room - 2 ^ 32) + -1 * 2 ^ 64)%Z by lia.
      rewrite Z.mod_add by lia. apply Z.mod_small. lia. }
    pose proof (read_body_works (int32 room) (Z.max 0 room) w Hw Hr Hp ltac:(lia)) as Hread.
    cbn zeta in Hread. rewrite Hneg in Hread. fold rest in Hread. rewrite take_ge in Hread by lia.
    assert ((Z.of_nat (length rest) <=? Z.max 0 room)%Z = false) as Hgt by (apply Z.leb_gt; lia).
    rewrite Hgt in Hread. destruct Hread as (w1 & ->). by exists w1.
Qed.

Lemma error_input msg (w w' : world In) a :
  RApacheError msg w = Ret a w' -> w_r w' = w_r w /\ w_req w' = w_req w.
Proof.
  unfold RApacheError. destruct msg as [msg|]; [|by intros [= _ <-]].
  unfold bind, get. destruct (w_bberr w); cbn; [by intros [= _ <-]|].
  destruct (q_r (w_req w)); [|done]. by intros [= _ <-].
Qed.

(** ** Claims *)

(** What [excl] is good for: once the body was parsed, reading yields nothing, and
    once R code has started to read, parsing yields NULL. *)
Lemma parsed_not_read (w w2 : world In) size room a :
  q_postParsed (w_req w) = true -> ReadRequestBody size room w = Ret a w2 ->
  a = [] /\ w_r w2 = w_r w /\ w_req w2 = w_req w.
Proof.
  intros Hp. unfold ReadRequestBody, bind, get. rewrite Hp.
  destruct (q_r (w_req w)); cbn [negb]; [|done].
  destruct (RApacheError _ w) eqn:Ee; [|done..]. intros [= <- <-]. by apply error_input in Ee.
Qed.

Lemma read_not_parsed (w w2 : world In) b a :
  q_readStarted (w_req w) = true -> post b w = Ret a w2 ->
  a = Some RNil /\ w_r w2 = w_r w /\ w_req w2 = w_req w.
Proof.
  intros Hs. unfold parsePost, bind, get. rewrite Hs.
  destruct (q_r (w_req w)); cbn [negb]; [|by intros [= <- <-]].
  destruct (RApacheError _ w) eqn:Ee; [|done..]. intros [= <- <-]. by apply error_input in Ee.
Qed.

(** A body is parsed once.  After a call that parsed it, the same call gives
    the same answer and changes nothing, and asking for the parameters or for
    the files first makes no difference to either answer or to the state. *)
Theorem parse_post_once (b c : bool) (w w1 : world In) (v : r_reply) :
  body_excl (w_req w) -> post b w = Ret v w1 -> q_postParsed (w_req w1) = true ->
  post b w1 = Ret v w1 /\ (exists u, post c w = Ret u w1 /\ post c w1 = Ret u w1).
Proof.
  intros Hx. unfold parsePost, bind, get.
  destruct (q_r (w_req w)) eqn:Er; cbn [negb].
  2: { intros [= <- <-] _. rewrite Er. cbn [negb]. split; [done|]. by eexists. }
  destruct (q_readStarted (w_req w)) eqn:Es.
  { destruct (RApacheError _ w) eqn:Ee; [|done..]. intros [= <- <-] Hp.
    apply error_input in Ee as [_ Hq]. unfold body_excl in Hx. rewrite <- Hq, Hp, Hq, Es in Hx. done. }
  destruct (q_postParsed (w_req w)) eqn:Ep.
  { intros [= <- <-] _. rewrite Er, Es, Ep. cbn [negb]. split; [done|]. by eexists. }
  cbn beta iota. destruct (_ && _); [cbn; intros [= <- <-]; cbn; by rewrite Ep|].
  destruct (apreq_parser reg _) as [pfn|]; [|cbn; intros [= <- <-]; cbn; by rewrite Ep].
  cbn [modify]. destruct (post_loop hole _ _ _ _) as [[t i]| |]; [|done..].
  cbn -[to_list]. intros [= <- <-] _. cbn -[to_list]. rewrite Er, Es. cbn -[to_list].
  split; [done|]. by eexists.
Qed.

Lemma receive_negative llen (w : world In) : (r_asInteger llen < 0)%Z ->
  RApache_receiveBin llen w =
    (let* res := receive_loop (length (in_rest (r_input (w_r w))) + 2) 8192 [] 0 in
     let '(buf, len) := res in
     ret (if (len <=? Z.of_nat (length buf))%Z then Some (RRaw (take (Z.to_nat len) buf)) else None)) w.
Proof.
  intros Hs. unfold RApache_receiveBin. rewrite (proj2 (Z.ltb_ge _ _)), (proj2 (Z.ltb_lt _ _)) by lia.
  reflexivity.
Qed.

(** C24: [receiveBin] with a negative length ends and gives R the whole body, when
    the body is shorter than 2^32 bytes, reading works, and the body was not parsed:
    the room that is left in the buffer, an [apr_size_t] that is passed as an [int],
    is then one as long as anything is to come. *)
Theorem receive_whole_body (llen : SEXP) (w : world In) :
  in_works (In := In) -> q_r (w_req w) = true -> q_postParsed (w_req w) = false ->
  (r_asInteger llen < 0)%Z -> (Z.of_nat (length (in_rest (r_input (w_r w)))) < 2 ^ 32)%Z ->
  exists w', RApache_receiveBin llen w = Ret (Some (RRaw (in_rest (r_input (w_r w))))) w' /\
    in_rest (r_input (w_r w')) = [].
Proof.
  intros Hw Hr Hp Hs Hl. rewrite receive_negative by done. unfold bind.
  destruct (receive_loop_works (length (in_rest (r_input (w_r w))) + 2) 8192 [] w)
    as (w' & Hloop & Hi); cbn [length Nat.add]; try done; try lia.
  cbn [length app] in Hloop. change (Z.of_nat 0) with 0%Z in Hloop. rewrite Hloop.
  rewrite Z.leb_refl, Nat2Z.id, take_ge by lia. by eexists.
Qed.

(** A body of 2^33 bytes or more is written behind the buffer: after some thirty turns
    the room that is left is no [int] any more, is passed as a negative one, and is
    taken for a huge one. *)
Theorem receive_overruns (llen : SEXP) (w : world In) :
  in_works (In := In) -> q_r (w_req w) = true -> q_postParsed (w_req w) = false ->
  (r_asInteger llen < 0)%Z -> (2 ^ 33 <= Z.of_nat (length (in_rest (r_input (w_r w)))) < 2 ^ 63)%Z ->
  exists w', RApache_receiveBin llen w = Crash w'.
Proof.
  intros Hw Hr Hp Hs Hl. rewrite receive_negative by done. unfold bind.
  destruct (receive_loop_overruns 40 (length (in_rest (r_input (w_r w))) + 2) 8192 [] (2 ^ 33) w) as (w' & Hc).
  - done.
  - vm_compute. reflexivity.
  - lia.
  - cbn [length Nat.add]. lia.
  - cbn [length] in Hc. change (Z.of_nat 0) with 0%Z in Hc. rewrite Hc. by exists w'.
Qed.

(** [urlDecode(urlEncode(x))] gives a vector of non-empty ASCII strings back;
    an empty string cannot be encoded, and a string that is not ASCII cannot
    be decoded: either makes the call an R error. *)
Theorem url_endecode_ascii (l : list bytes) :
  Forall (fun s => s <> [] /\ is_ascii s = true /\ no_nul s = true) l ->
  (exists e, RStr <$> endecode_all encode l = Some (RStr e) /\
     RStr <$> endecode_all (decode hole) e = Some (RStr l)) /\
  encode [] = None /\
  (forall s, utf8_text s -> is_ascii s = false -> decode hole (apreq_encode s) = None).
Proof.
  intros Hl. assert (Hu : forall s, is_ascii s = true -> utf8_text s).
  { induction s as [|c s IH]; [constructor|]. cbn. rewrite andb_true_iff. intros [Hc Hs].
    apply (utf8_char c []); [unfold lead_conts; by rewrite Hc|done|by apply IH]. }
  split_and!; [|done|].
  - induction Hl as [|s l (Hne & Ha & Hn) _ IH]; [by exists []|].
    destruct IH as (e & He & Hd).
    destruct (endecode_all encode l) as [e'|] eqn:Ee; [|done]. injection He as ->.
    assert (Hen : encode s = Some (apreq_encode s)).
    { unfold encode. destruct (encode_ne s Hne) as (c & r & ->). done. }
    assert (Hde : decode hole (apreq_encode s) = Some s).
    { unfold decode, apreq_decode. rewrite url_decode_encode_utf8 by auto. rewrite Ha.
      cbn [ur_status ur_charset ur_out charset_val APR_SUCCESS Z.add Z.eqb].
      rewrite resolve_some, cstr_no_nul by done. done. }
    exists (apreq_encode s :: e). cbn [endecode_all]. rewrite Hen, Ee, Hde.
    destruct (endecode_all (decode hole) e) as [d|]; [|done]. cbn in Hd.
    injection Hd as ->. split; done.
  - intros s Hs Ha. unfold decode, apreq_decode. rewrite url_decode_encode_utf8 by auto.
    rewrite Ha. done.
Qed.

(** Setting, replacing and removing a response header: the header R set is
    the one the table holds under that name, in any case of its letters, and
    every other header stays as it was. *)
Theorem set_header_get (key val other : bytes) (w : world In) :
  q_r (w_req w) = true ->
  (exists w', RApache_setHeader (RStr [key]) (RStr [val]) w = Ret (Some (NewLogical true)) w' /\
     apr_table_get (r_headers_out (w_r w')) other =
       if strcaseeq other key then Some val else apr_table_get (r_headers_out (w_r w)) other) /\
  (exists w', RApache_setHeader (RStr [key]) RNil w = Ret (Some (NewLogical true)) w' /\
     apr_table_get (r_headers_out (w_r w')) other =
       if strcaseeq other key then None else apr_table_get (r_headers_out (w_r w)) other).
Proof.
  intros Hr. split; unfold RApache_setHeader, MR_r, bind, ret, get; cbn; rewrite Hr; cbn;
    eexists; (split; [done|]); cbn; [by rewrite get_set|by rewrite get_unset].
Qed.

End Invariants.

(** ** Witnesses *)

#[export] Instance no_multipart : MultipartParser (T := list_table) := {|
  mp_state := unit; mp_make ct dir := tt; mp_run st t bb := Ok (st, t, bb)
|}.

Definition a_registry : registry := (apreq_initialize APR_SUCCESS registry_start).2.

Definition a_post : request_rec (T := list_table) bytes :=
  a_request (str "POST") (str "r-handler") None
    [(str "Content-Type", str "application/x-www-form-urlencoded")] (str "a=1&b[]=2&b[]=3").

Abbreviation a_parsePost := (parsePost (T := list_table) (R := idle_engine) (In := bytes) (X := unit)
  (fun _ => x00) None (fun _ => None) a_registry).

Definition posted (v : r_reply) (w : world (T := list_table) (R := idle_engine) bytes) : bool :=
  match v with
  | Some (RList [RStr a; RStr b] n) =>
      bool_decide (a = [str "1"] /\ b = [str "2"; str "3"] /\ n = [str "a"; str "b"])
  | _ => false
  end && q_postParsed (w_req w).

Lemma parse_post_once_witness :
  exists v w1, a_parsePost true (busy_world a_post) = Ret v w1 /\ posted v w1 = true /\
    a_parsePost true w1 = Ret v w1.
Proof.
  destruct (returns_ret (a_parsePost true (busy_world a_post)) posted) as (v & w1 & Hr & Hp);
    [vm_compute; reflexivity|].
  exists v, w1. split; [exact Hr|]. split; [exact Hp|].
  eapply (parse_post_once (T := list_table) (R := idle_engine) (In := bytes) (X := unit)
    (fun _ => x00) None (fun _ => None) a_registry true true (busy_world a_post)); [reflexivity|exact Hr|].
  apply andb_true_iff in Hp. apply Hp.
Defined.

Lemma receive_whole_body_witness :
  exists w', RApache_receiveBin (RInt [-1]%Z) (busy_world a_post) =
      Ret (Some (RRaw (str "a=1&b[]=2&b[]=3"))) w' /\ in_rest (r_input (w_r w')) = [].
Proof.
  apply (receive_whole_body (RInt [-1]%Z) (busy_world a_post) bytes_input_works eq_refl eq_refl);
    vm_compute; reflexivity.
Defined.

Lemma url_endecode_ascii_witness :
  exists e, RStr <$> endecode_all encode [str "a b"; str "c"] = Some (RStr e) /\
    RStr <$> endecode_all (decode (fun _ => x00)) e = Some (RStr [str "a b"; str "c"]).
Proof. apply (url_endecode_ascii (fun _ => x00)). repeat constructor; done. Defined.

Lemma set_header_get_witness :
  exists w', RApache_setHeader (RStr [str "ETag"]) (RStr [str "x"]) (busy_world a_post) =
      Ret (Some (NewLogical true)) w' /\
    apr_table_get (r_headers_out (w_r w')) (str "etag") = Some (str "x").
Proof. apply (set_header_get (str "ETag") (str "x") (str "etag") (busy_world a_post) eq_refl). Defined.
