(* ===== verification/PostForm.v ===== *)
(** * Forms that are posted

    The path of a form from the client to R: the pieces of the body that Apache
    hands out, the parser of its content type, the table [parsePost] keeps and
    the list it gives R. *)
From S2P Require Import Prelude Apr Url Util Brigade Param Parser Urlencoded Header Boundary.
From S2P Require Import Multipart FormData StreamEnd Cookie RTable RState RCalls.

Section Post.
Context {E : AprErrno} {T : AprTable} {R : REngine} {In : Type} {I : ApInput In}
        {X : Type} {XP : AprXml X} {H : HookEnv X} {W : Type} {F : AprFile W} {SM : AprStrmatch}
        (FILE_BUCKET_LIMIT : nat) (w0 : W).
#[local] Instance form_body : MultipartParser := multipart_body (X := X) FILE_BUCKET_LIMIT w0.
Context (hole : nat -> Byte.byte) (tmpdir : option bytes)
        (file_info : bytes -> option (bytes * nat)) (reg : registry).
Abbreviation table := (apr_table apreq_param_t).
Abbreviation parser := (body_parser (X := X)).
Abbreviation parser_run := (apreq_parser_run (X := X) hole).
Abbreviation cleans := (plains (ok := clean)).

(** Apache hands out the body in order; EOS, when it is there, is last. *)
Definition in_streams : Prop :=
  forall (i : In) n, 0 < n -> exists cl (fin : bool) i',
    in_get i n = (APR_SUCCESS, cl ++ (if fin then [BEos] else []), i') /\
    cleans cl /\ (fin = true -> in_rest i' = []).

(** What a parser must do for [parsePost]: [pend p t y] says that [p] is in the
    middle of a body of which [y] is to come, and [goal] what the table must be
    at the end. *)
Record reads (pend : parser -> table -> bytes -> Prop) (settled : parser -> Prop)
    (goal : table -> Prop) : Prop := {
  rd_settled p t bb : settled p -> exists p', parser_run p t bb = Ok (p', t, bb) /\ settled p';
  rd_more p t bb y : pend p t (brigade_data bb ++ y) -> cleans bb ->
    exists p' t' bb', parser_run p t bb = Ok (p', t', bb') /\
      ((bb' = [] /\ pend p' t' y) \/ (goal t' /\ settled p'));
  rd_end p t bb : pend p t (brigade_data bb) -> cleans bb ->
    exists p' t' bb', parser_run p t (bb ++ [BEos]) = Ok (p', t', bb') /\
      goal t' /\ (last_is_eos bb' = true \/ settled p')
}.

Section Loop.
Context (Hin : in_streams) {pend settled goal} (Hr : reads pend settled goal).

Lemma clean_plain bb : cleans bb -> forallb plain bb = true.
Proof.
  unfold plains. induction bb as [|e bb IH]; cbn; [done|]. unfold clean at 1.
  rewrite !andb_true_iff. intros [[-> _] Hb]. by split; [|apply IH].
Qed.

(** One turn: what Apache hands out, and how much it leaves. *)
Lemma get_turn (i : In) : exists cl (fin : bool) i',
  in_get i HUGE_STRING_LEN = (APR_SUCCESS, cl ++ (if fin then [BEos] else []), i') /\
  cleans cl /\ in_rest i = brigade_data cl ++ in_rest i' /\
  if fin then in_rest i' = [] else length (in_rest i') < length (in_rest i).
Proof.
  destruct (Hin i HUGE_STRING_LEN ltac:(unfold HUGE_STRING_LEN; lia)) as (cl & fin & i' & Hg & Hc & Hf).
  destruct (in_get_data _ _ _ _ _ Hg eq_refl) as (Hd & _ & _ & He).
  assert (Hcl : brigade_data (cl ++ (if fin then [BEos] else [])) = brigade_data cl)
    by (rewrite brigade_data_app; destruct fin; apply app_nil_r).
  rewrite Hcl in *. exists cl, fin, i'. split_and!; try done. destruct fin; [by apply Hf|].
  rewrite Hd, length_app. destruct (brigade_data cl); [|cbn; lia].
  specialize (He eq_refl). by rewrite app_nil_r, plain_last in He by by apply clean_plain.
Qed.

Lemma settled_loop fuel p t (i : In) :
  settled p -> length (in_rest i) + 1 <= fuel ->
  exists i', post_loop hole fuel p t i = Ok (t, i') /\ in_rest i' = [].
Proof.
  revert p i. induction fuel as [|fuel IH]; intros p i Hp Hf; [lia|]. cbn [post_loop].
  destruct (get_turn i) as (cl & fin & i' & -> & Hc & Hd & Hl). cbn [negb Z.eqb APR_SUCCESS].
  destruct (rd_settled _ _ _ Hr p t (cl ++ (if fin then [BEos] else [])) Hp) as (p' & -> & Hp').
  cbn [obind]. destruct fin.
  - rewrite last_is_eos_snoc. eauto.
  - rewrite app_nil_r, plain_last by by apply clean_plain. apply IH; [done|lia].
Qed.

(** The loop ends, with the table that was asked for. *)
Lemma reading_loop fuel p t (i : In) :
  pend p t (in_rest i) -> length (in_rest i) + 2 <= fuel ->
  exists t' i', post_loop hole fuel p t i = Ok (t', i') /\ goal t'.
Proof.
  revert p t i. induction fuel as [|fuel IH]; intros p t i Hp Hf; [lia|]. cbn [post_loop].
  destruct (get_turn i) as (cl & fin & i' & -> & Hc & Hd & Hl). cbn [negb Z.eqb APR_SUCCESS].
  rewrite Hd in Hp. destruct fin.
  - rewrite Hl, app_nil_r in Hp.
    destruct (rd_end _ _ _ Hr p t cl Hp Hc) as (p' & t' & bb' & -> & Hg & Hs). cbn [obind].
    destruct (last_is_eos bb') eqn:El; [eauto|]. destruct Hs as [?|Hs]; [done|].
    destruct (settled_loop fuel p' t' i' Hs) as (i2 & H2 & _); [rewrite Hl; cbn; lia|eauto].
  - rewrite app_nil_r.
    destruct (rd_more _ _ _ Hr p t cl _ Hp Hc) as (p' & t' & bb' & -> & Hs). cbn [obind].
    destruct Hs as [[-> Hp']|[Hg Hs]].
    + cbn [last_is_eos last]. apply IH; [done|lia].
    + destruct (last_is_eos bb'); [eauto|].
      destruct (settled_loop fuel p' t' i' Hs) as (i2 & H2 & _); [lia|eauto].
Qed.

End Loop.

(** ** Urlencoded forms *)

Section UrlForm.
Context (t0 : table).

Definition url_pend (p : parser) (t : table) (y : bytes) : Prop :=
  exists psr rest, p = PUrl psr /\ url_pending psr rest /\
    (urlencoded_form hole t (rest ++ y)).2 = t0.
Definition url_settled (p : parser) : Prop :=
  exists psr c, p = PUrl psr /\ ps_ctx psr = Some c /\ url_done c.

Lemma url_reads : reads url_pend url_settled (fun t => t = t0).
Proof.
  split.
  - intros p t bb (psr & c & -> & Hc & Hd). cbn [apreq_parser_run]. unfold apreq_parse_urlencoded.
    rewrite Hc. cbn [default from_option id].
    exists (PUrl (set_ctx psr c)). destruct Hd as [Hd|Hd]; rewrite Hd; (split; [done|]);
      exists (set_ctx psr c), c; unfold url_done; auto.
  - intros p t bb y (psr & rest & -> & Hp & Ht) Hc. apply clean_plain in Hc. cbn [apreq_parser_run].
    destruct (url_call_pending hole psr rest t bb Hp) as (b0 & Hd & P0 & Hh & ->). cbn zeta.
    assert (Pall : forallb plain (b0 ++ bb) = true) by (by rewrite forallb_app, P0).
    destruct (url_brigade_more (length (brigade_data (b0 ++ bb))) hole t (b0 ++ bb) Pall ltac:(lia))
      as (Hhk & Hbb & Hr). set (r := url_brigade _ _ _ _ _) in *. rewrite Hbb.
    eexists _, _, _. split; [reflexivity|].
    rewrite app_assoc, <- Hd, <- brigade_data_app in Ht. unfold urlencoded_form in Ht.
    rewrite pairs_of_app in Ht.
    destruct (pairs_of hole t (brigade_data (b0 ++ bb))) as [[[e|] t'] l'].
    + right. destruct Hr as (_ & Hrt & Hst). split; [by rewrite Hrt|].
      eexists _, _. split_and!; [done..|by left].
    + left. destruct Hr as (_ & Hrt & H1 & H2 & H3 & H4). split; [done|].
      eexists _, l'. split_and!; [done| |by rewrite Hrt].
      unfold url_pending. cbn. by split_and!.
  - intros p t bb (psr & rest & -> & Hp & Ht) Hc. apply clean_plain in Hc. cbn [apreq_parser_run].
    destruct (url_call_pending hole psr rest t (bb ++ [BEos]) Hp) as (b0 & Hd & P0 & Hh & ->).
    cbn zeta. rewrite app_assoc.
    destruct (url_brigade_eos (length (brigade_data ((b0 ++ bb) ++ [BEos]))) hole t (b0 ++ bb))
      as [Hr [Hl _]].
    { by rewrite forallb_app, P0. }
    { rewrite (brigade_data_app (b0 ++ bb)), length_app. lia. }
    rewrite <- Hd, <- brigade_data_app, <- Hr in Ht. cbn [snd] in Ht.
    eexists _, _, _. split; [reflexivity|]. split; [done|].
    destruct Hl as [Hl|Hl]; [by left|right]. by eexists _, _.
Qed.

End UrlForm.

(** ** Multipart forms *)

Abbreviation form_parser := (apreq_parser_t (X := X) (mfd_ctx T X (mixed_parser T X))).
Definition form (w : W) (psr : form_parser) : parser := PMultipart (MP := form_body) (w, psr).

Section MultipartForm.
Context (b : bytes) (Hlimit : 0 < FILE_BUCKET_LIMIT) (Hos : os_reliable (W := W)) (Hb : x0d ∉ b)
        (parts : list part) (Hparts : forallb (pt_ok b) parts = true) (epilogue : bytes).
Abbreviation parse := (apreq_parse_multipart (W := W) (X := X) FILE_BUCKET_LIMIT).

Definition form_read (t : table) : Prop :=
  exists es, apr_table_elts t = es /\ Forall2 part_gives parts es.

(** [psr] behaves as a parser that has read some of the parts. *)
Definition form_pend (p : parser) (t : table) (y : bytes) : Prop :=
  exists w psr psr0 ps1 ps2, p = form w psr /\
    (forall t bb, parse w psr t (Some bb) = parse w psr0 t (Some bb)) /\
    parts = ps1 ++ ps2 /\ Forall2 part_gives ps1 (apr_table_elts t) /\
    form_pending FILE_BUCKET_LIMIT b psr0 w t y ps2 epilogue.
Definition form_settled (p : parser) : Prop := exists w psr, p = form w psr /\ form_complete psr.

Lemma form_run w psr t bb :
  parser_run (form w psr) t bb =
    obind (fun '(_, w, psr, t, bb) => Ok (form w psr, t, default [] bb)) (parse w psr t (Some bb)).
Proof.
  cbn [form apreq_parser_run mp_run form_body multipart_body fst snd].
  by destruct (parse w psr t (Some bb)) as [[[[[s w'] psr'] t'] bb']| |].
Qed.

Lemma form_turn p t bb y :
  form_pend p t (brigade_data bb ++ y) -> cleans bb ->
  exists w psr s w' psr' t' bb', p = form w psr /\
    parse w psr t (Some bb) = Ok (s, w', psr', t', Some bb') /\
    ((s = APR_INCOMPLETE /\ y <> [] /\ bb' = [] /\ form_pend (form w' psr') t' y) \/
     (s = APR_SUCCESS /\ form_read t' /\ form_complete psr')).
Proof.
  intros (w & psr & psr0 & ps1 & ps2 & -> & Hsame & Hps & Hg & Hp) Hc.
  assert (Hok : forallb (pt_ok b) ps2 = true).
  { rewrite Hps, forallb_app, andb_true_iff in Hparts. by destruct Hparts. }
  destruct (parse_pending FILE_BUCKET_LIMIT b Hlimit Hos Hb psr0 w t bb y ps2 epilogue Hp Hc Hok)
    as (s & w' & psr' & t' & bb' & ps3 & ps4 & es & Hr & -> & Hf & He & Hs).
  exists w, psr, s, w', psr', t', bb'. split; [done|]. rewrite Hsame. split; [done|].
  assert (Hg' : Forall2 part_gives (ps1 ++ ps3) (apr_table_elts t')) by (rewrite He; by apply Forall2_app).
  destruct Hs as [(-> & Hy & -> & Hp')|(-> & -> & _ & Hd)]; [left|right].
  - split_and!; try done. exists w', psr', psr', (ps1 ++ ps3), ps4. by rewrite <- app_assoc.
  - split_and!; try done. exists (apr_table_elts t'). split; [done|].
    by rewrite Hps, app_nil_r.
Qed.

Lemma form_reads : reads form_pend form_settled form_read.
Proof.
  split.
  - intros p t bb (w & psr & -> & c & Hc & Hd). rewrite form_run. unfold apreq_parse_multipart.
    rewrite Hc. cbn [obind]. unfold multipart_run. rewrite Hd. cbn [parser_status_check obind].
    eexists. split; [reflexivity|]. eexists _, _. split; [done|]. by eexists.
  - intros p t bb y Hp Hc.
    destruct (form_turn p t bb y Hp Hc) as (w & psr & s & w' & psr' & t' & bb' & -> & Hr & Hs).
    rewrite form_run, Hr. cbn [obind]. eexists _, _, _. split; [reflexivity|].
    destruct Hs as [(_ & _ & -> & Hp')|(_ & Hg & Hd)]; [by left|right]. split; [done|].
    by eexists _, _.
  - intros p t bb Hp Hc. rewrite <- (app_nil_r (brigade_data bb)) in Hp.
    destruct (form_turn p t bb [] Hp Hc) as (w & psr & s & w' & psr' & t' & bb' & -> & Hr & Hs).
    destruct Hs as [(_ & ? & _)|(-> & Hg & Hd)]; [done|].
    apply (parse_multipart_behind [BEos] eq_refl) in Hr.
    rewrite form_run, Hr. cbn [obind]. eexists _, _, _. split; [reflexivity|]. split; [done|].
    right. by eexists _, _.
Qed.

Lemma new_form_pend ct y :
  boundary_of ct = Attr b -> y = form_text b parts epilogue ->
  form_pend (make_parser (X := X) tmpdir apreq_parse_multipart_f ct) apr_table_make y.
Proof.
  intros Hct ->.
  set (psr := apreq_parser_make ct apreq_parse_multipart_f 0 tmpdir [] None : form_parser).
  exists w0, psr, (set_ctx psr (first_ctx b psr)), [], parts.
  split_and!; [done|intros t bb; by apply first_parse|done| |by apply first_pending].
  rewrite elts_make. constructor.
Qed.

End MultipartForm.

(** ** parsePost *)

(** A request whose body nobody has touched, of a content type with a parser. *)
Definition awaits_parse (w : world In) (ct : bytes) (pfn : apreq_parser_function_t) : Prop :=
  let q := w_req w in
  q_r q = true /\ q_readStarted q = false /\ q_postParsed q = false /\
  (r_method (w_r w) = str "POST" \/ r_method (w_r w) = str "PUT") /\
  apr_table_get (r_headers_in (w_r w)) (str "Content-Type") = Some ct /\
  apreq_parser reg (Some ct) = Some pfn.

Abbreviation post := (parsePost (X := X) hole tmpdir file_info reg).

(** What R is given for a table of parameters. *)
Definition posted_answer (returnPost : bool) (t : table) : SEXP :=
  if returnPost then to_list (Some t) else uploads_list file_info t.

Lemma parse_post_reads returnPost (w : world In) ct pfn pend settled goal :
  in_streams -> reads pend settled goal -> awaits_parse w ct pfn ->
  pend (make_parser tmpdir pfn ct) apr_table_make (in_rest (r_input (w_r w))) ->
  exists t w', goal t /\ post returnPost w = Ret (Some (posted_answer returnPost t)) w' /\
    q_postTable (w_req w') = Some t /\ q_postParsed (w_req w') = true.
Proof.
  intros Hin Hr (Hq & Hrs & Hpp & Hm & Hct & Hpfn) Hp.
  assert (Hmethod : negb (bool_decide (r_method (w_r w) = str "POST")) &&
    negb (bool_decide (r_method (w_r w) = str "PUT")) = false)
    by (destruct Hm as [-> | ->]; reflexivity).
  destruct (reading_loop Hin Hr (length (in_rest (r_input (w_r w))) + 3) _ _ _ Hp)
    as (t & i & Hl & Hg); [lia|].
  exists t. unfold parsePost, bind, get, modify. rewrite Hq, Hrs, Hpp. cbn beta iota delta [negb].
  rewrite Hmethod, Hct. cbn beta iota. rewrite Hpfn. cbn [default from_option id]. rewrite Hl. unfold ret, posted_answer.
  destruct returnPost; eexists; (split; [exact Hg|split; [reflexivity|split; reflexivity]]).
Qed.

(** C5: a urlencoded form that is posted reaches R: whatever pieces Apache hands
    the body out in, [parsePost] ends and keeps the table that the reference
    parser makes of the body as one string, and R is given the list of that
    table, or its files. *)
Theorem posted_fields_reach_R (returnPost : bool) (w : world In) (ct : bytes) :
  in_streams -> awaits_parse w ct apreq_parse_urlencoded_f ->
  let t := (urlencoded_form hole apr_table_make (in_rest (r_input (w_r w)))).2 in
  exists w', post returnPost w = Ret (Some (posted_answer returnPost t)) w' /\
    q_postTable (w_req w') = Some t /\ q_postParsed (w_req w') = true.
Proof.
  intros Hin Hw t.
  destruct (parse_post_reads returnPost w ct _ _ _ _ Hin (url_reads t) Hw) as (t' & w' & -> & Hr).
  - eexists _, []. split; [reflexivity|]. split; [by apply fresh_pending|done].
  - by exists w'.
Qed.

(** C4: a [multipart/form-data] form that is posted reaches R: whatever pieces
    Apache hands the body out in, [parsePost] ends, and the table that R's list
    is made of has one entry per part, in order, with the part's name and data
    or file. *)
Theorem posted_form_reaches_R (returnPost : bool) (w : world In) (ct b : bytes)
    (parts : list part) (epilogue : bytes) :
  0 < FILE_BUCKET_LIMIT -> os_reliable (W := W) -> in_streams ->
  awaits_parse w ct apreq_parse_multipart_f -> boundary_of ct = Attr b -> x0d ∉ b ->
  forallb (pt_ok b) parts = true -> in_rest (r_input (w_r w)) = form_text b parts epilogue ->
  exists t w', Forall2 part_gives parts (apr_table_elts t) /\
    post returnPost w = Ret (Some (posted_answer returnPost t)) w' /\
    q_postTable (w_req w') = Some t /\ q_postParsed (w_req w') = true.
Proof.
  intros Hl Hos Hin Hw Hct Hb Hp Hd.
  destruct (parse_post_reads returnPost w ct _ _ _ _ Hin
    (form_reads b Hl Hos Hb parts Hp epilogue) Hw) as (t & w' & (es & <- & Hg) & Hr).
  - by apply new_form_pend.
  - by exists t, w'.
Qed.

(** ** A body without its boundary *)

(** The parser still looks for the first boundary. *)
Definition searching (b : bytes) (p : parser) (seen : bytes) : Prop :=
  exists w psr psr0 c, p = form w psr /\
    (forall t bb, apreq_parse_multipart FILE_BUCKET_LIMIT w psr t (Some bb) =
                  apreq_parse_multipart FILE_BUCKET_LIMIT w psr0 t (Some bb)) /\
    ps_ctx psr0 = Some c /\ m_status c = MFD_INIT /\ m_bdry c = full_bdry b /\
    brigade_data (m_bb c) ++ brigade_data (m_in c) = seen.

Lemma searching_turn b p seen t bb y :
  searching b p seen -> (forall a c, (seen ++ brigade_data bb) ++ y <> a ++ (str "--" ++ b) ++ c) ->
  exists p', parser_run p t bb = Ok (p', t, []) /\ searching b p' (seen ++ brigade_data bb).
Proof.
  intros (w & psr & psr0 & c & -> & Hsame & Hc & Hst & Hbd & Hd) Hno.
  rewrite form_run, Hsame. unfold apreq_parse_multipart. rewrite Hc. cbn [obind].
  unfold multipart_run. rewrite Hst. cbn [parser_status_check default from_option id].
  rewrite Nat.add_comm. cbn [Nat.add mfd_loop]. unfold mfd_switch. cbn [r_ctx set_io m_status].
  unfold mfd_init. cbn [r_ctx set_io m_bb m_in m_bdry]. rewrite Hbd.
  change (drop 2 (full_bdry b)) with (str "--" ++ b).
  destruct (split_on_bdry _ _ _ _) as [[s o] i] eqn:Es.
  apply split_on_bdry_moves in Es; [|done].
  rewrite brigade_data_app, app_assoc, Hd in Es.
  destruct (s =? APR_SUCCESS)%Z eqn:E0.
  { exfalso. apply (Hno (brigade_data o) (brigade_data i ++ y)). rewrite Es. by rewrite <- !app_assoc. }
  cbn [negb stop obind fst snd r_bb default from_option id]. eexists. split; [reflexivity|].
  eexists _, _, _, _. split; [reflexivity|]. split; [done|]. split; [reflexivity|].
  cbn. by rewrite Es.
Qed.

Lemma searching_loop b fuel p seen t (i : In) :
  in_works (In := In) -> searching b p seen ->
  (forall a c, seen ++ in_rest i <> a ++ (str "--" ++ b) ++ c) ->
  post_loop hole fuel p t i = NoFuel.
Proof.
  intros Hin. revert p seen i. induction fuel as [|fuel IH]; intros p seen i Hs Hno; [done|].
  cbn [post_loop]. destruct (Hin i HUGE_STRING_LEN) as [Hok _].
  destruct (in_get i HUGE_STRING_LEN) as [[s bb] i'] eqn:Eg. cbn [fst] in Hok. subst s.
  cbn [negb Z.eqb APR_SUCCESS]. destruct (in_get_data _ _ _ _ _ Eg eq_refl) as [Hd _].
  rewrite Hd, app_assoc in Hno.
  destruct (searching_turn b p seen t bb _ Hs Hno) as (p' & -> & Hs'). cbn [obind last_is_eos last].
  by apply (IH p' _ i' Hs').
Qed.

(** C29: a multipart body in which the boundary never appears keeps [parsePost]
    reading for ever: the parser takes the end of the stream away with every
    brigade and stays in its first state, so the loop never sees that the body
    is over. *)
Theorem boundaryless_form_never_ends (i : In) (ct b : bytes) (fuel : nat) :
  in_works (In := In) -> boundary_of ct = Attr b ->
  (forall a c, in_rest i <> a ++ (str "--" ++ b) ++ c) ->
  post_loop hole fuel (make_parser tmpdir apreq_parse_multipart_f ct) apr_table_make i = NoFuel.
Proof.
  intros Hin Hct Hno.
  set (psr := apreq_parser_make ct apreq_parse_multipart_f 0 tmpdir [] None : form_parser).
  apply (searching_loop b fuel _ [] _ _ Hin); [|exact Hno].
  exists w0, psr, (set_ctx psr (first_ctx b psr)), (first_ctx b psr).
  split_and!; [done|intros t bb; by apply first_parse|done..].
Qed.

End Post.

(** ** Witnesses *)

Lemma bytes_input_streams : in_streams (In := bytes).
Proof.
  intros i n Hn. cbn [in_get bytes_input]. destruct i as [|c i].
  - exists [], true, []. by destruct n.
  - destruct n as [|n]; [lia|]. by exists [BData (c :: take n i)], false, (drop n i).
Qed.

Abbreviation a_post_call := (parsePost (T := list_table) (R := idle_engine) (In := bytes) (X := unit)
  (MP := form_body 1000 tt) (fun _ => x00) None (fun _ => None) a_registry).

Lemma posted_fields_reach_R_witness :
  exists w', a_post_call true (busy_world a_post) =
    Ret (Some (RList [RStr [str "1"]; RStr [str "2"; str "3"]] [str "a"; str "b"])) w' /\
    q_postParsed (w_req w') = true.
Proof.
  destruct (posted_fields_reach_R (T := list_table) (R := idle_engine) 1000 tt (fun _ => x00) None
    (fun _ => None) a_registry true (busy_world a_post) (str "application/x-www-form-urlencoded")
    bytes_input_streams) as (w' & Hr & _ & Hp).
  - unfold awaits_parse. split_and!; try reflexivity. by left.
  - exists w'. split; [|exact Hp]. exact Hr.
Defined.

Definition a_form_post : request_rec (T := list_table) bytes :=
  a_request (str "POST") (str "r-handler") None
    [(str "Content-Type", str "multipart/form-data; boundary=B")]
    (form_text (str "B") two_parts []).

Lemma posted_form_reaches_R_witness :
  exists t w', Forall2 part_gives two_parts (apr_table_elts t) /\
    a_post_call true (busy_world a_form_post) = Ret (Some (to_list (Some t))) w' /\
    q_postTable (w_req w') = Some t /\ q_postParsed (w_req w') = true.
Proof.
  apply (posted_form_reaches_R (T := list_table) (R := idle_engine) 1000 tt (fun _ => x00) None
    (fun _ => None) a_registry true (busy_world a_form_post) (str "multipart/form-data; boundary=B")
    (str "B") two_parts []).
  - lia.
  - apply short_writes_reliable.
  - apply bytes_input_streams.
  - unfold awaits_parse. split_and!; try reflexivity. by left.
  - vm_compute. reflexivity.
  - cbn. rewrite elem_of_cons, elem_of_nil. naive_solver.
  - vm_compute. reflexivity.
  - reflexivity.
Defined.

Lemma boundaryless_form_never_ends_witness :
  post_loop (T := list_table) (In := bytes) (X := unit) (MP := form_body 1000 tt)
    (fun _ => x00) 100
    (make_parser (MP := form_body 1000 tt) None apreq_parse_multipart_f
       (str "multipart/form-data; boundary=B")) apr_table_make (str "x") = NoFuel.
Proof.
  apply (boundaryless_form_never_ends (T := list_table) 1000 tt (fun _ => x00) None
    (str "x") (str "multipart/form-data; boundary=B") (str "B") 100).
  - exact bytes_input_works.
  - vm_compute. reflexivity.
  - intros a c Hx. apply (f_equal length) in Hx. rewrite !length_app in Hx. cbn in Hx. lia.
Defined.
