(* ===== verification/Directives.v ===== *)
(** * The configuration directives ([src/mod_R.c], "Command functions")

    What Apache calls while it reads its configuration: the functions that fill
    a directory's [RApacheDirective], and the table of R code to run or to parse
    when R starts. *)
From S2P Require Import Prelude Apr Url Util Brigade Param Cookie RTable RState.

(** ** Paths *)

(** [strstr(s, sub)] *)
Fixpoint strstr (s sub : bytes) : option nat :=
  if bool_decide (take (length sub) s = sub) then Some 0
  else match s with
  | [] => None
  | _ :: s => S <$> strstr s sub
  end.

(** The loop over the path: the place of the last slash, [j] when it has none. *)
Fixpoint last_slash (path : bytes) (i : nat) (j : Z) : Z :=
  match path with
  | [] => j
  | c :: path => last_slash path (S i) (if c =b? x2f then Z.of_nat i else j)
  end.

(** [j] starts with whatever is on the stack. *)
Definition dirname (j0 : Z) (path : bytes) : option bytes :=
  let j := last_slash path 0 j0 in
  if (0 <? j)%Z then Some (take (Z.to_nat j) path) else None.

(** ** State *)

Section Directives.
Context {T : AprTable}.

(** [MR_OnStartup]: [None] until the pool is there; [cf_userdata] is what the
    process pool remembers of earlier passes over the configuration. *)
Record config := Config {
  MR_OnStartup : option (apr_table bytes);
  MR_ConfigPass : Z;
  cf_userdata : option Z;
  cf_stderr : list bytes
}.

Definition config_start : config := Config None 1 None [].

Definition InitRApachePool (c : config) : config :=
  match MR_OnStartup c with
  | Some _ => c
  | None => Config (Some apr_table_make) (MR_ConfigPass c) (cf_userdata c) (cf_stderr c)
  end.

Definition init_config_pass (c : config) : config :=
  let pass := match cf_userdata c with None => 1%Z | Some _ => 2%Z end in
  Config (MR_OnStartup c) pass (Some pass) (cf_stderr c).

Definition on_startup_add (c : config) (key val : bytes) : config :=
  Config ((fun t => apr_table_add t key val) <$> MR_OnStartup c) (MR_ConfigPass c) (cf_userdata c)
    (cf_stderr c).

Definition warn (c : config) (msg : bytes) : config :=
  Config (MR_OnStartup c) (MR_ConfigPass c) (cf_userdata c) (cf_stderr c ++ [msg]).

(** [cmd_parms] and its [ap_directive_t]. *)
Record cmd_parms := Cmd {
  cmd_path : option bytes; cmd_directive : bytes; cmd_line_num : Z; cmd_filename : bytes
}.

(** ["e:%s on line %u of %s"], ["p:%s on line %u of %s"] *)
Definition startup_key (tag : Byte.byte) (cmd : cmd_parms) : bytes :=
  [tag; x3a] ++ cmd_directive cmd ++ str " on line " ++ print_int (cmd_line_num cmd)
  ++ str " of " ++ cmd_filename cmd.

Definition e_tag : Byte.byte := x65.
Definition p_tag : Byte.byte := x70.

Definition library_call (package : bytes) : bytes := str "library(" ++ package ++ str ")".

(** ** Directory and server configurations *)

Definition no_directive : RApacheDirective := Directive None None None None None None None.

Definition AP_create_dir_cfg : RApacheDirective := no_directive.
Definition AP_merge_dir_cfg (parent new : RApacheDirective) : RApacheDirective := new.
Definition AP_create_srv_cfg (c : config) : RApacheDirective * config :=
  (no_directive, init_config_pass c).
Definition AP_merge_srv_cfg (parent new : RApacheDirective) : RApacheDirective := new.

(** ** Commands

    A command gives Apache an error message or none, and changes the directory's
    directive and the state either way. *)

Definition cmd_result : Type := option bytes * RApacheDirective * config.

Context (file_exists : bytes -> bool) (j0 : Z).

Definition set_handlerKey k (d : RApacheDirective) :=
  Directive (d_file d) (d_dirname d) (d_function d) (d_evalcode d) (d_package d) (Some k) (d_cmdpath d).
Definition set_package p (d : RApacheDirective) :=
  Directive (d_file d) (d_dirname d) (d_function d) (d_evalcode d) (Some p) (d_handlerKey d) (d_cmdpath d).
Definition set_function f (d : RApacheDirective) :=
  Directive (d_file d) (d_dirname d) (Some f) (d_evalcode d) (d_package d) (d_handlerKey d) (d_cmdpath d).
Definition set_file f (d : RApacheDirective) :=
  Directive (Some f) (d_dirname d) (d_function d) (d_evalcode d) (d_package d) (d_handlerKey d) (d_cmdpath d).
Definition set_evalcode e (d : RApacheDirective) :=
  Directive (d_file d) (d_dirname d) (d_function d) (Some e) (d_package d) (d_handlerKey d) (d_cmdpath d).
Definition set_cmdpath p (d : RApacheDirective) :=
  Directive (d_file d) (d_dirname d) (d_function d) (d_evalcode d) (d_package d) (d_handlerKey d) p.
Definition set_dirname n (d : RApacheDirective) :=
  Directive (d_file d) n (d_function d) (d_evalcode d) (d_package d) (d_handlerKey d) (d_cmdpath d).

Definition slash_warning (arg instead : bytes) : bytes :=
  [x0a; x09] ++ str "WARNING! " ++ arg
  ++ str " seems to contain a file. If this is true, then use the " ++ instead
  ++ str " directive instead." ++ [x0a].

Definition has_slash (s : bytes) : bool := bool_decide (x2f ∈ s).

Definition AP_cmd_RHandler (cmd : cmd_parms) (d : RApacheDirective) (c : config) (handler : bytes)
  : cmd_result :=
  let c := InitRApachePool c in
  let c := if has_slash handler then warn c (slash_warning handler (str "RFileHandler")) else c in
  let d := set_handlerKey handler d in
  let '(d, c, function) :=
    match strstr handler (str "::") with
    | Some part =>
        let package := take part handler in
        (set_package package d, on_startup_add c (startup_key e_tag cmd) (library_call package),
         drop (part + 2) handler)
    | None => (d, c, handler)
    end in
  (None, set_cmdpath (cmd_path cmd) (set_function function d), c).

Definition AP_cmd_RFileHandler (cmd : cmd_parms) (d : RApacheDirective) (c : config) (handler : bytes)
  : cmd_result :=
  let c := InitRApachePool c in
  let d := set_handlerKey handler d in
  let '(d, file) :=
    match strstr handler (str "::") with
    | Some part =>
        (set_function (drop (part + 2) handler) (set_file (take part handler) d), take part handler)
    | None => (set_file handler d, handler)
    end in
  if negb (file_exists file)
  then (Some (str "RFileHandler: " ++ file ++ str " file not found!"), d, c)
  else (None, set_dirname (dirname j0 file) (set_cmdpath (cmd_path cmd) d), c).

Definition AP_cmd_REval (cmd : cmd_parms) (d : RApacheDirective) (c : config) (tmpcode : bytes)
  : cmd_result :=
  let c := InitRApachePool c in
  let c := if has_slash tmpcode then warn c (slash_warning tmpcode (str "RFileEval")) else c in
  let d := set_handlerKey tmpcode d in
  let '(d, c) :=
    match strstr tmpcode (str "::") with
    | Some part =>
        let package := take part tmpcode in
        (set_package package d, on_startup_add c (startup_key e_tag cmd) (library_call package))
    | None => (d, c)
    end in
  let c := on_startup_add c (startup_key p_tag cmd) tmpcode in
  (None, set_cmdpath (cmd_path cmd) (set_evalcode tmpcode d), c).

Definition AP_cmd_RFileEval (cmd : cmd_parms) (d : RApacheDirective) (c : config) (filecode : bytes)
  : cmd_result :=
  let c := InitRApachePool c in
  let d := set_handlerKey filecode d in
  match strstr filecode (str ":") with
  | None => (Some (str "RFileEval: Takes a filename and an expression!"), d, c)
  | Some part =>
      let file := take part filecode in
      let evalcode := drop (part + 1) filecode in
      let d := set_evalcode evalcode (set_file file d) in
      let c := on_startup_add c (startup_key p_tag cmd) evalcode in
      let '(d, c) :=
        match strstr evalcode (str "::") with
        | Some part =>
            let package := take part evalcode in
            (set_package package d, on_startup_add c (startup_key e_tag cmd) (library_call package))
        | None => (d, c)
        end in
      if negb (file_exists file)
      then (Some (str "RFileEval: " ++ file ++ str " file not found!"), d, c)
      else (None, set_dirname (dirname j0 file) (set_cmdpath (cmd_path cmd) d), c)
  end.

Definition AP_cmd_REvalOnStartup (cmd : cmd_parms) (d : RApacheDirective) (c : config) (evalstr : bytes)
  : cmd_result :=
  let c := InitRApachePool c in
  (None, d, on_startup_add c (startup_key e_tag cmd) evalstr).

Definition AP_cmd_RSourceOnStartup (cmd : cmd_parms) (d : RApacheDirective) (c : config) (file : bytes)
  : cmd_result :=
  let c := InitRApachePool c in
  if (MR_ConfigPass c =? 1)%Z then
    (if file_exists file then None else Some (str "RSourceFile: " ++ file ++ str " file not found!"), d, c)
  else
    (None, d, on_startup_add c (startup_key e_tag cmd) (str "source('" ++ file ++ str "')")).

Definition AP_cmd_ROutputErrors (d : RApacheDirective) (c : config) : cmd_result :=
  (None, d, warn c (str "Warning: ROutputErrors has been deprecated!")).
Definition AP_cmd_RPreserveEnv (d : RApacheDirective) (c : config) : cmd_result :=
  (None, d, warn c (str "Warning: RPreserveEnv has been deprecated!")).

(** [MR_cmds] *)
Inductive command :=
  | RHandler (arg : bytes)
  | RFileHandler (arg : bytes)
  | REval (arg : bytes)
  | RFileEval (arg : bytes)
  | REvalOnStartup (arg : bytes)
  | RSourceOnStartup (arg : bytes)
  | ROutputErrors
  | RPreserveEnv.

Definition run_command (cmd : cmd_parms) (d : RApacheDirective) (c : config) (op : command) : cmd_result :=
  match op with
  | RHandler a => AP_cmd_RHandler cmd d c a
  | RFileHandler a => AP_cmd_RFileHandler cmd d c a
  | REval a => AP_cmd_REval cmd d c a
  | RFileEval a => AP_cmd_RFileEval cmd d c a
  | REvalOnStartup a => AP_cmd_REvalOnStartup cmd d c a
  | RSourceOnStartup a => AP_cmd_RSourceOnStartup cmd d c a
  | ROutputErrors => AP_cmd_ROutputErrors d c
  | RPreserveEnv => AP_cmd_RPreserveEnv d c
  end.

End Directives.

(** * Properties *)

(** [sub] starts at [n] in [s]. *)
Definition occurs_at (s sub : bytes) (n : nat) : Prop :=
  exists a b, s = a ++ sub ++ b /\ length a = n.

Lemma occurs_at_take s sub : occurs_at s sub 0 <-> take (length sub) s = sub.
Proof.
  split.
  - intros (a & b & -> & Ha). destruct a; [|done]. cbn. by rewrite take_app_length.
  - intros H. exists [], (drop (length sub) s). split; [|done]. cbn.
    rewrite <- (take_drop (length sub) s) at 1. by rewrite H.
Qed.

Lemma occurs_at_S c s sub n : occurs_at (c :: s) sub (S n) <-> occurs_at s sub n.
Proof.
  split.
  - intros (a & b & Hs & Ha). destruct a as [|x a]; [done|]. injection Hs as -> ->.
    exists a, b. split; [done|]. by injection Ha.
  - intros (a & b & -> & Ha). exists (c :: a), b. split; [done|]. cbn. by rewrite Ha.
Qed.

(** [strstr] finds the first occurrence. *)
Lemma strstr_first s sub :
  match strstr s sub with
  | Some n => occurs_at s sub n /\ forall m, m < n -> ~ occurs_at s sub m
  | None => forall m, ~ occurs_at s sub m
  end.
Proof.
  induction s as [|c s IH]; cbn [strstr].
  - case_bool_decide as Ht.
    + split; [by apply occurs_at_take|lia].
    + intros m (a & b & Hs & Ha). apply Ht. destruct a; [|done].
      cbn in Hs. symmetry in Hs. by apply app_eq_nil in Hs as [-> _].
  - case_bool_decide as Ht.
    + split; [by apply occurs_at_take|lia].
    + destruct (strstr s sub) as [n|]; cbn.
      * destruct IH as [Ho Hf]. split; [by apply occurs_at_S|]. intros [|m] Hm.
        -- by rewrite occurs_at_take.
        -- rewrite occurs_at_S. apply Hf. lia.
      * intros [|m]; [by rewrite occurs_at_take|]. by rewrite occurs_at_S.
Qed.

Lemma strstr_split s sub n :
  strstr s sub = Some n -> s = take n s ++ sub ++ drop (n + length sub) s /\ n + length sub <= length s.
Proof.
  intros H. pose proof (strstr_first s sub) as Hs. rewrite H in Hs.
  destruct Hs as [(a & b & -> & <-) _]. rewrite take_app_length, <- drop_drop, drop_app_length,
    drop_app_length. split; [done|]. rewrite !length_app. lia.
Qed.

(** [a] and [b] are the parts of [s] around the first occurrence of [sub]. *)
Definition cut_at (s sub a b : bytes) : Prop :=
  s = a ++ sub ++ b /\ forall m, m < length a -> ~ occurs_at s sub m.

Lemma strstr_cut s sub n :
  strstr s sub = Some n -> cut_at s sub (take n s) (drop (n + length sub) s).
Proof.
  intros H. destruct (strstr_split s sub n H) as [Hs Hn]. split; [done|].
  rewrite length_take_le by lia. pose proof (strstr_first s sub) as Hf. rewrite H in Hf.
  by destruct Hf.
Qed.

Lemma last_slash_none path i j : x2f ∉ path -> last_slash path i j = j.
Proof.
  revert i. induction path as [|c path IH]; intros i Hp; [done|]. cbn.
  apply not_elem_of_cons in Hp as [Hc Hp].
  destruct (c =b? x2f) eqn:Ec; [apply byte_eqb_eq in Ec; by subst|]. by apply IH.
Qed.

Lemma last_slash_app dir base i j :
  x2f ∉ base -> last_slash (dir ++ x2f :: base) i j = Z.of_nat (i + length dir).
Proof.
  revert i j. induction dir as [|c dir IH]; intros i j Hb; cbn.
  - rewrite last_slash_none by done. by rewrite Nat.add_0_r.
  - rewrite IH by done. f_equal. lia.
Qed.

(** What precedes the last slash, unless the slash comes first; without a slash
    the result depends on what [j] held. *)
Lemma dirname_spec j0 dir base :
  x2f ∉ base ->
  dirname j0 (dir ++ x2f :: base) = (if decide (dir = []) then None else Some dir) /\
  dirname j0 base = (if (0 <? j0)%Z then Some (take (Z.to_nat j0) base) else None).
Proof.
  intros Hb. unfold dirname. rewrite last_slash_app, last_slash_none by done. split; [|done].
  cbn. rewrite Nat2Z.id, take_app_length. destruct dir; by case_decide.
Qed.

Section Claims.
Context {T : AprTable} (file_exists : bytes -> bool) (j0 : Z).

Definition key_ok (kv : bytes * bytes) : Prop :=
  exists rest, kv.1 = e_tag :: x3a :: rest \/ kv.1 = p_tag :: x3a :: rest.

(** The entries a command adds to the startup table. *)
Lemma command_adds cmd d c op :
  let c' := (run_command file_exists j0 cmd d c op).2 in
  let elts c := default [] (apr_table_elts <$> MR_OnStartup c) in
  exists new, elts c' = elts c ++ new /\ Forall key_ok new.
Proof.
  assert (He : forall kv, kv.1 = startup_key e_tag cmd -> key_ok kv) by (intros kv Hk; unfold key_ok; rewrite Hk; eexists; by left).
  assert (Hp : forall kv, kv.1 = startup_key p_tag cmd -> key_ok kv) by (intros kv Hk; unfold key_ok; rewrite Hk; eexists; by right).
  assert (Hi : exists t, MR_OnStartup (InitRApachePool c) = Some t /\
    apr_table_elts t = default [] (apr_table_elts <$> MR_OnStartup c)).
  { unfold InitRApachePool. destruct (MR_OnStartup c) as [t|] eqn:Et; cbn; [by exists t|].
    eexists. split; [done|]. apply elts_make. }
  destruct Hi as (t & Ht & Hel). cbn zeta.
  destruct op; cbn [run_command]; unfold AP_cmd_RHandler, AP_cmd_RFileHandler, AP_cmd_REval,
    AP_cmd_RFileEval, AP_cmd_REvalOnStartup, AP_cmd_RSourceOnStartup, AP_cmd_ROutputErrors,
    AP_cmd_RPreserveEnv; repeat (case_match; simplify_eq); cbn; rewrite ?Ht; cbn;
    rewrite ?elts_add, ?Hel, <- ?app_assoc;
    first [ eexists; split; [reflexivity|]; repeat constructor; eauto; fail
          | exists []; rewrite app_nil_r; split; [done|constructor] ].
Qed.

(** On a fresh directory, a handler directive that is accepted is the whole
    argument as its key, cut at the first [::] (at the first [:] for
    [RFileEval]): package and function, or file and function, or file and code;
    the handler always has something to run. *)
Theorem command_splits (cmd : cmd_parms) (c : config) (arg : bytes) :
  let fresh := AP_create_dir_cfg in
  (forall d c', AP_cmd_RHandler cmd fresh c arg = (None, d, c') ->
     d_handlerKey d = Some arg /\ d_file d = None /\ d_evalcode d = None /\
     exists f, d_function d = Some f /\
       match d_package d with
       | Some p => cut_at arg (str "::") p f
       | None => arg = f /\ forall n, ~ occurs_at arg (str "::") n
       end) /\
  (forall d c', AP_cmd_RFileHandler file_exists j0 cmd fresh c arg = (None, d, c') ->
     d_handlerKey d = Some arg /\ d_package d = None /\ d_evalcode d = None /\
     exists file, d_file d = Some file /\ file_exists file = true /\ d_dirname d = dirname j0 file /\
       match d_function d with
       | Some f => cut_at arg (str "::") file f
       | None => arg = file /\ forall n, ~ occurs_at arg (str "::") n
       end) /\
  (forall d c', AP_cmd_RFileEval file_exists j0 cmd fresh c arg = (None, d, c') ->
     d_handlerKey d = Some arg /\ d_function d = None /\
     exists file code, d_file d = Some file /\ file_exists file = true /\
       d_dirname d = dirname j0 file /\ d_evalcode d = Some code /\ cut_at arg (str ":") file code).
Proof.
  cbn zeta. split_and!; intros d c'.
  - unfold AP_cmd_RHandler. pose proof (strstr_first arg (str "::")) as Hn.
    pose proof (strstr_cut arg (str "::")) as Hc.
    destruct (strstr arg (str "::")) as [n|]; intros [= <- _]; cbn; (split_and!; [done..|]);
      (eexists; split; [done|]); [by apply Hc|done].
  - unfold AP_cmd_RFileHandler. pose proof (strstr_first arg (str "::")) as Hn.
    pose proof (strstr_cut arg (str "::")) as Hc.
    destruct (strstr arg (str "::")) as [n|]; cbn;
      (destruct (file_exists _) eqn:Ef; cbn; [intros [= <- _]|done]); cbn; (split_and!; [done..|]);
      (eexists; split_and!; [done..|]); [by apply Hc|done].
  - unfold AP_cmd_RFileEval. pose proof (strstr_cut arg (str ":")) as Hc.
    destruct (strstr arg (str ":")) as [n|]; [|done].
    destruct (strstr (drop (n + 1) arg) (str "::")); cbn;
      (destruct (file_exists _) eqn:Ef; cbn; [intros [= <- _]|done]); cbn; (split_and!; [done..|]);
      (eexists _, _; split_and!; [done..|]); by apply Hc.
Qed.

End Claims.

(** ** Concrete runs *)

Definition a_cmd : cmd_parms := Cmd None (str "RHandler") 3 (str "httpd.conf").

Lemma command_splits_witness :
  exists d c, AP_cmd_RFileEval (T := list_table) (fun _ => true) 0 a_cmd AP_create_dir_cfg config_start
      (str "/srv/a.R:f(1)") = (None, d, c) /\
    exists file code, d_file d = Some file /\ d_evalcode d = Some code /\
      cut_at (str "/srv/a.R:f(1)") (str ":") file code.
Proof.
  eexists _, _. split; [reflexivity|].
  destruct (command_splits (T := list_table) (fun _ => true) 0 a_cmd config_start (str "/srv/a.R:f(1)"))
    as (_ & _ & H).
  destruct (H _ _ eq_refl) as (_ & _ & file & code & Hf & _ & _ & Hc & Hcut).
  exists file, code. split; [exact Hf|]. split; [exact Hc|exact Hcut].
Defined.

(** A second directive in the same directory inherits the package of the first:
    the handler becomes [stats::g]. *)
Example stale_package :
  let c0 := config_start (T := list_table) in
  let '(_, d, c1) := AP_cmd_RHandler a_cmd AP_create_dir_cfg c0 (str "stats::f") in
  let '(_, d, _) := AP_cmd_RHandler a_cmd d c1 (str "g") in
  d_package d = Some (str "stats") /\ d_function d = Some (str "g").
Proof. vm_compute. done. Qed.

(** A file in the root directory has no directory to change to. *)
Example root_file_no_dirname : dirname 7 (str "/app.R") = None.
Proof. reflexivity. Qed.
