(* ===== verification/InfoPage.v ===== *)
(** * The text of the [r-info] page ([src/mod_R.c], [RApacheInfo])

    The page is text written to the client and R code run in between, in this
    order. *)
From S2P Require Import Prelude.

Inductive info_step :=
  | PUTS (s : bytes)      (** [apr_brigade_puts(MR_BBout, ...)] *)
  | EXEC (s : bytes).     (** [ParseEval(s, envir, ...)]; an error ends the page *)

(** [DOCTYPE_XHTML_1_0T] comes from Apache, [MOD_R_VERSION] from the build. *)
Definition info_page (DOCTYPE_XHTML_1_0T MOD_R_VERSION : bytes) : list info_step :=
  [ EXEC (str "hrefify <- function(title) gsub('[\\.()]','_',title,perl=TRUE)")
  ; EXEC (str "cl<-'e'")
  ; EXEC (str "scrub <- function(st){ if (is.null(st)) return('null'); if (is.na(st)) return('NA'); if (length(st) == 0) return ('length 0 sting'); if (typeof(st) == 'closure') { sink(textConnection('stt','w')); str(st); sink(); st <- stt; } else {st  <- as.character(st) } ; st <- gsub('&','&amp;',st); st <- gsub('@','_at_',st); st <- gsub('<','&lt;',st); st <- gsub('>','&gt;',st); if (length(st) == 0 || is.null(st) || st == '') st <- '&nbsp;'; st }")
  ; EXEC (qstr "zebelem <- function(n,v) { cl <<- ifelse(cl=='e','o','e'); cat('<tr class=`',cl,'`>'); if(!is.na(n)) cat('<td class=`l`>',n,'</td>'); cat('<td>'); if (length(v)>1) zebra(NULL,v) else cat(scrub(v)); cat('</td></tr>" ++ [x0a] ++ str "'); }")
  ; EXEC (qstr "zebra <- function(title,l){ if (!is.null(title)) cat('<h2><a name=`',hrefify(title),'`> </a>',title,'</h2>',sep=''); cat('<table><tbody>',sep=''); n <- names(l); mapply(zebelem,if(is.null(n)) rep(NA,length(l)) else n, l); cat('</tbody></table>" ++ [x0a] ++ str "') }")
  ; EXEC (str " zebrifyPackage <-function(package){ zebra(package,unclass(packageDescription(package))); cat('<br/><hr/>\n') }")
  ; PUTS DOCTYPE_XHTML_1_0T
  ; PUTS (str "<html><head>")
  ; PUTS (qstr "<meta http-equiv=`Content-Type` content=`text/html;charset=utf-8` />")
  ; PUTS (qstr "<style type=`text/css`>")
  ; PUTS (qstr "body { font-family: `lucida grande`,verdana,sans-serif; margin-left: 210px; margin-right: 18px; }")
  ; PUTS (str "table { border: 1px solid #8897be; border-spacing: 0px; font-size: 10pt; }")
  ; PUTS (str "td { border-bottom:1px solid #d9d9d9; border-left:1px solid #d9d9d9; border-spacing: 0px; padding: 3px 8px; }")
  ; PUTS (str "td.l { font-weight: bold; width: 10%; }")
  ; PUTS (str "tr.e { background-color: #eeeeee; border-spacing: 0px; }")
  ; PUTS (str "tr.o { background-color: #ffffff; border-spacing: 0px; }")
  ; PUTS (str "div a { text-decoration: none; color: white; }")
  ; PUTS (str "a:hover { color: #8897be; background: white; }")
  ; PUTS (str "tr:hover { background: #8897be; }")
  ; PUTS (str "img.map { position: fixed; border: 0px; left: 50px; right: auto; top: 10px; }")
  ; PUTS (str "div.map { background: #8897be; font-weight: bold; color: white; position: fixed; bottom: 30px; height: auto; left: 15px; right: auto; top: 110px; width: 150px; padding: 0 13px; text-align: right; font-size: 12pt; }")
  ; PUTS (str "div.map p { font-size: 10pt; font-family: serif; font-style: italic; }")
  ; PUTS (str "div.h { font-size: 20pt; font-weight: bold; }")
  ; PUTS (str "h4 { font-size: 10pt; font-weight: bold; color: grey;}")
  ; PUTS (str "hr {background-color: #cccccc; border: 0px; height: 1px; color: #000000;}")
  ; PUTS (str "</style>")
  ; PUTS (str "<title>RApacheInfo()</title>")
  ; PUTS (qstr "<meta name=`ROBOTS` content=`NOINDEX,NOFOLLOW,NOARCHIVE` />")
  ; PUTS (str "</head>")
  ; PUTS (str "<body>")
  ; PUTS (qstr "<a name=`Top`> </a>")
  ; PUTS (qstr "<a href=`http://www.r-project.org/`><img class=`map` alt=`R Language Home Page` src=`http://www.r-project.org/Rlogo.jpg`/></a>")
  ; PUTS (qstr "<div class=`h`>RApache version ")
  ; PUTS MOD_R_VERSION
  ; PUTS (str "</div>")
  ; PUTS (qstr "<div class=`map`>")
  ; PUTS (str "<p>jump to:</p>")
  ; PUTS (qstr "<a href=`#Top`>Top</a><br/><hr/>")
  ; PUTS (qstr "<a href=`#")
  ; EXEC (str "cat(hrefify('R.version'))")
  ; PUTS (qstr "`>R.version</a><br/>")
  ; PUTS (qstr "<a href=`#")
  ; EXEC (str "cat(hrefify('search()'))")
  ; PUTS (qstr "`>search()</a><br/>")
  ; PUTS (qstr "<a href=`#")
  ; EXEC (str "cat(hrefify('.libPaths()'))")
  ; PUTS (qstr "`>.libPaths()</a><br/>")
  ; PUTS (qstr "<a href=`#")
  ; EXEC (str "cat(hrefify('options()'))")
  ; PUTS (qstr "`>options()</a><br/>")
  ; PUTS (qstr "<a href=`#")
  ; EXEC (str "cat(hrefify('Sys.getenv()'))")
  ; PUTS (qstr "`>Sys.getenv()</a><br/>")
  ; PUTS (qstr "<a href=`#")
  ; EXEC (str "cat(hrefify('Sys.info()'))")
  ; PUTS (qstr "`>Sys.info()</a><br/>")
  ; PUTS (qstr "<a href=`#")
  ; EXEC (str "cat(hrefify('.Machine'))")
  ; PUTS (qstr "`>.Machine</a><br/>")
  ; PUTS (qstr "<a href=`#")
  ; EXEC (str "cat(hrefify('.Platform'))")
  ; PUTS (qstr "`>.Platform</a><br/>")
  ; PUTS (qstr "<a href=`#")
  ; EXEC (str "cat(hrefify('Cstack_info()'))")
  ; PUTS (qstr "`>Cstack_info()</a><br/><hr/>")
  ; PUTS (qstr "<a href=`#Attached_Packages`>Attached Packages</a><br/><hr/>")
  ; PUTS (qstr "<a href=`#Installed_Packages`>Installed Packages</a><br/><hr/>")
  ; PUTS (qstr "<a href=`#License`>License</a><br/><hr/>")
  ; PUTS (qstr "<a href=`#People`>People</a>")
  ; PUTS (str "</div>")
  ; EXEC (str "zebra('R.version',R.version)")
  ; PUTS (str "<br/><hr/>")
  ; EXEC (str "zebra('search()',search())")
  ; PUTS (str "<br/><hr/>")
  ; EXEC (str "zebra('.libPaths()',.libPaths())")
  ; PUTS (str "<br/><hr/>")
  ; EXEC (str "zebra('options()',options())")
  ; PUTS (str "<br/><hr/>")
  ; EXEC (str "zebra('Sys.getenv()',as.list(Sys.getenv()))")
  ; PUTS (str "<br/><hr/>")
  ; EXEC (str "zebra('Sys.info()',as.list(Sys.info()))")
  ; PUTS (str "<br/><hr/>")
  ; EXEC (str "zebra('.Machine',.Machine)")
  ; PUTS (str "<br/><hr/>")
  ; EXEC (str "zebra('.Platform',.Platform)")
  ; PUTS (str "<br/><hr/>")
  ; EXEC (str "zebra('Cstack_info()',as.list(Cstack_info()))")
  ; PUTS (str "<br/><hr/>")
  ; PUTS (qstr "<h1><a name=`Attached_Packages`></a>Attached Packages</h1>")
  ; EXEC (str "lapply(sub('package:','',search()[grep('package:',search())]),zebrifyPackage)")
  ; PUTS (qstr "<h1><a name=`Installed_Packages`></a>Installed Packages</h1>")
  ; EXEC (str "lapply(attr(installed.packages(),'dimnames')[[1]],zebrifyPackage)")
  ; PUTS (qstr "<h2><a name=`License`></a>License</h2>")
  ; PUTS (str "<pre>")
  ; PUTS (str "Copyright 2011-2012 Vanderbilt University" ++ [x0a])
  ; PUTS ([x0a])
  ; PUTS (qstr "Licensed under the Apache License, Version 2.0 (the `License`);" ++ [x0a])
  ; PUTS (str "you may not use this file except in compliance with the License." ++ [x0a])
  ; PUTS (str "You may obtain a copy of the License at" ++ [x0a])
  ; PUTS ([x0a])
  ; PUTS (qstr "  <a href=`http://www.apache.org/licenses/LICENSE-2.0`>http://www.apache.org/licenses/LICENSE-2.0`</a>" ++ [x0a])
  ; PUTS ([x0a])
  ; PUTS (str "Unless required by applicable law or agreed to in writing, software" ++ [x0a])
  ; PUTS (qstr "distributed under the License is distributed on an `AS IS` BASIS," ++ [x0a])
  ; PUTS (str "WITHOUT WARRANTIES OR CONDITIONS OF ANY KIND, either express or implied." ++ [x0a])
  ; PUTS (str "See the License for the specific language governing permissions and" ++ [x0a])
  ; PUTS (str "limitations under the License." ++ [x0a])
  ; PUTS (str "</pre><hr/>" ++ [x0a])
  ; PUTS (qstr "<h2><a name=`People`></a>People</h2>" ++ [x0a])
  ; PUTS (str "<p>Thanks to the following people for their contributions, giving advice, noticing when things were broken and such. If I've forgotten to mention you, please email me.</p>" ++ [x0a])
  ; PUTS (str "<pre>" ++ [x0a])
  ; PUTS ([x09] ++ str "Gregoire Thomas" ++ [x0a])
  ; PUTS ([x09] ++ str "Jan de Leeuw" ++ [x0a])
  ; PUTS ([x09] ++ str "Keven E. Thorpe" ++ [x0a])
  ; PUTS ([x09] ++ str "Jeremy Stephens" ++ [x0a])
  ; PUTS ([x09] ++ str "Aleksander Wawer" ++ [x0a])
  ; PUTS ([x09] ++ str "David Konerding" ++ [x0a])
  ; PUTS ([x09] ++ str "Robert Kofler" ++ [x0a])
  ; PUTS ([x09] ++ str "Jeroen Ooms" ++ [x0a])
  ; PUTS (str "</pre>")
  ; PUTS (str "</body></html>") ].
