(* ===== verification/Engine.v ===== *)
(** * Running R code ([src/mod_R.c], "R specific functions")

    R programs run through the functions of the module, which themselves run R
    code: [RApacheInfo] and [getServer] do, and ending a request may.  The nesting
    of evaluations is bounded by a depth; a program that nests deeper yields
    [TooDeep] instead of a result. *)
From S2P Require Import Prelude Apr Url Util Brigade Param Parser Urlencoded Cookie RTable SendBin RState RCalls Directives InfoPage.

Definition OK : Z := 0.
Definition DECLINED : Z := -1.
Definition DONE : Z := -2.
Definition HTTP_INTERNAL_SERVER_ERROR : Z := 500.

(** Apache, APR, the C library and the machine, during one request. *)
Class Platform := {
  (** for the functions R code calls, see [RCalls] *)
  p_strtoi64 : bytes -> Z * bytes;
  p_date_parse_rfc : bytes -> Z;
  p_rfc822_date : Z -> bytes;
  p_now : Z;
  p_junk : bytes;
  p_hole : nat -> Byte.byte;
  p_tmpdir : option bytes;                 (** of [apr_temp_dir_get] *)
  p_file_info : bytes -> option (bytes * nat);
  p_registry : registry;
  p_long8 : bool;
  p_long_double : bool;
  p_float_bits : Z -> Z;
  p_long_double_bits : Z -> Z;
  p_translateChar : bytes -> bytes;
  p_double_bits : Z -> Z;                  (** an integer converted to double *)
  (** results of system calls *)
  p_getcwd_ok : bool;
  p_lock_ok : bool;
  p_brigade_ok : bool;
  p_chdir_ok : option bytes -> bool;
  p_mtime : bytes -> option Z;             (** [apr_stat]; [None]: it failed *)
  p_stack : Z;                             (** what a local variable holds before it is set *)
  (** strings of the build *)
  DOCTYPE_XHTML_1_0T : bytes;
  MOD_R_VERSION : bytes
}.

Section Engine.
Context {E : AprErrno} {T : AprTable} {R : REngine} {In : Type} {I : ApInput In}
        {X : Type} {XP : AprXml X} {H : HookEnv X} {MP : MultipartParser} {P : Platform}.
Abbreviation MW := (M (world In)).

Definition leaf_call (op : r_op) : option (MW r_reply) :=
  call_leaf (X := X) p_strtoi64 p_date_parse_rfc p_rfc822_date p_now p_junk p_hole p_tmpdir p_file_info
    p_registry p_long8 p_long_double p_float_bits p_long_double_bits p_translateChar op.

(** ** Programs *)

(** The value, [None] when the program ended with an error. *)
Fixpoint run_prog (call : r_op -> MW r_reply) (p : r_prog R_state) : MW (option SEXP) :=
  match p with
  | RDone st v err => modify (set_w_R st) ;; ret (if err : bool then None else Some v)
  | RCall st op k =>
      modify (set_w_R st) ;;
      let* x := call op in
      let* st := get w_R in
      run_prog call (k st x)
  end.

(** [R_tryEval] of a call, and of [parse] applied to a text. *)
Record evaluator := Evaluator {
  R_tryEval : nat -> r_env -> MW (option SEXP);
  R_tryParse : bytes -> MW (option SEXP)
}.

Definition R_GlobalEnv : r_env := 0.
Definition MR_RApacheEnv : r_env := 1.

(** [NewEnv(R_GlobalEnv)] *)
Definition NewEnv : MW r_env :=
  let* st := get w_R in
  let '(e, st) := r_newEnv st in
  modify (set_w_R st) ;; ret e.

Section WithEvaluator.
Context (ev : evaluator).

(** The value and [*parseError]. *)
Definition ParseText (text : bytes) : MW (option SEXP * bool) :=
  let* v := R_tryParse ev text in
  ret (v, match v with None => true | Some _ => false end).

(** The value, NULL when there was an error, and [*evalError]. *)
Fixpoint eval_loop (ids : list nat) (env : r_env) (last : option SEXP) (err : bool)
  : MW (option SEXP * bool) :=
  match ids with
  | [] => ret (last, err)
  | id :: ids =>
      let* v := R_tryEval ev id env in
      match v with
      | None => ret (None, true)
      | Some _ => eval_loop ids env v false
      end
  end.

(** [evalError] is what [*evalError] holds before: it keeps it when [exprs] is
    not something to evaluate.  [isLanguage] holds of NULL too. *)
Definition EvalExprs (exprs : option SEXP) (env : r_env) (evalError : bool)
  : MW (option SEXP * bool) :=
  match exprs with
  | None => do_crash
  | Some x =>
      match unclassed x with
      | RNil => ret (Some RNil, false)
      | RLang id => eval_loop [id] env None evalError
      | RExprs (id :: ids) => eval_loop (id :: ids) env None evalError
      | _ =>
          to_stderr (str "Internal Error! EvalExprs() called with bad exprs" ++ [x0a]) ;;
          ret (Some RNil, evalError)
      end
  end.

Definition ParseEval (code : bytes) (env : r_env) : MW (option SEXP * bool) :=
  let* res := ParseText code in
  let '(exprs, err) := res in
  if err then ret (Some RNil, true) else EvalExprs exprs env err.

(** [sprintf(text, "%s('%s')", fun, arg)], and the size of [text]. *)
Definition call_text (fun_ arg : bytes) : bytes * nat :=
  (fun_ ++ str "('" ++ arg ++ str "')", length fun_ + length arg + 5).

Definition CallFun1str (fun_ arg : bytes) (env : r_env) : MW (option SEXP * bool) :=
  ParseEval (call_text fun_ arg).1 env.

(** Whether a function is found; a promise is forced. *)
Definition MyfindFun (symb : bytes) (envir : option r_env) : MW bool :=
  match envir with
  | None => ret false
  | Some envir =>
      let* st := get w_R in
      let is_fun x := match x with RFun _ => true | _ => false end in
      match r_getVar st symb envir with
      | Unbound => ret false
      | Bound x => ret (is_fun x)
      | Promise id =>
          let* v := R_tryEval ev id envir in
          ret (match v with Some x => is_fun x | None => false end)
      end
  end.

(** The console goes to the error log for the traceback. *)
Definition PrintTraceback : MW unit :=
  modify (set_w_console WriteConsoleErrorOnly_f) ;;
  ParseEval (str "cat('Traceback:\n');traceback()") R_GlobalEnv ;;
  modify (set_w_console WriteConsoleEx_f).

(** ** The end of a request *)

(** [apr_filepath_set(path, ...)]: whether it succeeded. *)
Definition chdir (path : option bytes) : MW bool :=
  if p_chdir_ok path then modify (fun w => set_w_cwd (default [] path) w) ;; ret true
  else ret false.

(** [ap_filter_flush(MR_BBout, MR_Request.r->output_filters)] *)
Definition flush_output (b : bytes) : MW unit :=
  let* set := get (fun w => q_r (w_req w)) in
  if set : bool then modify (fun w => set_w_client (w_client w ++ b) w) else do_crash.

(** Writing [MR_BBerr] to the error log of the request's server. *)
Definition log_errors (b : bytes) : MW unit :=
  let* set := get (fun w => q_r (w_req w)) in
  if set : bool then modify (fun w => set_w_error_log (w_error_log w ++ b) w) else do_crash.

Definition unlock : MW unit :=
  modify (fun w => match w_mutex w with Some n => set_w_mutex (Some (n - 1)%Z) w | None => w end).

Definition TearDownRequest (flush : bool) : MW unit :=
  let* q := get w_req in
  match q_oldwd q with Some _ => chdir (q_oldwd q) ;; ret tt | None => ret tt end ;;
  let* bbin := get w_bbin in
  match bbin with
  | Some _ =>
      let* q := get w_req in
      if q_readStarted q then
        ParseEval (str ".Internal(clearPushBack(stdin()))") R_GlobalEnv ;; ret tt
      else ret tt
  | None => ret tt
  end ;;
  modify (set_w_bbin None) ;;
  let* bbout := get w_bbout in
  match bbout with
  | Some ((_ :: _) as b) => if flush then flush_output b else ret tt
  | _ => ret tt
  end ;;
  modify (set_w_bbout None) ;;
  let* bberr := get w_bberr in
  match bberr with
  | Some b => log_errors b
  | None => ret tt
  end ;;
  modify (set_w_bberr None) ;;
  modify (set_w_req req_zero) ;;
  unlock.

Definition RApacheResponseError (msg : option bytes) : MW Z :=
  RApacheError msg ;; TearDownRequest false ;; ret HTTP_INTERNAL_SERVER_ERROR.

(** ** Functions R code calls that run R code *)

Fixpoint info_run (envir : r_env) (page : list info_step) : MW Z :=
  match page with
  | [] => ret DONE
  | PUTS s :: page => bbout_write s ;; info_run envir page
  | EXEC s :: page =>
      let* res := ParseEval s envir in
      let '(_, err) := res in
      if err then RApacheResponseError None else info_run envir page
  end.

Definition RApacheInfo : MW Z :=
  let* envir := NewEnv in
  modify (on_r (set_r_content_type (Some (str "text/html")))) ;;
  info_run envir (info_page DOCTYPE_XHTML_1_0T MOD_R_VERSION).

Definition RApache_RApacheInfo : MW r_reply :=
  let* set := MR_r in
  if negb set then ret (Some RNil) else RApacheInfo ;; ret (Some RNil).

(** The members of [SERVER]. *)
Definition strmbr (n : bytes) (v : option bytes) : bytes * SEXP :=
  (n, match v with Some v => mkString v | None => RNil end).
Definition intmbr (n : bytes) (v : Z) : bytes * SEXP := (n, RInt [v]).
Definition lglmbr (n : bytes) (v : bool) : bytes * SEXP := (n, NewLogical v).
Definition offmbr (n : bytes) (v : Z) : bytes * SEXP := (n, RReal [p_double_bits v]).
Definition timmbr (n : bytes) (v : Z) : bytes * SEXP :=
  (n, RClassed [str "POSIXt"; str "POSIXct"] (RReal [p_double_bits (v ÷ 1000000)])).
Definition tabmbr (n : bytes) (t : apr_table bytes) : bytes * SEXP :=
  (n, AprTableToList (Some t) TableCallback).

Definition server_members (r : request_rec In) (cmdpath : option bytes) : list (bytes * SEXP) :=
  let i := r_info r in
  [ tabmbr (str "headers_in") (r_headers_in r)
  ; intmbr (str "proto_num") (i_proto_num i)
  ; strmbr (str "protocol") (i_protocol i)
  ; strmbr (str "unparsed_uri") (i_unparsed_uri i)
  ; strmbr (str "uri") (i_uri i)
  ; strmbr (str "filename") (Some (r_filename r))
  ; strmbr (str "canonical_filename") (i_canonical_filename i)
  ; strmbr (str "path_info") (i_path_info i)
  ; strmbr (str "args") (r_args r)
  ; strmbr (str "content_type") (r_content_type r)
  ; strmbr (str "handler") (Some (r_handler r))
  ; strmbr (str "content_encoding") (i_content_encoding i)
  ; strmbr (str "range") (i_range i)
  ; strmbr (str "hostname") (i_hostname i)
  ; strmbr (str "address") (i_local_ip i)
  ; intmbr (str "port") (i_port i)
  ; strmbr (str "user") (i_user i)
  ; lglmbr (str "header_only") (i_header_only i)
  ; lglmbr (str "no_cache") (i_no_cache i)
  ; lglmbr (str "no_local_copy") (i_no_local_copy i)
  ; lglmbr (str "assbackwards") (i_assbackwards i)
  ; intmbr (str "status") (r_status r)
  ; intmbr (str "method_number") (i_method_number i)
  ; lglmbr (str "eos_sent") (i_eos_sent i)
  ; strmbr (str "the_request") (i_the_request i)
  ; strmbr (str "method") (Some (r_method r))
  ; strmbr (str "status_line") (i_status_line i)
  ; offmbr (str "bytes_sent") (i_bytes_sent i)
  ; offmbr (str "clength") (i_clength i)
  ; offmbr (str "remaining") (i_remaining i)
  ; offmbr (str "read_length") (i_read_length i)
  ; timmbr (str "request_time") (i_request_time i)
  ; timmbr (str "mtime") (i_mtime i)
  ; strmbr (str "remote_ip") (i_remote_ip i)
  ; strmbr (str "remote_host") (i_remote_host i)
  ; strmbr (str "cmd_path") cmdpath
  ; lglmbr (str "HTTPS") (match apr_table_get (r_subprocess_env r) (str "HTTPS") with
                          | Some _ => true | None => false end)
  ; strmbr (str "rapache_version") (Some MOD_R_VERSION) ].

(** [MR_Request.handler->directive]; NULL pointers are followed. *)
Definition request_directive (w : world In) : option RApacheDirective :=
  k ← q_handler (w_req w); h ← w_handlers w !! k; h_directive h.

(** The list is stored before its last member, [internals], is evaluated. *)
Definition RApache_getServer : MW r_reply :=
  let* q := get w_req in
  if negb (q_r q) then ret (Some RNil)
  else match q_serverVar q with
  | Some v => ret (Some v)
  | None =>
      let* r := get w_r in
      let* d := get request_directive in
      match d with
      | None => do_crash
      | Some d =>
          let ms := server_members r (d_cmdpath d) in
          modify (on_req (set_q_serverVar (Some (RList (map snd ms ++ [RNil]) [])))) ;;
          let* res := ParseEval (str "function(x) .Call('RApache_internals',x)") MR_RApacheEnv in
          let '(val, _) := res in
          let* q := get w_req in
          match val, q_serverVar q with
          | Some val, Some _ =>
              let v := RList (map snd ms ++ [val]) (map fst ms ++ [str "internals"]) in
              modify (on_req (set_q_serverVar (Some v))) ;; ret (Some v)
          | _, _ => do_crash
          end
      end
  end.

(** Any function of the module R code can call. *)
Definition call_op (op : r_op) : MW r_reply :=
  match leaf_call op with
  | Some m => m
  | None =>
      match op with
      | OpRApacheInfo => RApache_RApacheInfo
      | _ => RApache_getServer
      end
  end.

End WithEvaluator.

(** The interpreter, with at most [depth] evaluations inside each other. *)
Fixpoint interp (depth : nat) : evaluator :=
  match depth with
  | O => Evaluator (fun _ _ _ => TooDeep) (fun _ _ => TooDeep)
  | S depth =>
      let call := call_op (interp depth) in
      Evaluator
        (fun id env => let* st := get w_R in run_prog call (r_eval st id env))
        (fun text => let* st := get w_R in run_prog call (r_parse st text))
  end.

End Engine.

(** * Properties *)

(** Partial correctness: a computation that returns leaves what is said. *)
Definition hoare {W A} (Pre : W -> Prop) (m : M W A) (Post : A -> W -> Prop) : Prop :=
  forall w, Pre w -> match m w with Ret a w' => Post a w' | _ => True end.

Lemma hoare_bind {W A B} (Pre : W -> Prop) (m : M W A) Mid (k : A -> M W B) Post :
  hoare Pre m Mid -> (forall a, hoare (Mid a) (k a) Post) -> hoare Pre (bind m k) Post.
Proof.
  intros Hm Hk w Hw. unfold bind. specialize (Hm w Hw). destruct (m w); [|done..]. by apply Hk.
Qed.

Lemma bind_get {W A B} (f : W -> A) (k : A -> M W B) w : bind (get f) k w = k (f w) w.
Proof. done. Qed.

Lemma hoare_keeps {W A} (Inv : W -> Prop) (m : M W A) : keeps Inv m -> hoare Inv m (fun _ => Inv).
Proof. done. Qed.

Lemma hoare_ret {W A} (Pre : W -> Prop) (a : A) Post : (forall w, Pre w -> Post a w) -> hoare Pre (ret a) Post.
Proof. intros H w Hw. by apply H. Qed.

Lemma hoare_weaken {W A} (Pre Pre' : W -> Prop) (m : M W A) (Post Post' : A -> W -> Prop) :
  hoare Pre m Post -> (forall w, Pre' w -> Pre w) -> (forall a w, Post a w -> Post' a w) ->
  hoare Pre' m Post'.
Proof. intros Hm H1 H2 w Hw. specialize (Hm w (H1 w Hw)). destruct (m w); [|done..]. by apply H2. Qed.

Section EngineFacts.
Context {E : AprErrno} {T : AprTable} {R : REngine} {In : Type} {I : ApInput In}
        {X : Type} {XP : AprXml X} {H : HookEnv X} {MP : MultipartParser} {P : Platform}.

(** Inside a request: the lock is held [n] times, the handler and the directory
    to go back to are remembered, and nothing was sent. *)
Record live (n : option Z) (k old : option bytes) (sent : bytes) (w : world In) : Prop := Live {
  live_r : q_r (w_req w) = true;
  live_handler : q_handler (w_req w) = k;
  live_oldwd : q_oldwd (w_req w) = old;
  live_mutex : w_mutex w = n;
  live_client : w_client w = sent
}.

(** What keeps a request going: everything that assigns none of these. *)
Definition same_request (w w' : world In) : Prop :=
  q_r (w_req w') = q_r (w_req w) /\ q_handler (w_req w') = q_handler (w_req w) /\
  q_oldwd (w_req w') = q_oldwd (w_req w) /\ w_mutex w' = w_mutex w /\ w_client w' = w_client w.

Lemma live_same n k old sent w w' : same_request w w' -> live n k old sent w -> live n k old sent w'.
Proof. intros (H1 & H2 & H3 & H4 & H5) []. split; congruence. Qed.

Definition live_keeping {A} (m : M (world In) A) : Prop := forall n k old sent, keeps (live n k old sent) m.

Lemma live_modify f : (forall w, same_request w (f w)) -> live_keeping (modify f).
Proof. intros Hf n k old sent. apply keeps_modify. intros w. by apply live_same. Qed.

Lemma live_bind {A B} (m : M (world In) A) (f : A -> M (world In) B) :
  live_keeping m -> (forall a, live_keeping (f a)) -> live_keeping (bind m f).
Proof. intros Hm Hf n k old sent. simple apply keeps_bind; [apply Hm|intros a; apply Hf]. Qed.

Lemma live_ret {A} (a : A) : live_keeping (ret a).
Proof. intros n k old sent. apply keeps_ret. Qed.
Lemma live_get {A} (f : world In -> A) : live_keeping (get f).
Proof. intros n k old sent. apply keeps_get. Qed.
Lemma live_crash {A} : live_keeping (do_crash (A := A)).
Proof. intros n k old sent. apply keeps_crash. Qed.
Lemma live_exit {A} : live_keeping (do_exit (A := A)).
Proof. intros n k old sent. apply keeps_exit. Qed.
Lemma live_deep {A} : live_keeping (fun _ => TooDeep (A := A)).
Proof. intros n k old sent. apply keeps_deep. Qed.

Lemma same_refl w : same_request w w.
Proof. by unfold same_request. Qed.

End EngineFacts.

Create HintDb live.
#[export] Hint Resolve live_ret live_get live_crash live_exit live_deep : live.

(** An assignment that leaves the request going. *)
Ltac same_tac :=
  intros; repeat case_match; unfold same_request; cbn;
  split_and!; done.

Ltac live_tac :=
  repeat (first
    [ solve [auto with live]
    | simple apply live_bind; [|intros ?]
    | progress case_match
    | simple apply live_modify; same_tac ]).

Section EngineLive.
Context {E : AprErrno} {T : AprTable} {R : REngine} {In : Type} {I : ApInput In}
        {X : Type} {XP : AprXml X} {H : HookEnv X} {MP : MultipartParser} {P : Platform}.

Lemma live_error msg : live_keeping (In := In) (RApacheError msg).
Proof. unfold RApacheError. live_tac. Qed.
Hint Resolve live_error : live.

Lemma live_bbout_write buf : live_keeping (In := In) (bbout_write buf).
Proof. unfold bbout_write. live_tac. Qed.
Hint Resolve live_bbout_write : live.

Lemma live_write buf e : live_keeping (In := In) (r_write buf e).
Proof.
  unfold r_write, WriteConsoleEx, WriteConsoleErrorOnly, WriteConsoleStderr, to_stderr. live_tac.
Qed.
Hint Resolve live_write : live.

Lemma live_string_elt0 x : live_keeping (In := In) (string_elt0 x).
Proof. unfold string_elt0. live_tac. Qed.
Hint Resolve live_string_elt0 : live.

Lemma live_read size room : live_keeping (In := In) (ReadRequestBody size room).
Proof. unfold ReadRequestBody. live_tac. Qed.
Hint Resolve live_read : live.

Lemma live_receive fuel size buf blen : live_keeping (In := In) (receive_loop fuel size buf blen).
Proof. revert size buf blen. induction fuel; intros; cbn [receive_loop]; live_tac. Qed.
Hint Resolve live_receive : live.

Lemma live_leaf op m : leaf_call (In := In) (X := X) op = Some m -> live_keeping m.
Proof.
  destruct op; intros [= <-];
    unfold RApache_setHeader, RApache_setStatus, RApache_setContentType, RApache_setCookie,
      RApache_urlEnDecode, RApache_sendBin, RApache_internals, RApache_parseGet, RApache_parsePost,
      RApache_parseFiles, parsePost, RApache_parseCookies, RApache_receiveBin, ReadConsole, MR_r,
      cookie_expires, cookie_part, to_stderr;
    live_tac.
Qed.

(** R code never asks for the information page, whose failure ends the request. *)
Fixpoint no_info {S} (p : r_prog S) : Prop :=
  match p with
  | RDone _ _ _ => True
  | RCall _ op k => op <> OpRApacheInfo /\ forall st x, no_info (k st x)
  end.

Definition quiet_R : Prop :=
  (forall st id env, no_info (r_eval st id env)) /\ (forall st text, no_info (r_parse st text)).

Definition quiet (ev : evaluator (In := In)) : Prop :=
  (forall id env, live_keeping (R_tryEval ev id env)) /\ (forall text, live_keeping (R_tryParse ev text)).

Section Quiet.
Context (ev : evaluator (In := In)) (Hev : quiet ev).

Lemma live_tryEval id env : live_keeping (R_tryEval ev id env).
Proof. apply Hev. Qed.
Lemma live_tryParse text : live_keeping (R_tryParse ev text).
Proof. apply Hev. Qed.
Hint Resolve live_tryEval live_tryParse : live.

Lemma live_NewEnv : live_keeping (In := In) NewEnv.
Proof. unfold NewEnv. live_tac. Qed.

Lemma live_ParseText text : live_keeping (ParseText ev text).
Proof. unfold ParseText. live_tac. Qed.
Hint Resolve live_ParseText : live.

Lemma live_eval_loop ids env last err : live_keeping (eval_loop ev ids env last err).
Proof. revert last err. induction ids; intros; cbn [eval_loop]; live_tac. Qed.
Hint Resolve live_eval_loop : live.

Lemma live_EvalExprs exprs env err : live_keeping (EvalExprs ev exprs env err).
Proof. unfold EvalExprs, to_stderr. live_tac. Qed.
Hint Resolve live_EvalExprs : live.

Lemma live_ParseEval code env : live_keeping (ParseEval ev code env).
Proof. unfold ParseEval. live_tac. Qed.
Hint Resolve live_ParseEval : live.

Lemma live_MyfindFun symb env : live_keeping (MyfindFun ev symb env).
Proof. unfold MyfindFun. live_tac. Qed.

Lemma live_PrintTraceback : live_keeping (PrintTraceback ev).
Proof. unfold PrintTraceback. live_tac. Qed.

Lemma live_chdir path : live_keeping (In := In) (chdir path).
Proof. unfold chdir. live_tac. Qed.

Lemma live_getServer : live_keeping (RApache_getServer ev).
Proof. unfold RApache_getServer. live_tac. Qed.

Lemma live_call op : op <> OpRApacheInfo -> live_keeping (call_op (X := X) ev op).
Proof.
  intros Hop. unfold call_op. destruct (leaf_call op) eqn:El; [by apply (live_leaf op)|].
  destruct op; try done. apply live_getServer.
Qed.

Lemma live_run_prog p : no_info p -> live_keeping (run_prog (call_op (X := X) ev) p).
Proof.
  induction p as [st v err|st op k IH]; cbn; [intros _; live_tac|]. intros [Hop Hk].
  live_tac; first [by apply live_call | by apply IH].
Qed.

End Quiet.

Lemma interp_quiet depth : quiet_R -> quiet (interp (X := X) depth).
Proof.
  intros [He Hp]. induction depth as [|depth IH]; (split; intros; cbn [interp R_tryEval R_tryParse]).
  - auto with live.
  - auto with live.
  - live_tac. by apply live_run_prog.
  - live_tac. by apply live_run_prog.
Qed.

End EngineLive.

#[export] Hint Resolve live_error live_bbout_write live_write live_string_elt0 live_read live_receive
  live_NewEnv live_ParseText live_EvalExprs live_ParseEval live_MyfindFun live_PrintTraceback
  live_chdir : live.

(** ** The caches

    R code, whatever it calls, leaves the handler and the file cache alone. *)
Section Caches.
Context {E : AprErrno} {T : AprTable} {R : REngine} {In : Type} {I : ApInput In}
        {X : Type} {XP : AprXml X} {H : HookEnv X} {MP : MultipartParser} {P : Platform}.

Definition caches (w : world In) := (w_handlers w, w_files w).

Definition cache_keeping {A} (m : M (world In) A) : Prop := forall c, keeps (fun w => caches w = c) m.

Lemma cache_modify f : (forall w, caches (f w) = caches w) -> cache_keeping (modify f).
Proof. intros Hf c. apply keeps_modify. intros w <-. apply Hf. Qed.

Lemma cache_bind {A B} (m : M (world In) A) (f : A -> M (world In) B) :
  cache_keeping m -> (forall a, cache_keeping (f a)) -> cache_keeping (bind m f).
Proof. intros Hm Hf c. simple apply keeps_bind; [apply Hm|intros a; apply Hf]. Qed.

Lemma cache_ret {A} (a : A) : cache_keeping (ret a).
Proof. intros c. apply keeps_ret. Qed.
Lemma cache_get {A} (f : world In -> A) : cache_keeping (get f).
Proof. intros c. apply keeps_get. Qed.
Lemma cache_crash {A} : cache_keeping (do_crash (A := A)).
Proof. intros c. apply keeps_crash. Qed.
Lemma cache_exit {A} : cache_keeping (do_exit (A := A)).
Proof. intros c. apply keeps_exit. Qed.
Lemma cache_deep {A} : cache_keeping (fun _ => TooDeep (A := A)).
Proof. intros c. apply keeps_deep. Qed.

End Caches.

Create HintDb caches.
#[export] Hint Resolve cache_ret cache_get cache_crash cache_exit cache_deep : caches.

Ltac cache_tac :=
  repeat (first
    [ solve [auto with caches]
    | simple apply cache_bind; [|intros ?]
    | progress case_match
    | simple apply cache_modify; intros; repeat case_match; done ]).

Section CacheFacts.
Context {E : AprErrno} {T : AprTable} {R : REngine} {In : Type} {I : ApInput In}
        {X : Type} {XP : AprXml X} {H : HookEnv X} {MP : MultipartParser} {P : Platform}.

Lemma cache_error msg : cache_keeping (In := In) (RApacheError msg).
Proof. unfold RApacheError. cache_tac. Qed.
Hint Resolve cache_error : caches.

Lemma cache_bbout_write buf : cache_keeping (In := In) (bbout_write buf).
Proof. unfold bbout_write. cache_tac. Qed.
Hint Resolve cache_bbout_write : caches.

Lemma cache_read size room : cache_keeping (In := In) (ReadRequestBody size room).
Proof. unfold ReadRequestBody. cache_tac. Qed.
Hint Resolve cache_read : caches.

Lemma cache_receive fuel size buf blen : cache_keeping (In := In) (receive_loop fuel size buf blen).
Proof. revert size buf blen. induction fuel; intros; cbn [receive_loop]; cache_tac. Qed.
Hint Resolve cache_receive : caches.

Lemma cache_leaf op m : leaf_call (In := In) (X := X) op = Some m -> cache_keeping m.
Proof.
  destruct op; intros [= <-];
    unfold RApache_setHeader, RApache_setStatus, RApache_setContentType, RApache_setCookie,
      RApache_urlEnDecode, RApache_sendBin, RApache_internals, RApache_parseGet, RApache_parsePost,
      RApache_parseFiles, parsePost, RApache_parseCookies, RApache_receiveBin, ReadConsole, MR_r,
      cookie_expires, cookie_part, string_elt0, r_write, WriteConsoleEx,
      WriteConsoleErrorOnly, WriteConsoleStderr, to_stderr;
    cache_tac.
Qed.

Definition cache_safe (ev : evaluator (In := In)) : Prop :=
  (forall id env, cache_keeping (R_tryEval ev id env)) /\
  (forall text, cache_keeping (R_tryParse ev text)).

Section Safe.
Context (ev : evaluator (In := In)) (Hev : cache_safe ev).

Lemma cache_tryEval id env : cache_keeping (R_tryEval ev id env).
Proof. apply Hev. Qed.
Lemma cache_tryParse text : cache_keeping (R_tryParse ev text).
Proof. apply Hev. Qed.
Hint Resolve cache_tryEval cache_tryParse : caches.

Lemma cache_NewEnv : cache_keeping (In := In) NewEnv.
Proof. unfold NewEnv. cache_tac. Qed.
Hint Resolve cache_NewEnv : caches.

Lemma cache_ParseText text : cache_keeping (ParseText ev text).
Proof. unfold ParseText. cache_tac. Qed.
Hint Resolve cache_ParseText : caches.

Lemma cache_EvalExprs exprs env err : cache_keeping (EvalExprs ev exprs env err).
Proof.
  assert (Hl : forall ids last err, cache_keeping (eval_loop ev ids env last err))
    by (induction ids; intros; cbn [eval_loop]; cache_tac).
  unfold EvalExprs, to_stderr. cache_tac.
Qed.
Hint Resolve cache_EvalExprs : caches.

Lemma cache_ParseEval code env : cache_keeping (ParseEval ev code env).
Proof. unfold ParseEval. cache_tac. Qed.
Hint Resolve cache_ParseEval : caches.

Lemma cache_MyfindFun symb env : cache_keeping (MyfindFun ev symb env).
Proof. unfold MyfindFun. cache_tac. Qed.

Lemma cache_PrintTraceback : cache_keeping (PrintTraceback ev).
Proof. unfold PrintTraceback. cache_tac. Qed.

Lemma cache_chdir path : cache_keeping (In := In) (chdir path).
Proof. unfold chdir. cache_tac. Qed.
Hint Resolve cache_chdir : caches.

Lemma cache_TearDownRequest flush : cache_keeping (TearDownRequest ev flush).
Proof. unfold TearDownRequest, flush_output, log_errors, unlock. cache_tac. Qed.
Hint Resolve cache_TearDownRequest : caches.

Lemma cache_RApacheResponseError msg : cache_keeping (RApacheResponseError ev msg).
Proof. unfold RApacheResponseError. cache_tac. Qed.
Hint Resolve cache_RApacheResponseError : caches.

Lemma cache_RApacheInfo : cache_keeping (RApacheInfo ev).
Proof.
  assert (Hp : forall envir page, cache_keeping (info_run ev envir page)).
  { intros envir page. induction page as [|[s|s] page IH]; cbn [info_run]; cache_tac. }
  unfold RApacheInfo. cache_tac.
Qed.
Hint Resolve cache_RApacheInfo : caches.

Lemma cache_call op : cache_keeping (call_op (X := X) ev op).
Proof.
  unfold call_op. destruct (leaf_call op) eqn:El; [by apply (cache_leaf op)|].
  destruct op; unfold RApache_getServer, RApache_RApacheInfo, MR_r; cache_tac.
Qed.

Lemma cache_run_prog p : cache_keeping (run_prog (call_op (X := X) ev) p).
Proof.
  induction p as [st v err|st op k IH]; cbn; cache_tac; first [apply cache_call | apply IH].
Qed.

End Safe.

Lemma interp_cache_safe depth : cache_safe (interp (X := X) depth).
Proof.
  induction depth as [|depth IH]; (split; intros; cbn [interp R_tryEval R_tryParse]).
  - auto with caches.
  - auto with caches.
  - cache_tac. by apply cache_run_prog.
  - cache_tac. by apply cache_run_prog.
Qed.

End CacheFacts.

#[export] Hint Resolve cache_error cache_NewEnv cache_ParseText cache_EvalExprs cache_ParseEval
  cache_MyfindFun cache_PrintTraceback cache_chdir cache_TearDownRequest cache_RApacheResponseError
  cache_RApacheInfo : caches.

(** ** Whatever R code does

    Any R code, and any nesting of it: the body is not both parsed and read, the lock
    is never held more often than before, and what was sent stays sent.  This
    includes code that asks for the information page, whose failure ends the
    request under it. *)
Definition lock_le (m bound : option Z) : Prop :=
  match m, bound with
  | Some a, Some b => (a <= b)%Z
  | None, None => True
  | _, _ => False
  end.

Section Sane.
Context {E : AprErrno} {T : AprTable} {R : REngine} {In : Type} {I : ApInput In}
        {X : Type} {XP : AprXml X} {H : HookEnv X} {MP : MultipartParser} {P : Platform}
        (bound : option Z) (sent : bytes).

Definition bounded (w : world In) : Prop :=
  lock_le (w_mutex w) bound /\ exists b, w_client w = sent ++ b.
Definition sane (w : world In) : Prop := body_excl (w_req w) /\ bounded w.

Lemma bounded_modify f :
  (forall w, w_mutex (f w) = w_mutex w /\ w_client (f w) = w_client w) -> keeps bounded (modify f).
Proof. intros Hf. apply keeps_modify. intros w. unfold bounded. by destruct (Hf w) as [-> ->]. Qed.

Lemma sane_modify f :
  (forall w, (body_excl (w_req w) -> body_excl (w_req (f w))) /\ w_mutex (f w) = w_mutex w /\
     w_client (f w) = w_client w) -> keeps sane (modify f).
Proof.
  intros Hf. apply keeps_modify. intros w [Hx Hb]. destruct (Hf w) as (H1 & H2 & H3).
  split; [by apply H1|]. unfold bounded. by rewrite H2, H3.
Qed.

Ltac bounded_tac :=
  repeat (first
    [ solve [auto with keeps]
    | simple apply keeps_bind; [|intros ?]
    | progress case_match
    | apply bounded_modify; intros; repeat case_match; done ]).

Ltac sane_tac :=
  repeat (first
    [ solve [auto with keeps]
    | simple apply keeps_bind; [|intros ?]
    | progress case_match
    | apply sane_modify; intros; repeat case_match; done ]).

Lemma bounded_error msg : keeps bounded (RApacheError (In := In) msg).
Proof. unfold RApacheError. bounded_tac. Qed.
Lemma bounded_string_elt0 x : keeps bounded (string_elt0 (In := In) x).
Proof. unfold string_elt0. bounded_tac. Qed.
Hint Resolve bounded_error bounded_string_elt0 : keeps.

Lemma bounded_read size room : keeps bounded (ReadRequestBody (In := In) size room).
Proof. unfold ReadRequestBody. bounded_tac. Qed.
Hint Resolve bounded_read : keeps.

Lemma bounded_receive fuel size buf blen : keeps bounded (receive_loop (In := In) fuel size buf blen).
Proof. revert size buf blen. induction fuel; intros; cbn [receive_loop]; bounded_tac. Qed.
Hint Resolve bounded_receive : keeps.

Lemma bounded_leaf op m : leaf_call (In := In) (X := X) op = Some m -> keeps bounded m.
Proof.
  destruct op; intros [= <-];
    unfold RApache_setHeader, RApache_setStatus, RApache_setContentType, RApache_setCookie,
      RApache_urlEnDecode, RApache_sendBin, RApache_internals, RApache_parseGet, RApache_parsePost,
      RApache_parseFiles, parsePost, RApache_parseCookies, RApache_receiveBin, ReadConsole, MR_r,
      cookie_expires, cookie_part, r_write, WriteConsoleEx, WriteConsoleErrorOnly, WriteConsoleStderr,
      bbout_write, to_stderr;
    bounded_tac.
Qed.

Lemma sane_leaf op m : leaf_call (In := In) (X := X) op = Some m -> keeps sane m.
Proof.
  intros Hm w [Hx Hb]. pose proof (excl_leaf _ _ _ _ _ _ _ _ _ _ _ _ _ _ op m Hm w Hx) as Hx'.
  pose proof (bounded_leaf op m Hm w Hb) as Hb'. by destruct (m w).
Qed.

Lemma sane_error msg : keeps sane (RApacheError (In := In) msg).
Proof. unfold RApacheError. sane_tac. Qed.
Lemma sane_bbout_write buf : keeps sane (bbout_write (In := In) buf).
Proof. unfold bbout_write. sane_tac. Qed.
Lemma sane_chdir path : keeps sane (chdir (In := In) path).
Proof. unfold chdir. sane_tac. Qed.
Lemma sane_NewEnv : keeps sane (NewEnv (In := In)).
Proof. unfold NewEnv. sane_tac. Qed.
Hint Resolve sane_error sane_bbout_write sane_chdir sane_NewEnv : keeps.

Lemma sane_flush b : keeps sane (flush_output (In := In) b).
Proof.
  unfold flush_output. sane_tac. apply keeps_modify. intros w (Hx & Hm & b' & Hc). split; [done|].
  split; [done|]. cbn. rewrite Hc. exists (b' ++ b). by rewrite app_assoc.
Qed.

Lemma sane_unlock : keeps sane (unlock (In := In)).
Proof.
  unfold unlock. apply keeps_modify. intros w (Hx & Hm & Hc). unfold sane, bounded.
  destruct (w_mutex w) as [z|] eqn:Em; cbn; [|by rewrite Em]. split_and!; [done| |done].
  destruct bound; cbn in *; [lia|done].
Qed.
Hint Resolve sane_flush sane_unlock : keeps.

Definition sane_ev (ev : evaluator (In := In)) : Prop :=
  (forall id env, keeps sane (R_tryEval ev id env)) /\ (forall text, keeps sane (R_tryParse ev text)).

Section Ev.
Context (ev : evaluator (In := In)) (Hev : sane_ev ev).

Lemma sane_tryEval id env : keeps sane (R_tryEval ev id env).
Proof. apply Hev. Qed.
Lemma sane_tryParse text : keeps sane (R_tryParse ev text).
Proof. apply Hev. Qed.
Hint Resolve sane_tryEval sane_tryParse : keeps.

Lemma sane_ParseText text : keeps sane (ParseText ev text).
Proof. unfold ParseText. sane_tac. Qed.
Hint Resolve sane_ParseText : keeps.

Lemma sane_EvalExprs exprs env err : keeps sane (EvalExprs ev exprs env err).
Proof.
  assert (Hl : forall ids last err, keeps sane (eval_loop ev ids env last err))
    by (induction ids; intros; cbn [eval_loop]; sane_tac).
  unfold EvalExprs, to_stderr. sane_tac.
Qed.
Hint Resolve sane_EvalExprs : keeps.

Lemma sane_ParseEval code env : keeps sane (ParseEval ev code env).
Proof. unfold ParseEval. sane_tac. Qed.
Hint Resolve sane_ParseEval : keeps.

Lemma sane_MyfindFun symb env : keeps sane (MyfindFun ev symb env).
Proof. unfold MyfindFun. sane_tac. Qed.

Lemma sane_PrintTraceback : keeps sane (PrintTraceback ev).
Proof. unfold PrintTraceback. sane_tac. Qed.

Lemma sane_TearDownRequest flush : keeps sane (TearDownRequest ev flush).
Proof. unfold TearDownRequest, log_errors. sane_tac. Qed.
Hint Resolve sane_TearDownRequest : keeps.

Lemma sane_RApacheResponseError msg : keeps sane (RApacheResponseError ev msg).
Proof. unfold RApacheResponseError. sane_tac. Qed.
Hint Resolve sane_RApacheResponseError : keeps.

Lemma sane_RApacheInfo : keeps sane (RApacheInfo ev).
Proof.
  assert (Hp : forall envir page, keeps sane (info_run ev envir page)).
  { intros envir page. induction page as [|[s|s] page IH]; cbn [info_run]; sane_tac. }
  unfold RApacheInfo. sane_tac.
Qed.
Hint Resolve sane_RApacheInfo : keeps.

Lemma sane_call op : keeps sane (call_op (X := X) ev op).
Proof.
  unfold call_op. destruct (leaf_call op) eqn:El; [by apply (sane_leaf op)|].
  destruct op; unfold RApache_getServer, RApache_RApacheInfo, MR_r; sane_tac.
Qed.

Lemma sane_run_prog p : keeps sane (run_prog (call_op (X := X) ev) p).
Proof.
  induction p as [st v err|st op k IH]; cbn; sane_tac; first [apply sane_call | apply IH].
Qed.

End Ev.

Lemma interp_sane depth : sane_ev (interp (X := X) depth).
Proof.
  induction depth as [|depth IH]; (split; intros; cbn [interp R_tryEval R_tryParse]).
  - auto with keeps.
  - auto with keeps.
  - sane_tac. by apply sane_run_prog.
  - sane_tac. by apply sane_run_prog.
Qed.

End Sane.

Ltac sane_tac :=
  repeat (first
    [ solve [auto with keeps]
    | simple apply keeps_bind; [|intros ?]
    | progress case_match
    | apply sane_modify; intros; repeat case_match; done ]).

#[export] Hint Resolve sane_error sane_bbout_write sane_chdir sane_NewEnv sane_flush sane_unlock
  sane_ParseText sane_EvalExprs sane_ParseEval sane_MyfindFun sane_PrintTraceback sane_TearDownRequest
  sane_RApacheResponseError sane_RApacheInfo : keeps.
