(* ===== verification/Handler.v ===== *)
(** * The request handler ([src/mod_R.c], [AP_hook_request_handler])

    From the request to its answer: the lock, the handler and file caches, the
    evaluation of the file and of the handler, and the end of the request on
    every path. *)
From S2P Require Import Prelude Apr Url Util Brigade Param Parser Urlencoded Cookie RTable SendBin RState RCalls Directives InfoPage Engine.

Section Handler.
Context {E : AprErrno} {T : AprTable} {R : REngine} {In : Type} {I : ApInput In}
        {X : Type} {XP : AprXml X} {H : HookEnv X} {MP : MultipartParser} {P : Platform}.
Abbreviation MW := (M (world In)).

(** ** The handler of a request *)

(** [h->f = ...], for the handler under [k]. *)
Definition on_handler (k : bytes) (f : RApacheHandler -> RApacheHandler) (w : world In) : world In :=
  set_w_handlers (alter f k (w_handlers w)) w.

Definition no_handler : RApacheHandler := Handler None None None None.

Definition set_h_expr x (h : RApacheHandler) :=
  Handler x (h_envir h) (h_parsedFile h) (h_directive h).
Definition set_h_envir x (h : RApacheHandler) :=
  Handler (h_expr h) x (h_parsedFile h) (h_directive h).
Definition set_h_parsedFile x (h : RApacheHandler) :=
  Handler (h_expr h) (h_envir h) x (h_directive h).
Definition set_h_directive x (h : RApacheHandler) :=
  Handler (h_expr h) (h_envir h) (h_parsedFile h) x.

(** The key of the handler in the cache; [None]: NULL. *)
Definition GetHandlerFromRequest : MW (option bytes) :=
  let* r := get w_r in
  let html := modify (on_r (set_r_content_type (Some (str "text/html")))) in
  match r_directive r with
  | Some d =>
      match d_handlerKey d with
      | Some key =>
          modify (fun w => match w_handlers w !! key with
                           | Some _ => w
                           | None => set_w_handlers (<[key := no_handler]> (w_handlers w)) w
                           end) ;;
          match d_file d, d_function d, d_evalcode d with
          | None, None, None =>
              html ;; RApacheError (Some (str "Invalid RApache Directive: " ++ key)) ;; ret None
          | _, _, _ =>
              modify (on_handler key (set_h_directive (Some d))) ;; ret (Some key)
          end
      | None =>
          html ;;
          RApacheError (Some (str "No RApache Directive specified for 'SetHandler " ++ r_handler r
                              ++ str "'")) ;; ret None
      end
  | None =>
      html ;;
      RApacheError (Some (str "No RApache Directive specified for 'SetHandler " ++ r_handler r
                          ++ str "'")) ;; ret None
  end.

(** [apr_thread_mutex_lock(MR_mutex)], when there is one: whether it is held. *)
Definition lock : MW bool :=
  let* m := get w_mutex in
  match m with
  | None => ret true
  | Some n =>
      if p_lock_ok then modify (set_w_mutex (Some (n + 1)%Z)) ;; ret true else ret false
  end.

Section WithEvaluator.
Context (ev : evaluator (In := In)).

Definition SetUpRequest (handlerType : RApacheHandlerType) : MW bool :=
  let* held := lock in
  if negb held then ret false
  else
    modify (on_req (set_q_r true)) ;;
    modify (set_w_bbin None) ;;
    if negb p_brigade_ok then
      modify (set_w_bbout None) ;;
      RApacheError (Some (str "RApache MR_BBout error!")) ;;
      TearDownRequest ev false ;; ret false
    else
      modify (set_w_bbout (Some [])) ;;
      match handlerType with
      | R_INFO => ret true
      | _ =>
          let* h := GetHandlerFromRequest in
          modify (on_req (set_q_handler h)) ;;
          match h with
          | None => TearDownRequest ev false ;; ret false
          | Some _ => ret true
          end
      end.

(** ** Files *)

Definition set_pf (k : bytes) (f : RApacheParsedFile -> RApacheParsedFile) (w : world In) : world In :=
  set_w_files (alter f k (w_files w)) w.

Definition new_file : RApacheParsedFile := ParsedFile None None 0.

(** [parsedFile], by its key in the cache. *)
Definition parsed_file (hk : bytes) (h : RApacheHandler) (file : bytes) : MW bytes :=
  match h_parsedFile h with
  | Some pk => ret pk
  | None =>
      modify (fun w => match w_files w !! file with
                       | Some _ => w
                       | None => set_w_files (<[file := new_file]> (w_files w)) w
                       end) ;;
      modify (on_handler hk (set_h_parsedFile (Some file))) ;;
      ret file
  end.

(** Whether it succeeded, and [*fileParsed]. *)
Definition parse_if_newer (pk file : bytes) (mtime : Z) : MW (bool * bool) :=
  let* pf := get (fun w => default new_file (w_files w !! pk)) in
  if (pf_mtime pf <? mtime)%Z then
    let* res := CallFun1str ev (str "parse") file R_GlobalEnv in
    modify (set_pf pk (fun pf => ParsedFile res.1 (pf_envir pf) (pf_mtime pf))) ;;
    if res.2 : bool then ret (false, true)
    else
      modify (set_pf pk (fun pf => ParsedFile (pf_exprs pf) (pf_envir pf) mtime)) ;;
      ret (true, true)
  else ret (true, false).

Definition PrepareFileExprs (hk : bytes) (h : RApacheHandler) (d : RApacheDirective) (file : bytes)
  : MW (bool * bool) :=
  match p_mtime file with
  | None =>
      RApacheError (Some (str "From RApache Directive: " ++ default [] (d_handlerKey d) ++ [x0a; x09]
                          ++ str "Invalid file (apr_stat): " ++ file ++ [x0a])) ;;
      ret (false, true)
  | Some mtime =>
      let* pk := parsed_file hk h file in
      parse_if_newer pk file mtime
  end.

(** ** The handler expression *)

(** The texts [sprintf] makes of the formats, with the sizes of their buffers. *)
Definition fun_text (package : option bytes) (function : bytes) : bytes * nat :=
  match package with
  | Some p => (p ++ str "::" ++ function ++ str "()",
               length (str "%s::%s()") + length p + length function)
  | None => (function ++ str "()", length (str "%s()") + length function)
  end.

Definition script_text (package : option bytes) (function filename : bytes) : bytes * nat :=
  match package with
  | Some p => (p ++ str "::" ++ function ++ str "(file='" ++ filename ++ str "',envir=.rAenv)",
               length (str "%s::%s(file='%s',envir=.rAenv)") + length p + length function
               + length filename)
  | None => (function ++ str "(file='" ++ filename ++ str "',envir=.rAenv)",
             length (str "%s(file='%s',envir=.rAenv)") + length function + length filename)
  end.

Definition defineVar (name : bytes) (v : SEXP) (env : option r_env) : MW unit :=
  match env with
  | Some e => modify (fun w => set_w_R (r_defineVar (w_R w) name v e) w)
  | None => do_crash
  end.

(** The part for [r-script]; it gives [parseError]. *)
Definition prepare_script (hk : bytes) (d : RApacheDirective) (envir : option r_env) : MW bool :=
  match d_function d with
  | None => do_crash                              (* [strlen(NULL)] *)
  | Some function =>
      let* r := get w_r in
      let* res := ParseText ev (script_text (d_package d) function (r_filename r)).1 in
      let '(expr, parseError) := res in
      modify (on_handler hk (set_h_expr expr)) ;;
      defineVar (str ".rAfile") (mkString (r_filename r)) envir ;;
      defineVar (str ".rAenv") (match envir with Some e => REnvir e | None => RNil end) envir ;;
      chdir (dirname p_stack (r_filename r)) ;;
      ret parseError
  end.

(** The text of a function call is kept as the handler's expression. *)
Definition prepare_call (hk : bytes) (d : RApacheDirective) (envir : option r_env) (parseError : bool)
  : MW bool :=
  let keep (text : bytes) :=
    let* res := ParseText ev text in
    let '(expr, parseError) := res in
    modify (on_handler hk (set_h_expr expr)) ;; ret (negb parseError) in
  match d_function d with
  | Some function =>
      match d_package d with
      | Some p => keep (fun_text (Some p) function).1
      | None =>
          let* found := match d_file d with
                        | Some _ => MyfindFun ev function envir
                        | None => ret true
                        end in
          if found then keep (fun_text None function).1
          else
            RApacheError (Some (str "Cannot find function '" ++ function ++ str "' in file '"
                                ++ default [] (d_file d) ++ str "'" ++ [x0a])) ;;
            ret false
      end
  | None =>
      match d_evalcode d with
      | Some code => keep code
      | None => ret (negb parseError)
      end
  end.

Definition PrepareHandlerExpr (hk : bytes) (d : RApacheDirective) (handlerType : RApacheHandlerType)
  : MW bool :=
  let* h := get (fun w => default no_handler (w_handlers w !! hk)) in
  let* parseError := match handlerType with
                     | R_SCRIPT => prepare_script hk d (h_envir h)
                     | _ => ret true
                     end in
  let* h := get (fun w => default no_handler (w_handlers w !! hk)) in
  match h_expr h with
  | Some _ => ret true
  | None => prepare_call hk d (h_envir h) parseError
  end.

(** ** The environment of the module *)

(** The last environment of the search path, [R_GlobalEnv] when it is empty. *)
Definition search_end (l : list r_env) : r_env := default R_GlobalEnv (list.last l).

Definition RefreshRApacheEnv : MW unit :=
  modify (fun w =>
    if bool_decide (MR_RApacheEnv ∈ r_search (w_R w)) then w
    else set_w_R (r_set_parent (w_R w) (search_end (r_search (w_R w))) MR_RApacheEnv) w) ;;
  let* res := ParseEval ev (str ".ResetCGIVars()") MR_RApacheEnv in
  let '(_, evalError) := res in
  if evalError then
    to_stderr (str "Internal Error! Error resetting CGI vars!" ++ [x0a; x0a]) ;; do_exit
  else ret tt.

(** ** The handler *)

Definition handler_type (handler : bytes) : option RApacheHandlerType :=
  if bool_decide (handler = str "r-handler") then Some R_HANDLER
  else if bool_decide (handler = str "r-script") then Some R_SCRIPT
  else if bool_decide (handler = str "r-info") then Some R_INFO
  else None.

(** What a step of the handler leaves: an answer, or the state to go on with. *)
Inductive step_result (A : Type) := Answer (code : Z) | Go (a : A).
Arguments Answer {A}.
Arguments Go {A}.

Definition fail {A} : MW (step_result A) :=
  let* code := RApacheResponseError ev None in ret (Answer code).

Definition fail_traced {A} : MW (step_result A) := PrintTraceback ev ;; fail.

(** [ret] and [evalError]. *)
Abbreviation eval_state := (option SEXP * bool)%type.

(** The evaluation of the parsed file [pk], in a new environment. *)
Definition eval_file (d : RApacheDirective) (pk : bytes) (fileParsed : bool)
  : MW (step_result eval_state) :=
  if fileParsed || (match d_function d, d_evalcode d with None, None => true | _, _ => false end) then
    let* env := NewEnv in
    modify (set_pf pk (fun pf => ParsedFile (pf_exprs pf) (Some env) (pf_mtime pf))) ;;
    let* exprs := get (fun w => pf ← w_files w !! pk; pf_exprs pf) in
    let* res := EvalExprs ev exprs env true in
    if res.2 : bool then fail_traced else ret (Go res)
  else ret (Go (Some RNil, true)).

(** A directive with a file: the file is evaluated when it was parsed anew, and
    on every request when there is nothing else to run. *)
Definition run_file (hk : bytes) (d : RApacheDirective) (file : bytes) : MW (step_result eval_state) :=
  let* moved := chdir (d_dirname d) in
  if negb moved then fail
  else
    let* h := get (fun w => default no_handler (w_handlers w !! hk)) in
    let* res := PrepareFileExprs hk h d file in
    let '(ok, fileParsed) := res in
    if negb ok then fail
    else
      let* h := get (fun w => default no_handler (w_handlers w !! hk)) in
      match h_parsedFile h with
      | None => do_crash
      | Some pk =>
          let* s := eval_file d pk fileParsed in
          match s with
          | Answer c => ret (Answer c)
          | Go s =>
              modify (fun w => on_handler hk
                (set_h_envir (pf ← w_files w !! pk; pf_envir pf)) w) ;;
              ret (Go s)
          end
      end.

Definition run_no_file (hk : bytes) : MW (step_result eval_state) :=
  let* env := NewEnv in
  modify (on_handler hk (set_h_envir (Some env))) ;; ret (Go (Some RNil, true)).

Definition run_handler (hk : bytes) (d : RApacheDirective) (ty : RApacheHandlerType)
    (s : eval_state) : MW (step_result eval_state) :=
  match d_function d, d_evalcode d with
  | None, None => ret (Go s)
  | _, _ =>
      let* ok := PrepareHandlerExpr hk d ty in
      if negb ok then fail
      else
        let* h := get (fun w => default no_handler (w_handlers w !! hk)) in
        let* res := match h_envir h with
                    | Some env => EvalExprs ev (h_expr h) env s.2
                    | None => do_crash
                    end in
        if res.2 : bool then fail_traced else ret (Go res)
  end.

(** [IS_INTEGER(ret) && LENGTH(ret) == 1] *)
Definition status_value (ret_ : SEXP) : bool :=
  match unclassed ret_ with
  | RInt [_] => negb (inherits ret_ (str "factor"))
  | _ => false
  end.

Definition finish (d : RApacheDirective) (ret_ : option SEXP) : MW Z :=
  match ret_ with
  | None => do_crash
  | Some v =>
      if status_value v then
        let result := r_asInteger v in
        TearDownRequest ev true ;;
        modify (fun w => if (result =? OK)%Z then w else on_r (set_r_status result) w) ;;
        ret result
      else if inherits v (str "try-error") then
        RApacheResponseError ev (Some (str "Function " ++ default (str "(null)") (d_function d)
                                       ++ str " returned an object of 'try-error'." ++ [x0a]))
      else TearDownRequest ev true ;; ret DONE
  end.

(** The request after it was set up, for a handler or a script. *)
Definition serve (hk : bytes) (ty : RApacheHandlerType) : MW Z :=
  RefreshRApacheEnv ;;
  let* d := get (fun w => h ← w_handlers w !! hk; h_directive h) in
  match d with
  | None => do_crash
  | Some d =>
      let* s := match d_file d with Some file => run_file hk d file | None => run_no_file hk end in
      match s with
      | Answer c => ret c
      | Go s =>
          let* s := run_handler hk d ty s in
          match s with
          | Answer c => ret c
          | Go s => finish d s.1
          end
      end
  end.

(** A request for one of the three handlers of the module. *)
Definition handle_request (ty : RApacheHandlerType) : MW Z :=
  let* ok := SetUpRequest ty in
  if negb ok then ret HTTP_INTERNAL_SERVER_ERROR
  else
    let* h := get (fun w => q_handler (w_req w)) in
    match ty, h with
    | R_INFO, _ =>
        let* val := RApacheInfo ev in
        TearDownRequest ev true ;; ret val
    | _, Some hk => serve hk ty
    | _, None => do_crash
    end.

(** The request is [w_r]; the answer is what Apache gets back. *)
Definition AP_hook_request_handler : MW Z :=
  if negb p_getcwd_ok then ret HTTP_INTERNAL_SERVER_ERROR
  else
    modify (fun w => on_req (set_q_oldwd (Some (w_cwd w))) w) ;;
    let* r := get w_r in
    match handler_type (r_handler r) with
    | None => ret DECLINED
    | Some ty => handle_request ty
    end.

End WithEvaluator.
End Handler.

Arguments Answer {A}.
Arguments Go {A}.

(** * Properties *)

Section HandlerFacts.
Context {E : AprErrno} {T : AprTable} {R : REngine} {In : Type} {I : ApInput In}
        {X : Type} {XP : AprXml X} {H : HookEnv X} {MP : MultipartParser} {P : Platform}.

(** Between requests: nothing of a request is left but, after a declined one,
    the directory it would have gone back to. *)
Record idle (n : option Z) (w : world In) : Prop := Idle {
  idle_req : exists o, w_req w = set_q_oldwd o req_zero;
  idle_bbin : w_bbin w = None;
  idle_bbout : w_bbout w = None;
  idle_bberr : w_bberr w = None;
  idle_mutex : w_mutex w = n
}.

Definition held (n : option Z) : option Z := (fun n => n + 1)%Z <$> n.

Definition clear_stdin : bytes := str ".Internal(clearPushBack(stdin()))".

Section Ending.
Context (ev : evaluator (In := In)) (Hev : quiet ev) (n : option Z) (old : bytes) (sent : bytes)
        (Q : bytes -> Prop).

(** [Q] holds of the working directory once it was set back, and the R code that
    runs after that leaves it alone. *)
Definition back_home : Prop :=
  (forall cwd, Q (if p_chdir_ok (Some old) then old else cwd)) /\
  keeps (fun w => Q (w_cwd w)) (ParseEval ev clear_stdin R_GlobalEnv).

Context (Hq : back_home).

Abbreviation alive k := (live (In := In) (held n) (k : option bytes) (Some old) sent).

(** The end of a request: idle again, and what was sent. *)
Definition over (flushed : bool) (w : world In) : Prop :=
  idle n w /\ w_req w = req_zero /\ Q (w_cwd w) /\
  exists b, w_client w = sent ++ b /\ (flushed = false -> b = []).

Lemma back_home_chdir k :
  hoare (alive k) (chdir (Some old)) (fun _ w => alive k w /\ Q (w_cwd w)).
Proof.
  intros w Hw. unfold chdir. destruct Hq as [Hc _]. specialize (Hc (w_cwd w)).
  destruct (p_chdir_ok (Some old)); cbn; (split; [|done]); [|done].
  revert Hw. apply live_same. by unfold same_request.
Qed.

(** What is left of [TearDownRequest] after the input was dealt with. *)
Lemma teardown_tail k (flush : bool) :
  hoare (fun w => alive k w /\ Q (w_cwd w))
    (modify (set_w_bbin None) ;;
     let* bbout := get w_bbout in
     match bbout with
     | Some ((_ :: _) as b) => if flush then flush_output b else ret tt
     | _ => ret tt
     end ;;
     modify (set_w_bbout None) ;;
     let* bberr := get w_bberr in
     match bberr with
     | Some b => log_errors b
     | None => ret tt
     end ;;
     modify (set_w_bberr None) ;;
     modify (set_w_req req_zero) ;;
     unlock) (fun _ : unit => over flush).
Proof.
  intros w [[Hr Hh Ho Hm Hc] HQ].
  assert (Hun : forall w1, w_mutex w1 = held n -> w_cwd w1 = w_cwd w ->
    (exists b, w_client w1 = sent ++ b /\ (flush = false -> b = [])) ->
    match (modify (set_w_bberr None) ;; modify (set_w_req (In := In) req_zero) ;; unlock)
            (set_w_bbout None (set_w_bbin None w1)) with Ret _ w' => over flush w' | _ => True end).
  { intros w1 Hm1 Hd1 Hc1. cbn. rewrite Hm1. unfold held.
    destruct n as [z|] eqn:En; cbn; (split; [split; cbn|]).
    all: try (by eexists); try done; try congruence.
    - rewrite En. f_equal. lia.
    - cbn. rewrite Hd1. split_and!; done.
    - by rewrite En.
    - cbn. rewrite Hd1. split_and!; done. }
  unfold bind at 1 2, modify at 1, get at 1. cbn [w_bbout set_w_bbin].
  assert (Hsent : exists w1, (match w_bbout w with
     | Some ((_ :: _) as b) => if flush then flush_output b else ret tt
     | _ => ret tt end) (set_w_bbin None w)
       = Ret tt (set_w_bbin None w1) /\ q_r (w_req w1) = true /\ w_mutex w1 = held n /\
       w_cwd w1 = w_cwd w /\ w_bberr w1 = w_bberr w /\
       exists b, w_client w1 = sent ++ b /\ (flush = false -> b = [])).
  { assert (Hno : exists b, w_client w = sent ++ b /\ (flush = false -> b = []))
      by (exists []; by rewrite app_nil_r).
    destruct (w_bbout w) as [[|x b]|]; [by exists w| |by exists w].
    destruct flush; cbn; [|by exists w].
    unfold flush_output, bind, get. cbn. rewrite Hr. cbn.
    exists (set_w_client (w_client w ++ x :: b) w). split; [done|].
    split_and!; try done. cbn. rewrite Hc. by eexists. }
  destruct Hsent as (w1 & Hs & Hr1 & Hm1 & Hd1 & He1 & Hc1).
  unfold bind at 1. rewrite Hs.
  unfold bind at 1 2, modify at 1, get at 1. cbn [w_bberr set_w_bbout set_w_bbin]. rewrite He1.
  destruct (w_bberr w) as [e|].
  - unfold bind at 1. unfold log_errors, bind at 1, get. cbn [w_req set_w_bbout set_w_bbin].
    rewrite Hr1. cbn [modify].
    apply (Hun (set_w_error_log (w_error_log w1 ++ e) w1)); done.
  - unfold bind at 1. cbn [ret]. by apply Hun.
Qed.

Lemma teardown_ends k flush :
  hoare (alive k) (TearDownRequest ev flush) (fun _ : unit => over flush).
Proof.
  unfold TearDownRequest.
  apply (hoare_bind _ _ (fun q w => alive k w /\ q_oldwd q = Some old)).
  { intros w Hw. split; [done|]. by destruct Hw. }
  intros q. apply (hoare_bind _ _ (fun _ w => alive k w /\ Q (w_cwd w))).
  { intros w [Hw ->]. pose proof (back_home_chdir k w Hw) as Hb. unfold bind.
    destruct (chdir (Some old) w); done. }
  intros _. apply (hoare_bind _ _ (fun _ w => alive k w /\ Q (w_cwd w))); [by intros w Hw|].
  intros bbin. apply (hoare_bind _ _ (fun _ w => alive k w /\ Q (w_cwd w))).
  2: { intros _. apply teardown_tail. }
  destruct bbin; [|by intros w Hw].
  apply (hoare_bind _ _ (fun _ w => alive k w /\ Q (w_cwd w))); [by intros w Hw|].
  intros q'. destruct (q_readStarted q'); [|by intros w Hw].
  intros w [Hw HQ]. pose proof (live_ParseEval ev Hev clear_stdin R_GlobalEnv _ _ _ _ w Hw) as Hl.
  destruct Hq as [_ Hk]. specialize (Hk w HQ). unfold bind. fold clear_stdin.
  destruct (ParseEval ev clear_stdin R_GlobalEnv w); done.
Qed.

(** Every way to refuse: the answer is 500, and nothing of the output is sent. *)
Definition refused (c : Z) (w : world In) : Prop := c = HTTP_INTERNAL_SERVER_ERROR /\ over false w.

Lemma response_error_ends k msg : hoare (alive k) (RApacheResponseError ev msg) refused.
Proof.
  unfold RApacheResponseError. eapply hoare_bind; [apply hoare_keeps, live_error|]. intros ?.
  eapply hoare_bind; [apply teardown_ends|]. intros ?. by apply hoare_ret.
Qed.

(** What a step of the handler leaves. *)
Definition after_step {A} (k : option bytes) (s : step_result A) (w : world In) : Prop :=
  match s with Answer c => refused c w | Go _ => alive k w end.

Lemma fail_ends {A} k : hoare (alive k) (fail (A := A) ev) (after_step k).
Proof.
  unfold fail. eapply hoare_bind; [apply response_error_ends|]. intros c. by apply hoare_ret.
Qed.

Lemma fail_traced_ends {A} k : hoare (alive k) (fail_traced (A := A) ev) (after_step k).
Proof.
  unfold fail_traced. eapply hoare_bind; [apply hoare_keeps, live_PrintTraceback, Hev|].
  intros ?. apply fail_ends.
Qed.

Lemma live_on_handler hk f : live_keeping (In := In) (modify (on_handler hk f)).
Proof. apply live_modify. same_tac. Qed.
Lemma live_set_pf hk f : live_keeping (In := In) (modify (set_pf hk f)).
Proof. apply live_modify. same_tac. Qed.
Hint Resolve live_on_handler live_set_pf : live.

Lemma live_parsed_file hk h file : live_keeping (In := In) (parsed_file hk h file).
Proof. unfold parsed_file. live_tac. Qed.
Hint Resolve live_parsed_file : live.

Lemma live_PrepareFileExprs hk h d file : live_keeping (PrepareFileExprs ev hk h d file).
Proof. unfold PrepareFileExprs, parse_if_newer, CallFun1str. live_tac. Qed.

Lemma live_defineVar name v env : live_keeping (In := In) (defineVar name v env).
Proof. unfold defineVar. live_tac. Qed.
Hint Resolve live_defineVar : live.

Lemma live_PrepareHandlerExpr hk d ty : live_keeping (PrepareHandlerExpr ev hk d ty).
Proof. unfold PrepareHandlerExpr, prepare_script, prepare_call. live_tac. Qed.

Lemma live_RefreshRApacheEnv : live_keeping (RefreshRApacheEnv ev).
Proof. unfold RefreshRApacheEnv, to_stderr. live_tac. Qed.

Lemma step_bind {A B} k (m : M (world In) A) (f : A -> M (world In) B) Post :
  live_keeping m -> (forall a, hoare (alive k) (f a) Post) -> hoare (alive k) (bind m f) Post.
Proof. intros Hm Hf. eapply hoare_bind; [apply hoare_keeps, Hm|exact Hf]. Qed.

Lemma go_ends {A} k (a : A) : hoare (alive k) (ret (Go a)) (after_step k).
Proof. by apply hoare_ret. Qed.

Lemma crash_ends {A} Pre (Post : A -> world In -> Prop) : hoare Pre do_crash Post.
Proof. by intros w _. Qed.

Create HintDb ends.
Hint Resolve fail_ends fail_traced_ends go_ends crash_ends : ends.
Hint Resolve live_PrepareFileExprs live_PrepareHandlerExpr live_RefreshRApacheEnv : live.

Ltac ends_tac :=
  repeat (first
    [ solve [auto with ends]
    | simple apply step_bind; [solve [live_tac]|intros ?]
    | progress case_match ]).

Lemma eval_file_ends k d pk fp : hoare (alive k) (eval_file ev d pk fp) (after_step k).
Proof. unfold eval_file. ends_tac. Qed.

Lemma run_file_ends k hk d file : hoare (alive k) (run_file ev hk d file) (after_step k).
Proof.
  unfold run_file. ends_tac.
  apply (hoare_bind _ _ (after_step k)); [apply eval_file_ends|].
  intros [c|s]; [by apply hoare_ret|].
  apply (hoare_weaken (alive k) _ _ (after_step k)); [ends_tac|done|done].
Qed.

Lemma run_no_file_ends k hk : hoare (alive k) (run_no_file hk) (after_step k).
Proof. unfold run_no_file. ends_tac. Qed.

Lemma run_handler_ends k hk d ty s : hoare (alive k) (run_handler ev hk d ty s) (after_step k).
Proof. unfold run_handler. ends_tac. Qed.

(** The end of a request that was not refused before. *)
Definition answered (c : Z) (w : world In) : Prop := over true w \/ refused c w.

Lemma over_on_r b f w : over b w -> over b (on_r f w).
Proof. intros ([Ho Hi Hb He Hm] & Hr & HQ & Hc). split; [by split|by split_and!]. Qed.

Lemma finish_ends k d v : hoare (alive k) (finish ev d v) answered.
Proof.
  unfold finish. destruct v as [v|]; [|apply crash_ends].
  destruct (status_value v); [|destruct (inherits v (str "try-error"))].
  - eapply hoare_bind; [apply teardown_ends|]. intros ?.
    eapply (hoare_bind _ _ (fun _ => over true)); [|intros ?; apply hoare_ret; by left].
    intros w Hw. cbn. destruct (_ =? _)%Z; [done|by apply over_on_r].
  - eapply hoare_weaken; [apply response_error_ends|done|]. by right.
  - eapply hoare_bind; [apply teardown_ends|]. intros ?. apply hoare_ret. by left.
Qed.

Lemma serve_ends k hk ty : hoare (alive k) (serve ev hk ty) answered.
Proof.
  unfold serve. ends_tac.
  all: eapply (hoare_bind _ _ (after_step k)); [first [apply run_file_ends|apply run_no_file_ends]|].
  all: intros [c|s]; [apply hoare_ret; by right|].
  all: eapply (hoare_bind _ _ (after_step k)); [exact (run_handler_ends k hk _ ty s)|].
  all: intros [c|s']; [apply hoare_ret; by right|exact (finish_ends k _ s'.1)].
Qed.

Lemma live_GetHandler : live_keeping (In := In) GetHandlerFromRequest.
Proof. unfold GetHandlerFromRequest. live_tac. Qed.

(** A request that was not set up yet. *)
Definition ready (w : world In) : Prop :=
  idle n w /\ w_req w = set_q_oldwd (Some old) req_zero /\ w_client w = sent /\ w_cwd w = old.

(** What any answer leaves. *)
Definition balanced (w : world In) : Prop :=
  idle n w /\ Q (w_cwd w) /\ exists b, w_client w = sent ++ b.

Lemma Q_old : Q old.
Proof. destruct Hq as [Hc _]. specialize (Hc old). by destruct (p_chdir_ok (Some old)). Qed.

Lemma ready_balanced w : ready w -> balanced w.
Proof.
  intros (Hi & _ & Hc & Hd). split; [done|]. split; [rewrite Hd; apply Q_old|].
  exists []. by rewrite app_nil_r.
Qed.

Lemma over_balanced b w : over b w -> balanced w.
Proof. intros (Hi & _ & HQ & b' & Hc & _). split_and!; [done..|by exists b']. Qed.

Lemma answered_balanced c w : answered c w -> balanced w.
Proof. intros [Ho|[_ Ho]]; by eapply over_balanced. Qed.

(** The first assignments of [SetUpRequest], with the lock held. *)
Lemma start_alive w m :
  ready w -> w_mutex m = held n -> w_req m = w_req w -> w_client m = w_client w ->
  forall out, alive None (set_w_bbout out (set_w_bbin None (on_req (set_q_r true) m))).
Proof.
  intros (Hi & Hr & Hc & Hd) Hm Hrm Hcm out. split; cbn; rewrite ?Hrm, ?Hr; try done. congruence.
Qed.

Lemma lock_ends w :
  ready w -> lock w = Ret false w \/
    exists m, lock w = Ret true m /\ w_mutex m = held n /\ w_req m = w_req w /\ w_client m = w_client w.
Proof.
  intros ([_ _ _ _ Hm] & _). unfold lock, bind, get. rewrite Hm. unfold held.
  destruct n as [z|]; [destruct p_lock_ok|]; cbn; [right|by left|right]; by eexists.
Qed.

Lemma set_handler_alive k k' : hoare (alive k) (modify (on_req (set_q_handler k'))) (fun _ => alive k').
Proof. intros w []. by split. Qed.

(** What [SetUpRequest] leaves: a request that is refused has sent nothing. *)
Definition set_up (ok : bool) (w : world In) : Prop :=
  if ok then exists k, alive k w else balanced w /\ w_client w = sent.

Lemma over_unsent w : over false w -> balanced w /\ w_client w = sent.
Proof.
  intros Ho. split; [by eapply over_balanced|]. destruct Ho as (_ & _ & _ & b & -> & Hb).
  by rewrite (Hb eq_refl), app_nil_r.
Qed.

Lemma tear_down_fails k : hoare (alive k) (TearDownRequest ev false ;; ret false) set_up.
Proof.
  eapply hoare_bind; [apply teardown_ends|]. intros ?. apply hoare_ret. intros w. apply over_unsent.
Qed.

Lemma find_handler_ends ty :
  hoare (alive None)
    match ty with
    | R_INFO => ret true
    | _ =>
        let* h := GetHandlerFromRequest in
        modify (on_req (set_q_handler h)) ;;
        match h with None => TearDownRequest ev false ;; ret false | Some _ => ret true end
    end set_up.
Proof.
  assert (Hok : forall k, hoare (alive k) (ret true) set_up)
    by (intros k; apply hoare_ret; intros w Hw; by exists k).
  destruct ty; [| |apply Hok]; (apply step_bind; [apply live_GetHandler|intros h]);
    (eapply hoare_bind; [apply set_handler_alive|intros ?]);
    (destruct h; [apply Hok|apply tear_down_fails]).
Qed.

Lemma set_up_ends ty : hoare ready (SetUpRequest ev ty) set_up.
Proof.
  intros w Hw. unfold SetUpRequest, bind at 1.
  destruct (lock_ends w Hw) as [->|(m & -> & Hm & Hr & Hc)].
  { split; [by apply ready_balanced|]. by destruct Hw as (_ & _ & Hcl & _). }
  pose proof (start_alive w m Hw Hm Hr Hc) as Hal.
  cbn [negb]. unfold bind at 1 2, modify at 1 2. destruct (negb p_brigade_ok); unfold bind at 1, modify at 1.
  - apply (step_bind None _ (fun _ => TearDownRequest ev false ;; ret false) set_up (live_error _));
      [|apply Hal]. intros ?. apply tear_down_fails.
  - apply (find_handler_ends ty). apply Hal.
Qed.

Lemma handle_request_ends ty :
  ty <> R_INFO -> hoare ready (handle_request ev ty) (fun _ => balanced).
Proof.
  intros Hty. unfold handle_request. eapply hoare_bind; [apply set_up_ends|]. intros [|]; cbn [negb].
  2: { apply hoare_ret. by intros w [? _]. }
  intros w [k Hw]. unfold bind, get.
  assert (Hs : forall hk, match serve ev hk ty w with Ret _ w' => balanced w' | _ => True end).
  { intros hk. pose proof (serve_ends k hk ty w Hw) as Hs. destruct (serve ev hk ty w); [|done..].
    by eapply answered_balanced. }
  destruct ty; [| |done]; (destruct (q_handler (w_req w)); [apply Hs|done]).
Qed.

(** The information page: it ends the request when R code in it fails. *)
Lemma info_ends k :
  hoare (alive k) (RApacheInfo ev) (fun c w => (c = DONE /\ alive k w) \/ refused c w).
Proof.
  assert (Hp : forall envir page,
    hoare (alive k) (info_run ev envir page) (fun c w => (c = DONE /\ alive k w) \/ refused c w)).
  { intros envir page. induction page as [|[s|s] page IH]; cbn [info_run].
    - apply hoare_ret. by left.
    - by apply step_bind; [live_tac|].
    - apply step_bind; [live_tac|]. intros [v err]. destruct err; [|exact IH].
      eapply hoare_weaken; [apply response_error_ends|done|]. by right. }
  unfold RApacheInfo. do 2 (apply step_bind; [live_tac|intros ?]). apply Hp.
Qed.

(** Ended once more, a request that is over gives the lock back once more. *)
Definition unheld : option Z := (fun z => z - 1)%Z <$> n.

Lemma teardown_twice w (flush : bool) : over false w ->
  exists w', TearDownRequest ev flush w = Ret tt w' /\ idle unheld w' /\ w_client w' = sent.
Proof.
  intros ([_ Hi Ho He Hm] & Hr & _ & b & Hc & Hb). rewrite (Hb eq_refl), app_nil_r in Hc.
  unfold TearDownRequest. rewrite bind_get, Hr. cbn [q_oldwd req_zero].
  unfold bind at 1. cbn [ret]. rewrite bind_get, Hi. unfold bind at 1. cbn [ret].
  unfold bind at 1. cbn [modify]. rewrite bind_get. cbn [w_bbout set_w_bbin]. rewrite Ho.
  unfold bind at 1. cbn [ret]. unfold bind at 1. cbn [modify]. rewrite bind_get.
  cbn [w_bberr set_w_bbout set_w_bbin]. rewrite He. unfold bind, unheld, unlock, modify. cbn. rewrite Hm.
  destruct n; (eexists; split; [reflexivity|]); (split; [split; cbn; try done; by eexists|done]).
Qed.

(** What a request for the information page leaves. *)
Definition info_answered (c : Z) (w : world In) : Prop :=
  (balanced w /\ (c = HTTP_INTERNAL_SERVER_ERROR -> w_client w = sent)) \/
  c = HTTP_INTERNAL_SERVER_ERROR /\ idle unheld w /\ w_client w = sent.

Lemma handle_info_ends : hoare ready (handle_request ev R_INFO) info_answered.
Proof.
  unfold handle_request. eapply hoare_bind; [apply set_up_ends|]. intros [|]; cbn [negb].
  2: { apply hoare_ret. intros w [? ?]. by left. }
  intros w [k Hw]. rewrite bind_get. revert w Hw. eapply hoare_bind; [apply info_ends|].
  intros c w [[-> Hw]|[-> Hw]]; unfold bind.
  - pose proof (teardown_ends k true w Hw) as Ht. destruct (TearDownRequest ev true w); [|done..].
    left. split; [by eapply over_balanced|done].
  - destruct (teardown_twice w true Hw) as (w' & -> & ? & ?). by right.
Qed.

End Ending.

(** ** Whatever R code does

    Here R code may ask for the information page, and so end the request it is
    called for. *)
Section Clearing.
Context (ev : evaluator (In := In)) (n : option Z) (sent : bytes)
        (Hev : sane_ev (held n) sent ev).
Abbreviation going := (sane (In := In) (held n) sent).

(** After the end: nothing is left of the request. *)
Definition cleared (w : world In) : Prop := idle (w_mutex w) w /\ bounded n sent w.

Lemma cleared_on_r f w : cleared w -> cleared (on_r f w).
Proof. by intros [[] ?]. Qed.

Lemma lock_le_unheld m b : lock_le m (held b) -> lock_le ((fun z => z - 1)%Z <$> m) b.
Proof. destruct m, b; cbn; lia. Qed.

Lemma teardown_clears flush : hoare going (TearDownRequest ev flush) (fun _ : unit => cleared).
Proof.
  assert (Hun : forall w, going w -> w_bbin w = None -> w_bbout w = None ->
    match (modify (set_w_bberr None) ;; modify (set_w_req (In := In) req_zero) ;; unlock) w
    with Ret _ w' => cleared w' | _ => True end).
  { intros w (_ & Hm & Hc) Hi Ho. unfold unlock, bind, modify. cbn.
    apply lock_le_unheld in Hm. destruct (w_mutex w) as [z|] eqn:Em; cbn in Hm |- *;
      (split; [split; cbn; try done; by eexists|]); (split; [|exact Hc]); cbn; rewrite ?Em; exact Hm. }
  unfold TearDownRequest.
  do 4 (eapply hoare_bind; [apply hoare_keeps; sane_tac; apply Hev|intros ?]).
  eapply (hoare_bind _ _ (fun _ w => going w /\ w_bbin w = None)); [by intros w Hw|]. intros _.
  eapply (hoare_bind _ _ (fun _ w => going w /\ w_bbin w = None)); [by intros w Hw|]. intros out.
  eapply (hoare_bind _ _ (fun _ w => going w /\ w_bbin w = None)).
  { intros w [Hw Hi]. destruct out as [[|x b]|]; [done| |done]. destruct flush; [|done].
    pose proof (sane_flush (held n) sent (x :: b) w Hw) as Hk. unfold flush_output, bind, get in *.
    by destruct (q_r (w_req w)). }
  intros _. eapply (hoare_bind _ _ (fun _ w => going w /\ w_bbin w = None /\ w_bbout w = None)); [by intros w []|].
  intros _. eapply (hoare_bind _ _ (fun _ w => going w /\ w_bbin w = None /\ w_bbout w = None)); [by intros w Hw|].
  intros err. eapply (hoare_bind _ _ (fun _ w => going w /\ w_bbin w = None /\ w_bbout w = None)).
  { intros w Hw. destruct err; [|done]. unfold log_errors, bind, get. by destruct (q_r (w_req w)). }
  intros _ w (Hw & Hi & Ho). by apply Hun.
Qed.

Lemma error_clears msg : hoare going (RApacheResponseError ev msg) (fun _ => cleared).
Proof.
  unfold RApacheResponseError. eapply hoare_bind; [apply hoare_keeps, sane_error|]. intros ?.
  eapply hoare_bind; [apply teardown_clears|]. intros ?. by apply hoare_ret.
Qed.

Definition step_clears {A} (s : step_result A) (w : world In) : Prop :=
  match s with Answer _ => cleared w | Go _ => going w end.

Lemma fail_clears {A} : hoare going (fail (A := A) ev) step_clears.
Proof. unfold fail. eapply hoare_bind; [apply error_clears|]. intros c. by apply hoare_ret. Qed.

Lemma fail_traced_clears {A} : hoare going (fail_traced (A := A) ev) step_clears.
Proof.
  unfold fail_traced. eapply hoare_bind; [apply hoare_keeps; by apply sane_PrintTraceback|]. intros ?.
  apply fail_clears.
Qed.

Lemma going_bind {A B} (m : M (world In) A) (f : A -> M (world In) B) Post :
  keeps going m -> (forall a, hoare going (f a) Post) -> hoare going (bind m f) Post.
Proof. intros Hm Hf. eapply hoare_bind; [apply hoare_keeps, Hm|exact Hf]. Qed.

Lemma go_clears {A} (a : A) : hoare going (ret (Go a)) step_clears.
Proof. by apply hoare_ret. Qed.

Create HintDb clears.
Hint Resolve fail_clears fail_traced_clears go_clears crash_ends : clears.
Hint Resolve sane_ParseText sane_ParseEval sane_EvalExprs sane_MyfindFun Hev : keeps.

Ltac clears_tac :=
  repeat (first
    [ solve [auto with clears]
    | simple apply going_bind; [solve [sane_tac]|intros ?]
    | progress case_match ]).

Lemma sane_PrepareFileExprs hk h d file : keeps going (PrepareFileExprs ev hk h d file).
Proof. unfold PrepareFileExprs, parsed_file, parse_if_newer, CallFun1str. sane_tac. Qed.

Lemma sane_PrepareHandlerExpr hk d ty : keeps going (PrepareHandlerExpr ev hk d ty).
Proof. unfold PrepareHandlerExpr, prepare_script, prepare_call, defineVar. sane_tac. Qed.
Hint Resolve sane_PrepareFileExprs sane_PrepareHandlerExpr : keeps.

Lemma eval_file_clears d pk fp : hoare going (eval_file ev d pk fp) step_clears.
Proof. unfold eval_file. clears_tac. Qed.

Lemma run_file_clears hk d file : hoare going (run_file ev hk d file) step_clears.
Proof.
  unfold run_file. clears_tac. apply (hoare_bind _ _ step_clears); [apply eval_file_clears|].
  intros [c|s]; [by apply hoare_ret|].
  apply (hoare_weaken going _ _ step_clears); [clears_tac|done|done].
Qed.

Lemma run_no_file_clears hk : hoare going (run_no_file hk) step_clears.
Proof. unfold run_no_file. clears_tac. Qed.

Lemma run_handler_clears hk d ty s : hoare going (run_handler ev hk d ty s) step_clears.
Proof. unfold run_handler. clears_tac. Qed.

Lemma finish_clears d v : hoare going (finish ev d v) (fun _ => cleared).
Proof.
  unfold finish. destruct v as [v|]; [|apply crash_ends].
  destruct (status_value v); [|destruct (inherits v (str "try-error"))]; [|apply error_clears|];
    (eapply hoare_bind; [apply teardown_clears|]; intros ?); [|by apply hoare_ret].
  eapply (hoare_bind _ _ (fun _ => cleared)); [|intros ?; by apply hoare_ret].
  intros w Hw. cbn. destruct (_ =? _)%Z; [done|by apply cleared_on_r].
Qed.

Lemma serve_clears hk ty : hoare going (serve ev hk ty) (fun _ => cleared).
Proof.
  unfold serve, RefreshRApacheEnv, to_stderr. clears_tac.
  all: eapply (hoare_bind _ _ step_clears); [first [apply run_file_clears|apply run_no_file_clears]|].
  all: intros [c|s]; [by apply hoare_ret|].
  all: eapply (hoare_bind _ _ step_clears); [apply run_handler_clears|].
  all: intros [c|s']; [by apply hoare_ret|apply finish_clears].
Qed.

Lemma set_up_clears ty :
  hoare (fun w => idle n w /\ w_client w = sent) (SetUpRequest ev ty)
    (fun ok w => if ok : bool then going w else cleared w).
Proof.
  assert (Hend : hoare going (TearDownRequest ev false ;; ret false)
    (fun ok w => if ok : bool then going w else cleared w)).
  { eapply hoare_bind; [apply teardown_clears|]. intros ?. by apply hoare_ret. }
  intros w [Hw Hc]. unfold SetUpRequest, bind at 1.
  assert (Hlock : lock w = Ret false w \/ exists m, lock w = Ret true m /\ going m).
  { unfold lock. rewrite bind_get. destruct Hw as [[o Ho] _ _ _ Hm]. rewrite Hm.
    destruct n as [z|]; [destruct p_lock_ok|]; [right|by left|right]; (eexists; split; [reflexivity|]);
      (split; [cbn; by rewrite Ho|]); (split; [cbn; rewrite ?Hm; cbn; try done; lia|]);
      exists []; by rewrite app_nil_r. }
  destruct Hlock as [->|(m & -> & Hg)]; cbn [negb].
  { split; [destruct Hw; by split|]. unfold bounded. destruct Hw as [_ _ _ _ ->]. split; [destruct n; cbn; lia|].
    exists []. by rewrite app_nil_r. }
  revert m Hg. unfold GetHandlerFromRequest. clears_tac.
  all: by apply hoare_ret.
Qed.

Lemma handle_request_clears ty :
  hoare (fun w => idle n w /\ w_client w = sent) (handle_request ev ty) (fun _ => cleared).
Proof.
  unfold handle_request. eapply hoare_bind; [apply set_up_clears|]. intros [|]; cbn [negb]; [|by apply hoare_ret].
  apply going_bind; [sane_tac|]. intros h. destruct ty; [destruct h; [apply serve_clears|apply crash_ends]..|].
  apply going_bind; [by apply sane_RApacheInfo|]. intros c.
  eapply hoare_bind; [apply teardown_clears|]. intros ?. by apply hoare_ret.
Qed.

End Clearing.

Lemma handler_type_info h : handler_type h = Some R_INFO -> h = str "r-info".
Proof. unfold handler_type. intros. by repeat case_bool_decide; simplify_eq. Qed.

(** ** The caches *)

(** The file a handler points to is in the cache. *)
Definition cache_ok (w : world In) : Prop :=
  forall k h pk, w_handlers w !! k = Some h -> h_parsedFile h = Some pk -> is_Some (w_files w !! pk).

Lemma cok_keeping {A} (m : M (world In) A) : cache_keeping m -> keeps cache_ok m.
Proof.
  intros Hm w Hw. specialize (Hm (caches w) w eq_refl). destruct (m w) as [a w'| | |]; [|done..].
  injection Hm as Hh Hf. intros k h pk. rewrite Hh, Hf. apply Hw.
Qed.

Lemma cok_on_handler_w k (f : world In -> RApacheHandler -> RApacheHandler) :
  (forall w h, h_parsedFile (f w h) = h_parsedFile h) ->
  keeps cache_ok (modify (fun w => on_handler k (f w) w)).
Proof.
  intros Hf. apply keeps_modify. intros w Hw k' h pk. cbn. intros Hk Hp.
  apply lookup_alter_Some in Hk as [(<- & h0 & Hk & ->)|[_ Hk]]; [|by eapply Hw].
  rewrite Hf in Hp. by eapply Hw.
Qed.

Lemma cok_on_handler k f :
  (forall h, h_parsedFile (f h) = h_parsedFile h) -> keeps cache_ok (modify (on_handler k f)).
Proof. intros Hf. by apply (cok_on_handler_w k (fun _ => f)). Qed.

Lemma cok_set_pf k f : keeps cache_ok (modify (set_pf k f)).
Proof.
  apply keeps_modify. intros w Hw k' h pk Hk Hp. cbn. destruct (Hw k' h pk Hk Hp) as [pf Hpf].
  destruct (decide (k = pk)) as [->|Hne].
  - rewrite lookup_alter_eq, Hpf. by eexists.
  - rewrite lookup_alter_ne by done. by eexists.
Qed.

(** An empty entry for a file that is not cached yet. *)
Definition with_file (file : bytes) (w : world In) : world In :=
  match w_files w !! file with
  | Some _ => w
  | None => set_w_files (<[file := new_file]> (w_files w)) w
  end.

Lemma with_file_spec file (w : world In) :
  w_handlers (with_file file w) = w_handlers w /\ w_R (with_file file w) = w_R w /\
  (forall pk, default new_file (w_files (with_file file w) !! pk) = default new_file (w_files w !! pk)) /\
  (forall pk, is_Some (w_files w !! pk) -> is_Some (w_files (with_file file w) !! pk)) /\
  is_Some (w_files (with_file file w) !! file).
Proof.
  unfold with_file. destruct (w_files w !! file) as [pf|] eqn:Ef; [by rewrite Ef|].
  cbn. rewrite lookup_insert_eq. split_and!; try done.
  - intros pk. destruct (decide (file = pk)) as [<-|Hne].
    + by rewrite lookup_insert_eq, Ef.
    + by rewrite lookup_insert_ne.
  - intros pk Hpk. destruct (decide (file = pk)) as [<-|Hne].
    + by rewrite lookup_insert_eq.
    + by rewrite lookup_insert_ne.
Qed.

Lemma cok_parsed_file hk h file : keeps cache_ok (parsed_file hk h file).
Proof.
  unfold parsed_file. destruct (h_parsedFile h); [apply keeps_ret|].
  intros w Hw k' h' pk. cbn. fold (with_file file w). intros Hk Hp.
  destruct (with_file_spec file w) as (Hh & _ & _ & Hm & Hf). rewrite Hh in Hk.
  apply lookup_alter_Some in Hk as [(<- & h0 & Hk & ->)|[_ Hk]]; [|by eapply Hm, Hw].
  cbn in Hp. by injection Hp as <-.
Qed.

Lemma cok_bind {A B} (m : M (world In) A) (f : A -> M (world In) B) :
  keeps cache_ok m -> (forall a, keeps cache_ok (f a)) -> keeps cache_ok (bind m f).
Proof. apply keeps_bind. Qed.

Lemma cok_new_handler key :
  keeps cache_ok (modify (fun w => match w_handlers w !! key with
                           | Some _ => w
                           | None => set_w_handlers (<[key := no_handler]> (w_handlers w)) w
                           end)).
Proof.
  apply keeps_modify. intros w Hw. destruct (w_handlers w !! key) eqn:Ek; [done|].
  intros k h pk. cbn. intros Hk Hp. destruct (decide (key = k)) as [<-|Hne].
  - rewrite lookup_insert_eq in Hk. by injection Hk as <-.
  - rewrite lookup_insert_ne in Hk by done. by eapply Hw.
Qed.

Section CacheOk.
Context (ev : evaluator (In := In)) (Hev : cache_safe ev).

Create HintDb cok.
Hint Resolve cok_set_pf cok_parsed_file cok_new_handler : cok.

Ltac cok_tac :=
  repeat (first
    [ solve [auto with cok]
    | solve [apply cok_keeping; cache_tac]
    | solve [apply cok_on_handler; done]
    | solve [apply (cok_on_handler_w _ (fun w => set_h_envir _)); done]
    | simple apply cok_bind; [|intros ?]
    | progress case_match ]).

Lemma cok_serve hk ty : keeps cache_ok (serve ev hk ty).
Proof.
  unfold serve, RefreshRApacheEnv, run_file, run_no_file, run_handler, finish, eval_file,
    PrepareFileExprs, parse_if_newer, PrepareHandlerExpr, prepare_script, prepare_call, fail_traced, fail, CallFun1str,
    defineVar, to_stderr.
  cok_tac.
Qed.

Lemma cok_handle_request ty : keeps cache_ok (handle_request ev ty).
Proof.
  unfold handle_request, SetUpRequest, lock, GetHandlerFromRequest.
  pose proof cok_serve as Hs. cok_tac.
Qed.

End CacheOk.

(** ** A request that runs to its end *)

(** Total correctness. *)
Definition runs {A} (Pre : world In -> Prop) (m : M (world In) A) (Post : A -> world In -> Prop) : Prop :=
  forall w, Pre w -> exists a w', m w = Ret a w' /\ Post a w'.

Lemma runs_bind {A B} Pre (m : M (world In) A) Mid (k : A -> M (world In) B) Post :
  runs Pre m Mid -> (forall a, runs (Mid a) (k a) Post) -> runs Pre (bind m k) Post.
Proof.
  intros Hm Hk w Hw. destruct (Hm w Hw) as (a & w1 & H1 & HM). destruct (Hk a w1 HM) as (b & w2 & H2 & HP).
  exists b, w2. unfold bind. by rewrite H1.
Qed.

Lemma runs_ret {A} (Pre : world In -> Prop) (a : A) Post : (forall w, Pre w -> Post a w) -> runs Pre (ret a) Post.
Proof. intros H1 w Hw. exists a, w. auto. Qed.

(** R code that only prints: what it prints, and how it ends. *)
Fixpoint plain_run {S} (p : r_prog S) : option (list (bytes * bool) * S * SEXP * bool) :=
  match p with
  | RDone st v err => Some ([], st, v, err)
  | RCall st (OpWrite buf e) k =>
      '(ws, st, v, err) ← plain_run (k st (Some RNil)); Some ((buf, e) :: ws, st, v, err)
  | RCall _ _ _ => None
  end.

(** What of it goes to the client. *)
Definition printed (ws : list (bytes * bool)) : bytes :=
  concat (map fst (List.filter (fun x => negb x.2) ws)).

Section Serving.
Context (ev : evaluator (In := In)) (n : option Z) (old sent key : bytes) (hs : gmap bytes RApacheHandler).

(** A request for the handler [key] that has printed [out]; [h] is the handler,
    [hs] the others of the cache, and [st] the state of R. *)
Record serving (h : RApacheHandler) (out : bytes) (st : R_state) (w : world In) : Prop := Serving {
  sv_live : live (held n) (Some key) (Some old) sent w;
  sv_console : w_console w = WriteConsoleEx_f;
  sv_bbin : w_bbin w = None;
  sv_bbout : w_bbout w = Some out;
  sv_R : w_R w = st;
  sv_handlers : w_handlers w = <[key := h]> hs
}.

Lemma serving_R h out st st' : runs (serving h out st) (modify (set_w_R st')) (fun _ => serving h out st').
Proof.
  intros w [Hl Hc Hi Ho HR Hh]. eexists _, _. split; [done|]. split; try done.
  revert Hl. apply live_same. by unfold same_request.
Qed.

Lemma serving_write h out st buf (e : bool) :
  runs (serving h out st) (r_write buf e) (fun _ => serving h (out ++ if e then [] else buf) st).
Proof.
  intros w [Hl Hc Hi Ho HR Hh]. pose proof (live_write buf e _ _ _ _ w Hl) as Hlw.
  destruct Hl as [Hr _ _ _ _]. unfold r_write, WriteConsoleEx, RApacheError, bbout_write in *.
  rewrite !bind_get in *. rewrite Hc in *. rewrite !bind_get in *. rewrite Hr in *.
  destruct e; cbn [negb] in *; rewrite !bind_get in *; rewrite ?app_nil_r.
  - destruct (w_bberr w); [|rewrite !bind_get in *; rewrite Hr in *];
      cbn in *; (eexists _, _; split; [done|]); by split.
  - rewrite Ho in *. cbn in *. (eexists _, _; split; [done|]); by split.
Qed.

Lemma serving_prog h out st p ws st' v err :
  plain_run p = Some (ws, st', v, err) ->
  runs (serving h out st) (run_prog (call_op (X := X) ev) p)
    (fun r w => r = (if err then None else Some v) /\ serving h (out ++ printed ws) st' w).
Proof.
  revert out st ws. induction p as [st1 v1 err1|st1 op k IH]; intros out st ws; cbn [plain_run].
  - intros [= <- <- <- <-]. cbn [run_prog]. eapply runs_bind; [apply serving_R|]. intros ?.
    apply runs_ret. intros w Hw. by rewrite app_nil_r.
  - destruct op; try done. destruct (plain_run (k st1 (Some RNil))) as [[[[ws1 st2] v2] err2]|] eqn:Ep; [|done].
    intros [= <- <- <- <-]. cbn [run_prog]. eapply runs_bind; [apply serving_R|]. intros ?.
    eapply (runs_bind _ _ (fun x w => x = Some RNil /\
      serving h (out ++ if errorFlag then [] else buf) st1 w)).
    { unfold call_op. cbn [leaf_call call_leaf]. eapply runs_bind; [apply serving_write|].
      intros ?. by apply runs_ret. }
    intros x w [-> Hw]. rewrite bind_get. rewrite (sv_R _ _ _ _ Hw).
    destruct (IH st1 (Some RNil) _ _ ws1 Ep w Hw) as (r1 & w' & H1 & H2 & H3).
    exists r1, w'. split; [done|]. split; [done|]. unfold printed in *. rewrite <- app_assoc in H3.
    by destruct errorFlag.
Qed.

Lemma sv_handler h out st w : serving h out st w -> w_handlers w !! key = Some h.
Proof. intros [_ _ _ _ _ ->]. apply lookup_insert_eq. Qed.

End Serving.

Section Served.
Context (depth : nat) (n : option Z) (old sent key : bytes) (hs : gmap bytes RApacheHandler).
Abbreviation ev := (interp (X := X) (S depth)).
Abbreviation at_ := (serving n old sent key hs).

Lemma serving_eval h out st id env ws st' v :
  plain_run (r_eval st id env) = Some (ws, st', v, false) ->
  runs (at_ h out st) (R_tryEval ev id env) (fun r w => r = Some v /\ at_ h (out ++ printed ws) st' w).
Proof.
  intros Hp w Hw. cbn [interp R_tryEval]. rewrite bind_get. rewrite (sv_R _ _ _ _ _ _ _ _ _ Hw).
  exact (serving_prog (interp depth) n old sent key hs h out st _ _ _ _ _ Hp w Hw).
Qed.

Lemma serving_parse h out st text ws st' v :
  plain_run (r_parse st text) = Some (ws, st', v, false) ->
  runs (at_ h out st) (ParseText ev text) (fun r w => r = (Some v, false) /\ at_ h (out ++ printed ws) st' w).
Proof.
  intros Hp w Hw. unfold ParseText. cbn [interp R_tryParse]. unfold bind at 1. rewrite bind_get.
  rewrite (sv_R _ _ _ _ _ _ _ _ _ Hw).
  destruct (serving_prog (interp depth) n old sent key hs h out st _ _ _ _ _ Hp w Hw) as (r & w' & -> & -> & Hw').
  by eexists _, _.
Qed.

Lemma serving_exprs h out st id env err ws st' v :
  plain_run (r_eval st id env) = Some (ws, st', v, false) ->
  runs (at_ h out st) (EvalExprs ev (Some (RExprs [id])) env err)
    (fun r w => r = (Some v, false) /\ at_ h (out ++ printed ws) st' w).
Proof.
  intros Hp. cbn [EvalExprs unclassed eval_loop]. eapply runs_bind; [by apply serving_eval|].
  intros r w [-> Hw]. by eexists _, _.
Qed.

Lemma serving_on_handler h out st f :
  runs (at_ h out st) (modify (on_handler key f)) (fun _ => at_ (f h) out st).
Proof.
  intros w [Hl Hc Hi Ho HR Hh]. eexists _, _. split; [done|]. split; try done.
  - revert Hl. apply live_same. by unfold same_request.
  - cbn. by rewrite Hh, alter_insert_eq.
Qed.

Lemma serving_get {A B} h out st (f : world In -> A) (k : A -> M (world In) B) x Post :
  (forall w, at_ h out st w -> f w = x) -> runs (at_ h out st) (k x) Post ->
  runs (at_ h out st) (bind (get f) k) Post.
Proof. intros Hf Hk w Hw. rewrite bind_get, (Hf w Hw). by apply Hk. Qed.

Lemma the_handler h out st w : at_ h out st w -> default no_handler (w_handlers w !! key) = h.
Proof. intros Hw. by rewrite (sv_handler _ _ _ _ _ _ _ _ _ Hw). Qed.

Lemma served_refresh h out st st1 i0 v0 :
  MR_RApacheEnv ∈ r_search st ->
  plain_run (r_parse st (str ".ResetCGIVars()")) = Some ([], st, RExprs [i0], false) ->
  plain_run (r_eval st i0 MR_RApacheEnv) = Some ([], st1, v0, false) ->
  runs (at_ h out st) (RefreshRApacheEnv ev) (fun _ => at_ h out st1).
Proof.
  intros Hs Hp He. unfold RefreshRApacheEnv.
  eapply (runs_bind _ _ (fun _ => at_ h out st)).
  { intros w Hw. eexists _, _. split; [done|]. cbn. rewrite (sv_R _ _ _ _ _ _ _ _ _ Hw).
    by rewrite bool_decide_true. }
  intros ?. unfold ParseEval. eapply (runs_bind _ _ (fun r w => r = (Some v0, false) /\ at_ h out st1 w)).
  - eapply runs_bind; [by apply serving_parse|]. intros r w [-> Hw]. rewrite app_nil_r in Hw.
    destruct (serving_exprs h out st i0 MR_RApacheEnv false _ _ _ He w Hw) as (r & w' & Hr & H1 & H2).
    rewrite app_nil_r in H2. by eexists _, _.
  - intros r w [-> Hw]. by eexists _, _.
Qed.

Lemma served_no_file h out st e st' :
  r_newEnv st = (e, st') ->
  runs (at_ h out st) (run_no_file key)
    (fun r w => r = Go (Some RNil, true) /\ at_ (set_h_envir (Some e) h) out st' w).
Proof.
  intros He. unfold run_no_file, NewEnv.
  eapply (runs_bind _ _ (fun r w => r = e /\ at_ h out st' w)).
  - eapply serving_get; [intros w Hw; exact (sv_R _ _ _ _ _ _ _ _ _ Hw)|]. rewrite He.
    eapply runs_bind; [apply serving_R|]. intros ?. by apply runs_ret.
  - intros r w [-> Hw]. revert w Hw. eapply runs_bind; [apply serving_on_handler|]. intros ?.
    by apply runs_ret.
Qed.

(** The expression of the handler: kept from before, or parsed now. *)
Definition expr_ready (h : RApacheHandler) (st : R_state) (f : bytes) (i : nat) : Prop :=
  h_expr h = Some (RExprs [i]) \/
  (h_expr h = None /\ plain_run (r_parse st (f ++ str "()")) = Some ([], st, RExprs [i], false)).

Lemma served_prepare h out st d f i :
  d_function d = Some f -> d_package d = None -> d_file d = None -> expr_ready h st f i ->
  runs (at_ h out st) (PrepareHandlerExpr ev key d R_HANDLER)
    (fun r w => r = true /\ at_ (set_h_expr (Some (RExprs [i])) h) out st w).
Proof.
  intros Hf Hp Hfile Hx. unfold PrepareHandlerExpr, prepare_call.
  eapply serving_get; [apply the_handler|]. intros w Hw. unfold bind at 1. cbn [ret]. revert w Hw.
  eapply serving_get; [apply the_handler|]. destruct Hx as [Hx|[Hx Hparse]]; rewrite Hx.
  - apply runs_ret. intros w Hw. split; [done|]. destruct h; cbn in *. by rewrite <- Hx.
  - rewrite Hf, Hp, Hfile. intros w Hw. unfold bind at 1. cbn [ret]. revert w Hw.
    eapply runs_bind; [apply serving_parse, Hparse|]. intros r w [-> Hw]. rewrite app_nil_r in Hw.
    revert w Hw. cbn [negb]. eapply runs_bind; [apply serving_on_handler|]. intros ?. by apply runs_ret.
Qed.

Lemma served_handler h out st d f i e s ws st' v :
  d_function d = Some f -> d_package d = None -> d_file d = None -> expr_ready h st f i ->
  h_envir h = Some e -> plain_run (r_eval st i e) = Some (ws, st', v, false) ->
  runs (at_ h out st) (run_handler ev key d R_HANDLER s)
    (fun r w => r = Go (Some v, false) /\ at_ (set_h_expr (Some (RExprs [i])) h) (out ++ printed ws) st' w).
Proof.
  intros Hf Hp Hfile Hx He Hrun. unfold run_handler. rewrite Hf.
  eapply runs_bind; [by eapply served_prepare|]. intros r w [-> Hw]. revert w Hw. cbn [negb].
  eapply serving_get; [apply the_handler|]. cbn [h_envir h_expr set_h_expr]. rewrite He.
  eapply runs_bind; [by apply serving_exprs|]. intros r w [-> Hw]. cbn. eexists _, _.
  split; [done|]. by split.
Qed.

Lemma unlock_idle (w : world In) :
  w_mutex w = held n -> w_req w = req_zero -> w_bbin w = None -> w_bbout w = None -> w_bberr w = None ->
  exists w', unlock w = Ret tt w' /\ idle n w' /\ w_client w' = w_client w /\ w_console w' = w_console w /\
    w_R w' = w_R w /\ w_handlers w' = w_handlers w.
Proof.
  intros Hm Hr Hi Ho He. unfold unlock, modify, held in *. rewrite Hm.
  destruct n as [z|]; cbn; (eexists; split; [done|]; split; [split; cbn; try done|done]);
    try (by exists None). f_equal. lia.
Qed.

(** The end of a request that read nothing. *)
Lemma served_teardown h out st :
  runs (at_ h out st) (TearDownRequest ev true)
    (fun _ w => idle n w /\ w_client w = sent ++ out /\ w_console w = WriteConsoleEx_f /\ w_R w = st /\
       w_handlers w = <[key := h]> hs).
Proof.
  intros w [[Hr Hh Ho Hm Hc] Hcon Hi Hout HR Hhd]. unfold TearDownRequest. rewrite bind_get, Ho.
  assert (Hd : exists d, (chdir (Some old) ;; ret tt) w = Ret tt (set_w_cwd d w)).
  { unfold chdir. destruct (p_chdir_ok _); [by eexists|]. exists (w_cwd w). cbn. by destruct w. }
  destruct Hd as [d Hd]. unfold bind at 1. rewrite Hd. rewrite bind_get. cbn [w_bbin set_w_cwd].
  rewrite Hi. unfold bind at 1. cbn [ret]. unfold bind at 1. cbn [modify]. rewrite bind_get.
  cbn [w_bbout set_w_cwd set_w_bbin]. rewrite Hout.
  set (w0 := set_w_bbin None (set_w_cwd d w)).
  assert (Hsend : exists w1, match out with
      | [] => ret tt | _ :: _ => flush_output out end w0 = Ret tt w1 /\ w_req w1 = w_req w /\
      w_mutex w1 = held n /\ w_bbin w1 = None /\ w_client w1 = sent ++ out /\
      w_console w1 = WriteConsoleEx_f /\ w_R w1 = st /\ w_handlers w1 = <[key := h]> hs).
  { destruct out as [|x out]; [exists w0; by rewrite app_nil_r|].
    unfold flush_output. rewrite bind_get. cbn [w0 w_req set_w_bbin set_w_cwd]. rewrite Hr.
    eexists. split; [done|]. cbn. by rewrite Hc. }
  destruct Hsend as (w1 & Hs & Hr1 & Hm1 & Hi1 & Hc1 & Hcon1 & HR1 & Hh1). unfold bind at 1.
  replace (match out with [] => ret tt | _ :: _ => flush_output out end w0) with (Ret tt w1)
    by (rewrite <- Hs; by destruct out).
  unfold bind at 1. cbn [modify]. rewrite bind_get. cbn [w_bberr set_w_bbout].
  unfold log_errors, bind, get. destruct (w_bberr w1); cbn [w_req set_w_bbout]; rewrite ?Hr1, ?Hr; cbn -[unlock];
    (match goal with |- context [unlock ?w2] =>
       destruct (unlock_idle w2) as (w3 & -> & Hid & Hcl & H1 & H2 & H3); [done..|] end);
    exists tt, w3; (split; [done|]); (split; [done|]); by rewrite Hcl, H1, H2, H3.
Qed.

(** A world in which the request for [key] with directive [d] was not set up. *)
Lemma served_set_up (w : world In) d :
  w_handlers w = hs -> ready n old sent w -> w_console w = WriteConsoleEx_f -> p_lock_ok = true -> p_brigade_ok = true ->
  r_directive (w_r w) = Some d -> d_handlerKey d = Some key -> is_Some (d_function d) ->
  exists w', SetUpRequest ev R_HANDLER w = Ret true w' /\
    at_ (set_h_directive (Some d) (default no_handler (hs !! key))) [] (w_R w) w'.
Proof.
  intros Hhs (Hi & Hr & Hc & Hcwd) Hcon Hl Hb Hd Hk [f Hf]. destruct Hi as [_ _ _ _ Hm].
  assert (Hlock : exists m, lock w = Ret true m /\ w_mutex m = held n /\ m = set_w_mutex (held n) w).
  { unfold lock. rewrite bind_get, Hm, Hl. destruct n; (eexists; split; [done|]); [done|].
    split; [done|]. cbn. destruct w. cbn in *. by subst. }
  destruct Hlock as (m & Hlock & Hmm & ->). unfold SetUpRequest, bind at 1. rewrite Hlock.
  cbn [negb]. unfold bind at 1 2, modify at 1 2. rewrite Hb. cbn [negb]. unfold bind at 1, modify at 1.
  unfold bind at 1, GetHandlerFromRequest. rewrite bind_get. cbn [w_r set_w_bbout set_w_bbin on_req set_w_req set_w_mutex].
  rewrite Hd, Hk. unfold bind at 1, modify at 1. cbn [w_handlers set_w_bbout set_w_bbin on_req set_w_req set_w_mutex].
  destruct (w_handlers w !! key) as [h0|] eqn:Eh; rewrite Hf; cbn;
    destruct (d_file d); cbn; (eexists; split; [done|]);
    (split; cbn; try done; [split; cbn; rewrite ?Hr; done|]);
    rewrite <- Hhs, Eh; first [by rewrite alter_insert_eq|by rewrite <- (insert_id (w_handlers w) key h0 Eh), alter_insert_eq, insert_insert_eq].
Qed.

End Served.

(** ** Claims *)

(** A request that was not set up yet, and the directory to go back to. *)
Lemma hook_ready n (w : world In) :
  idle n w -> ready n (w_cwd w) (w_client w) (on_req (set_q_oldwd (Some (w_cwd w))) w).
Proof.
  intros [[o Ho] Hi Hbo He Hm]. split_and!; [split; cbn; try done|..]; cbn; try done;
    rewrite Ho; [by eexists|done].
Qed.

(** Nothing is asked of the working directory. *)
Lemma any_home (ev : evaluator (In := In)) old : back_home ev old (fun _ => True).
Proof. split; [done|]. intros w1 _. by destruct (ParseEval _ _ _ w1). Qed.

(** What a request leaves when R code does not ask for the information page. *)
Lemma hook_ends depth n (w w' : world In) c Q :
  quiet_R -> idle n w -> AP_hook_request_handler (interp (X := X) depth) w = Ret c w' ->
  back_home (interp (X := X) depth) (w_cwd w) Q -> Q (w_cwd w) ->
  balanced n (w_client w) Q w' \/
  (r_handler (w_r w) = str "r-info" /\ c = HTTP_INTERNAL_SERVER_ERROR /\ idle (unheld n) w').
Proof.
  intros HR Hw Hrun Hb HQ. pose proof (interp_quiet depth HR) as Hev. set (ev := interp depth) in *.
  unfold AP_hook_request_handler in Hrun. destruct (negb p_getcwd_ok).
  { injection Hrun as _ <-. left. split_and!; [done..|]. exists []. by rewrite app_nil_r. }
  cbn in Hrun. set (w0 := on_req _ w) in *. pose proof (hook_ready n w Hw) as Hready. fold w0 in Hready.
  unfold bind, get in Hrun. cbn [w_r] in Hrun.
  destruct (handler_type (r_handler (w_r w))) as [ty|] eqn:Et.
  2: { injection Hrun as _ <-. left. by eapply ready_balanced. }
  assert (ty = R_INFO \/ ty <> R_INFO) as [-> |Hty] by (destruct ty; first [by left|by right]).
  - pose proof (handle_info_ends ev Hev n (w_cwd w) (w_client w) Q Hb w0 Hready) as He. rewrite Hrun in He.
    destruct He as [[He _]|(-> & He & _)]; [by left|right]. by apply handler_type_info in Et.
  - pose proof (handle_request_ends ev Hev n (w_cwd w) (w_client w) Q Hb ty Hty w0 Hready) as He.
    rewrite Hrun in He. by left.
Qed.

(** C1: a request that is answered leaves the module between requests.  Whatever
    the request, the directive and the R code: the request record and the three
    brigades are cleared, the lock is not held more often than before, and what
    the client got before is still what it got first.  When R code does not ask
    for the information page, the lock is held exactly as often as before, except
    after a request for that page that is answered 500, which may have given it
    back once too often; and the working directory is the one from before,
    provided it can be entered again and the R code that clears the input leaves
    it alone. *)
Theorem request_balanced (depth : nat) (n : option Z) (w w' : world In) (c : Z) :
  idle n w -> AP_hook_request_handler (interp (X := X) depth) w = Ret c w' ->
  (idle (w_mutex w') w' /\ lock_le (w_mutex w') n /\ exists b, w_client w' = w_client w ++ b) /\
  (quiet_R ->
   (idle n w' \/ r_handler (w_r w) = str "r-info" /\ c = HTTP_INTERNAL_SERVER_ERROR /\ idle (unheld n) w') /\
   (r_handler (w_r w) <> str "r-info" -> p_chdir_ok (Some (w_cwd w)) = true ->
    (forall d, keeps (fun w => w_cwd w = d)
                 (ParseEval (interp (X := X) depth) clear_stdin R_GlobalEnv)) ->
    w_cwd w' = w_cwd w)).
Proof.
  intros Hw Hrun. split.
  - assert (Hc : cleared n (w_client w) w'); [|by destruct Hc as (? & ? & ?)].
    assert (Hw0 : forall w0, idle n w0 -> w_client w0 = w_client w -> cleared n (w_client w) w0).
    { intros w0 [] Hc0. unfold cleared, bounded. rewrite idle_mutex0, Hc0. split; [by split|].
      split; [destruct n; cbn; lia|]. exists []. by rewrite app_nil_r. }
    unfold AP_hook_request_handler in Hrun. destruct (negb p_getcwd_ok).
    { injection Hrun as _ <-. by apply Hw0. }
    unfold bind, modify, get in Hrun. destruct (hook_ready n w Hw) as (Hi & _ & Hcl & _).
    set (w0 := on_req _ w) in *. change (w_r w0) with (w_r w) in Hrun.
    destruct (handler_type (r_handler (w_r w))) as [ty|]; [|injection Hrun as _ <-; by apply Hw0].
    pose proof (handle_request_clears (interp depth) n (w_client w) (interp_sane _ _ depth) ty w0 (conj Hi Hcl)) as He.
    by rewrite Hrun in He.
  - intros HR. split.
    + destruct (hook_ends depth n w w' c _ HR Hw Hrun (any_home _ _) Logic.I) as [[? _]|?]; [by left|by right].
    + intros Hni Hd Hk.
      destruct (hook_ends depth n w w' c (fun d => d = w_cwd w) HR Hw Hrun) as [(_ & Hcwd & _)|[? _]]; [|done..].
      split; [by rewrite Hd|apply Hk].
Qed.

(** C11: a refusal sends nothing, in every place where the handler refuses, when R
    code does not ask for the information page: when the working directory is not
    known; when the request cannot be set up; when the file or the handler of the
    directive fails, or the function returns an object of class [try-error]; and
    when the information page fails.  The client got no more than before, and the
    request is over; only the failing page may give the lock back twice. *)
Theorem refusal_sends_nothing (depth : nat) (n : option Z) :
  let ev := interp (X := X) depth in
  quiet_R ->
  (forall w, p_getcwd_ok = false -> AP_hook_request_handler ev w = Ret HTTP_INTERNAL_SERVER_ERROR w) /\
  (forall ty old sent w w', ready n old sent w -> SetUpRequest ev ty w = Ret false w' ->
     w_client w' = sent /\ idle n w') /\
  (forall k old sent hk d w w' c, live (held n) k (Some old) sent w ->
     (exists file, run_file ev hk d file w = Ret (Answer c) w') \/
     (exists ty s, run_handler ev hk d ty s w = Ret (Answer c) w') \/
     (exists v, status_value v = false /\ inherits v (str "try-error") = true /\
        finish ev d (Some v) w = Ret c w') ->
     c = HTTP_INTERNAL_SERVER_ERROR /\ w_client w' = sent /\ idle n w' /\ w_req w' = req_zero) /\
  (forall old sent w w', ready n old sent w ->
     handle_request ev R_INFO w = Ret HTTP_INTERNAL_SERVER_ERROR w' ->
     w_client w' = sent /\ (idle n w' \/ idle (unheld n) w')).
Proof.
  intros ev HR. pose proof (interp_quiet depth HR) as Hev. fold ev in Hev.
  pose proof (any_home ev) as Hq. split_and!.
  - intros w Hg. unfold AP_hook_request_handler. by rewrite Hg.
  - intros ty old sent w w' Hw Hrun.
    pose proof (set_up_ends ev Hev n old sent _ (Hq old) ty w Hw) as He. rewrite Hrun in He.
    by destruct He as [[? _] ?].
  - intros k old sent hk d w w' c Hw Hrun.
    assert (Hr : refused n sent (fun _ => True) c w').
    { destruct Hrun as [[file Hrun]|[(ty & s & Hrun)|(v & Hs & Ht & Hrun)]].
      - pose proof (run_file_ends ev Hev n old sent _ (Hq old) k hk d file w Hw) as He. by rewrite Hrun in He.
      - pose proof (run_handler_ends ev Hev n old sent _ (Hq old) k hk d ty s w Hw) as He.
        by rewrite Hrun in He.
      - unfold finish in Hrun. rewrite Hs, Ht in Hrun.
        pose proof (response_error_ends ev Hev n old sent _ (Hq old) k
          (Some (str "Function " ++ default (str "(null)") (d_function d)
                 ++ str " returned an object of 'try-error'." ++ [x0a])) w Hw) as He. by rewrite Hrun in He. }
    destruct Hr as [-> Ho]. destruct (over_unsent _ _ _ _ Ho) as [[Hi _] Hc]. by destruct Ho as (_ & ? & _).
  - intros old sent w w' Hw Hrun.
    pose proof (handle_info_ends ev Hev n old sent _ (Hq old) w Hw) as He. rewrite Hrun in He.
    destruct He as [[[? _] Hc]|(_ & ? & ?)]; [split; [by apply Hc|by left]|split; [done|by right]].
Qed.



(** A file is parsed when its modification time is later than that of the
    parsed version, and only then: otherwise R is not involved; after a
    successful parse the cache has the new time, after a failed one the old, so
    that the next request parses again. *)
Theorem file_parsed_when_newer (depth : nat) (hk : bytes) (h : RApacheHandler) (d : RApacheDirective)
    (file : bytes) (mtime : Z) (w : world In) :
  let ev := interp (X := X) depth in
  let cached (w : world In) :=
    pf_mtime (default new_file (w_files w !! default file (h_parsedFile h))) in
  cache_ok w -> w_handlers w !! hk = Some h -> p_mtime file = Some mtime ->
  (mtime <= cached w -> exists w', PrepareFileExprs ev hk h d file w = Ret (true, false) w' /\
     w_R w' = w_R w /\ cached w' = cached w)%Z /\
  (cached w < mtime -> forall ok fileParsed w',
     PrepareFileExprs ev hk h d file w = Ret (ok, fileParsed) w' ->
     fileParsed = true /\ cached w' = if ok : bool then mtime else cached w)%Z.
Proof.
  intros ev cached Hok Hh Hm. set (pk := default file (h_parsedFile h)) in *.
  assert (Hpf : exists w1, parsed_file hk h file w = Ret pk w1 /\ w_R w1 = w_R w /\
    cached w1 = cached w /\ is_Some (w_files w1 !! pk)).
  { unfold parsed_file, cached, pk. destruct (h_parsedFile h) as [pk'|] eqn:Ep; cbn.
    - exists w. split_and!; try done. by eapply Hok.
    - fold (with_file file w). destruct (with_file_spec file w) as (_ & HR & Hd & _ & Hf).
      eexists. split; [done|]. cbn. by rewrite HR, Hd. }
  destruct Hpf as (w1 & Hp & HR & Hc & Hs).
  assert (PrepareFileExprs ev hk h d file w = parse_if_newer ev pk file mtime w1) as ->
    by (unfold PrepareFileExprs; rewrite Hm; unfold bind; by rewrite Hp).
  unfold parse_if_newer. split.
  - intros Hle. rewrite bind_get. change (pf_mtime (default new_file (w_files w1 !! pk))) with (cached w1).
    rewrite Hc. assert ((cached w <? mtime)%Z = false) as -> by (apply Z.ltb_ge; lia). by eexists.
  - intros Hlt ok fp w'. rewrite bind_get.
    change (pf_mtime (default new_file (w_files w1 !! pk))) with (cached w1).
    rewrite Hc. assert ((cached w <? mtime)%Z = true) as -> by (apply Z.ltb_lt; lia).
    pose proof (cache_ParseEval ev (interp_cache_safe depth) (call_text (str "parse") file).1
      R_GlobalEnv (caches w1) w1 eq_refl) as Hk. unfold CallFun1str, bind at 1.
    destruct (ParseEval ev _ _ w1) as [[exprs err] w2| | |]; [|done..]. injection Hk as _ Hf.
    destruct Hs as [pf Hs]. rewrite <- Hf in Hs. rewrite <- Hc. unfold cached. rewrite <- Hf.
    destruct err; cbn; intros [= <- <- <-]; (split; [done|]); cbn;
      rewrite ?lookup_alter_eq, Hs; done.
Qed.

Lemma function_request (depth : nat) (n : option Z) (w : world In) (d : RApacheDirective)
    (key f : bytes) (i0 i e : nat) (st1 st2 st3 : R_state) (v0 v : SEXP) (ws : list (bytes * bool)) :
  p_getcwd_ok = true -> p_lock_ok = true -> p_brigade_ok = true ->
  idle n w -> w_console w = WriteConsoleEx_f -> r_handler (w_r w) = str "r-handler" ->
  r_directive (w_r w) = Some d -> d_handlerKey d = Some key ->
  d_function d = Some f -> d_package d = None -> d_file d = None ->
  MR_RApacheEnv ∈ r_search (w_R w) ->
  plain_run (r_parse (w_R w) (str ".ResetCGIVars()")) = Some ([], w_R w, RExprs [i0], false) ->
  plain_run (r_eval (w_R w) i0 MR_RApacheEnv) = Some ([], st1, v0, false) ->
  r_newEnv st1 = (e, st2) ->
  expr_ready (default no_handler (w_handlers w !! key)) st2 f i ->
  plain_run (r_eval st2 i e) = Some (ws, st3, v, false) ->
  inherits v (str "try-error") = false ->
  exists w', AP_hook_request_handler (interp (X := X) (S depth)) w =
      Ret (if status_value v then r_asInteger v else DONE) w' /\
    idle n w' /\ w_client w' = w_client w ++ printed ws /\
    w_console w' = WriteConsoleEx_f /\ w_R w' = st3 /\
    w_handlers w' = <[key := set_h_expr (Some (RExprs [i])) (set_h_envir (Some e)
      (set_h_directive (Some d) (default no_handler (w_handlers w !! key))))]> (w_handlers w).
Proof.
  intros Hcwd Hlk Hbr Hi Hcon Hh Hd Hk Hf Hp Hfile Hs Hp0 He0 Hn Hx He Hv.
  unfold AP_hook_request_handler. rewrite Hcwd. cbn [negb]. unfold bind at 1. cbn [modify].
  set (w0 := on_req _ w). rewrite bind_get. change (w_r w0) with (w_r w). rewrite Hh.
  assert (handler_type (str "r-handler") = Some R_HANDLER) as -> by done.
  assert (Hready : ready n (w_cwd w) (w_client w) w0).
  { destruct Hi as [[o Ho] Hi Hbo Hbe Hm]. split_and!; [split; cbn; try done|..]; cbn; try done;
      rewrite Ho; [by eexists|done]. }
  destruct (served_set_up depth n (w_cwd w) (w_client w) key (w_handlers w) w0 d) as (w1 & H1 & Hw1); try done.
  unfold handle_request, bind at 1. rewrite H1. cbn [negb]. rewrite bind_get.
  rewrite (live_handler _ _ _ _ _ (sv_live _ _ _ _ _ _ _ _ _ Hw1)). unfold serve.
  destruct (served_refresh depth n (w_cwd w) (w_client w) key _ _ [] (w_R w) st1 i0 v0 Hs Hp0 He0 w1 Hw1)
    as (u & w2 & H2 & Hw2).
  unfold bind at 1. rewrite H2. rewrite bind_get. rewrite (sv_handler _ _ _ _ _ _ _ _ _ Hw2).
  cbn [mbind option_bind h_directive set_h_directive]. rewrite Hfile.
  destruct (served_no_file n (w_cwd w) (w_client w) key _ _ [] st1 e st2 Hn w2 Hw2) as (r3 & w3 & H3 & -> & Hw3).
  unfold bind at 1. rewrite H3.
  destruct (served_handler depth n (w_cwd w) (w_client w) key _
    (set_h_envir (Some e) (set_h_directive (Some d) (default no_handler (w_handlers w !! key)))) [] st2
    d f i e (Some RNil, true) ws st3 v Hf Hp Hfile Hx eq_refl He w3 Hw3) as (r4 & w4 & H4 & -> & Hw4).
  unfold bind at 1. rewrite H4. cbn [fst]. unfold finish. cbn [app] in Hw4.
  destruct (served_teardown depth n (w_cwd w) (w_client w) key _ _ _ _ w4 Hw4)
    as ([] & w5 & H5 & Hid & Hcl & Hcon5 & HR5 & Hh5).
  rewrite Hv. destruct (status_value v); unfold bind; rewrite H5; [|by exists w5]. cbn.
  destruct (r_asInteger v =? OK)%Z; (eexists; split; [done|]); [done|].
  destruct Hid as [Ho' Hi' Hbo' Hbe' Hm']. by split_and!; [split|..].
Qed.

(** C3: a request for a function runs to its end.  When R resets its variables and
    the function only prints and gives a value, the answer is the status the
    value is, [DONE] when it is something else, and the client gets exactly
    what the function printed; the call is parsed on the first request and kept
    for the next. *)
Theorem handler_served (depth : nat) (n : option Z) (w : world In) (d : RApacheDirective)
    (key f : bytes) (i0 i e : nat) (st1 st2 st3 : R_state) (v0 v : SEXP) (ws : list (bytes * bool)) :
  p_getcwd_ok = true -> p_lock_ok = true -> p_brigade_ok = true ->
  idle n w -> w_console w = WriteConsoleEx_f -> r_handler (w_r w) = str "r-handler" ->
  r_directive (w_r w) = Some d -> d_handlerKey d = Some key ->
  d_function d = Some f -> d_package d = None -> d_file d = None ->
  MR_RApacheEnv ∈ r_search (w_R w) ->
  plain_run (r_parse (w_R w) (str ".ResetCGIVars()")) = Some ([], w_R w, RExprs [i0], false) ->
  plain_run (r_eval (w_R w) i0 MR_RApacheEnv) = Some ([], st1, v0, false) ->
  r_newEnv st1 = (e, st2) ->
  expr_ready (default no_handler (w_handlers w !! key)) st2 f i ->
  plain_run (r_eval st2 i e) = Some (ws, st3, v, false) ->
  inherits v (str "try-error") = false ->
  exists w', AP_hook_request_handler (interp (X := X) (S depth)) w =
      Ret (if status_value v then r_asInteger v else DONE) w' /\
    idle n w' /\ w_client w' = w_client w ++ printed ws.
Proof.
  intros. edestruct function_request as (w' & Hr & Hi & Hc & _); [eassumption..|]. by exists w'.
Qed.

(** Every text the module builds for the parser fits, with its terminating
    NUL, the buffer that was allocated for it. *)
Theorem texts_fit (package : option bytes) (fn arg filename : bytes) :
  length (call_text fn arg).1 + 1 <= (call_text fn arg).2 /\
  length (fun_text package fn).1 + 1 <= (fun_text package fn).2 /\
  length (script_text package fn filename).1 + 1 <= (script_text package fn filename).2.
Proof.
  unfold call_text, fun_text, script_text.
  destruct package; cbn [fst snd]; rewrite ?length_app; cbn [length str map]; split_and!; cbn; lia.
Qed.

End HandlerFacts.

(** * Concrete requests *)

#[export] Instance a_platform : Platform := {|
  p_strtoi64 s := (0%Z, s); p_date_parse_rfc s := 0%Z; p_rfc822_date t := []; p_now := 0%Z;
  p_junk := []; p_hole i := x00; p_tmpdir := None; p_file_info s := None; p_registry := a_registry;
  p_long8 := true; p_long_double := false; p_float_bits := id; p_long_double_bits := id;
  p_translateChar := id; p_double_bits := id;
  p_getcwd_ok := true; p_lock_ok := true; p_brigade_ok := true;
  p_chdir_ok p := match p with Some _ => true | None => false end;
  p_mtime f := Some 7%Z; p_stack := 0%Z; DOCTYPE_XHTML_1_0T := []; MOD_R_VERSION := str "1.2"
|}.

(** Between requests, with the request [r] to come. *)
Definition toy_world (progs : nat -> r_prog unit) (r : request_rec (T := list_table) bytes)
  : world (R := toy_engine progs) bytes :=
  World (R := toy_engine progs) r req_zero None None None (Some 0%Z) ∅ ∅ (str "/") [] [] 0 []
    WriteConsoleEx_f tt.

Definition fun_directive (f : bytes) : RApacheDirective :=
  Directive None None (Some f) None None (Some f) None.
Definition file_directive (file : bytes) (f : option bytes) : RApacheDirective :=
  Directive (Some file) (dirname 0 file) f None None (Some (str "k")) None.

Definition get_for (handler : bytes) (d : RApacheDirective) : request_rec (T := list_table) bytes :=
  a_request (str "GET") handler (Some d) [] [].

(** The function [f] prints and returns nothing. *)
Definition hello : nat -> r_prog unit := fun id =>
  if id =? 102 then RCall tt (OpWrite (str "hello") false) (fun st _ => RDone st RNil false)
  else RDone tt RNil false.

Lemma hello_quiet : quiet_R (R := toy_engine hello).
Proof.
  split; [intros st id env|intros st text]; cbn.
  - unfold hello. destruct (id =? 102); cbn; [|exact Logic.I]. split; [discriminate|]. intros. exact Logic.I.
  - destruct text; exact Logic.I.
Qed.

Abbreviation hello_world := (toy_world hello (get_for (str "r-handler") (fun_directive (str "f")))).
Abbreviation hello_run := (AP_hook_request_handler (R := toy_engine hello)
  (interp (R := toy_engine hello) (X := unit) 2)).

Lemma toy_idle progs r : idle (Some 0%Z) (toy_world progs r).
Proof. split; try reflexivity. by exists None. Qed.

Lemma request_balanced_witness :
  exists c w', hello_run hello_world = Ret c w' /\ (c =? DONE)%Z = true /\ idle (Some 0%Z) w' /\ w_cwd w' = str "/".
Proof.
  destruct (returns_ret (hello_run hello_world) (fun c _ => c =? DONE)%Z) as (c & w' & Hr & Hc);
    [vm_compute; reflexivity|].
  exists c, w'. split; [exact Hr|]. split; [exact Hc|].
  destruct (request_balanced (R := toy_engine hello) (X := unit) 2 (Some 0%Z) hello_world w' c) as [_ Hq];
    [apply toy_idle|exact Hr|].
  destruct (Hq hello_quiet) as [[Hi|[Hx _]] Hd]; [|discriminate]. split; [exact Hi|].
  apply Hd; [discriminate|reflexivity|]. intros d w Hw. reflexivity || exact Hw.
Defined.

(** A request whose R code reads a part of the body and then has it parsed. *)
Definition both_ways : r_prog unit :=
  RCall tt (OpRead 3) (fun st _ => RCall st OpParsePost (fun st v => RDone st (default RNil v) false)).


Lemma handler_served_witness :
  exists w', hello_run hello_world = Ret DONE w' /\ idle (Some 0%Z) w' /\ w_client w' = str "hello".
Proof.
  eapply (handler_served (R := toy_engine hello) (X := unit) 1 (Some 0%Z) hello_world
    (fun_directive (str "f")) (str "f") (str "f") 46 102 2 tt tt tt RNil RNil [(str "hello", false)]);
    try reflexivity.
  - apply toy_idle.
  - cbn. set_solver.
  - right. split; reflexivity.
Defined.

(** The function [f] prints and then fails. *)
Definition failing : nat -> r_prog unit := fun id =>
  if id =? 102 then RCall tt (OpWrite (str "partial") false) (fun st _ => RDone st RNil true)
  else RDone tt RNil false.

Lemma failing_quiet : quiet_R (R := toy_engine failing).
Proof.
  split; [intros st id env|intros st text]; cbn.
  - unfold failing. destruct (id =? 102); cbn; [|exact Logic.I]. split; [discriminate|]. intros. exact Logic.I.
  - destruct text; exact Logic.I.
Qed.

(** The request for [f], set up. *)
Definition failing_world : world (R := toy_engine failing) bytes :=
  World (R := toy_engine failing) (get_for (str "r-handler") (fun_directive (str "f")))
    (Req true false false None None None None None (Some (str "f")) (Some (str "/")))
    None (Some (str "so far")) None (Some 1%Z)
    {[ str "f" := Handler None (Some 2) None (Some (fun_directive (str "f"))) ]} ∅ (str "/") [] [] 0 []
    WriteConsoleEx_f tt.

Abbreviation failing_step := (run_handler (R := toy_engine failing)
  (interp (R := toy_engine failing) (X := unit) 2) (str "f") (fun_directive (str "f")) R_HANDLER
  (Some RNil, true)).

Lemma refusal_sends_nothing_witness :
  exists s w', failing_step failing_world = Ret s w' /\
    match s with
    | Answer c => c = HTTP_INTERNAL_SERVER_ERROR /\ w_client w' = [] /\ idle (Some 0%Z) w'
    | Go _ => False
    end.
Proof.
  destruct (returns_ret (failing_step failing_world)
    (fun s _ => match s with Answer _ => true | Go _ => false end)) as (s & w' & Hr & Hs);
    [vm_compute; reflexivity|].
  exists s, w'. split; [exact Hr|]. destruct s as [c|]; [|discriminate].
  destruct (refusal_sends_nothing (R := toy_engine failing) (X := unit) 2 (Some 0%Z) failing_quiet)
    as (_ & _ & Hall & _).
  destruct (Hall (Some (str "f")) (str "/") [] (str "f") (fun_directive (str "f")) failing_world w' c)
    as (H1 & H2 & H3 & _).
  - split; reflexivity.
  - right. left. exists R_HANDLER, (Some RNil, true). exact Hr.
  - split; [exact H1|]. split; [exact H2|exact H3].
Defined.


Definition cached_handler : RApacheHandler := Handler None None (Some (str "/a.R")) None.

(** The file [/a.R] was parsed when its time was 7. *)
Definition cached_world : world (R := toy_engine hello) bytes :=
  set_w_files {[ str "/a.R" := ParsedFile (Some RNil) (Some 2) 7 ]}
    (set_w_handlers {[ str "k" := cached_handler ]} hello_world).

Lemma file_parsed_when_newer_witness :
  exists w', PrepareFileExprs (R := toy_engine hello) (interp (R := toy_engine hello) (X := unit) 2)
      (str "k") cached_handler (file_directive (str "/a.R") None) (str "/a.R") cached_world =
    Ret (true, false) w' /\ w_R w' = tt.
Proof.
  destruct (file_parsed_when_newer (R := toy_engine hello) (X := unit) 2 (str "k") cached_handler
    (file_directive (str "/a.R") None) (str "/a.R") 7 cached_world) as [H1 _].
  - intros k h pk Hk Hp. cbn in Hk. apply lookup_singleton_Some in Hk as [_ <-].
    cbn in Hp. injection Hp as <-.
    exists (ParsedFile (Some RNil) (Some 2) 7). reflexivity.
  - reflexivity.
  - reflexivity.
  - destruct H1 as (w' & Hr & HR & _); [vm_compute; discriminate|]. by exists w'.
Defined.

(** ** Surprises *)

Abbreviation toy_run progs := (AP_hook_request_handler (R := toy_engine progs)
  (interp (R := toy_engine progs) (X := unit) 3)).

(** An error in the R code of the information page ends the request inside
    [RApacheInfo], and the handler ends it once more: the lock, not held before,
    is released twice. *)
Definition broken_info : nat -> r_prog unit := fun id => RDone tt RNil (id =? 104).
Example info_error_unlocks_twice :
  returns (toy_run broken_info (toy_world broken_info (get_for (str "r-info") (fun_directive (str "f")))))
    (fun c w => (c =? HTTP_INTERNAL_SERVER_ERROR)%Z && bool_decide (w_mutex w = Some (-1)%Z)) = true.
Proof. vm_compute. reflexivity. Qed.

(** The parsed file is the expression 1, which fails. *)
Definition broken_file : nat -> r_prog unit := fun id =>
  if id =? 112 then RDone tt (RExprs [1]) false else RDone tt RNil (id =? 1).
Definition file_request := get_for (str "r-handler") (file_directive (str "/srv/a.R") (Some (str "f"))).

(** A file that parses but fails when it is evaluated is refused once; the next
    request does not evaluate it and calls the handler. *)
Example failed_file_not_evaluated_again :
  returns (toy_run broken_file (toy_world broken_file file_request))
    (fun c w => (c =? HTTP_INTERNAL_SERVER_ERROR)%Z &&
       returns (toy_run broken_file w) (fun c _ => (c =? DONE)%Z)) = true.
Proof. vm_compute. reflexivity. Qed.

(** A file without an expression is refused every time. *)
Definition empty_file : nat -> r_prog unit := fun id =>
  if id =? 112 then RDone tt (RExprs []) false else RDone tt RNil false.
Example empty_file_refused :
  returns (toy_run empty_file (toy_world empty_file (get_for (str "r-handler")
      (file_directive (str "/srv/a.R") None))))
    (fun c w => (c =? HTTP_INTERNAL_SERVER_ERROR)%Z &&
       returns (toy_run empty_file w) (fun c _ => (c =? HTTP_INTERNAL_SERVER_ERROR)%Z)) = true.
Proof. vm_compute. reflexivity. Qed.

(** The file name of a script is pasted into the R text between quotes as it is. *)
Example script_name_is_code :
  (script_text None (str "f") (str "a',q(),'")).1 = str "f(file='a',q(),'',envir=.rAenv)".
Proof. reflexivity. Qed.
