(* ===== verification/RTypes.v ===== *)
(** * The types of what R gets

    Each function of the module that R code can call promises an R value of some
    type.  The promise is a decidable check, and no program that R runs can tell
    the module from one that makes the check on every value it returns. *)
From S2P Require Import Prelude Apr Url Util Brigade Param Parser Urlencoded Cookie RTable SendBin RState RCalls.
From S2P Require Import Directives InfoPage Engine Handler.

(** ** Types *)

Definition is_null (x : SEXP) : bool := match x with RNil => true | _ => false end.

Definition is_flag (x : SEXP) : bool :=
  match x with RLgl [z] => (z =? 0)%Z || (z =? 1)%Z | _ => false end.

(** A named list, never empty, of elements of one type; [NULL] in its place. *)
Definition is_named (elem : SEXP -> bool) (x : SEXP) : bool :=
  match x with
  | RNil => true
  | RList l names => (length l =? length names) && negb (length l =? 0) && forallb elem l
  | _ => false
  end.

(** The values of a parameter; none is [NULL]. *)
Definition is_values (x : SEXP) : bool :=
  match x with RNil | RStr (_ :: _) => true | _ => false end.

Definition is_value (x : SEXP) : bool :=
  match x with RNil | RStr [_] => true | _ => false end.

(** An uploaded file. *)
Definition is_file (x : SEXP) : bool :=
  match x with
  | RNil => true
  | RList [RStr [_]; RStr [_]] [a; b] => bool_decide (a = str "name" /\ b = str "tmp_name")
  | _ => false
  end.

Definition is_params : SEXP -> bool := is_named is_values.
Definition is_strings : SEXP -> bool := is_named is_value.
Definition is_files : SEXP -> bool := is_named is_file.

(** A member of [SERVER]: [NULL], one value, or the table of headers. *)
Definition is_member (x : SEXP) : bool := is_strings x || (r_length x =? 1).

(** [SERVER] has 39 members, the last one R code made; until that is done its list
    has no names. *)
Definition is_server (x : SEXP) : bool :=
  match x with
  | RNil => true
  | RList l names =>
      (length l =? 39) && forallb is_member (take 38 l) && ((length names =? 0) || (length names =? 39))
  | _ => false
  end.

(** What a call promises to return. *)
Definition has_type (op : r_op) (x : SEXP) : bool :=
  match op with
  | OpSetHeader _ _ | OpSetStatus _ | OpSetContentType _ | OpSetCookie _ _ _ _ _ _ => is_flag x
  | OpUrlEnDecode s _ =>
      match unclassed s, x with
      | RStr l, RStr l' => length l' =? length l
      | RStr _, _ => false
      | _, x => is_null x
      end
  | OpRApacheInfo | OpSendBin _ _ _ | OpWrite _ _ | OpSetwd _ => is_null x
  | OpParseGet | OpParsePost => is_params x
  | OpParseFiles => is_files x
  | OpParseCookies => is_strings x
  | OpGetServer => is_server x
  | OpReceiveBin _ => match x with RRaw _ => true | _ => false end
  | OpInternals _ => is_null x || is_flag x
  | OpRead _ => match x with RStr [_] => true | _ => false end
  end.

(** ** Lists *)

Definition ctx_typed (elem : SEXP -> bool) (c : TableCtx) : Prop :=
  length (ctx_names c) = length (ctx_list c) /\ forallb elem (ctx_list c) = true.

Lemma push_typed elem c n v : ctx_typed elem c -> elem v = true -> ctx_typed elem (ctx_push c n v).
Proof.
  intros [Hl He] Hv. split; cbn; [by rewrite !length_app, Hl|]. by rewrite forallb_app, He; cbn; rewrite Hv.
Qed.

Lemma params_typed c n v : ctx_typed is_values c -> ctx_typed is_values (ParamsCallback c n v).1.
Proof.
  intros Hc. assert (Hv : is_values (value_of v) = true) by (by destruct v).
  unfold ParamsCallback. destruct (array_name n) as [key|]; [|by apply push_typed].
  destruct (find_name _ key) as [i|]; [|by apply push_typed].
  destruct Hc as [Hl He]. split; cbn; [by rewrite length_insert|].
  rewrite forallb_forall in *. intros x (j & Hj)%list_elem_of_In%list_elem_of_lookup_1.
  rewrite list_lookup_insert in Hj. case_decide.
  - injection Hj as <-. cbn. by destruct (string_elts _).
  - apply He, list_elem_of_In, (list_elem_of_lookup_2 _ j), Hj.
Qed.

Lemma strings_typed c n v : ctx_typed is_value c -> ctx_typed is_value (TableCallback c n v).1.
Proof. intros Hc. apply push_typed; [done|]. by destruct v. Qed.

(** A callback that keeps the type and never stops, and leaves something. *)
Definition callback_typed (elem : SEXP -> bool) (cb : TableCtx -> bytes -> bytes -> TableCtx * bool) : Prop :=
  forall c n v, ctx_typed elem c ->
    (cb c n v).2 = true /\ ctx_typed elem (cb c n v).1 /\ ctx_list (cb c n v).1 <> [].

Lemma do_typed elem cb (l : list (bytes * bytes)) c :
  callback_typed elem cb -> ctx_typed elem c ->
  ctx_typed elem (do_entries cb c l) /\ (l <> [] \/ ctx_list c <> [] -> ctx_list (do_entries cb c l) <> []).
Proof.
  intros Hcb. revert c. induction l as [|[n v] l IH]; intros c Hc; cbn [do_entries].
  { split; [done|]. by intros [?|?]. }
  destruct (Hcb c n v Hc) as (H1 & H2 & H3). destruct (cb c n v) as [c' b]. cbn [fst snd] in *. subst b.
  destruct (IH c' H2) as [H4 H5]. split; [done|]. intros _. apply H5. by right.
Qed.

Lemma params_callback_typed : callback_typed is_values ParamsCallback.
Proof.
  intros c n v Hc. split_and!; [|by apply params_typed|].
  - unfold ParamsCallback. by destruct (array_name n); [destruct (find_name _ _)|].
  - unfold ParamsCallback. destruct (array_name n) as [key|]; [destruct (find_name _ key) as [i|] eqn:Ei|];
      cbn; try (intros Hnil; by apply app_eq_nil in Hnil as [_ ?]).
    intros Hnil. apply (f_equal length) in Hnil. rewrite length_insert in Hnil.
    apply find_name_Some in Ei as [Hi%lookup_lt_Some _]. destruct Hc as [Hl _]. cbn in Hnil. lia.
Qed.

Lemma strings_callback_typed : callback_typed is_value TableCallback.
Proof.
  intros c n v Hc. split_and!; [done|by apply push_typed; [|destruct v]|].
  cbn. intros Hnil. by apply app_eq_nil in Hnil as [_ ?].
Qed.

Section Lists.
Context {T : AprTable}.

Lemma table_to_list_typed elem cb t : callback_typed elem cb -> is_named elem (AprTableToList t cb) = true.
Proof.
  intros Hcb. unfold AprTableToList. destruct t as [t|]; [|done]. rewrite do_elts. cbn [key_filter].
  destruct (do_typed elem cb (apr_table_elts t) (Ctx [] []) Hcb) as [[Hl He] Hn]; [done|].
  destruct (apr_table_elts t) as [|e l]; [done|]. cbn [length Nat.eqb].
  set (c := do_entries cb (Ctx [] []) (e :: l)) in *.
  assert (Hz : (length (ctx_list c) =? 0) = false).
  { apply Nat.eqb_neq. intros Hz%length_zero_iff_nil. by apply Hn; [left|]. }
  unfold ctx_size. destruct (_ <? _); cbn [is_named]; rewrite ?take_ge by lia;
    by rewrite Hl, Nat.eqb_refl, Hz, He.
Qed.

Lemma to_list_typed t : is_params (to_list t) = true.
Proof. apply table_to_list_typed, params_callback_typed. Qed.

Lemma cookies_list_typed t : is_strings (cookies_list t) = true.
Proof. apply table_to_list_typed, strings_callback_typed. Qed.

Lemma uploads_typed file_info t : is_files (uploads_list file_info t) = true.
Proof.
  unfold uploads_list. rewrite do_elts. cbn [key_filter]. set (l := apr_table_elts (apreq_uploads t)).
  assert (Hall : forall l fu, length (fu_names fu) = length (fu_files fu) -> forallb is_file (fu_files fu) = true ->
    let fu' := do_entries (FileUploadsCallback file_info) fu l in
    length (fu_names fu') = length (fu_files fu') /\ forallb is_file (fu_files fu') = true /\
    length (fu_files fu') = length (fu_files fu) + length l).
  { clear l. induction l as [|[k p] l IH]; intros fu Hl Hf; cbn [do_entries FileUploadsCallback]; cbn zeta.
    { cbn. by rewrite Nat.add_0_r. }
    match goal with |- context [do_entries _ ?f l] => set (fu1 := f) end.
    assert (H1 : length (fu_names fu1) = length (fu_files fu1)) by (by cbn; rewrite !length_app, Hl).
    assert (H2 : forallb is_file (fu_files fu1) = true)
      by (cbn; rewrite forallb_app, Hf; cbn; by repeat case_match).
    assert (H3 : length (fu_files fu1) = S (length (fu_files fu))) by (cbn; rewrite length_app; cbn; lia).
    destruct (IH fu1 H1 H2) as (H4 & H5 & H6). cbn [length]. split_and!; [done..|lia]. }
  destruct (Hall l (Uploads [] [])) as (H1 & H2 & H3); [done..|]. cbn in H3.
  destruct (length l =? 0) eqn:El; [done|]. cbn. by rewrite H1, Nat.eqb_refl, H3, El, H2.
Qed.

End Lists.

(** ** Calls *)

(** What the request keeps for later answers. *)
Definition stored_typed {T : AprTable} (q : RApacheRequest) : Prop :=
  (forall v, q_filesVar q = Some v -> is_files v = true) /\
  (forall v, q_serverVar q = Some v -> is_server v = true).

(** Partial correctness of a call: what it returns, and what it stores. *)
Definition typed {T : AprTable} {R : REngine} {In A} (Q : A -> Prop) (m : M (world In) A) : Prop :=
  hoare (req_inv stored_typed) m (fun a w => req_inv stored_typed w /\ Q a).

Section Rules.
Context {T : AprTable} {R : REngine} {In : Type}.
Abbreviation typed := (typed (In := In)).

Lemma typed_ret {A} (Q : A -> Prop) a : Q a -> typed Q (ret a).
Proof. by intros Ha w Hw. Qed.
Lemma typed_crash {A} (Q : A -> Prop) : typed Q do_crash.
Proof. by intros w Hw. Qed.
Lemma typed_exit {A} (Q : A -> Prop) : typed Q do_exit.
Proof. by intros w Hw. Qed.
Lemma typed_deep {A} (Q : A -> Prop) : typed Q (fun _ => TooDeep).
Proof. by intros w Hw. Qed.

Lemma typed_bind {A B} (P : A -> Prop) (Q : B -> Prop) m k :
  typed P m -> (forall a, P a -> typed Q (k a)) -> typed Q (bind m k).
Proof.
  intros Hm Hk. apply (hoare_bind _ _ _ _ _ Hm). intros a w [Hw Ha]. by apply Hk.
Qed.

(** What the value is does not matter. *)
Lemma typed_seq {A B} (Q : B -> Prop) (m : M (world In) A) k :
  typed (fun _ => True) m -> (forall a, typed Q (k a)) -> typed Q (bind m k).
Proof. intros Hm Hk. apply (typed_bind (fun _ => True)); auto. Qed.

Lemma typed_get {A B} (Q : B -> Prop) (f : world In -> A) k :
  (forall w, req_inv stored_typed w -> typed Q (k (f w))) -> typed Q (bind (get f) k).
Proof. intros Hk w Hw. by apply Hk. Qed.

Lemma typed_modify f : (forall w, stored_typed (w_req w) -> stored_typed (w_req (f w))) ->
  typed (fun _ => True) (modify (W := world In) f).
Proof. intros Hf w Hw. split; [by apply Hf|done]. Qed.

Lemma typed_keeps {A} (m : M (world In) A) : keeps (req_inv stored_typed) m -> typed (fun _ => True) m.
Proof. intros Hm w Hw. specialize (Hm w Hw). by destruct (m w). Qed.

Lemma keeps_typed {A} (Q : A -> Prop) (m : M (world In) A) : typed Q m -> keeps (req_inv stored_typed) m.
Proof. intros Hm w Hw. specialize (Hm w Hw). destruct (m w); [|done..]. by destruct Hm. Qed.

Lemma typed_weaken {A} (P Q : A -> Prop) (m : M (world In) A) :
  typed P m -> (forall a, P a -> Q a) -> typed Q m.
Proof.
  intros Hm HPQ w Hw. specialize (Hm w Hw). destruct (m w); [|done..]. destruct Hm. auto.
Qed.

End Rules.

Create HintDb typed.
#[export] Hint Resolve typed_crash typed_exit typed_deep : typed.

(** An assignment that stores nothing of a type. *)
Ltac store_tac := intros; repeat case_match; first [done | assumption].

Ltac typed_tac :=
  repeat (first
    [ solve [auto with typed]
    | simple apply typed_get; intros ? ?
    | simple apply typed_ret; solve [done | intros; simplify_eq; done]
    | simple apply typed_seq; [|intros ?]
    | progress case_match
    | simple apply typed_modify; solve [store_tac] ]).

(** The answer of a call: an R error, or a value of the type. *)
Definition answers (op : r_op) (r : r_reply) : Prop := forall v, r = Some v -> has_type op v = true.

Section Leaves.
Context {E : AprErrno} {T : AprTable} {R : REngine} {In : Type} {I : ApInput In}
        {X : Type} {XP : AprXml X} {H : HookEnv X} {MP : MultipartParser} {P : Platform}.
Abbreviation typed := (typed (In := In)).

Lemma typed_error msg : typed (fun _ => True) (RApacheError msg).
Proof. apply typed_keeps, req_inv_error. Qed.
Lemma typed_write buf e : typed (fun _ => True) (r_write buf e).
Proof. apply typed_keeps, req_inv_write. Qed.
Lemma typed_string_elt0 x : typed (fun _ => True) (string_elt0 x).
Proof. apply typed_keeps, req_inv_string_elt0. Qed.
Lemma typed_bbout buf : typed (fun _ => True) (bbout_write buf).
Proof. apply typed_keeps, req_inv_bbout. Qed.
Hint Resolve typed_error typed_write typed_string_elt0 typed_bbout : typed.

Lemma typed_read size room : typed (fun _ => True) (ReadRequestBody size room).
Proof. unfold ReadRequestBody. typed_tac. Qed.
Hint Resolve typed_read : typed.

Lemma typed_receive fuel size buf blen : typed (fun _ => True) (receive_loop fuel size buf blen).
Proof. revert size buf blen. induction fuel; intros; cbn [receive_loop]; typed_tac. Qed.
Hint Resolve typed_receive : typed.

Lemma flag_typed b : is_flag (NewLogical b) = true.
Proof. by destruct b. Qed.

Lemma endecode_length f l l' : endecode_all f l = Some l' -> length l' = length l.
Proof.
  revert l'. induction l as [|s l IH]; intros l'; cbn; [by intros [= <-]|].
  destruct (f s); cbn; [|done]. destruct (endecode_all f l) as [r|]; cbn; [|done].
  intros [= <-]. cbn. by rewrite IH.
Qed.

Lemma typed_cookie_part label x : typed (fun _ => True) (cookie_part label x).
Proof. unfold cookie_part. typed_tac. Qed.
Lemma typed_cookie_expires date x : typed (fun _ => True) (cookie_expires date x).
Proof. unfold cookie_expires, to_stderr. typed_tac. Qed.
Hint Resolve typed_cookie_part typed_cookie_expires : typed.

Lemma answers_error op : answers op None.
Proof. by intros v [=]. Qed.
Lemma answers_value op v : has_type op v = true -> answers op (Some v).
Proof. by intros Hv v' [= <-]. Qed.

Hint Extern 1 (typed (answers _) (ret None)) => apply typed_ret, answers_error : typed.
Hint Extern 2 (typed (answers _) (ret (Some _))) =>
  apply typed_ret, answers_value; first [reflexivity | apply flag_typed | by destruct (q_postParsed _)] : typed.

Lemma typed_post op b :
  (forall v, has_type op v = if b : bool then is_params v else is_files v) ->
  typed (answers op) (parsePost (X := X) p_hole p_tmpdir p_file_info p_registry b).
Proof.
  intros Hop. unfold parsePost. apply typed_get. intros w Hw.
  assert (Hans : forall q, stored_typed q -> typed (answers op)
    (ret (Some (if b then to_list (q_postTable q) else default RNil (q_filesVar q))))).
  { intros q [Hf _]. apply typed_ret, answers_value. rewrite Hop.
    destruct b; [apply to_list_typed|]. destruct (q_filesVar q); [by apply Hf|done]. }
  assert (Hnil : has_type op RNil = true) by (rewrite Hop; by destruct b).
  assert (Hnone : typed (answers op) (ret (Some RNil))) by (by apply typed_ret, answers_value).
  destruct (negb (q_r (w_req w))); [done|]. destruct (q_readStarted (w_req w)).
  { apply typed_seq; [apply typed_error|done]. }
  destruct (q_postParsed (w_req w)); [by apply Hans|].
  assert (Hstore : forall t v, is_files v = true ->
    typed (fun _ => True) (modify (on_req (fun q => set_q_filesVar (Some v) (set_q_postTable t q))))).
  { intros t v Hv. apply typed_modify. intros w' [_ Hs]. split; [by intros ? [= <-]|exact Hs]. }
  assert (Hnothing : typed (answers op) (modify (on_req (fun q => set_q_filesVar (Some RNil)
    (set_q_postTable None q))) ;; ret (Some RNil))) by (apply typed_seq; [by apply Hstore|done]).
  apply typed_get. intros w1 _. destruct (_ && _); [done|]. cbv zeta.
  destruct (apreq_parser _ _) as [pfn|]; [|done].
  apply typed_seq; [apply typed_modify; store_tac|intros _].
  destruct (post_loop _ _ _ _ _) as [[t i]| |]; [|auto with typed..].
  apply typed_seq; [apply typed_modify; store_tac|intros _].
  apply typed_seq; [apply Hstore, uploads_typed|intros _].
  apply typed_get. intros w2 Hw2. by apply Hans.
Qed.

Lemma typed_endecode s enc : typed (answers (OpUrlEnDecode s enc)) (RApache_urlEnDecode p_hole s enc).
Proof.
  unfold RApache_urlEnDecode. set (f := match unclassed enc with RLgl (1%Z :: _) => encode | _ => decode p_hole end).
  destruct (unclassed s) eqn:Es; apply typed_ret; intros v Hv; cbn [has_type]; rewrite Es;
    try by injection Hv as <-.
  destruct (endecode_all f l) as [l'|] eqn:El; [|done]. injection Hv as <-.
  apply Nat.eqb_eq. by apply endecode_length in El.
Qed.

Lemma typed_leaf op m : leaf_call (In := In) (X := X) op = Some m -> typed (answers op) m.
Proof.
  destruct op; intros [= <-];
    try (by apply typed_post); try apply typed_endecode;
    unfold RApache_setHeader, RApache_setStatus, RApache_setContentType, RApache_setCookie,
      RApache_sendBin, RApache_internals, RApache_parseGet,
      RApache_parseCookies, RApache_receiveBin, ReadConsole, MR_r;
    typed_tac;
    apply typed_ret, answers_value; first [apply to_list_typed | apply cookies_list_typed].
Qed.

(** ** Evaluation *)

Definition well_typed (ev : evaluator (In := In)) : Prop :=
  (forall id env, typed (fun _ => True) (R_tryEval ev id env)) /\
  (forall text, typed (fun _ => True) (R_tryParse ev text)).

Lemma member_str n v : is_member (strmbr n v).2 = true.
Proof. by destruct v. Qed.
Lemma member_tab n t : is_member (tabmbr n t).2 = true.
Proof.
  unfold is_member, is_strings, tabmbr. cbn [snd].
  by rewrite (table_to_list_typed _ _ _ strings_callback_typed).
Qed.
Lemma member_lgl n b : is_member (lglmbr n b).2 = true.
Proof. by destruct b. Qed.

Lemma members_typed (r : request_rec In) cmdpath :
  forallb is_member (map snd (server_members r cmdpath)) = true.
Proof.
  unfold server_members. cbn [map forallb].
  rewrite !member_str, !member_tab, !member_lgl. reflexivity.
Qed.

Lemma server_typed (r : request_rec In) cmdpath v (names : list bytes) :
  length names = 0 \/ length names = 39 ->
  is_server (RList (map snd (server_members r cmdpath) ++ [v]) names) = true.
Proof.
  intros Hn. pose proof (members_typed r cmdpath) as Hm. set (ms := map snd _) in *.
  assert (Hl : length ms = 38) by reflexivity. cbn [is_server].
  rewrite length_app, take_app_le, take_ge by lia. rewrite Hl, Hm. cbn.
  destruct Hn as [-> | ->]; done.
Qed.

Section Evaluator.
Context (ev : evaluator (In := In)) (Hev : well_typed ev).

Lemma typed_tryEval id env : typed (fun _ => True) (R_tryEval ev id env).
Proof. apply Hev. Qed.
Lemma typed_tryParse text : typed (fun _ => True) (R_tryParse ev text).
Proof. apply Hev. Qed.
Hint Resolve typed_tryEval typed_tryParse : typed.

Lemma typed_eval_loop ids env last err : typed (fun _ => True) (eval_loop ev ids env last err).
Proof. revert last err. induction ids; intros; cbn [eval_loop]; typed_tac. Qed.
Hint Resolve typed_eval_loop : typed.

Lemma typed_ParseEval code env : typed (fun _ => True) (ParseEval ev code env).
Proof. unfold ParseEval, ParseText, EvalExprs, to_stderr. typed_tac. Qed.
Hint Resolve typed_ParseEval : typed.

Lemma typed_teardown flush : typed (fun _ => True) (TearDownRequest ev flush).
Proof.
  unfold TearDownRequest, flush_output, log_errors, unlock, chdir. typed_tac.
Qed.
Hint Resolve typed_teardown : typed.

Lemma typed_info : typed (fun _ => True) (RApacheInfo ev).
Proof.
  assert (Hp : forall envir page, typed (fun _ => True) (info_run ev envir page)).
  { intros envir page. induction page as [|[s|s] page IH]; cbn [info_run];
      unfold RApacheResponseError; typed_tac. }
  unfold RApacheInfo, NewEnv. typed_tac.
Qed.
Hint Resolve typed_info : typed.

Lemma typed_getServer : typed (answers OpGetServer) (RApache_getServer ev).
Proof.
  unfold RApache_getServer. apply typed_get. intros w [_ Hw].
  destruct (negb _); [by apply typed_ret, answers_value|].
  destruct (q_serverVar (w_req w)) as [v|]; [by apply typed_ret, answers_value, Hw|].
  apply typed_get. intros w1 _. apply typed_get. intros w2 _.
  destruct (request_directive w2) as [d|]; [|auto with typed]. cbv zeta.
  assert (Hstore : forall v, is_server v = true ->
    typed (fun _ => True) (modify (on_req (set_q_serverVar (Some v))))).
  { intros v Hv. apply typed_modify. intros w' [Hs _]. split; [exact Hs|by intros ? [= <-]]. }
  apply typed_seq; [apply Hstore, server_typed; by left|intros _].
  apply typed_seq; [apply typed_ParseEval|intros [val err]].
  apply typed_get. intros w3 _. destruct val as [val|]; [|auto with typed].
  destruct (q_serverVar (w_req w3)); [|auto with typed].
  assert (Hv : is_server (RList (map snd (server_members (w_r w1) (d_cmdpath d)) ++ [val])
    (map fst (server_members (w_r w1) (d_cmdpath d)) ++ [str "internals"])) = true)
    by (apply server_typed; by right).
  apply typed_seq; [by apply Hstore|intros _]. by apply typed_ret, answers_value.
Qed.

Lemma typed_call op : typed (answers op) (call_op (X := X) ev op).
Proof.
  unfold call_op. destruct (leaf_call op) as [m|] eqn:El; [by apply typed_leaf|].
  destruct op; try done; [|apply typed_getServer].
  unfold RApache_RApacheInfo, MR_r. typed_tac.
Qed.

Lemma typed_run_prog p : typed (fun _ => True) (run_prog (call_op (X := X) ev) p).
Proof.
  induction p as [st v err|st op k IH]; cbn; typed_tac.
  apply (typed_weaken (answers op)); [apply typed_call|done].
Qed.

End Evaluator.

Lemma interp_typed depth : well_typed (interp (X := X) depth).
Proof.
  induction depth as [|depth IH]; (split; intros; cbn [interp R_tryEval R_tryParse]); typed_tac;
    by apply typed_run_prog.
Qed.

(** ** Claims *)

(** The module with a check on what its functions return: a value that is not of
    the type that was promised ends the process. *)
Definition checked (call : r_op -> M (world In) r_reply) (op : r_op) : M (world In) r_reply :=
  let* x := call op in
  match x with
  | Some v => if has_type op v then ret (Some v) else do_crash
  | None => ret None
  end.

(** C14: the functions R calls keep their promises: in a request whose stored
    answers are of their types, any R program, at any depth of evaluations
    inside each other, runs exactly as it would if every value it is given were
    checked against the type its function promises, and leaves such a request. *)
Theorem calls_well_typed (depth : nat) (p : r_prog R_state) (w : world In) :
  stored_typed (w_req w) ->
  let call := call_op (X := X) (interp (X := X) depth) in
  run_prog (checked call) p w = run_prog call p w /\
  match run_prog call p w with Ret _ w' => stored_typed (w_req w') | _ => True end.
Proof.
  intros Hw call. split.
  2: { pose proof (typed_run_prog _ (interp_typed depth) p w Hw) as Hr. fold call in Hr.
       destruct (run_prog call p w); [|done..]. by destruct Hr. }
  revert w Hw. induction p as [st v err|st op k IH]; intros w Hw; [done|]. cbn [run_prog].
  unfold bind, modify, get. set (w1 := set_w_R st w).
  pose proof (typed_call _ (interp_typed depth) op w1 Hw) as Hc. fold call in Hc.
  unfold checked, bind. destruct (call op w1) as [x w2| | |]; [|done..]. destruct Hc as [Hw2 Ha].
  destruct x as [v|]; [rewrite (Ha v eq_refl)|]; apply IH, Hw2.
Qed.

End Leaves.

(** ** Witness *)

(** A program that asks for the query string, the form and the server, and prints. *)
Definition asking : r_prog unit :=
  RCall tt OpParseGet (fun _ _ => RCall tt OpParsePost (fun _ _ => RCall tt OpGetServer (fun _ x =>
    RCall tt (OpWrite (str "done") false) (fun st _ => RDone st (default RNil x) false)))).

Abbreviation asking_world := (toy_world hello (get_for (str "r-handler") (fun_directive (str "f")))).

Lemma calls_well_typed_witness :
  let call := call_op (R := toy_engine hello) (X := unit) (interp (R := toy_engine hello) (X := unit) 1) in
  run_prog (R := toy_engine hello) (checked call) asking asking_world =
    run_prog (R := toy_engine hello) call asking asking_world /\
  match run_prog (R := toy_engine hello) call asking asking_world with
  | Ret _ w' => stored_typed (w_req w')
  | _ => True
  end.
Proof.
  apply (calls_well_typed (R := toy_engine hello) (X := unit) 1 asking asking_world).
  split; intros v [=].
Defined.
