(* ===== verification/Startup.v ===== *)
(** * Starting and stopping R ([src/mod_R.c], [init_R])

    What happens once per child process: R is started, the environment of the
    module is built and locked, the code collected from the configuration is run
    or parsed, and the caches and the parser registry are made. *)
From S2P Require Import Prelude Apr Url Util Brigade Param Parser Urlencoded Cookie RTable SendBin RState RCalls Directives InfoPage Engine Handler.

(** [MR_RApacheSource], line by line. *)
Definition source_lines : list bytes :=
  [ str "setStatus <- function(status) .Call('RApache_setStatus',as.integer(status))"
  ; str "setContentType <- function(type) .Call('RApache_setContentType',type)"
  ; str "setHeader <- function(header,value) .Call('RApache_setHeader',header,value)"
  ; str "setCookie <- function(name=NULL,value='',expires=NULL,path=NULL,domain=NULL,...){"
  ; str "args <- list(...)"
  ; str "therest <- ifelse(length(args)>0,paste(paste(names(args),args,sep='='),collapse=';'),'')"
  ; str ".Call('RApache_setCookie',name,value,expires,path,domain,therest)}"
  ; str "urlEncode <- function(str) .Call('RApache_urlEnDecode',str,TRUE)"
  ; str "urlDecode <- function(str) .Call('RApache_urlEnDecode',str,FALSE)"
  ; str "RApacheInfo <- function() .Call('RApache_RApacheInfo')"
  ; str "sendBin <- function(object, con=stdout(), size=NA_integer_, endian=.Platform$endian){"
  ; str "swap <- endian != .Platform$endian"
  ; str "if (!is.vector(object) || mode(object) == 'list') stop('can only write vector objects')"
  ; str ".Call('RApache_sendBin',object,size,swap)}"
  ; str "receiveBin <- function(length=-1L) .Call('RApache_receiveBin',length)"
  ; str "RApacheOutputErrors <- function(status=TRUE,prefix=NULL,suffix=NULL) warning('RApacheOutputErrors has been deprecated!')"
  ; str ".ResetCGIVars <- function(){"
  ; str "re <- as.environment('rapache')"
  ; str "delayedAssign('GET', .Call('RApache_parseGet'),re,re)"
  ; str "delayedAssign('COOKIES', .Call('RApache_parseCookies'),re,re)"
  ; str "delayedAssign('POST', .Call('RApache_parsePost'),re,re)"
  ; str "delayedAssign('FILES', .Call('RApache_parseFiles'),re,re)"
  ; str "delayedAssign('SERVER', .Call('RApache_getServer'),re,re)"
  ; str "}" ].

Definition MR_RApacheSource : bytes := mjoin (map (fun l => l ++ [x0a]) (removelast source_lines))
  ++ default [] (list.last source_lines).

(** The constants of the environment of the module. *)
Definition status_constants : list (bytes * Z) :=
  [ (str "DONE", -2); (str "DECLINED", -1); (str "OK", 0); (str "HTTP_CONTINUE", 100)
  ; (str "HTTP_SWITCHING_PROTOCOLS", 101); (str "HTTP_PROCESSING", 102); (str "HTTP_OK", 200)
  ; (str "HTTP_CREATED", 201); (str "HTTP_ACCEPTED", 202); (str "HTTP_NON_AUTHORITATIVE", 203)
  ; (str "HTTP_NO_CONTENT", 204); (str "HTTP_RESET_CONTENT", 205)
  ; (str "HTTP_PARTIAL_CONTENT", 206); (str "HTTP_MULTI_STATUS", 207)
  ; (str "HTTP_MULTIPLE_CHOICES", 300); (str "HTTP_MOVED_PERMANENTLY", 301)
  ; (str "HTTP_MOVED_TEMPORARILY", 302); (str "HTTP_SEE_OTHER", 303)
  ; (str "HTTP_NOT_MODIFIED", 304); (str "HTTP_USE_PROXY", 305)
  ; (str "HTTP_TEMPORARY_REDIRECT", 307); (str "HTTP_BAD_REQUEST", 400)
  ; (str "HTTP_UNAUTHORIZED", 401); (str "HTTP_PAYMENT_REQUIRED", 402)
  ; (str "HTTP_FORBIDDEN", 403); (str "HTTP_NOT_FOUND", 404); (str "HTTP_METHOD_NOT_ALLOWED", 405)
  ; (str "HTTP_NOT_ACCEPTABLE", 406); (str "HTTP_PROXY_AUTHENTICATION_REQUIRED", 407)
  ; (str "HTTP_REQUEST_TIME_OUT", 408); (str "HTTP_CONFLICT", 409); (str "HTTP_GONE", 410)
  ; (str "HTTP_LENGTH_REQUIRED", 411); (str "HTTP_PRECONDITION_FAILED", 412)
  ; (str "HTTP_REQUEST_ENTITY_TOO_LARGE", 413); (str "HTTP_REQUEST_URI_TOO_LARGE", 414)
  ; (str "HTTP_UNSUPPORTED_MEDIA_TYPE", 415); (str "HTTP_RANGE_NOT_SATISFIABLE", 416)
  ; (str "HTTP_EXPECTATION_FAILED", 417); (str "HTTP_UNPROCESSABLE_ENTITY", 422)
  ; (str "HTTP_LOCKED", 423); (str "HTTP_FAILED_DEPENDENCY", 424)
  ; (str "HTTP_UPGRADE_REQUIRED", 426); (str "HTTP_INTERNAL_SERVER_ERROR", 500)
  ; (str "HTTP_NOT_IMPLEMENTED", 501); (str "HTTP_BAD_GATEWAY", 502)
  ; (str "HTTP_SERVICE_UNAVAILABLE", 503); (str "HTTP_GATEWAY_TIME_OUT", 504)
  ; (str "HTTP_VERSION_NOT_SUPPORTED", 505); (str "HTTP_VARIANT_ALSO_VARIES", 506)
  ; (str "HTTP_INSUFFICIENT_STORAGE", 507); (str "HTTP_NOT_EXTENDED", 510) ]%Z.

Definition cgi_vars : list bytes :=
  [str "GET"; str "POST"; str "COOKIES"; str "FILES"; str "SERVER"].

(** The components of the server's version line; [R_MAJOR] and [R_MINOR] come from R. *)
Definition AP_hook_post_config (MOD_R_VERSION R_MAJOR R_MINOR : bytes) (components : list bytes)
  : Z * list bytes :=
  (OK, components ++ [str "mod_R/" ++ MOD_R_VERSION; str "R/" ++ R_MAJOR ++ str "." ++ R_MINOR]).

Section Startup.
Context {E : AprErrno} {T : AprTable} {R : REngine} {In : Type} {I : ApInput In}
        {X : Type} {XP : AprXml X} {H : HookEnv X} {MP : MultipartParser} {P : Platform}.
Abbreviation MW := (M (world In)).

(** ** The environment of the module *)

Section WithEvaluator.
Context (ev : evaluator (In := In)).

Definition fatal {A} (msg : bytes) : MW A := to_stderr msg ;; do_exit.

Definition define_env (name : bytes) (v : SEXP) : MW unit :=
  modify (fun w => set_w_R (r_defineVar (w_R w) name v MR_RApacheEnv) w).

Fixpoint define_all (l : list (bytes * SEXP)) : MW unit :=
  match l with
  | [] => ret tt
  | (n, v) :: l => define_env n v ;; define_all l
  end.

(** The environment [attach] returns is the one numbered [MR_RApacheEnv]. *)
Definition InitRApacheEnv : MW unit :=
  let* res := ParseEval ev (str "attach(NULL,pos=length(search()),'rapache')") R_GlobalEnv in
  if res.2 : bool then
    fatal (str "Internal Error! Error attaching rapache environment!" ++ [x0a; x0a])
  else
    let* res := ParseEval ev MR_RApacheSource MR_RApacheEnv in
    if res.2 : bool then
      fatal (str "Internal Error! Error eval'ing MR_RApacheSource!" ++ [x0a; x0a])
    else
      define_all (map (fun c => (c.1, NewInteger c.2)) status_constants) ;;
      define_all (map (fun n => (n, RNil)) cgi_vars) ;;
      modify (fun w => set_w_R (r_lock (w_R w) MR_RApacheEnv cgi_vars) w).

(** ** Code from the configuration *)

Definition OnStartupCallback (key value : bytes) : MW unit :=
  match key with
  | a :: b :: rest =>
      if (a =b? e_tag) && (b =b? x3a) then
        let* res := ParseEval ev value R_GlobalEnv in
        if res.2 : bool then fatal (str " From directive " ++ rest ++ str "." ++ [x0a])
        else ret tt
      else if (a =b? p_tag) && (b =b? x3a) then
        let* res := ParseText ev value in
        if res.2 : bool
        then fatal (str "Parse error in '" ++ value ++ str "' from directive " ++ rest ++ str "." ++ [x0a])
        else ret tt
      else ret tt
  | _ => ret tt
  end.

(** [apr_table_do(OnStartupCallback, NULL, MR_OnStartup, NULL)] *)
Fixpoint run_startup (l : list (bytes * bytes)) : MW unit :=
  match l with
  | [] => ret tt
  | (k, v) :: l => OnStartupCallback k v ;; run_startup l
  end.

(** ** The child process *)

Record process := Process {
  pr_config : config;
  MR_InitStatus : bool;
  MR_pid : Z;
  pr_registry : registry;
  pr_environ : list (bytes * bytes);
  pr_world : world In
}.

Abbreviation MP_ := (M process).

Definition lift {A} (m : MW A) : MP_ A := fun p =>
  let put w := Process (pr_config p) (MR_InitStatus p) (MR_pid p) (pr_registry p) (pr_environ p) w in
  match m (pr_world p) with
  | Ret a w => Ret a (put w)
  | Exit w => Exit (put w)
  | Crash w => Crash (put w)
  | TooDeep => TooDeep
  end.

Definition set_config c (p : process) : process :=
  Process c (MR_InitStatus p) (MR_pid p) (pr_registry p) (pr_environ p) (pr_world p).
Definition set_initStatus b (p : process) : process :=
  Process (pr_config p) b (MR_pid p) (pr_registry p) (pr_environ p) (pr_world p).
Definition set_pid i (p : process) : process :=
  Process (pr_config p) (MR_InitStatus p) i (pr_registry p) (pr_environ p) (pr_world p).
Definition set_registry g (p : process) : process :=
  Process (pr_config p) (MR_InitStatus p) (MR_pid p) g (pr_environ p) (pr_world p).
Definition add_environ n v (p : process) : process :=
  Process (pr_config p) (MR_InitStatus p) (MR_pid p) (pr_registry p) ((n, v) :: pr_environ p) (pr_world p).

(** Results of the system: whether the server is threaded ([None]: the query
    fails), the mutex, the variables, the temporary directory, the pool of the
    parser registry; [R_HOME] is of the build. *)
Context (threaded : option bool) (mutex_ok setenv_ok : bool) (temp_dir : option bytes)
        (R_HOME : bytes) (registry_pool : Z).

Definition setenv (name value msg : bytes) : MP_ unit :=
  if setenv_ok then modify (add_environ name value) else lift (fatal msg).

Definition InitTempDir : MP_ unit :=
  match temp_dir with
  | None => lift (fatal (str "Fatal Error: apr_temp_dir_get() failed!" ++ [x0a]))
  | Some tmp =>
      setenv (str "R_SESSION_TMPDIR") tmp
        (str "Fatal Error: could not set up R_SESSION_TMPDIR!" ++ [x0a])
  end.

Definition make_mutex : MP_ unit :=
  match threaded with
  | None =>
      lift (fatal (str "Fatal Error: Can't query the server to dermine if it's threaded!" ++ [x0a]))
  | Some true =>
      if mutex_ok then lift (modify (set_w_mutex (Some 0%Z)))
      else lift (fatal (str "Fatal Error: unable to create R mutex!" ++ [x0a]))
  | Some false => ret tt
  end.

Definition clear_startup (c : config (T := T)) : config :=
  Config (match MR_OnStartup c with Some _ => Some apr_table_make | None => None end)
    (MR_ConfigPass c) (cf_userdata c) (cf_stderr c).

Definition init_R : MP_ unit :=
  let* started := get MR_InitStatus in
  if started : bool then ret tt
  else
    modify (set_initStatus true) ;;
    modify (fun p => set_config (InitRApachePool (pr_config p)) p) ;;
    make_mutex ;;
    setenv (str "R_HOME") R_HOME (str "Fatal Error: could not set R_HOME from init!" ++ [x0a]) ;;
    InitTempDir ;;
    lift (modify (set_w_console WriteConsoleStderr_f)) ;;
    lift InitRApacheEnv ;;
    let* c := get pr_config in
    lift (run_startup (default [] (apr_table_elts <$> MR_OnStartup c))) ;;
    modify (fun p => set_config (clear_startup (pr_config p)) p) ;;
    lift (modify (fun w => set_w_handlers ∅ (set_w_files ∅ w))) ;;
    modify (fun p => set_registry (apreq_initialize registry_pool (pr_registry p)).2 p) ;;
    lift (modify (set_w_console WriteConsoleEx_f)).

Definition AP_hook_child_init (pid : Z) : MP_ unit := modify (set_pid pid) ;; init_R.

(** Only in the process that started R, not in one it forked. *)
Definition AP_child_exit (pid : Z) : MP_ unit :=
  modify (fun p => if MR_InitStatus p && (MR_pid p =? pid)%Z then set_initStatus false p else p).

End WithEvaluator.
End Startup.

(** * Properties *)

Section Dormant.
Context {E : AprErrno} {T : AprTable} {R : REngine} {In : Type} {I : ApInput In}
        {X : Type} {XP : AprXml X} {H : HookEnv X} {MP : MultipartParser} {P : Platform}
        (mutex : option Z).

(** R runs and there is no request: R prints to the standard error. *)
Record dormant (w : world In) : Prop := Dormant {
  do_req : w_req w = req_zero;
  do_bbin : w_bbin w = None;
  do_bbout : w_bbout w = None;
  do_bberr : w_bberr w = None;
  do_console : w_console w = WriteConsoleStderr_f;
  do_mutex : w_mutex w = mutex
}.

Lemma dormant_modify f :
  (forall w, w_req (f w) = w_req w /\ w_bbin (f w) = w_bbin w /\ w_bbout (f w) = w_bbout w /\
     w_bberr (f w) = w_bberr w /\ w_console (f w) = w_console w /\ w_mutex (f w) = w_mutex w) ->
  keeps dormant (modify f).
Proof.
  intros Hf. apply keeps_modify. intros w []. destruct (Hf w) as (H1 & H2 & H3 & H4 & H5 & H6).
  split; congruence.
Qed.

(** There is no request to find. *)
Lemma dormant_MR_r {A} (k : bool -> M (world In) A) : keeps dormant (k false) -> keeps dormant (bind MR_r k).
Proof.
  intros Hk w Hw. unfold MR_r. rewrite bind_get, (do_req _ Hw). by apply Hk.
Qed.

Lemma dormant_request {A} (k : RApacheRequest -> M (world In) A) :
  keeps dormant (k req_zero) -> keeps dormant (bind (get w_req) k).
Proof. intros Hk w Hw. rewrite bind_get, (do_req _ Hw). by apply Hk. Qed.

Lemma dormant_console {A} (k : console -> M (world In) A) :
  keeps dormant (k WriteConsoleStderr_f) -> keeps dormant (bind (get w_console) k).
Proof. intros Hk w Hw. rewrite bind_get, (do_console _ Hw). by apply Hk. Qed.

Ltac dormant_tac :=
  repeat (first
    [ solve [auto with keeps]
    | simple apply dormant_MR_r; cbn [negb]
    | simple apply dormant_request; cbn [negb q_r req_zero]
    | simple apply dormant_console; cbn iota
    | simple apply keeps_bind; [|intros ?]
    | progress case_match
    | apply dormant_modify; intros; repeat case_match; split_and!; done ]).

Lemma dormant_string_elt0 x : keeps dormant (string_elt0 x).
Proof. unfold string_elt0. dormant_tac. Qed.
Hint Resolve dormant_string_elt0 : keeps.

Lemma dormant_read size room : keeps dormant (ReadRequestBody size room).
Proof. unfold ReadRequestBody. dormant_tac. Qed.
Hint Resolve dormant_read : keeps.

Lemma dormant_receive fuel size buf blen : keeps dormant (receive_loop fuel size buf blen).
Proof. revert size buf blen. induction fuel; intros; cbn [receive_loop]; dormant_tac. Qed.
Hint Resolve dormant_receive : keeps.

Lemma dormant_leaf op m : leaf_call (In := In) (X := X) op = Some m -> keeps dormant m.
Proof.
  destruct op; intros [= <-];
    unfold RApache_setHeader, RApache_setStatus, RApache_setContentType, RApache_setCookie,
      RApache_urlEnDecode, RApache_sendBin, RApache_internals, RApache_parseGet, RApache_parsePost,
      RApache_parseFiles, parsePost, RApache_parseCookies, RApache_receiveBin, ReadConsole, r_write,
      WriteConsoleStderr, to_stderr;
    dormant_tac.
Qed.

Definition dormant_ev (ev : evaluator (In := In)) : Prop :=
  (forall id env, keeps dormant (R_tryEval ev id env)) /\ (forall text, keeps dormant (R_tryParse ev text)).

Section Ev.
Context (ev : evaluator (In := In)) (Hev : dormant_ev ev).

Lemma dormant_tryEval id env : keeps dormant (R_tryEval ev id env).
Proof. apply Hev. Qed.
Lemma dormant_tryParse text : keeps dormant (R_tryParse ev text).
Proof. apply Hev. Qed.
Hint Resolve dormant_tryEval dormant_tryParse : keeps.

Lemma dormant_EvalExprs exprs env err : keeps dormant (EvalExprs ev exprs env err).
Proof.
  assert (Hl : forall ids last err, keeps dormant (eval_loop ev ids env last err))
    by (induction ids; intros; cbn [eval_loop]; dormant_tac).
  unfold EvalExprs, to_stderr. dormant_tac.
Qed.
Hint Resolve dormant_EvalExprs : keeps.

Lemma dormant_ParseText text : keeps dormant (ParseText ev text).
Proof. unfold ParseText. dormant_tac. Qed.
Hint Resolve dormant_ParseText : keeps.

Lemma dormant_ParseEval code env : keeps dormant (ParseEval ev code env).
Proof. unfold ParseEval. dormant_tac. Qed.
Hint Resolve dormant_ParseEval : keeps.

Lemma dormant_call op : keeps dormant (call_op (X := X) ev op).
Proof.
  unfold call_op. destruct (leaf_call op) eqn:El; [by apply (dormant_leaf op)|].
  destruct op; unfold RApache_getServer, RApache_RApacheInfo; dormant_tac.
Qed.

Lemma dormant_run_prog p : keeps dormant (run_prog (call_op (X := X) ev) p).
Proof.
  induction p as [st v err|st op k IH]; cbn; dormant_tac; first [apply dormant_call | apply IH].
Qed.

Lemma dormant_InitRApacheEnv : keeps dormant (InitRApacheEnv ev).
Proof.
  assert (Hd : forall l, keeps dormant (define_all l)).
  { induction l as [|[n v] l IH]; cbn [define_all]; unfold define_env; dormant_tac. }
  unfold InitRApacheEnv, fatal, to_stderr. dormant_tac.
Qed.

Lemma dormant_run_startup l : keeps dormant (run_startup ev l).
Proof.
  induction l as [|[k v] l IH]; cbn [run_startup]; unfold OnStartupCallback, fatal, to_stderr; dormant_tac.
Qed.

End Ev.

Lemma interp_dormant depth : dormant_ev (interp (X := X) depth).
Proof.
  induction depth as [|depth IH]; (split; intros; cbn [interp R_tryEval R_tryParse]); auto with keeps.
  - dormant_tac. by apply dormant_run_prog.
  - dormant_tac. by apply dormant_run_prog.
Qed.

End Dormant.

Section Claims.
Context {E : AprErrno} {T : AprTable} {R : REngine} {In : Type} {I : ApInput In}
        {X : Type} {XP : AprXml X} {H : HookEnv X} {MP : MultipartParser} {P : Platform}
        (threaded : option bool) (mutex_ok setenv_ok : bool) (temp_dir : option bytes) (R_HOME : bytes)
        (registry_pool : Z).
Abbreviation init ev := (init_R (In := In) ev threaded mutex_ok setenv_ok temp_dir R_HOME registry_pool).

Lemma hoare_lift {A} (Pre : world In -> Prop) (m : M (world In) A) (G : process -> Prop) :
  keeps Pre m -> (forall p w, G p -> G (Process (pr_config p) (MR_InitStatus p) (MR_pid p)
                                        (pr_registry p) (pr_environ p) w)) ->
  keeps (fun p => Pre (pr_world p) /\ G p) (lift m).
Proof.
  intros Hm HG p [Hp Hg]. specialize (Hm (pr_world p) Hp). unfold lift.
  destruct (m (pr_world p)); [|done..]. by split; [|apply HG].
Qed.

(** The rest of the process while R starts. *)
Definition starting (g : registry) (p : process (In := In)) : Prop :=
  MR_InitStatus p = true /\ pr_registry p = g /\ is_Some (MR_OnStartup (pr_config p)).

Definition the_mutex : option Z := match threaded with Some true => Some 0%Z | _ => None end.

(** No request, and the console anywhere. *)
Definition quiescent (m : option Z) (w : world In) : Prop :=
  w_req w = req_zero /\ w_bbin w = None /\ w_bbout w = None /\ w_bberr w = None /\ w_mutex w = m.

Lemma make_mutex_spec g :
  hoare (fun p => quiescent None (pr_world p) /\ starting g p) (make_mutex threaded mutex_ok)
    (fun _ p => quiescent the_mutex (pr_world p) /\ starting g p).
Proof.
  intros p [(H1 & H2 & H3 & H4 & H5) Hs]. unfold make_mutex, the_mutex, quiescent.
  destruct threaded as [[|]|]; [destruct mutex_ok|..]; cbn; done.
Qed.

Lemma setenv_keeps g m name value msg :
  keeps (fun p => quiescent m (pr_world p) /\ starting g p) (setenv setenv_ok name value msg).
Proof. intros p [Hq Hs]. unfold setenv. by destruct setenv_ok. Qed.

Lemma initialized_locked : 
  registry_pool = APR_SUCCESS -> default_parsers_lock (apreq_initialize registry_pool registry_start).2 = true.
Proof. intros ->. done. Qed.

(** What [init_R] leaves. *)
Definition started (p : process (In := In)) : Prop :=
  idle the_mutex (pr_world p) /\ w_console (pr_world p) = WriteConsoleEx_f /\
  w_handlers (pr_world p) = ∅ /\ w_files (pr_world p) = ∅ /\
  default_parsers_lock (pr_registry p) = true /\
  (exists t, MR_OnStartup (pr_config p) = Some t /\ apr_table_elts t = []) /\
  MR_InitStatus p = true.

Lemma finish_spec g :
  g = registry_start -> registry_pool = APR_SUCCESS ->
  hoare (fun p => dormant the_mutex (pr_world p) /\ starting g p)
    (modify (fun p => set_config (clear_startup (pr_config p)) p) ;;
     lift (modify (fun w => set_w_handlers ∅ (set_w_files ∅ w))) ;;
     modify (fun p => set_registry (apreq_initialize registry_pool (pr_registry p)).2 p) ;;
     lift (modify (set_w_console WriteConsoleEx_f))) (fun _ => started).
Proof.
  intros -> Hpool p [[H1 H2 H3 H4 H5 H6] (Hs & Hg & t & Ht)]. cbn. unfold started. cbn.
  split_and!; try done.
  - split; cbn; try done. by exists None.
  - rewrite Hg. by apply initialized_locked.
  - rewrite Ht. eexists. split; [done|]. apply elts_make.
Qed.

Lemma init_spec ev :
  dormant_ev the_mutex ev -> registry_pool = APR_SUCCESS ->
  hoare (fun p => quiescent None (pr_world p) /\ pr_registry p = registry_start)
    (modify (set_initStatus true) ;;
     modify (fun p => set_config (InitRApachePool (pr_config p)) p) ;;
     make_mutex threaded mutex_ok ;;
     setenv setenv_ok (str "R_HOME") R_HOME (str "Fatal Error: could not set R_HOME from init!" ++ [x0a]) ;;
     InitTempDir setenv_ok temp_dir ;;
     lift (modify (set_w_console WriteConsoleStderr_f)) ;;
     lift (InitRApacheEnv ev) ;;
     let* c := get pr_config in
     lift (run_startup ev (default [] (apr_table_elts <$> MR_OnStartup c))) ;;
     modify (fun p => set_config (clear_startup (pr_config p)) p) ;;
     lift (modify (fun w => set_w_handlers ∅ (set_w_files ∅ w))) ;;
     modify (fun p => set_registry (apreq_initialize registry_pool (pr_registry p)).2 p) ;;
     lift (modify (set_w_console WriteConsoleEx_f))) (fun _ => started).
Proof.
  intros Hev Hpool. set (g := registry_start).
  eapply (hoare_bind _ _ (fun _ p => quiescent None (pr_world p) /\ pr_registry p = g /\ MR_InitStatus p = true)).
  { by intros p [Hq Hg]. }
  intros ?. eapply (hoare_bind _ _ (fun _ p => quiescent None (pr_world p) /\ starting g p)).
  { intros p (Hq & Hg & Hs). split; [done|]. split_and!; try done. cbn. unfold InitRApachePool.
    by destruct (MR_OnStartup (pr_config p)) eqn:Eo; cbn; rewrite ?Eo. }
  intros ?. eapply hoare_bind; [apply make_mutex_spec|]. intros ?.
  eapply hoare_bind; [apply hoare_keeps, setenv_keeps|]. intros ?.
  eapply (hoare_bind _ _ (fun _ p => quiescent the_mutex (pr_world p) /\ starting g p)).
  { unfold InitTempDir. destruct temp_dir; [apply setenv_keeps|]. by intros p _. }
  intros ?. eapply (hoare_bind _ _ (fun _ p => dormant the_mutex (pr_world p) /\ starting g p)).
  { intros p [(H1 & H2 & H3 & H4 & H5) Hs]. by split; [split|]. }
  intros ?. eapply hoare_bind; [apply hoare_keeps, hoare_lift; [by apply dormant_InitRApacheEnv|done]|].
  intros ?. eapply (hoare_bind _ _ (fun _ p => dormant the_mutex (pr_world p) /\ starting g p)); [by intros p Hp|].
  intros c. eapply hoare_bind; [apply hoare_keeps, hoare_lift; [by apply dormant_run_startup|done]|].
  intros ?. by apply finish_spec.
Qed.

(** C25: when [init_R] returns, whatever code the configuration had R run, the
    module waits for requests: no request, empty caches, output directed to
    the client, a mutex exactly when the server is threaded, the parser registry
    locked, the startup table empty; and calling it again does nothing. *)
Theorem startup_ready (depth : nat) (p p' : process (In := In)) :
  MR_InitStatus p = false -> quiescent None (pr_world p) -> pr_registry p = registry_start ->
  registry_pool = APR_SUCCESS -> init (interp (X := X) depth) p = Ret tt p' ->
  idle the_mutex (pr_world p') /\ w_console (pr_world p') = WriteConsoleEx_f /\
  w_handlers (pr_world p') = ∅ /\ w_files (pr_world p') = ∅ /\
  default_parsers_lock (pr_registry p') = true /\
  (exists t, MR_OnStartup (pr_config p') = Some t /\ apr_table_elts t = []) /\
  init (interp (X := X) depth) p' = Ret tt p'.
Proof.
  intros Hst Hq Hreg Hpool Hrun. assert (Hs : started p').
  { pose proof (init_spec (interp depth)) as Hi. unfold init_R in Hrun. rewrite bind_get, Hst in Hrun.
    specialize (Hi (interp_dormant _ depth) Hpool p (conj Hq Hreg)). by rewrite Hrun in Hi. }
  destruct Hs as (H1 & H2 & H3 & H4 & H5 & H6 & H7). split_and!; try done.
  unfold init_R. by rewrite bind_get, H7.
Qed.

End Claims.

(** ** A concrete start *)

Definition fresh_process : process (T := list_table) (R := idle_engine) (In := bytes) :=
  Process (AP_cmd_RHandler a_cmd AP_create_dir_cfg config_start (str "stats::f")).2 false 0
    registry_start [] (set_w_mutex None (idle_world (get_for (str "r-handler") no_directive))).

Abbreviation a_start := (init_R (R := idle_engine) (interp (R := idle_engine) (X := unit) 2) (Some true) true true
  (Some (str "/tmp")) (str "/usr/lib/R") APR_SUCCESS).

Lemma startup_ready_witness :
  exists p, a_start fresh_process = Ret tt p /\ idle (Some 0%Z) (pr_world p) /\ a_start p = Ret tt p.
Proof.
  destruct (returns_ret (a_start fresh_process) (fun _ p => MR_InitStatus p)) as ([] & p & Hr & Hs);
    [vm_compute; reflexivity|].
  exists p. split; [exact Hr|].
  destruct (startup_ready (R := idle_engine) (X := unit) (Some true) true true (Some (str "/tmp"))
    (str "/usr/lib/R") APR_SUCCESS 2 fresh_process p) as (H1 & _ & _ & _ & _ & _ & H2);
    [reflexivity|split_and!; reflexivity|reflexivity|reflexivity|exact Hr|].
  split; [exact H1|exact H2].
Defined.
