(* ===== verification/Child.v ===== *)
(** * The life of a child process

    The parts of [src/mod_R.c] together: Apache reads the configuration, a child
    process starts R, and serves one request after the other. *)
From S2P Require Import Prelude Apr Url Util Brigade Param Parser Urlencoded Cookie RTable SendBin RState RCalls Directives InfoPage Engine Handler Startup.

Section Child.
Context {E : AprErrno} {T : AprTable} {R : REngine} {In : Type} {I : ApInput In}
        {X : Type} {XP : AprXml X} {H : HookEnv X} {MP : MultipartParser} {P : Platform}.
Context (file_exists : bytes -> bool) (j0 : Z).

(** ** Configuration, start, requests *)

(** A section of the configuration: a new directive, which each of its commands
    changes in turn.  [None]: Apache stops at the first error. *)
Abbreviation section := (list (cmd_parms * command)).

Fixpoint run_section (sec : section) (d : RApacheDirective) (c : config)
  : option (RApacheDirective * config) :=
  match sec with
  | [] => Some (d, c)
  | (cmd, op) :: sec =>
      match run_command file_exists j0 cmd d c op with
      | (None, d, c) => run_section sec d c
      | (Some _, _, _) => None
      end
  end.

(** The directives of the sections, and the state. *)
Fixpoint configure (site : list section) (c : config) : option (list RApacheDirective * config) :=
  match site with
  | [] => Some ([], c)
  | sec :: site =>
      '(d, c) ← run_section sec AP_create_dir_cfg c;
      '(ds, c) ← configure site c;
      Some (d :: ds, c)
  end.

(** The configuration of a request that is in the sections [ns], the outermost first. *)
Definition directory_config (ds : list RApacheDirective) (ns : list nat) : option RApacheDirective :=
  foldl (fun parent n =>
    match parent, ds !! n with
    | Some parent, Some new => Some (AP_merge_dir_cfg parent new)
    | None, new => new
    | parent, None => parent
    end) None ns.

(** A process that has read the configuration. *)
Definition new_child (c : config) (w : world In) : process (In := In) :=
  Process c false 0 registry_start [] w.

(** A request on a connection of its own: the answer, and what the client got. *)
Definition answer_request (ev : evaluator (In := In)) (r : request_rec In) : M process (Z * bytes) :=
  lift (modify (fun w => set_w_client [] (set_w_r r w))) ;;
  let* c := lift (AP_hook_request_handler ev) in
  let* w := get pr_world in
  ret (c, w_client w).

Fixpoint answer_requests (ev : evaluator (In := In)) (rs : list (request_rec In)) : M process (list (Z * bytes)) :=
  match rs with
  | [] => ret []
  | r :: rs =>
      let* a := answer_request ev r in
      let* l := answer_requests ev rs in
      ret (a :: l)
  end.

(** ** What R promises *)

(** In every state that is [alive], R resets its variables, and each function
    that is [known] runs as [code], prints [out] and gives [val]. *)
Record runs_functions (alive : R_state -> Prop) (known : bytes -> Prop) (code : bytes -> nat)
    (out : bytes -> list (bytes * bool)) (val : bytes -> SEXP) : Prop := RunsFunctions {
  rf_search st : alive st -> MR_RApacheEnv ∈ r_search st;
  rf_reset st : alive st -> exists i st1 v,
    plain_run (r_parse st (str ".ResetCGIVars()")) = Some ([], st, RExprs [i], false) /\
    plain_run (r_eval st i MR_RApacheEnv) = Some ([], st1, v, false) /\ alive st1;
  rf_newEnv st : alive st -> alive (r_newEnv st).2;
  rf_parse st f : alive st -> known f ->
    plain_run (r_parse st (f ++ str "()")) = Some ([], st, RExprs [code f], false);
  rf_eval st f e : alive st -> known f ->
    exists st', plain_run (r_eval st (code f) e) = Some (out f, st', val f, false) /\ alive st';
  rf_val f : known f -> inherits (val f) (str "try-error") = false
}.

Section Serving.
Context (alive : R_state -> Prop) (known : bytes -> Prop) (code : bytes -> nat)
        (out : bytes -> list (bytes * bool)) (val : bytes -> SEXP).
Context (Hrf : runs_functions alive known code out val).
Context (Hcwd : p_getcwd_ok = true) (Hlock : p_lock_ok = true) (Hbrigade : p_brigade_ok = true).

(** The specification: a request for another handler is declined, one for a
    function gets what the function prints. *)
Definition the_answer (r : request_rec In) : Z * bytes :=
  match handler_type (r_handler r) with
  | None => (DECLINED, [])
  | Some _ =>
      let f := default [] (d ← r_directive r; d_function d) in
      (if status_value (val f) then r_asInteger (val f) else DONE, printed (out f))
  end.

(** The directive of [RHandler f], a function without a package. *)
Definition fun_location (f : bytes) (d : RApacheDirective) : Prop :=
  d_handlerKey d = Some f /\ d_function d = Some f /\ d_package d = None /\ d_file d = None.

Definition servable (r : request_rec In) : Prop :=
  handler_type (r_handler r) = None \/
  r_handler r = str "r-handler" /\ exists f d, known f /\ r_directive r = Some d /\ fun_location f d.

(** The process between requests; a cached handler has no call yet, or its own. *)
Record waiting (m : option Z) (w : world In) : Prop := Waiting {
  wt_idle : idle m w;
  wt_console : w_console w = WriteConsoleEx_f;
  wt_alive : alive (w_R w);
  wt_cache : forall f h, known f -> w_handlers w !! f = Some h ->
    h_expr h = None \/ h_expr h = Some (RExprs [code f])
}.

Lemma waiting_same m w w' :
  waiting m w -> idle m w' -> w_console w' = w_console w -> w_R w' = w_R w -> w_handlers w' = w_handlers w ->
  waiting m w'.
Proof. intros [Hi Hc Ha Hh] Hi' H1 H2 H3. by split; [|rewrite H1|rewrite H2|rewrite H3]. Qed.

Lemma waiting_ready m w f : waiting m w -> known f -> forall st, alive st ->
  expr_ready (default no_handler (w_handlers w !! f)) st f (code f).
Proof.
  intros Hw Hf st Hst. unfold expr_ready. pose proof (rf_parse _ _ _ _ _ Hrf st f Hst Hf) as Hp.
  destruct (w_handlers w !! f) as [h|] eqn:Eh; [|by right].
  destruct (wt_cache _ _ Hw f h Hf Eh) as [He|He]; [by right|by left].
Qed.

Lemma request_answered (depth : nat) m (w : world In) :
  waiting m w -> servable (w_r w) -> w_client w = [] ->
  exists w', AP_hook_request_handler (interp (X := X) (S depth)) w = Ret (the_answer (w_r w)).1 w' /\
    waiting m w' /\ w_client w' = (the_answer (w_r w)).2.
Proof.
  intros Hw Hr Hcl. unfold the_answer. destruct Hr as [Hr|(Hr & f & d & Hf & Hd & Hk & Hfn & Hp & Hfile)].
  - unfold AP_hook_request_handler. rewrite Hcwd. cbn [negb]. rewrite Hr. eexists. unfold bind, modify, get.
    change (w_r (on_req ?g w)) with (w_r w). rewrite Hr. split; [reflexivity|]. split; [|exact Hcl].
    apply (waiting_same m w); [done| |done..]. destruct (wt_idle _ _ Hw) as [[o Ho] H1 H2 H3 H4].
    split; cbn; try done. rewrite Ho. by eexists.
  - rewrite Hr. assert (handler_type (str "r-handler") = Some R_HANDLER) as -> by done. rewrite Hd.
    cbn [mbind option_bind]. rewrite Hfn. cbn [default from_option id fst snd].
    destruct (rf_reset _ _ _ _ _ Hrf (w_R w) (wt_alive _ _ Hw)) as (i0 & st1 & v0 & Hp0 & He0 & Ha1).
    pose proof (rf_newEnv _ _ _ _ _ Hrf st1 Ha1) as Ha2. destruct (r_newEnv st1) as [e st2] eqn:Hn. cbn in Ha2.
    destruct (rf_eval _ _ _ _ _ Hrf st2 f e Ha2 Hf) as (st3 & He & Ha3).
    destruct (function_request depth m w d f f i0 (code f) e st1 st2 st3 v0 (val f) (out f))
      as (w' & Hrun & Hi & Hc & Hcon & HR & Hh);
      try done; try apply Hw; [by apply Hrf, Hw|by eapply waiting_ready|by apply Hrf|].
    exists w'. split; [exact Hrun|]. split; [|by rewrite Hc, Hcl].
    split; [done|done|by rewrite HR|]. intros g h Hg. rewrite Hh.
    destruct (decide (g = f)) as [->|Hne].
    + rewrite lookup_insert_eq. intros [= <-]. by right.
    + rewrite lookup_insert_ne by done. by apply (wt_cache _ _ Hw).
Qed.

Lemma requests_answered (depth : nat) m (rs : list (request_rec In)) (p : process (In := In)) :
  waiting m (pr_world p) -> Forall servable rs ->
  exists p', answer_requests (interp (X := X) (S depth)) rs p = Ret (map the_answer rs) p' /\
    waiting m (pr_world p').
Proof.
  revert p. induction rs as [|r rs IH]; intros p Hw Hrs; [by exists p|].
  inversion Hrs as [|? ? Hr Hrs']; subst. cbn [answer_requests map].
  set (w1 := set_w_client [] (set_w_r r (pr_world p))).
  assert (Hw1 : waiting m w1) by (apply (waiting_same m (pr_world p)); [done| |done..]; by destruct (wt_idle _ _ Hw)).
  destruct (request_answered depth m w1 Hw1 Hr eq_refl) as (w2 & Hrun & Hw2 & Hc2).
  change (w_r w1) with r in *.
  set (p1 := Process (pr_config p) (MR_InitStatus p) (MR_pid p) (pr_registry p) (pr_environ p) w2).
  assert (Ha : answer_request (interp (X := X) (S depth)) r p = Ret (the_answer r) p1).
  { unfold answer_request, bind, lift, modify, get. cbn [pr_world]. fold w1. rewrite Hrun. cbn.
    rewrite Hc2. by destruct (the_answer r). }
  destruct (IH p1 Hw2 Hrs') as (p2 & Hall & Hp2). exists p2. split; [|done].
  unfold bind. by rewrite Ha, Hall.
Qed.

(** ** The start *)

(** A section with functions of no package only, [f] the last of them. *)
Definition plain_command (op : command) : bool :=
  match op with
  | RHandler f => match strstr f (str "::") with None => true | Some _ => false end
  | RFileHandler _ | REval _ | RFileEval _ => false
  | _ => true
  end.
Definition last_function (sec : section) : option bytes :=
  foldl (fun f x => match x.2 with RHandler g => Some g | _ => f end) None sec.
Definition names_function (f : bytes) (sec : section) : Prop :=
  forallb (fun x => plain_command x.2) sec = true /\ last_function sec = Some f.

Lemma section_function sec d c d' c' acc f :
  run_section sec d c = Some (d', c') -> forallb (fun x => plain_command x.2) sec = true ->
  d_package d = None -> d_file d = None -> (forall g, acc = Some g -> fun_location g d) ->
  foldl (fun f x => match x.2 with RHandler g => Some g | _ => f end) acc sec = Some f ->
  fun_location f d'.
Proof.
  revert d c acc. induction sec as [|[cmd op] sec IH]; intros d c acc; cbn [run_section foldl forallb snd].
  - intros [= -> ->] _ _ _ Hacc. apply Hacc.
  - destruct op as [g| | | |a|a| |]; cbn [plain_command]; try done.
    2-5: cbn [run_command];
      unfold AP_cmd_REvalOnStartup, AP_cmd_RSourceOnStartup, AP_cmd_ROutputErrors, AP_cmd_RPreserveEnv;
      cbn [andb]; repeat case_match; intros; simplify_eq; by eapply IH.
    cbn [run_command]. unfold AP_cmd_RHandler. destruct (strstr g _) eqn:Eg; [done|]. cbn [andb].
    intros Hrun Hall Hp Hf _. apply (IH _ _ (Some g) Hrun Hall); [done..|]. by intros ? [= <-].
Qed.

Lemma configured_function site c ds c' i sec f :
  configure site c = Some (ds, c') -> site !! i = Some sec -> names_function f sec ->
  exists d, ds !! i = Some d /\ fun_location f d.
Proof.
  intros Hs Hi [Hp Hf]. revert c ds i Hs Hi. induction site as [|sec1 site IH]; intros c ds i; [by destruct i|].
  cbn [configure]. destruct (run_section sec1 _ c) as [[d1 c1]|] eqn:Er; cbn [mbind option_bind]; [|done].
  destruct (configure site c1) as [[ds1 c2]|] eqn:Es; [|done]. intros [= <- <-].
  destruct i as [|i]; cbn; [intros [= ->]; exists d1|by apply (IH c1)].
  split; [done|]. by eapply (section_function sec _ _ _ _ None).
Qed.

Lemma directory_config_last ds ns i d :
  list.last ns = Some i -> ds !! i = Some d -> directory_config ds ns = Some d.
Proof.
  intros [ns' ->]%last_Some Hd. unfold directory_config. rewrite foldl_app. cbn. rewrite Hd.
  by destruct (foldl _ _ _).
Qed.

Context (threaded : option bool) (mutex_ok setenv_ok : bool) (temp_dir : option bytes) (R_HOME : bytes).
Abbreviation child_init ev := (AP_hook_child_init (In := In) ev threaded mutex_ok setenv_ok temp_dir R_HOME APR_SUCCESS).

Lemma started_waiting depth c w pid (p1 : process (In := In)) :
  quiescent None w -> child_init (interp (X := X) depth) pid (new_child c w) = Ret tt p1 ->
  alive (w_R (pr_world p1)) -> waiting (the_mutex threaded) (pr_world p1).
Proof.
  intros Hq Hrun Ha. assert (Hs : started threaded p1).
  { pose proof (init_spec threaded mutex_ok setenv_ok temp_dir R_HOME APR_SUCCESS (interp (X := X) depth)
      (interp_dormant _ depth) eq_refl (set_pid pid (new_child c w)) (conj Hq eq_refl)) as Hi.
    unfold AP_hook_child_init, bind at 1, modify at 1, init_R in Hrun. rewrite bind_get in Hrun.
    cbn [MR_InitStatus set_pid new_child] in Hrun. by rewrite Hrun in Hi. }
  destruct Hs as (Hi & Hc & Hh & _). split; [done..|]. intros f h _. by rewrite Hh.
Qed.

(** ** Claim *)

(** C2: configured, started and serving.  A child process that has read a
    configuration Apache accepts and has started R answers any sequence of requests
    of two kinds, in any order.  A request for a handler that is none of the module's
    is declined.  A request for [r-handler] in sections of which the innermost has,
    of the commands that set a handler, only [RHandler] with functions of no package,
    gets exactly what the last of these functions prints, with the status that its
    value is: for functions that R knows, that only print and give a value, and on a
    system that knows its working directory, gives the lock and makes brigades.
    Between requests the process is idle. *)
Theorem child_serves (depth : nat) (site : list section) (ds : list RApacheDirective)
    (c0 c : config) (w : world In) (pid : Z) (p1 : process (In := In)) (rs : list (request_rec In)) :
  configure site c0 = Some (ds, c) -> quiescent None w ->
  child_init (interp (X := X) (S depth)) pid (new_child c w) = Ret tt p1 -> alive (w_R (pr_world p1)) ->
  Forall (fun r => handler_type (r_handler r) = None \/
    r_handler r = str "r-handler" /\ exists ns i sec f, r_directive r = directory_config ds ns /\
      list.last ns = Some i /\ site !! i = Some sec /\ names_function f sec /\ known f) rs ->
  exists p2, answer_requests (interp (X := X) (S depth)) rs p1 = Ret (map the_answer rs) p2 /\
    idle (the_mutex threaded) (pr_world p2).
Proof.
  intros Hsite Hq Hrun Ha Hrs. pose proof (started_waiting _ _ _ _ _ Hq Hrun Ha) as Hw.
  destruct (requests_answered depth _ rs p1 Hw) as (p2 & Hall & Hw2).
  - eapply Forall_impl; [exact Hrs|]. intros r [Hr|(Hr & ns & i & sec & f & Hd & Hns & Hi & Hf & Hk)]; [by left|right].
    split; [done|]. destruct (configured_function _ _ _ _ _ _ _ Hsite Hi Hf) as (d & Hdi & Hloc).
    exists f, d. by rewrite Hd, (directory_config_last _ _ _ _ Hns Hdi).
  - exists p2. split; [done|apply Hw2].
Qed.

End Serving.
End Child.

(** ** Witness *)

(** A site with code for the start, and a directory in it with two functions and a
    deprecated directive. *)
Definition a_site : list (list (cmd_parms * command)) :=
  [ [(a_cmd, REvalOnStartup (str "library(stats)")); (a_cmd, RHandler (str "pkg::g"))]
  ; [(a_cmd, RHandler (str "g")); (a_cmd, ROutputErrors); (a_cmd, RHandler (str "f"))] ].

Definition no_file (_ : bytes) : bool := false.

(** The package of a function stays with its section: a function named after it is
    looked up in that package. *)
Example package_stays :
  (fun x => map (fun d => (d_package d, d_function d)) x.1) <$>
    configure (T := list_table) no_file 0 [[(a_cmd, RHandler (str "pkg::g")); (a_cmd, RHandler (str "f"))]] config_start =
  Some [(Some (str "pkg"), Some (str "f"))].
Proof. vm_compute. reflexivity. Qed.

Definition a_site_config :=
  default ([], config_start) (configure (T := list_table) no_file 0 a_site config_start).

Definition f_only (f : bytes) : Prop := f = str "f".

(** In [toy_engine hello] the function [f] says hello. *)
Lemma hello_runs_functions :
  runs_functions (R := toy_engine hello) (fun _ => True) f_only (fun _ => 102) (fun _ => [(str "hello", false)])
    (fun _ => RNil).
Proof.
  split; cbn.
  - intros st _. set_solver.
  - intros [] _. exists 46, tt, RNil. by split_and!.
  - done.
  - intros st f _ ->. reflexivity.
  - intros st f e _ _. by exists tt.
  - reflexivity.
Qed.

(** Two requests for the function, and one for a file between them. *)
Definition three_requests : list (request_rec (T := list_table) bytes) :=
  [get_for (str "r-handler") (fun_directive (str "f")); get_for (str "text/html") no_directive;
   get_for (str "r-handler") (fun_directive (str "f"))].

Lemma child_serves_witness :
  let w := set_w_mutex None (toy_world hello (get_for (str "r-handler") no_directive)) in
  exists p1 p2,
    AP_hook_child_init (R := toy_engine hello) (interp (R := toy_engine hello) (X := unit) 2) (Some true) true true
      (Some (str "/tmp")) (str "/usr/lib/R") APR_SUCCESS 7 (new_child a_site_config.2 w) = Ret tt p1 /\
    answer_requests (R := toy_engine hello) (interp (R := toy_engine hello) (X := unit) 2) three_requests p1 =
      Ret [(DONE, str "hello"); (DECLINED, []); (DONE, str "hello")] p2 /\
    idle (Some 0%Z) (pr_world p2).
Proof.
  intros w. destruct (returns_ret (AP_hook_child_init (R := toy_engine hello)
      (interp (R := toy_engine hello) (X := unit) 2) (Some true) true true
      (Some (str "/tmp")) (str "/usr/lib/R") APR_SUCCESS 7 (new_child a_site_config.2 w))
      (fun _ p => MR_InitStatus p)) as ([] & p1 & Hr & _); [vm_compute; reflexivity|].
  destruct (child_serves (R := toy_engine hello) (P := a_platform) (X := unit) no_file 0 (fun _ => True) f_only (fun _ => 102)
    (fun _ => [(str "hello", false)]) (fun _ => RNil) hello_runs_functions eq_refl eq_refl eq_refl
    (Some true) true true (Some (str "/tmp")) (str "/usr/lib/R") 1 a_site a_site_config.1 config_start a_site_config.2 w 7 p1
    three_requests) as (p2 & Hp2 & Hi).
  - reflexivity.
  - by split_and!.
  - exact Hr.
  - exact Logic.I.
  - apply Forall_forall. intros r Hin. unfold three_requests in Hin.
    repeat apply elem_of_cons in Hin as [->|Hin]; [..|by apply elem_of_nil in Hin]; try by left.
    all: right; split; [reflexivity|]; exists [0; 1], 1, (nth 1 a_site []), (str "f"); split_and!; first [reflexivity|split; reflexivity].
  - exists p1, p2. split; [exact Hr|]. split; [exact Hp2|exact Hi].
Defined.
