(* ===== verification/At.v ===== *)
(** * The harness of the unit tests ([src/libapreq2/library/t/at.c], [at.h])

    The checks of a test report TAP lines through a chain of reporters; a failed
    check that is listed as fatal aborts its test.  A function that may jump out
    ([longjmp], [exit]) is a function from the state of the harness to an outcome. *)
From S2P Require Import Prelude Apr Util Cookie.

(** [apr_snprintf(buf, len, ...)] for a text that was formatted: the value and the
    string left in the buffer, which is cut to leave a byte for the NUL.  What it
    returns for a text that is cut differs between versions of APR. *)
Class AprPrintf := {
  apr_snprintf : nat -> bytes -> Z * bytes;
  snprintf_buffer : forall len text, 0 < len -> (apr_snprintf len text).2 = take (len - 1) text;
  snprintf_fits : forall len text,
    length text < len -> (apr_snprintf len text).1 = Z.of_nat (length text);
  snprintf_cut : forall len text,
    0 < len <= length text -> (Z.of_nat len - 1 <= (apr_snprintf len text).1)%Z
}.

(** The stream the reporter writes to. *)
Class AprStream (Out : Type) := {
  apr_file_write_full : Out -> bytes -> Z * Out;
  apr_file_putc : Out -> Byte.byte -> Z * Out;
  apr_file_flush : Out -> Z * Out
}.

Section At.
Context {E : AprErrno} {P : AprPrintf} {Out : Type} {F : AprStream Out}.
Context (apr_strtoi64 : bytes -> Z * bytes).   (** in base 10 *)

(** ** The state *)

(** A [const int *]: the integers from there on.  What lies behind the integers
    that were stored is what the memory happens to hold. *)
Abbreviation ints := (nat -> Z).
Definition ints_next (p : ints) : ints := fun i => p (S i).

(** [report]: the file, or the local reporter number [q] with what it saved. *)
Inductive at_report_t :=
  | ReportFile
  | ReportLocal (q : nat) (saved_report : at_report_t) (saved_fatal : ints)
                (file : bytes) (line : Z).

Record at_t := At {
  current : Z;
  prior : Z;
  name : bytes;
  plan : Z;
  fatal : ints;
  skip : ints;
  todo : ints;
  report : at_report_t;
  flags : Z;
  stream : Out;
  passed : list Z;               (** [passed] of each local reporter *)
  cleanups : list at_report_t;   (** the local reporters a pool will clean up, the last one first *)
  registered : bool              (** [test_cleanup] will run with the pool *)
}.

Definition set_current (c : Z) (t : at_t) : at_t :=
  At c (prior t) (name t) (plan t) (fatal t) (skip t) (todo t) (report t) (flags t) (stream t)
     (passed t) (cleanups t) (registered t).
Definition set_lists (f s d : ints) (t : at_t) : at_t :=
  At (current t) (prior t) (name t) (plan t) f s d (report t) (flags t) (stream t)
     (passed t) (cleanups t) (registered t).
Definition set_report (r : at_report_t) (f : ints) (t : at_t) : at_t :=
  At (current t) (prior t) (name t) (plan t) f (skip t) (todo t) r (flags t) (stream t)
     (passed t) (cleanups t) (registered t).
Definition set_flags (f : Z) (t : at_t) : at_t :=
  At (current t) (prior t) (name t) (plan t) (fatal t) (skip t) (todo t) (report t) f (stream t)
     (passed t) (cleanups t) (registered t).
Definition set_stream (o : Out) (t : at_t) : at_t :=
  At (current t) (prior t) (name t) (plan t) (fatal t) (skip t) (todo t) (report t) (flags t) o
     (passed t) (cleanups t) (registered t).
Definition set_locals (ps : list Z) (cs : list at_report_t) (t : at_t) : at_t :=
  At (current t) (prior t) (name t) (plan t) (fatal t) (skip t) (todo t) (report t) (flags t)
     (stream t) ps cs (registered t).
Definition set_registered (b : bool) (t : at_t) : at_t :=
  At (current t) (prior t) (name t) (plan t) (fatal t) (skip t) (todo t) (report t) (flags t)
     (stream t) (passed t) (cleanups t) b.

(** How a function of the harness ends. *)
Inductive outcome (A : Type) :=
  | Done (a : A) (t : at_t)
  | Jumps (t : at_t)     (** [longjmp( *t->abort)] *)
  | Exits (t : at_t).    (** [exit(-1)] *)
Arguments Done {A}.
Arguments Jumps {A}.
Arguments Exits {A}.

Definition at_m (A : Type) : Type := at_t -> outcome A.
Definition at_ret {A} (a : A) : at_m A := fun t => Done a t.
Definition at_bind {A B} (m : at_m A) (f : A -> at_m B) : at_m B := fun t =>
  match m t with Done a t => f a t | Jumps t => Jumps t | Exits t => Exits t end.

(** ** Reporters *)

(** The status; a failed write reports nothing more. *)
Definition at_report_file_write (msg : bytes) : at_m Z := fun t =>
  let '(s, o) := apr_file_write_full (stream t) msg in
  if negb (s =? APR_SUCCESS)%Z then Done s (set_stream o t)
  else
    let '(s, o) := apr_file_putc o x0a in
    if negb (s =? APR_SUCCESS)%Z then Done s (set_stream o t)
    else let '(s, o) := apr_file_flush o in Done s (set_stream o t).

(** The lines of the checks that an abort leaves out: [while (t->current++ < t->plan)]. *)
Definition skipped_line (t : at_t) : bytes :=
  (apr_snprintf 256 (str "not ok " ++ print_int (prior t + current t)
                     ++ str " # skipped: aborting test " ++ name t)).2.

Fixpoint skip_rest (fuel : nat) (write : bytes -> at_m Z) : at_m unit := fun t =>
  let more := (current t <? plan t)%Z in
  let t := set_current (current t + 1) t in
  if more then
    match fuel with
    | O => Done tt t
    | S fuel => at_bind (write (skipped_line t)) (fun _ => skip_rest fuel write) t
    end
  else Done tt t.

Definition checks_left (t : at_t) : nat := Z.to_nat (plan t - current t).

Definition starts_with (p l : bytes) : bool := bool_decide (take (length p) l = p).

Definition same_local (q : nat) (r : at_report_t) : bool :=
  match r with ReportLocal q' _ _ _ _ => q =? q' | ReportFile => false end.

(** [r->func(r, msg)]; of a local reporter it is [at_report_local_write]. *)
Fixpoint report_func (r : at_report_t) (msg : bytes) : at_m Z :=
  match r with
  | ReportFile => at_report_file_write msg
  | ReportLocal q saved saved_fatal file line =>
      if starts_with (str "not ok") msg then
        at_bind (report_func saved msg) (fun _ t =>
          let t := set_report saved saved_fatal t in
          let t := set_locals (passed t)
                     (List.filter (fun c => negb (same_local q c)) (cleanups t)) t in
          at_bind (skip_rest (checks_left t) (report_func saved)) (fun _ => Jumps) t)
      else if starts_with (str "ok") msg then fun t =>
        let t := set_current (current t - 1) t in
        Done APR_SUCCESS
          (set_locals (<[q := (nth q (passed t) 0 + 1)%Z]> (passed t)) (cleanups t) t)
      else at_ret APR_SUCCESS
  end.

Definition at_report (msg : bytes) : at_m Z := fun t => report_func (report t) msg t.

(** ** Flags *)

Definition AT_FLAG_TRACE (f : Z) : bool := negb (Z.land f 2 =? 0)%Z.
Definition AT_FLAG_CONCISE (f : Z) : bool := negb (Z.land f 1 =? 0)%Z.
Definition AT_FLAG_DEBUG (f : Z) : bool := negb (Z.land f 4 =? 0)%Z.
Definition AT_trace_on : at_m unit := fun t => Done tt (set_flags (Z.lor (flags t) 2) t).
Definition AT_trace_off : at_m unit := fun t => Done tt (set_flags (Z.land (flags t) (Z.lnot 2)) t).
Definition AT_debug_on : at_m unit := fun t => Done tt (set_flags (Z.lor (flags t) 4) t).
Definition AT_debug_off : at_m unit := fun t => Done tt (set_flags (Z.land (flags t) (Z.lnot 4)) t).
Definition AT_concise_on : at_m unit := fun t => Done tt (set_flags (Z.lor (flags t) 1) t).
Definition AT_concise_off : at_m unit := fun t => Done tt (set_flags (Z.land (flags t) (Z.lnot 1)) t).

(** ** Comments *)

(** Each line of the text goes out behind [# ]; the text ends with a line feed.
    An empty rest, where [strchr] would find nothing, is not reached. *)
Fixpoint comment_lines (fuel : nat) (text : bytes) : at_m Z :=
  match fuel, memchr text x0a with
  | S fuel, Some eol =>
      at_bind (at_report (str "# " ++ take eol text)) (fun s =>
        if negb (s =? APR_SUCCESS)%Z || (S eol =? length text) then at_ret s
        else comment_lines fuel (drop (S eol) text))
  | _, _ => at_ret APR_SUCCESS
  end.

(** [text]: [fmt] and its arguments, formatted. *)
Definition at_comment (text : bytes) : at_m Z :=
  let '(rv, b) := apr_snprintf 250 text in
  if (rv <=? 0)%Z then at_ret APR_EINVAL
  else
    let b := if (rv =? 250)%Z then take 249 b ++ str "..." ++ [x0a]
             else if default x00 (last b) =b? x0a then b else b ++ [x0a] in
    comment_lines (length b) b.

Definition at_debug (text : bytes) : at_m unit := fun t =>
  if AT_FLAG_DEBUG (flags t) then at_bind (at_comment text) (fun _ => at_ret tt) t else Done tt t.
Definition at_trace (text : bytes) : at_m unit := fun t =>
  if AT_FLAG_TRACE (flags t) then at_bind (at_comment text) (fun _ => at_ret tt) t else Done tt t.

(** ** Checks *)

(** The text of the line, as [format] is cut and filled in. *)
Definition ok_text (t : at_t) (is_ok is_fatal is_skip is_todo : bool) (label file : bytes)
    (line : Z) : bytes :=
  let number := (if is_ok then str "ok " else str "not ok ")
                ++ print_int (current t + prior t) in
  if AT_FLAG_CONCISE (flags t) then number
  else if is_ok && negb (AT_FLAG_TRACE (flags t)) then number ++ str " - " ++ label
  else
    let comment := if is_fatal && negb is_ok then str "fatal"
                   else if is_todo then str "todo" else if is_skip then str "skip" else str "at" in
    number ++ str " - " ++ label ++ str " # " ++ comment ++ str " (" ++ file ++ str ":"
    ++ print_int line ++ str ") test " ++ print_int (current t) ++ str " in " ++ name t.

(** A list that starts with the current check moves on. *)
Definition listed (p : ints) (c : Z) : bool * ints :=
  if (p 0%nat =? c)%Z then (true, ints_next p) else (false, p).

Definition at_ok (is_ok : bool) (label file : bytes) (line : Z) : at_m unit := fun t =>
  let t := set_current (current t + 1) t in
  let '(is_fatal, f) := listed (fatal t) (current t) in
  let '(is_skip, s) := listed (skip t) (current t) in
  let '(is_todo, d) := listed (todo t) (current t) in
  let t := set_lists f s d t in
  let '(rv, buf) := apr_snprintf 256 (ok_text t is_ok is_fatal is_skip is_todo label file line) in
  if (rv <=? 0)%Z then Exits t
  else
    match memchr (take (Z.to_nat rv) buf) x0a with
    | Some _ => Exits t
    | None =>
        let buf := if (rv =? 250)%Z then buf ++ str "..." else buf in
        at_bind (at_report buf) (fun s t =>
          if negb (s =? APR_SUCCESS)%Z then Exits t
          else if negb is_ok && is_fatal
          then at_bind (skip_rest (checks_left t) at_report) (fun _ => Jumps) t
          else Done tt t) t
    end.

(** [args]: the format of the two values that are compared, and the values as it
    prints them.  The formats the tests use have at most 22 bytes, so the buffer
    of 32 holds what is put in front of them; the second [at_comment] finds the
    second value where the first left the [va_list]. *)
Definition check_trace (label file : bytes) (line : Z) (args : option (bytes * bytes * bytes))
  : at_m unit := fun t =>
  if AT_FLAG_TRACE (flags t) then
    at_bind (at_trace (str "testing: " ++ label ++ str " (" ++ file ++ str ":"
                       ++ print_int line ++ str ")")) (fun _ =>
      match args with
      | None => at_ret tt
      | Some (fmt, lhs, rhs) =>
          at_bind (at_trace (apr_snprintf 32 (str " format: " ++ fmt)).2) (fun _ =>
          at_bind (at_comment (str "   left: " ++ lhs)) (fun _ =>
          at_bind (at_comment (str "  right: " ++ rhs)) (fun _ => at_ret tt)))
      end) t
  else Done tt t.

Definition at_check (is_ok : bool) (label file : bytes) (line : Z)
    (args : option (bytes * bytes * bytes)) : at_m unit :=
  at_bind (check_trace label file line args) (fun _ => at_ok is_ok label file line).

Fixpoint at_skip (n : nat) (reason file : bytes) (line : Z) : at_m unit :=
  match n with
  | O => at_ret tt
  | S n => fun t =>
      let t := set_current (current t + 1) t in
      at_bind (at_report (apr_snprintf 256
        (str "not ok " ++ print_int (current t + prior t) ++ str " - " ++ name t ++ str " ("
         ++ print_int (current t) ++ str ") #skipped: " ++ reason ++ str " (" ++ file ++ str ":"
         ++ print_int line ++ str ")")).2)
        (fun _ => at_skip n reason file line) t
  end.

(** ** Local reporters *)

(** [AT_localize(p)]: the cleanup is registered on [p]. *)
Definition at_report_local (stack : ints) (file : bytes) (line : Z) : at_m unit := fun t =>
  let saved := if (fatal t 0%nat =? current t + 1)%Z then ints_next (fatal t) else fatal t in
  let r := ReportLocal (length (passed t)) (report t) saved file line in
  let dummy_fatal : ints := fun i => match i with O => 0%Z | S i => stack i end in
  Done tt (set_locals (passed t ++ [0%Z]) (r :: cleanups t) (set_report r dummy_fatal t)).

Definition report_local_cleanup (r : at_report_t) : at_m unit := fun t =>
  match r with
  | ReportFile => Done tt t
  | ReportLocal q saved saved_fatal file line =>
      let label := (apr_snprintf 32 (str "collected " ++ print_int (nth q (passed t) 0%Z)
                                     ++ str " passing tests")).2 in
      at_ok true label file line (set_report saved saved_fatal t)
  end.

(** What clearing the pool runs. *)
Fixpoint run_cleanups (cs : list at_report_t) : at_m unit :=
  match cs with
  | [] => at_ret tt
  | c :: cs => at_bind (report_local_cleanup c) (fun _ => run_cleanups cs)
  end.
Definition apr_pool_clear : at_m unit := fun t =>
  run_cleanups (cleanups t) (set_locals (passed t) [] t).

(** ** Running tests *)

Record at_test_t := AtTest {
  t_name : bytes;
  t_func : at_m unit;
  t_plan : Z;
  t_fatals : option bytes;
  t_skips : option bytes;
  t_todos : option bytes
}.

Fixpoint skip_to_digit (spec : bytes) : bytes :=
  match spec with
  | c :: rest => if isdigit c then spec else skip_to_digit rest
  | [] => []
  end.

(** The integers pushed; [None] when the loop does not end within the fuel. *)
Fixpoint at_list_loop (fuel : nat) (spec : bytes) (prev : Z) : option (list Z) :=
  match fuel with
  | O => None
  | S fuel =>
      let '(n, spec) := apr_strtoi64 (skip_to_digit spec) in
      let n := int32 n in
      if (n <=? prev)%Z then cons n <$> at_list_loop fuel spec n else Some [n]
  end.

(** [stack]: what the array held, or the memory behind what was pushed. *)
Definition at_list (fuel : nat) (stack : ints) (spec : bytes) : option ints :=
  (fun l i => default (stack i) (l !! i)) <$> at_list_loop fuel spec 0.

(** The list of a specification, [&dummy] for none. *)
Definition spec_list (fuel : nat) (stack : ints) (spec : option bytes) : option ints :=
  match spec with
  | Some spec => at_list fuel stack spec
  | None => Some (fun i => match i with O => 0%Z | S i => stack i end)
  end.

(** [None]: a list of the test is never built.  [APR_EGENERAL] is APR's. *)
Definition at_run (APR_EGENERAL : Z) (fuel : nat) (stack : ints) (test : at_test_t) (t : at_t)
  : option (outcome Z) :=
  let t := At 0 (prior t + plan t) (t_name test) (t_plan test) (fatal t) (skip t) (todo t)
              (report t) (flags t) (stream t) (passed t) (cleanups t) (registered t) in
  f ← spec_list fuel stack (t_fatals test);
  s ← spec_list fuel stack (t_skips test);
  d ← spec_list fuel stack (t_todos test);
  Some (match t_func test (set_lists f s d t) with
        | Done _ t => Done APR_SUCCESS t
        | Jumps t => Done APR_EGENERAL t
        | Exits t => Exits t
        end).

(** [apr_pcalloc] sets the counters to 0 and the pointers to NULL. *)
Definition at_create (flags : Z) (out : Out) (stack : ints) : at_t :=
  At 0 0 [] 0 stack stack stack ReportFile flags out [] [] true.

Definition at_begin (total : Z) : at_m Z :=
  at_report (apr_snprintf 32 (str "1.." ++ print_int total)).2.

Definition test_cleanup : at_m Z := fun t =>
  at_report (if (current t <? plan t)%Z then str "Bail out!" else str "END") t.

Definition at_end : at_m Z := fun t => test_cleanup (set_registered false t).

End At.
Arguments Done {Out A}.
Arguments Jumps {Out A}.
Arguments Exits {Out A}.
Arguments at_t : clear implicits.
Arguments at_m : clear implicits.
Arguments at_test_t : clear implicits.
Arguments AtTest {Out}.

(** * Properties *)

#[export] Program Instance cutting_printf : AprPrintf := {|
  apr_snprintf len text :=
    (Z.of_nat (if length text <? len then length text else len - 1), take (len - 1) text)
|}.
Next Obligation. done. Qed.
Next Obligation.
  intros len text H. cbv beta. destruct (Nat.ltb_spec (length text) len); cbn [fst]; lia.
Qed.
Next Obligation.
  intros len text H. cbv beta. destruct (Nat.ltb_spec (length text) len); cbn [fst]; lia.
Qed.

(** Streams that take everything. *)
Class WorkingStream (Out : Type) {F : AprStream Out} := {
  written : Out -> bytes;
  write_works : forall o m, exists o',
    apr_file_write_full o m = (APR_SUCCESS, o') /\ written o' = written o ++ m;
  putc_works : forall o c, exists o',
    apr_file_putc o c = (APR_SUCCESS, o') /\ written o' = written o ++ [c];
  flush_works : forall o, exists o', apr_file_flush o = (APR_SUCCESS, o') /\ written o' = written o
}.

#[export] Instance bytes_stream : AprStream bytes := {|
  apr_file_write_full o m := (APR_SUCCESS, o ++ m);
  apr_file_putc o c := (APR_SUCCESS, o ++ [c]);
  apr_file_flush o := (APR_SUCCESS, o)
|}.
#[export] Program Instance bytes_stream_works : WorkingStream bytes := {| written o := o |}.
Next Obligation. by eexists. Qed.
Next Obligation. by eexists. Qed.
Next Obligation. by eexists. Qed.

(** ** Lines *)

Definition one_line (l : bytes) : bool := forallb (fun c => negb (c =b? x0a)) l.

Lemma one_line_app a b : one_line (a ++ b) = one_line a && one_line b.
Proof. apply forallb_app. Qed.

Lemma one_line_take n l : one_line l = true -> one_line (take n l) = true.
Proof.
  intros H. rewrite <- (take_drop n l), one_line_app in H. by apply andb_true_iff in H as [-> _].
Qed.

Lemma memchr_one_line l : memchr l x0a = None <-> one_line l = true.
Proof.
  induction l as [|c l IH]; cbn; [done|]. destruct (c =b? x0a); cbn; [done|].
  rewrite <- IH. by destruct (memchr l x0a).
Qed.

Lemma digits_loop_line fuel n acc : one_line acc = true -> one_line (digits_loop fuel n acc) = true.
Proof.
  revert n acc. induction fuel as [|fuel IH]; intros n acc Ha; cbn [digits_loop]; [done|].
  assert (Hd : one_line (bz (zb "0" + n mod 10) :: acc) = true).
  { cbn [one_line forallb]. apply andb_true_iff. split; [|done].
    apply negb_true_iff, byte_eqb_neq. intros Hc. apply (f_equal zb) in Hc.
    rewrite zb_bz in Hc. change (zb "0") with 48%Z in Hc. change (zb x0a) with 10%Z in Hc.
    pose proof (Z.mod_pos_bound n 10 eq_refl). rewrite Z.mod_small in Hc; lia. }
  destruct (n <? 10)%Z; [done|]. by apply IH.
Qed.

Lemma digits_loop_length fuel n acc : length (digits_loop fuel n acc) <= fuel + length acc.
Proof.
  revert n acc. induction fuel as [|fuel IH]; intros n acc; cbn [digits_loop]; [done|].
  destruct (n <? 10)%Z; cbn; [lia|]. etransitivity; [apply IH|]. cbn. lia.
Qed.

Lemma print_int_line n : one_line (print_int n) = true.
Proof.
  unfold print_int. destruct (n <? 0)%Z; [|by apply digits_loop_line].
  change (one_line (digits_loop 20 (- n) []) = true). by apply digits_loop_line.
Qed.

Lemma print_int_length n : length (print_int n) <= 21.
Proof.
  unfold print_int. destruct (n <? 0)%Z; cbn [length]; pose proof (digits_loop_length 20);
    [specialize (H (- n)%Z [])|specialize (H n [])]; cbn [length] in H; lia.
Qed.

(** The line of check number [c]. *)
Definition ok_word (ok : bool) : bytes := if ok then str "ok " else str "not ok ".
Definition tap_line (c : Z) (ok : bool) (l : bytes) : Prop :=
  one_line l = true /\ exists rest, l = ok_word ok ++ print_int c ++ rest.

(** The lines of the checks from number [c] on, with their results; comments may
    stand between them. *)
Inductive tap_lines : Z -> list bool -> list bytes -> Prop :=
  | tap_nil c : tap_lines c [] []
  | tap_comment c rs l ls :
      one_line l = true -> tap_lines c rs ls -> tap_lines c rs ((str "# " ++ l) :: ls)
  | tap_check c ok rs l ls :
      tap_line c ok l -> tap_lines (c + 1) rs ls -> tap_lines c (ok :: rs) (l :: ls).
#[export] Hint Constructors tap_lines : core.

Lemma tap_app c a b la lb :
  tap_lines c a la -> tap_lines (c + Z.of_nat (length a)) b lb -> tap_lines c (a ++ b) (la ++ lb).
Proof.
  intros Ha. revert b lb. induction Ha as [c|c rs l ls Hl _ IH|c ok rs l ls Hl _ IH]; intros b lb Hb.
  - by rewrite Z.add_0_r in Hb.
  - apply tap_comment; auto.
  - cbn [app]. constructor; [done|]. apply IH. cbn [length] in Hb.
    by rewrite Nat2Z.inj_succ, <- Z.add_1_l, Z.add_assoc in Hb.
Qed.

Lemma tap_one c ok l : tap_line c ok l -> tap_lines c [ok] [l].
Proof. auto. Qed.

(** A line cut to a buffer keeps its number. *)
Lemma tap_line_cut n c ok rest : 28 <= n -> one_line rest = true ->
  tap_line c ok (take n (ok_word ok ++ print_int c ++ rest)).
Proof.
  intros Hn Hr. split.
  - apply one_line_take. rewrite !one_line_app, print_int_line, Hr. by destruct ok.
  - exists (take (n - length (ok_word ok ++ print_int c)) rest).
    rewrite app_assoc, take_app_ge; [by rewrite <- app_assoc|].
    rewrite length_app. pose proof (print_int_length c). destruct ok; cbn; lia.
Qed.

Lemma tap_line_more c ok l m : tap_line c ok l -> one_line m = true -> tap_line c ok (l ++ m).
Proof.
  intros [Hl [rest ->]] Hm. split; [by rewrite one_line_app, Hl|].
  exists (rest ++ m). by rewrite <- !app_assoc.
Qed.

Lemma tap_starts c ok l : tap_line c ok l ->
  starts_with (str "not ok") l = negb ok /\ starts_with (str "ok") l = ok.
Proof.
  intros [_ [rest ->]]. destruct ok; cbn [ok_word]; split;
    first [apply bool_decide_eq_true_2; reflexivity|apply bool_decide_eq_false_2; intros H; discriminate H].
Qed.

(** ** Functions of the harness on a stream that works *)

Section Runs.
Context {E : AprErrno} {P : AprPrintf} {Out : Type} {F : AprStream Out} {WS : WorkingStream Out}.
Context (apr_strtoi64 : bytes -> Z * bytes).
Abbreviation state := (at_t Out).

Definition nl (l : bytes) : bytes := l ++ [x0a].
Definition prints (t t' : state) (ls : list bytes) : Prop :=
  written (stream t') = written (stream t) ++ flat_map nl ls.

Lemma prints_none t t' : stream t' = stream t -> prints t t' [].
Proof. unfold prints. intros ->. by rewrite app_nil_r. Qed.

Lemma prints_app t1 t2 t3 a b : prints t1 t2 a -> prints t2 t3 b -> prints t1 t3 (a ++ b).
Proof. unfold prints. intros H1 ->. by rewrite H1, flat_map_app, app_assoc. Qed.

Lemma file_write msg (t : state) : exists o,
  at_report_file_write msg t = Done APR_SUCCESS (set_stream o t) /\ prints t (set_stream o t) [msg].
Proof.
  unfold at_report_file_write, prints.
  destruct (write_works (stream t) msg) as (o1 & -> & H1). cbn.
  destruct (putc_works o1 x0a) as (o2 & -> & H2). cbn.
  destruct (flush_works o2) as (o3 & -> & H3).
  exists o3. split; [done|]. cbn. rewrite H3, H2, H1. unfold nl. by rewrite app_nil_r, app_assoc.
Qed.

(** A test that writes to the stream; what a check does not change. *)
Record settled (t : state) : Prop := Settled {
  set_file : report t = ReportFile;
  set_name : one_line (name t) = true;
  set_clean : cleanups t = []
}.
Record frame (t t' : state) : Prop := Frame {
  fr_prior : prior t' = prior t;
  fr_name : name t' = name t;
  fr_plan : plan t' = plan t
}.

Lemma frame_refl t : frame t t.
Proof. done. Qed.
Lemma frame_trans t1 t2 t3 : frame t1 t2 -> frame t2 t3 -> frame t1 t3.
Proof. intros [? ? ?] [? ? ?]. constructor; congruence. Qed.

(** [t'] is [t] after lines were printed. *)
Definition moved (t t' : state) (ls : list bytes) : Prop :=
  frame t t' /\ settled t' /\ prints t t' ls.

Lemma moved_trans t1 t2 t3 a b : moved t1 t2 a -> moved t2 t3 b -> moved t1 t3 (a ++ b).
Proof.
  intros (F1 & _ & P1) (F2 & S2 & P2). split_and!; [by eapply frame_trans|done|by eapply prints_app].
Qed.

Lemma moved_refl t : settled t -> moved t t [].
Proof. intros Ht. split_and!; [done|done|by apply prints_none]. Qed.

(** The rest of the plan, once a test is given up. *)
Lemma skip_rest_file (wr : bytes -> at_m Out Z) n t :
  (forall msg t, report t = ReportFile -> wr msg t = at_report_file_write msg t) ->
  settled t -> n = checks_left t ->
  exists t' ls, skip_rest n wr t = Done tt t' /\ moved t t' ls /\
    tap_lines (prior t + current t + 1) (replicate n false) ls.
Proof.
  intros Hwr. revert t. induction n as [|n IH]; intros t Ht Hn; cbn [skip_rest];
    unfold checks_left in Hn.
  - exists (set_current (current t + 1)%Z t), [].
    rewrite (proj2 (Z.ltb_ge _ _)) by lia. split; [done|].
    split; [|constructor]. split_and!; [done|by destruct Ht|by apply prints_none].
  - rewrite (proj2 (Z.ltb_lt _ _)) by lia. set (t1 := set_current (current t + 1)%Z t).
    assert (Ht1 : settled t1) by by destruct Ht.
    unfold at_bind. rewrite Hwr by apply Ht1.
    destruct (file_write (skipped_line t1) t1) as (o & -> & Hp).
    assert (Ht2 : settled (set_stream o t1)) by by destruct Ht.
    destruct (IH (set_stream o t1) Ht2) as (t' & ls & Hr & Hm & Hls); [unfold checks_left; cbn; lia|].
    exists t', (skipped_line t1 :: ls). split; [exact Hr|]. split.
    + apply (moved_trans _ (set_stream o t1) _ [skipped_line t1]); [|exact Hm]. by split_and!.
    + cbn [replicate]. constructor.
      * unfold skipped_line. rewrite snprintf_buffer by lia.
        replace (prior t + current t + 1)%Z with (prior t1 + current t1)%Z by (cbn; lia).
        apply (tap_line_cut 255 _ false); [lia|].
        rewrite one_line_app. change (name t1) with (name t). by destruct Ht as [_ -> _].
      * cbn in Hls. by rewrite !Z.add_assoc in Hls.
Qed.

(** ** What a part of a test does

    Straight on the stream: it makes its checks, or it gives the test up and the
    rest of the plan is reported as failed. *)
Definition left_out (t : state) (n : nat) : list bool := replicate (checks_left t - n) false.

Definition ran (rs : list bool) (t : state) (o : outcome unit) : Prop :=
  match o with
  | Done _ t' =>
      current t' = (current t + Z.of_nat (length rs))%Z /\
      exists ls, moved t t' ls /\ tap_lines (prior t + current t + 1) rs ls
  | Jumps t' =>
      exists k ls, rs !! k = Some false /\ moved t t' ls /\
        tap_lines (prior t + current t + 1) (take (S k) rs ++ left_out t (S k)) ls
  | Exits _ => False
  end.

(** The first local reporter, on top of the stream. *)
Record local (t : state) : Prop := Local {
  loc_report : exists q sf file line,
    report t = ReportLocal q ReportFile sf file line /\ q < length (passed t);
  loc_clean : cleanups t = [report t];
  loc_name : one_line (name t) = true
}.

(** Under a local reporter checks that pass only count; one that fails gives the
    test up, and what the reporter had saved is back. *)
Definition ran_local (rs : list bool) (t : state) (o : outcome unit) : Prop :=
  match o with
  | Done _ t' =>
      Forall (fun r => r = true) rs /\ frame t t' /\ local t' /\ report t' = report t /\
      current t' = current t /\ stream t' = stream t
  | Jumps t' =>
      false ∈ rs /\ exists ls, moved t t' ls /\
        tap_lines (prior t + current t + 1) (left_out t 0) ls
  | Exits _ => False
  end.

Definition works (rs : list bool) (m : at_m Out unit) : Prop :=
  forall t, settled t -> (current t + Z.of_nat (length rs) <= plan t)%Z -> ran rs t (m t).
Definition works_local (rs : list bool) (m : at_m Out unit) : Prop :=
  forall t, local t -> (current t < plan t)%Z -> ran_local rs t (m t).

Lemma works_bind a b m f :
  works a m -> works b (f tt) -> works (a ++ b) (at_bind m f).
Proof.
  intros Ha Hb t Ht Hn. rewrite length_app, Nat2Z.inj_add in Hn. unfold at_bind.
  specialize (Ha t Ht ltac:(lia)). destruct (m t) as [[] t1|t1|t1]; cbn in Ha; [|..].
  - destruct Ha as (Hc & la & Hm & Hla). pose proof Hm as ([Fp Fn Fl] & S1 & _).
    specialize (Hb t1 S1 ltac:(lia)).
    assert (Hi : (prior t1 + current t1 + 1 =
                  prior t + current t + 1 + Z.of_nat (length a))%Z) by lia.
    destruct (f tt t1) as [[] t2|t2|t2]; cbn in Hb |- *; [| |done].
    + destruct Hb as (Hc2 & lb & Hm2 & Hlb). rewrite Hi in Hlb.
      split; [rewrite length_app; lia|]. exists (la ++ lb).
      split; [by eapply moved_trans|by apply tap_app].
    + destruct Hb as (k & lb & Hk & Hm2 & Hlb). rewrite Hi in Hlb.
      exists (length a + k), (la ++ lb). split_and!.
      * rewrite lookup_app_r by lia. by replace (length a + k - length a) with k by lia.
      * by eapply moved_trans.
      * replace (take (S (length a + k)) (a ++ b)) with (a ++ take (S k) b)
          by (rewrite take_app_ge by lia; do 2 f_equal; lia).
        rewrite <- app_assoc. apply tap_app; [done|].
        replace (left_out t (S (length a + k))) with (left_out t1 (S k)); [done|].
        unfold left_out, checks_left. f_equal. lia.
  - destruct Ha as (k & la & Hk & Hm & Hla). exists k, la. split_and!; [by apply lookup_app_l_Some|done|].
    rewrite take_app_le; [done|]. apply lookup_lt_Some in Hk. lia.
  - done.
Qed.

Lemma works_local_bind a b m f :
  works_local a m -> works_local b (f tt) -> works_local (a ++ b) (at_bind m f).
Proof.
  intros Ha Hb t Ht Hn. unfold at_bind.
  specialize (Ha t Ht Hn). destruct (m t) as [[] t1|t1|t1]; cbn in Ha; [|..].
  - destruct Ha as (Hr & [Fp Fn Fl] & L1 & Hrep & Hc & Hs).
    specialize (Hb t1 L1 ltac:(lia)).
    destruct (f tt t1) as [[] t2|t2|t2]; cbn in Hb |- *; [| |done].
    + destruct Hb as (Hr2 & F2 & L2 & Hrep2 & Hc2 & Hs2).
      split_and!; [by apply Forall_app|by eapply frame_trans|done|congruence|congruence|congruence].
    + destruct Hb as (Hin & ls & (F2 & S2 & P2) & Hls). split; [apply elem_of_app; by right|].
      exists ls. split.
      * split_and!; [by eapply frame_trans|done|]. unfold prints in *. by rewrite P2, Hs.
      * unfold left_out, checks_left in *. by rewrite Fp, Hc, Fl in Hls.
  - destruct Ha as (Hin & Ha). split; [apply elem_of_app; by left|done].
  - done.
Qed.

(** ** A single check *)

Lemma ok_text_tap t ok fa sk td label file line :
  one_line (name t) = true -> one_line label = true -> one_line file = true ->
  exists rest, ok_text (Out := Out) t ok fa sk td label file line =
    ok_word ok ++ print_int (prior t + current t) ++ rest /\ one_line rest = true.
Proof.
  intros Hn Hl Hf. unfold ok_text. rewrite (Z.add_comm (current t)).
  change (if ok then str "ok " else str "not ok ") with (ok_word ok).
  destruct (AT_FLAG_CONCISE _).
  { exists []. by rewrite app_nil_r. }
  destruct (ok && _); rewrite <- !app_assoc; eexists; (split; [done|]);
    rewrite !one_line_app, ?Hn, ?Hl, ?Hf, ?print_int_line; [done|].
  by destruct (fa && _), td, sk.
Qed.

(** The line a check reports is numbered and whole, and the program goes on. *)
Lemma ok_buffer c ok rest : one_line rest = true ->
  let r := apr_snprintf 256 (ok_word ok ++ print_int c ++ rest) in
  (r.1 <=? 0)%Z = false /\ memchr (take (Z.to_nat r.1) r.2) x0a = None /\
  tap_line c ok (if (r.1 =? 250)%Z then r.2 ++ str "..." else r.2).
Proof.
  intros Hr r. subst r.
  set (text := ok_word ok ++ print_int c ++ rest).
  pose proof (snprintf_fits 256 text) as Hfit. pose proof (snprintf_cut 256 text) as Hcut.
  rewrite (snprintf_buffer 256 text) by lia.
  assert (Hl : tap_line c ok (take (256 - 1) text)) by (apply tap_line_cut; [lia|done]).
  assert (3 <= length text) by (unfold text; rewrite length_app; destruct ok; cbn; lia).
  split_and!.
  - apply Z.leb_gt. destruct (Nat.lt_ge_cases (length text) 256); lia.
  - apply memchr_one_line, one_line_take, Hl.
  - destruct (_ =? 250)%Z; [|done]. by apply tap_line_more.
Qed.

Lemma at_ok_step ok label file line (t : state) :
  one_line (name t) = true -> one_line label = true -> one_line file = true ->
  exists f s d l fa, tap_line (prior t + current t + 1) ok l /\
    at_ok ok label file line t =
    at_bind (at_report l) (fun s t =>
      if negb (s =? APR_SUCCESS)%Z then Exits t
      else if negb ok && fa then at_bind (skip_rest (checks_left t) at_report) (fun _ => Jumps) t
      else Done tt t) (set_lists f s d (set_current (current t + 1) t)).
Proof.
  intros Hn Hl Hf. unfold at_ok. set (t1 := set_current (current t + 1)%Z t).
  destruct (listed (fatal t1) (current t1)) as [fa f].
  destruct (listed (skip t1) (current t1)) as [sk s].
  destruct (listed (todo t1) (current t1)) as [td d].
  set (t2 := set_lists f s d t1).
  destruct (ok_text_tap t2 ok fa sk td label file line Hn Hl Hf) as (rest & -> & Hr).
  destruct (ok_buffer (prior t2 + current t2) ok rest Hr) as (H1 & H2 & H3).
  destruct (apr_snprintf 256 _) as [rv buf]. cbn [fst snd] in *. rewrite H1, H2.
  exists f, s, d. eexists. exists fa. split; [|reflexivity].
  by replace (prior t + current t + 1)%Z with (prior t2 + current t2)%Z by (cbn; lia).
Qed.

Lemma ok_works ok label file line : one_line label = true -> one_line file = true ->
  works [ok] (at_ok ok label file line).
Proof.
  intros Hl Hf t Ht Hn. cbn [length] in Hn.
  destruct (at_ok_step ok label file line t (set_name _ Ht) Hl Hf) as (f & s & d & l & fa & Htap & ->).
  set (t1 := set_lists f s d (set_current (current t + 1)%Z t)).
  assert (H1 : settled t1) by by destruct Ht.
  unfold at_bind at 1. unfold at_report at 1. rewrite (set_file _ H1). cbn [report_func].
  destruct (file_write l t1) as (o & -> & Hp). cbn [negb Z.eqb APR_SUCCESS].
  set (t2 := set_stream o t1). assert (H2 : settled t2) by by destruct Ht.
  assert (Hm : moved t t2 [l]) by by split_and!.
  destruct (negb ok && fa) eqn:Hg.
  - apply andb_true_iff in Hg as [Hok _]. destruct ok; [done|].
    destruct (skip_rest_file at_report (checks_left t2) t2) as (t3 & ls & Hs & Hm3 & Hls);
      [intros msg t' Ht'; unfold at_report; by rewrite Ht'|done|done|].
    unfold at_bind. rewrite Hs. exists 0, (l :: ls). split; [done|].
    split; [by apply (moved_trans _ t2 _ [l])|]. cbn [take app]. constructor; [done|].
    replace (left_out t 1) with (replicate (checks_left t2) false)
      by (unfold left_out, checks_left; f_equal; cbn; lia).
    by replace (prior t + current t + 1 + 1)%Z with (prior t2 + current t2 + 1)%Z by (cbn; lia).
  - split; [done|]. exists [l]. split; [done|]. by apply tap_one.
Qed.

(** A message under the local reporter. *)
Lemma local_report (t : state) q sf file line l :
  report t = ReportLocal q ReportFile sf file line ->
  at_report l t =
  if starts_with (str "not ok") l then
    at_bind (at_report_file_write l) (fun _ t =>
      let t := set_report ReportFile sf t in
      let t := set_locals (passed t)
                 (List.filter (fun c => negb (same_local q c)) (cleanups t)) t in
      at_bind (skip_rest (checks_left t) at_report_file_write) (fun _ => Jumps) t) t
  else if starts_with (str "ok") l then
    let t := set_current (current t - 1) t in
    Done APR_SUCCESS (set_locals (<[q := (nth q (passed t) 0 + 1)%Z]> (passed t)) (cleanups t) t)
  else Done APR_SUCCESS t.
Proof. intros Hr. unfold at_report. rewrite Hr. cbn [report_func]. by repeat case_match. Qed.

(** A line that says [not ok], under the local reporter, gives the test up. *)
Lemma local_fails (t : state) l : local t -> (current t <= plan t)%Z -> 
  tap_line (prior t + current t) false l ->
  exists t' ls, at_report l t = Jumps t' /\ moved t t' ls /\
    tap_lines (prior t + current t) (false :: replicate (checks_left t) false) ls.
Proof.
  intros [(q & sf & file & line & Hr & _) Hc Hn] Hcp Htap.
  rewrite (local_report t q sf file line l Hr). destruct (tap_starts _ _ _ Htap) as [-> _].
  cbn [negb]. unfold at_bind at 1. destruct (file_write l t) as (o & -> & Hp).
  match goal with |- context [at_bind _ _ ?x] => set (t1 := x) end.
  assert (H1 : settled t1).
  { constructor; [done|done|]. cbn. rewrite Hc, Hr. cbn. by rewrite Nat.eqb_refl. }
  destruct (skip_rest_file at_report_file_write (checks_left t1) t1) as (t2 & ls & Hs & Hm & Hls);
    [done|done|done|].
  unfold at_bind. rewrite Hs. exists t2, (l :: ls). split; [done|].
  split; [apply (moved_trans _ t1 _ [l]); [by split_and!|done]|]. by constructor.
Qed.

Lemma ok_works_local ok label file line : one_line label = true -> one_line file = true ->
  works_local [ok] (at_ok ok label file line).
Proof.
  intros Hl Hf t Ht Hn.
  destruct (at_ok_step ok label file line t (loc_name _ Ht) Hl Hf) as (f & s & d & l & fa & Htap & ->).
  set (t1 := set_lists f s d (set_current (current t + 1)%Z t)).
  assert (H1 : local t1) by by destruct Ht.
  unfold at_bind. destruct ok.
  - destruct (loc_report _ H1) as (q & sf & fi & ln & Hr & Hq).
    rewrite (local_report t1 q sf fi ln l Hr). destruct (tap_starts _ _ _ Htap) as [-> ->].
    cbn [negb andb Z.eqb APR_SUCCESS]. split; [by repeat constructor|]. split; [done|].
    split; [|split_and!; [done|cbn; lia|done]].
    destruct H1 as [_ Hcl Hnm]. constructor; [|done|done].
    exists q, sf, fi, ln. split; [done|]. cbn. by rewrite length_insert.
  - destruct (local_fails t1 l H1) as (t2 & ls & -> & Hm & Hls); [cbn; lia| |].
    { by replace (prior t1 + current t1)%Z with (prior t + current t + 1)%Z by (cbn; lia). }
    split; [by constructor|]. exists ls.
    split; [by destruct Hm as ([? ? ?] & ? & ?)|].
    replace (left_out t 0) with (false :: replicate (checks_left t1) false)
      by (unfold left_out, checks_left; rewrite <- (replicate_S _ false); f_equal; cbn; lia).
    by replace (prior t + current t + 1)%Z with (prior t1 + current t1)%Z by (cbn; lia).
Qed.

(** ** Comments *)

(** What prints comments at most. *)
Definition quiet {A} (m : at_m Out A) : Prop :=
  (forall t, settled t -> exists a t' ls, m t = Done a t' /\ current t' = current t /\
     moved t t' ls /\ forall c, tap_lines c [] ls) /\
  (forall t, local t -> exists a, m t = Done a t).

Lemma quiet_ret {A} (a : A) : quiet (at_ret a).
Proof.
  split; [|by eexists]. intros t Ht. exists a, t, []. split_and!; try done. by apply moved_refl.
Qed.

Lemma quiet_bind {A B} (m : at_m Out A) (f : A -> at_m Out B) :
  quiet m -> (forall a, quiet (f a)) -> quiet (at_bind m f).
Proof.
  intros [Hm Hml] Hf. split; intros t Ht.
  - destruct (Hm t Ht) as (a & t1 & la & E1 & C1 & M1 & L1).
    destruct (proj1 (Hf a) t1 (proj1 (proj2 M1))) as (b & t2 & lb & E2 & C2 & M2 & L2).
    exists b, t2, (la ++ lb). unfold at_bind. rewrite E1, E2.
    split_and!; [done|congruence|by eapply moved_trans|].
    intros c. apply (tap_app c [] []); [done|]. by rewrite Z.add_0_r.
  - destruct (Hml t Ht) as (a & E1). destruct (proj2 (Hf a) t Ht) as (b & E2).
    exists b. unfold at_bind. by rewrite E1.
Qed.

Lemma quiet_report l : one_line l = true -> quiet (at_report (str "# " ++ l)).
Proof.
  intros Hl. split; intros t Ht.
  - unfold at_report. rewrite (set_file _ Ht).
    destruct (file_write (str "# " ++ l) t) as (o & E1 & Hp).
    exists APR_SUCCESS, (set_stream o t), [str "# " ++ l].
    split_and!; try done; [by destruct Ht|]. intros c. by constructor.
  - destruct (loc_report _ Ht) as (q & sf & fi & ln & Hr & _).
    exists APR_SUCCESS. by rewrite (local_report t q sf fi ln _ Hr).
Qed.

Lemma quiet_lines fuel text : quiet (comment_lines fuel text).
Proof.
  revert text. induction fuel as [|fuel IH]; intros text; cbn [comment_lines]; [apply quiet_ret|].
  destruct (memchr text x0a) as [eol|] eqn:He; [|apply quiet_ret].
  apply quiet_bind; [|intros s; destruct (_ || _); [apply quiet_ret|apply IH]].
  apply quiet_report, memchr_one_line. revert eol He.
  induction text as [|c text IHt]; intros eol; cbn [memchr]; [done|].
  destruct (c =b? x0a) eqn:Ec; [by intros [= <-]|].
  destruct (memchr text x0a) as [n|]; cbn; [|done]. intros [= <-]. cbn.
  by rewrite Ec, IHt.
Qed.

Lemma quiet_comment text : quiet (at_comment text).
Proof.
  unfold at_comment. destruct (apr_snprintf 250 text) as [rv b].
  destruct (rv <=? 0)%Z; [apply quiet_ret|apply quiet_lines].
Qed.

Lemma quiet_if {A} (b : state -> bool) (m n : at_m Out A) :
  quiet m -> quiet n -> quiet (fun t => if b t then m t else n t).
Proof. intros [? ?] [? ?]. split; intros t Ht; destruct (b t); auto. Qed.

Lemma quiet_trace text : quiet (at_trace text).
Proof.
  apply (quiet_if (fun t => AT_FLAG_TRACE (flags t)) (at_bind (at_comment text) (fun _ => at_ret tt))
           (at_ret tt)); [|apply quiet_ret].
  apply quiet_bind; [apply quiet_comment|intros; apply quiet_ret].
Qed.

Lemma quiet_works (m : at_m Out unit) : quiet m -> works [] m /\ works_local [] m.
Proof.
  intros [Hm Hl]. split; intros t Ht _.
  - destruct (Hm t Ht) as ([] & t' & ls & -> & Hc & Hmv & Hls).
    split; [cbn; lia|]. by exists ls.
  - destruct (Hl t Ht) as ([] & ->). by split_and!.
Qed.

(** ** Tests made of checks *)

Lemma works_ext rs m m' : (forall t, m t = m' t) ->
  works rs m /\ works_local rs m -> works rs m' /\ works_local rs m'.
Proof.
  intros He [H1 H2]. split; intros t Ht Hn; rewrite <- He; auto.
Qed.

Lemma quiet_check_trace label file line args : quiet (check_trace label file line args).
Proof.
  unfold check_trace.
  apply (quiet_if (fun t => AT_FLAG_TRACE (flags t)) _ (at_ret tt)); [|apply quiet_ret].
  apply quiet_bind; [apply quiet_trace|intros _].
  destruct args as [[[fmt lhs] rhs]|]; [|apply quiet_ret].
  repeat (apply quiet_bind; [first [apply quiet_trace|apply quiet_comment]|intros _]).
  apply quiet_ret.
Qed.

Lemma check_works ok label file line args : one_line label = true -> one_line file = true ->
  works [ok] (at_check ok label file line args) /\ works_local [ok] (at_check ok label file line args).
Proof.
  intros Hl Hf. destruct (quiet_works _ (quiet_check_trace label file line args)) as [H1 H2].
  split; [apply (works_bind [] [ok])|apply (works_local_bind [] [ok])];
    auto using ok_works, ok_works_local.
Qed.

Lemma flags_work (g : Z -> Z) :
  works [] (fun t => Done tt (set_flags (g (flags t)) t)) /\
  works_local [] (fun t => Done tt (set_flags (g (flags t)) t)).
Proof.
  split; intros t Ht _.
  - split; [cbn; lia|]. exists []. split; [|done].
    split_and!; [done|by destruct Ht|by apply prints_none].
  - split_and!; try done. by destruct Ht.
Qed.

Lemma ret_works : works [] (at_ret tt) /\ works_local [] (at_ret tt).
Proof. apply quiet_works, quiet_ret. Qed.

(** A line that is reported as a failed check. *)
Lemma line_works (mk : state -> bytes) :
  (forall t, one_line (name t) = true -> tap_line (prior t + current t) false (mk t)) ->
  let m t := let t := set_current (current t + 1) t in
             at_bind (at_report (mk t)) (fun _ => at_ret tt) t in
  works [false] m /\ works_local [false] m.
Proof.
  intros Hmk m. subst m.
  split; intros t Ht Hn; cbv zeta; set (t1 := set_current (current t + 1)%Z t).
  - assert (H1 : settled t1) by by destruct Ht. unfold at_bind, at_report. rewrite (set_file _ H1).
    cbn [report_func]. destruct (file_write (mk t1) t1) as (o & -> & Hp).
    split; [done|]. exists [mk t1]. split; [split_and!; [done|by destruct Ht|done]|].
    apply tap_one. replace (prior t + current t + 1)%Z with (prior t1 + current t1)%Z by (cbn; lia).
    apply Hmk, H1.
  - assert (H1 : local t1) by by destruct Ht. unfold at_bind.
    destruct (local_fails t1 (mk t1) H1) as (t2 & ls & -> & Hm & Hls);
      [cbn; lia|apply Hmk, H1|].
    split; [by constructor|]. exists ls. split; [by destruct Hm as ([? ? ?] & ? & ?)|].
    replace (left_out t 0) with (false :: replicate (checks_left t1) false)
      by (unfold left_out, checks_left; rewrite <- (replicate_S _ false); f_equal; cbn; lia).
    by replace (prior t + current t + 1)%Z with (prior t1 + current t1)%Z by (cbn; lia).
Qed.

Lemma skip_works n reason file line : one_line reason = true -> one_line file = true ->
  works (replicate n false) (at_skip n reason file line) /\
  works_local (replicate n false) (at_skip n reason file line).
Proof.
  intros Hr Hf. induction n as [|n [IH IHl]]; [apply ret_works|].
  set (mk := fun t : state => (apr_snprintf 256
        (str "not ok " ++ print_int (current t + prior t) ++ str " - " ++ name t ++ str " ("
         ++ print_int (current t) ++ str ") #skipped: " ++ reason ++ str " (" ++ file ++ str ":"
         ++ print_int line ++ str ")")).2).
  destruct (line_works mk) as [H1 H2].
  { intros t Hn. unfold mk. rewrite snprintf_buffer, (Z.add_comm (current t)) by lia.
    apply (tap_line_cut 255 _ false); [lia|].
    rewrite !one_line_app, Hn, !print_int_line, Hr, Hf. done. }
  eapply works_ext; [|split; [exact (works_bind _ _ _ (fun _ => at_skip n reason file line) H1 IH)
                             |exact (works_local_bind _ _ _ (fun _ => at_skip n reason file line) H2 IHl)]].
  intros t. unfold at_bind. cbn [at_skip]. unfold at_bind, mk. by destruct (at_report _ _).
Qed.

(** [AT_localize(p)], checks, and the pool is cleared: the checks count as one. *)
Definition localized (stack : nat -> Z) (file : bytes) (line : Z) (m : at_m Out unit)
  : at_m Out unit :=
  at_bind (at_report_local stack file line) (fun _ => at_bind m (fun _ => apr_pool_clear)).

(** What the pool runs for a local reporter that is still there. *)
Lemma cleanup_ran q sf file line t (t2 : state) : one_line file = true ->
  settled t -> (current t < plan t)%Z -> frame t t2 -> current t2 = current t -> stream t2 = stream t ->
  ran [true] t (run_cleanups [ReportLocal q ReportFile sf file line] (set_locals (passed t2) [] t2)).
Proof.
  intros Hf Ht Hn [Fp Fn Fl] Hc Hs. cbn [run_cleanups].
  set (label := (apr_snprintf 32 (str "collected " ++
                   print_int (nth q (passed t2) 0%Z) ++ str " passing tests")).2).
  assert (Hlabel : one_line label = true).
  { unfold label. rewrite snprintf_buffer by lia. apply one_line_take.
    by rewrite !one_line_app, print_int_line. }
  set (t3 := set_report ReportFile sf (set_locals (passed t2) [] t2)).
  change (ran [true] t (at_bind (at_ok true label file line) (fun _ => at_ret tt) t3)).
  assert (H3 : settled t3) by (constructor; [done|cbn; rewrite Fn; apply Ht|done]).
  pose proof (works_bind [true] [] _ (fun _ => at_ret tt) (ok_works true label file line Hlabel Hf)
    (proj1 ret_works) t3 H3 ltac:(cbn; lia)) as Hran.
  destruct (at_bind _ _ t3) as [[] t4|t4|t4]; cbn [ran] in Hran |- *; [| |done].
  - destruct Hran as (Hc4 & ls & ([Gp Gn Gl] & S4 & P4) & Hls). cbn in Hc4, Gp, Gn, Gl, Hls.
    rewrite Fp, Hc in Hls. split; [cbn; lia|]. exists ls. split; [|exact Hls].
    split_and!; [constructor; congruence|done|]. unfold prints in *. by rewrite P4, <- Hs.
  - destruct Hran as (k & ls & Hk & _). by destruct k.
Qed.

Lemma localized_works stack file line rs m : one_line file = true ->
  works_local rs m -> works [forallb id rs] (localized stack file line m).
Proof.
  intros Hf Hm t Ht Hn. cbn [length] in Hn.
  unfold localized, at_report_local. unfold at_bind at 1.
  match goal with |- context [set_locals ?a ?b ?c] => set (t1 := set_locals a b c) end.
  assert (H1 : local t1).
  { destruct Ht as [Hr Hnm Hc]. constructor; [|cbn; by rewrite Hc|done].
    cbn. rewrite Hr. repeat eexists. rewrite length_app. cbn. lia. }
  specialize (Hm t1 H1 ltac:(cbn; lia)). unfold at_bind.
  destruct (m t1) as [[] t2|t2|t2]; cbn [ran_local] in Hm; [| |done].
  - destruct Hm as (Hall & Hfr & L2 & Hrep & Hc & Hs).
    replace (forallb id rs) with true
      by (symmetry; apply forallb_forall; intros r Hr; by eapply List.Forall_forall in Hall).
    unfold apr_pool_clear. rewrite (loc_clean _ L2), Hrep. cbn [t1 report set_locals set_report].
    rewrite (set_file _ Ht). apply cleanup_ran; try done; [lia|by destruct Hfr].
  - destruct Hm as (Hin & ls & ([Fp Fn Fl] & S2 & P2) & Hls).
    replace (forallb id rs) with false.
    2:{ symmetry. apply not_true_iff_false. rewrite forallb_forall. intros Ha.
        apply list_elem_of_In in Hin. by specialize (Ha _ Hin). }
    exists 0, ls. split; [done|]. split; [done|].
    replace (take 1 [false] ++ left_out t 1) with (left_out t1 0); [done|].
    unfold left_out, checks_left. change (take 1 [false]) with (replicate 1 false).
    rewrite <- replicate_add. f_equal. cbn. lia.
Qed.

(** ** Runs of tests *)

(** Tests put together from the checks of [at.h], with the results of the checks;
    a localized part counts as one check. *)
Inductive simple : list bool -> at_m Out unit -> Prop :=
  | simple_ret : simple [] (at_ret tt)
  | simple_flags g : simple [] (fun t => Done tt (set_flags (g (flags t)) t))
  | simple_check ok label file line args :
      one_line label = true -> one_line file = true ->
      simple [ok] (at_check ok label file line args)
  | simple_ok ok label file line :
      one_line label = true -> one_line file = true -> simple [ok] (at_ok ok label file line)
  | simple_skip n reason file line :
      one_line reason = true -> one_line file = true ->
      simple (replicate n false) (at_skip n reason file line)
  | simple_bind a b m f : simple a m -> simple b (f tt) -> simple (a ++ b) (at_bind m f).

Inductive body : list bool -> at_m Out unit -> Prop :=
  | body_simple rs m : simple rs m -> body rs m
  | body_localized stack file line rs m :
      one_line file = true -> simple rs m -> body [forallb id rs] (localized stack file line m)
  | body_bind a b m f : body a m -> body b (f tt) -> body (a ++ b) (at_bind m f).

Lemma simple_works rs m : simple rs m -> works rs m /\ works_local rs m.
Proof.
  induction 1 as [|g|ok label file line args Hl Hf|ok label file line Hl Hf|n reason file line Hr Hf
                  |a b m f _ [IH1 IH1l] _ [IH2 IH2l]].
  - apply ret_works.
  - apply flags_work.
  - by apply check_works.
  - split; [by apply ok_works|by apply ok_works_local].
  - by apply skip_works.
  - split; [by apply works_bind|by apply works_local_bind].
Qed.

Lemma body_works rs m : body rs m -> works rs m.
Proof.
  induction 1 as [rs m Hm|stack file line rs m Hf Hm|a b m f _ IH1 _ IH2].
  - by apply simple_works.
  - apply localized_works; [done|]. by apply simple_works.
  - by apply works_bind.
Qed.

(** What is reported of a test with the results [rs]: all of them, or those up to
    a failure and failures for the rest of the plan. *)
Definition reported (APR_EGENERAL : Z) (plan : Z) (rs : list bool) (s : Z) (out : list bool) : Prop :=
  (s = APR_SUCCESS /\ out = rs) \/
  (s = APR_EGENERAL /\ exists k, rs !! k = Some false /\
     out = take (S k) rs ++ replicate (Z.to_nat plan - S k) false).

(** Each list of a test can be built: it starts with a positive number. *)
Definition spec_starts (spec : option bytes) : Prop :=
  match spec with
  | None => True
  | Some spec => (0 < int32 (apr_strtoi64 (skip_to_digit spec)).1)%Z
  end.

Lemma spec_list_built fuel stack spec : spec_starts spec ->
  exists l, spec_list apr_strtoi64 (S fuel) stack spec = Some l.
Proof.
  destruct spec as [spec|]; cbn [spec_starts spec_list]; [|by eexists].
  unfold at_list. cbn [at_list_loop]. destruct (apr_strtoi64 _) as [n rest]. cbn [fst].
  intros Hn. rewrite (proj2 (Z.leb_gt _ _)) by lia. by eexists.
Qed.

(** A run starts its test on the stream, with check 0. *)
Lemma run_starts APR_EGENERAL fuel stack test t :
  one_line (t_name test) = true ->
  spec_starts (t_fatals test) -> spec_starts (t_skips test) -> spec_starts (t_todos test) ->
  report t = ReportFile -> cleanups t = [] ->
  exists t1, settled t1 /\ current t1 = 0%Z /\ prior t1 = (prior t + plan t)%Z /\
    name t1 = t_name test /\ plan t1 = t_plan test /\ stream t1 = stream t /\
    at_run apr_strtoi64 APR_EGENERAL (S fuel) stack test t =
    Some (match t_func test t1 with
          | Done _ t => Done APR_SUCCESS t
          | Jumps t => Done APR_EGENERAL t
          | Exits t => Exits t
          end).
Proof.
  intros Hname Hf Hs Hd Hr Hc. unfold at_run.
  destruct (spec_list_built fuel stack _ Hf) as (f & ->).
  destruct (spec_list_built fuel stack _ Hs) as (sk & ->).
  destruct (spec_list_built fuel stack _ Hd) as (td & ->). cbn [mbind option_bind].
  eexists. split; [|split_and!; [..|reflexivity]]; done.
Qed.

(** C28: a test of at most as many checks as it plans returns, and exactly what it
    reports is numbered on from the tests before: a line per check when it runs to
    its end, and when a failure gives it up the lines of the checks up to that one and
    a failed line for every other one that was planned, so that the numbers of a
    program never have a gap; the next test starts in the same way. *)
Theorem run_reports_plan APR_EGENERAL fuel stack test t rs :
  body rs (t_func test) -> (Z.of_nat (length rs) <= t_plan test)%Z ->
  one_line (t_name test) = true ->
  spec_starts (t_fatals test) -> spec_starts (t_skips test) -> spec_starts (t_todos test) ->
  report t = ReportFile -> cleanups t = [] ->
  exists s t' ls out,
    at_run apr_strtoi64 APR_EGENERAL (S fuel) stack test t = Some (Done s t') /\
    written (stream t') = written (stream t) ++ flat_map nl ls /\
    tap_lines (prior t + plan t + 1) out ls /\
    reported APR_EGENERAL (t_plan test) rs s out /\
    prior t' = (prior t + plan t)%Z /\ plan t' = t_plan test /\
    report t' = ReportFile /\ cleanups t' = [].
Proof.
  intros Hb Hn Hname Hf Hs Hd Hr Hc.
  destruct (run_starts APR_EGENERAL fuel stack test t Hname Hf Hs Hd Hr Hc)
    as (t1 & H1 & C1 & P1 & N1 & L1 & S1 & ->).
  pose proof (body_works _ _ Hb t1 H1 ltac:(lia)) as Hran.
  destruct (t_func test t1) as [[] t2|t2|t2]; cbn [ran] in Hran; [| |done].
  - destruct Hran as (_ & ls & ([Fp Fn Fl] & [R2 _ K2] & Hp) & Hls).
    rewrite P1, C1, Z.add_0_r in Hls. unfold prints in Hp. rewrite S1 in Hp.
    exists APR_SUCCESS, t2, ls, rs. split_and!; try done; [by left|congruence|congruence].
  - destruct Hran as (k & ls & Hk & ([Fp Fn Fl] & [R2 _ K2] & Hp) & Hls).
    rewrite P1, C1, Z.add_0_r in Hls. unfold prints in Hp. rewrite S1 in Hp.
    eexists APR_EGENERAL, t2, ls, _. split_and!; try done; [|congruence|congruence].
    right. split; [done|]. exists k. split; [done|]. unfold left_out, checks_left.
    by rewrite C1, L1, Z.sub_0_r.
Qed.

End Runs.

(** ** Lists of checks *)

(** Only the first number of a list is read: the loop ends at the first number
    that is larger than the one before, and the list starts from 0. *)
Lemma at_list_first apr_strtoi64 fuel stack spec : spec_starts apr_strtoi64 (Some spec) ->
  exists l, at_list apr_strtoi64 (S fuel) stack spec = Some l /\
    l 0 = int32 (apr_strtoi64 (skip_to_digit spec)).1 /\ forall i, l (S i) = stack (S i).
Proof.
  cbn [spec_starts]. unfold at_list. cbn [at_list_loop].
  destruct (apr_strtoi64 _) as [n rest]. cbn [fst]. intros Hn.
  rewrite (proj2 (Z.leb_gt _ _)) by lia. by eexists.
Qed.

(** A list without a number is never finished. *)
Lemma at_list_empty apr_strtoi64 fuel stack :
  apr_strtoi64 [] = (0%Z, []) -> at_list apr_strtoi64 fuel stack [] = None.
Proof.
  intros H0. unfold at_list. assert (at_list_loop apr_strtoi64 fuel [] 0 = None) as ->; [|done].
  induction fuel as [|fuel IH]; cbn [at_list_loop skip_to_digit]; [done|].
  rewrite H0. change (int32 0) with 0%Z. cbn. by rewrite IH.
Qed.

(** A line of 250 bytes gets dots though nothing of it was cut. *)
Lemma at_ok_dots {P : AprPrintf} text : length text = 250 ->
  let r := apr_snprintf 256 text in
  (if (r.1 =? 250)%Z then r.2 ++ str "..." else r.2) = text ++ str "...".
Proof.
  intros H r. subst r. rewrite snprintf_fits, snprintf_buffer, H by (rewrite ?H; lia).
  rewrite firstn_all2 by (rewrite H; lia). done.
Qed.

(** ** A run *)

(** [apr_strtoi64] on a string of digits. *)
Fixpoint decimal (acc : Z) (s : bytes) : Z * bytes :=
  match s with
  | c :: rest => if isdigit c then decimal (acc * 10 + (zb c - zb "0")) rest else (acc, s)
  | [] => (acc, [])
  end.

Definition a_harness : at_t bytes := at_create 0 [] (fun _ => 0%Z).

(** The second check of four is fatal, and fails. *)
Definition a_failing_test : at_test_t bytes :=
  AtTest (str "a") (at_bind (at_check true (str "x") (str "t.c") 1 None)
                     (fun _ => at_check false (str "y") (str "t.c") 2 None)) 4 (Some (str "2")) None None.

Lemma run_reports_plan_witness :
  exists s t' ls out,
    at_run (decimal 0) 20014 9 (fun _ => 0%Z) a_failing_test a_harness = Some (Done s t') /\
    written (stream t') = [] ++ flat_map nl ls /\ tap_lines 1 out ls /\
    reported 20014 4 [true; false] s out /\
    prior t' = 0%Z /\ plan t' = 4%Z /\ report t' = ReportFile /\ cleanups t' = [].
Proof.
  pose proof (run_reports_plan (decimal 0) 20014 8 (fun _ => 0%Z) a_failing_test a_harness [true; false]) as H.
  refine (H _ _ _ _ _ _ _ _); try done.
  apply body_simple, (simple_bind [true] [false]); by constructor.
Defined.

Example failing_test_lines :
  (r ← at_run (decimal 0) 20014 9 (fun _ => 0%Z) a_failing_test a_harness;
   match r with Done s t => Some (s, stream t) | _ => None end) =
  Some (20014%Z, flat_map nl [str "ok 1 - x"; str "not ok 2 - y # fatal (t.c:2) test 2 in a";
    str "not ok 3 # skipped: aborting test a"; str "not ok 4 # skipped: aborting test a"]).
Proof. vm_compute. reflexivity. Qed.
