(* ===== verification/UnitTests.v ===== *)
(** * The unit tests of the library ([src/libapreq2/library/t])

    The tests of [util.c], [params.c], [cookie.c], [error.c] and [version.c], as
    programs of the harness of [At], over the definitions of the library; run on
    concrete parameters they print what [make check] prints. *)
From S2P Require Import Prelude Apr Errors Url Util Param Cookie.
From S2P Require Import At.

(** ** The macros of at.h *)

Section Macros.
Context {E : AprErrno} {P : AprPrintf} {Out : Type} {F : AprStream Out}.
(** How [%pp] prints a pointer that is not NULL, and the file a test is in. *)
Context (pp : bytes) (file : bytes).
Abbreviation test := (at_m Out unit).

(** Checks one after the other. *)
Fixpoint checks (l : list test) : test :=
  match l with
  | [] => at_ret tt
  | c :: l => at_bind c (fun _ => checks l)
  end.

(** The program dies: it follows a NULL pointer. *)
Definition at_crash : test := Exits.

Definition with_value {A} (x : option A) (f : A -> test) : test :=
  match x with Some a => f a | None => at_crash end.

Definition AT_ok (line : Z) (label : bytes) (is_ok : bool) : test := at_ok is_ok label file line.

Definition AT_int_eq (line : Z) (label : bytes) (lhs rhs : Z) : test :=
  at_check (int32 lhs =? int32 rhs)%Z (label ++ str ", as integers") file line
    (Some (str "%d", print_int (int32 lhs), print_int (int32 rhs))).

(** [strcmp] follows both pointers. *)
Definition AT_str_eq (line : Z) (label : bytes) (lhs : option bytes) (rhs : bytes) : test :=
  with_value lhs (fun lhs =>
    at_check (bool_decide (cstr lhs = cstr rhs)) (label ++ str ", as strings") file line
      (Some (str "%s", cstr lhs, cstr rhs))).

(** Both buffers hold at least [n] bytes. *)
Definition AT_mem_eq (line : Z) (label : bytes) (lhs rhs : bytes) (n : nat) : test :=
  at_check (bool_decide (take n lhs = take n rhs))
    (label ++ str ", as " ++ print_int (Z.of_nat n) ++ str "-byte struct pointers") file line
    (Some (str "%." ++ print_int (Z.of_nat n) ++ str "s", cstr (take n lhs), cstr (take n rhs))).

Definition show_pointer (non_null : bool) : bytes := if non_null then pp else str "0".

Definition AT_is_null {A} (line : Z) (label : bytes) (x : option A) : test :=
  at_check (match x with None => true | Some _ => false end)
    (label ++ str " == NULL, as pointers") file line
    (Some (str "%pp", show_pointer (bool_decide (is_Some x)), show_pointer false)).

Definition AT_not_null {A} (line : Z) (label : bytes) (x : option A) : test :=
  at_check (match x with None => false | Some _ => true end)
    (label ++ str " != NULL, as pointers") file line
    (Some (str "%pp", show_pointer (bool_decide (is_Some x)), show_pointer false)).

(** [main]: the plans are summed up, the tests run in order.  [None]: a list of a
    test is never built. *)
Fixpoint run_tests (apr_strtoi64 : bytes -> Z * bytes) (APR_EGENERAL : Z) (fuel : nat)
    (stack : nat -> Z) (tests : list (at_test_t Out)) (t : at_t Out) : option (outcome (Out := Out) unit) :=
  match tests with
  | [] => Some (Done tt t)
  | test :: tests =>
      r ← at_run apr_strtoi64 APR_EGENERAL fuel stack test t;
      match r with
      | Done _ t => run_tests apr_strtoi64 APR_EGENERAL fuel stack tests t
      | Jumps t => Some (Jumps t)
      | Exits t => Some (Exits t)
      end
  end.

Definition total_plan (tests : list (at_test_t Out)) : Z :=
  foldr (fun test n => (t_plan test + n)%Z) 0%Z tests.

Definition test_main (apr_strtoi64 : bytes -> Z * bytes) (APR_EGENERAL : Z) (fuel : nat)
    (stack : nat -> Z) (trace : bool) (tests : list (at_test_t Out)) (out : Out)
  : option (outcome (Out := Out) Z) :=
  let start := at_bind (if trace then AT_trace_on else at_ret tt)
                 (fun _ => at_begin (total_plan tests)) in
  match start (at_create 0 out stack) with
  | Done _ t =>
      r ← run_tests apr_strtoi64 APR_EGENERAL fuel stack tests t;
      match r with
      | Done _ t => Some (at_end t)
      | Jumps t => Some (Jumps t)
      | Exits t => Some (Exits t)
      end
  | Jumps t => Some (Jumps t)
  | Exits t => Some (Exits t)
  end.

Definition dT (name : bytes) (func : test) (plan : Z) (fatals : option bytes) : at_test_t Out :=
  AtTest name func plan fatals None None.

End Macros.

(** ** util.c *)

Section UtilTests.
Context {E : AprErrno} {P : AprPrintf} {Out : Type} {F : AprStream Out}.
(** [apr_strtoi64] in base 0, and what uninitialised buffers hold. *)
Context (strtoi64_0 : bytes -> Z * bytes) (hole : nat -> Byte.byte) (pp : bytes).
Abbreviation test := (at_m Out unit).
#[local] Definition file : bytes := str "util.c".
Abbreviation int_eq := (AT_int_eq file).
Abbreviation str_eq := (AT_str_eq file).
Abbreviation mem_eq := (AT_mem_eq file).
Abbreviation ok := (AT_ok file).

(** An integer function whose product overflows has no value. *)
Definition test_atoi64f : test :=
  let f s := apreq_atoi64f strtoi64_0 (Some s) in
  let eq line label x n := with_value x (fun v => int_eq line label v n) in
  checks [
    eq 25%Z (qstr "apreq_atoi64f(`0`) == 0") (f (str "0")) 0%Z;
    eq 26%Z (qstr "apreq_atoi64f(`-1`) == -1") (f (str "-1")) (-1)%Z;
    eq 27%Z (qstr "apreq_atoi64f(`-`) == 0") (f (str "-")) 0%Z;
    eq 28%Z (qstr "apreq_atoi64f(`5`) == 5") (f (str "5")) 5%Z;
    eq 29%Z (qstr "apreq_atoi64f(`3.333`) == 3") (f (str "3.333")) 3%Z;
    eq 30%Z (qstr "apreq_atoi64f(`33k`) == 33 * 1024") (f (str "33k")) (33 * 1024)%Z;
    eq 31%Z (qstr "apreq_atoi64f(` +8M `) == 8 * 1024 * 1024") (f (str " +8M ")) (8 * 1024 * 1024)%Z;
    with_value (f (str "44GB")) (fun v => ok 32 (str "44GB test") (v =? 44 * 1024 * 1024 * 1024)%Z);
    with_value (f (str "0xaBcDefg")) (fun v =>
      ok 34 (str "hex test") (v =? 11259375 * 1024 * 1024 * 1024)%Z)].

Definition test_atoi64t : test :=
  let f s := apreq_atoi64t strtoi64_0 (Some s) in
  let eq line label x n := with_value x (fun v => int_eq line label v n) in
  checks [
    eq 40%Z (qstr "apreq_atoi64t(`0`) == 0") (f (str "0")) 0%Z;
    eq 41%Z (qstr "apreq_atoi64t(`-1`) == -1") (f (str "-1")) (-1)%Z;
    eq 42%Z (qstr "apreq_atoi64t(`-g088l3dyg00k`) == 0") (f (str "-g088l3dyg00k")) 0%Z;
    eq 43%Z (qstr "apreq_atoi64t(`5s`) == 5") (f (str "5s")) 5%Z;
    eq 44%Z (qstr "apreq_atoi64t(`3.333`) == 3") (f (str "3.333")) 3%Z;
    eq 45%Z (qstr "apreq_atoi64t(`33d`) == 33 * 60 * 60 * 24") (f (str "33d")) (33 * 60 * 60 * 24)%Z;
    eq 46%Z (qstr "apreq_atoi64t(` +8M `) == 8 * 60 * 60 * 24 * 30") (f (str " +8M "))
      (8 * 60 * 60 * 24 * 30)%Z;
    eq 47%Z (qstr "apreq_atoi64t(`+9m`) == 9 * 60") (f (str "+9m")) (9 * 60)%Z;
    eq 48%Z (qstr "apreq_atoi64t(`6h`) == 6 * 60 * 60") (f (str "6h")) (6 * 60 * 60)%Z].

Definition test_index : test :=
  let haystack := str "Four score and seven years ago" in
  let hlen := Z.of_nat (length haystack) in
  checks [
    int_eq 56 (qstr "apreq_index(haystack, hlen, `Four`, 4, APREQ_MATCH_FULL) == 0")
      (apreq_index haystack (str "Four") APREQ_MATCH_FULL) 0;
    int_eq 58 (qstr "apreq_index(haystack, hlen, `Four`, 4, APREQ_MATCH_PARTIAL) == 0")
      (apreq_index haystack (str "Four") APREQ_MATCH_PARTIAL) 0;
    int_eq 60 (qstr "apreq_index(haystack, hlen, `Fourteen`, 8, APREQ_MATCH_FULL) == -1")
      (apreq_index haystack (str "Fourteen") APREQ_MATCH_FULL) (-1);
    int_eq 62 (qstr "apreq_index(haystack, hlen, `Fourteen`, 8, APREQ_MATCH_PARTIAL) == -1")
      (apreq_index haystack (str "Fourteen") APREQ_MATCH_PARTIAL) (-1);
    int_eq 64 (qstr "apreq_index(haystack, hlen, `agoraphobia`, 11, APREQ_MATCH_FULL) == -1")
      (apreq_index haystack (str "agoraphobia") APREQ_MATCH_FULL) (-1);
    int_eq 66 (qstr "apreq_index(haystack, hlen, `agoraphobia`, 11, APREQ_MATCH_PARTIAL) == hlen - 3")
      (apreq_index haystack (str "agoraphobia") APREQ_MATCH_PARTIAL) (hlen - 3)].

Definition byte_at (s : bytes) (i : nat) : Z := zb (nth i s x00).

Definition test_decode : test :=
  let '(status, out) := apreq_decode false (str "%C3%80%E3%82%a2") in
  let expect := resolve hole 0 out in
  checks [
    int_eq 79 (str "apreq_decode((char *)expect, &elen, src1, sizeof(src1) -1) == APR_SUCCESS + APREQ_CHARSET_UTF8")
      status (APR_SUCCESS + charset_val APREQ_CHARSET_UTF8);
    int_eq 81 (str "elen == 5") (Z.of_nat (length out)) 5;
    int_eq 82 (str "expect[0] == 0xC3") (byte_at expect 0) 0xC3;
    int_eq 83 (str "expect[1] == 0x80") (byte_at expect 1) 0x80;
    int_eq 84 (str "expect[2] == 0xE3") (byte_at expect 2) 0xE3;
    int_eq 85 (str "expect[3] == 0x82") (byte_at expect 3) 0x82;
    int_eq 86 (str "expect[4] == 0xA2") (byte_at expect 4) 0xA2].

Definition test_decodev : test :=
  let src1 := str "%2540%2" in let src2 := str "0%u0" in let src3 := str "041" in
  let expect1 := str "%40 A" in let expect2 := str "%40 " in
  let '(status1, dest1) := apreq_decodev [src1; src2; src3] in
  let '(status2, dest2) := apreq_decodev [src1; src2] in
  checks [
    int_eq 110 (str "status == APR_SUCCESS + APREQ_CHARSET_UTF8") status1
      (APR_SUCCESS + charset_val APREQ_CHARSET_UTF8);
    int_eq 111 (str "dest_len == sizeof(expect1) - 1") (Z.of_nat (length dest1)) 5;
    mem_eq 112 (str "dest == expect1") (resolve hole 0 dest1) expect1 5;
    int_eq 115 (str "status == APR_INCOMPLETE") status2 APR_INCOMPLETE;
    int_eq 116 (str "dest_len == sizeof(expect2) - 1") (Z.of_nat (length dest2)) 4;
    mem_eq 117 (str "dest == expect2") (resolve hole 0 dest2) expect2 4].

Definition test_cp1252_to_utf8 : test :=
  let '(status, out) := apreq_decode false (str "%C3%80%E3%82%a2") in
  let src2 := resolve hole 0 out in
  let expect := apreq_cp1252_to_utf8 (take 5 src2) in
  let e := byte_at expect in
  checks [
    int_eq 133 (str "apreq_decode((char *)src2, &slen, src1, sizeof(src1) -1) == APR_SUCCESS + APREQ_CHARSET_UTF8")
      status (APR_SUCCESS + charset_val APREQ_CHARSET_UTF8);
    int_eq 135 (str "apreq_cp1252_to_utf8((char *)expect, src2, 5) == 12") (Z.of_nat (length expect)) 12;
    int_eq 139 (str "expect[0] == 0xC0 | (0xC3 >> 6)") (e 0) (Z.lor 0xC0 (Z.shiftr 0xC3 6));
    int_eq 140 (str "expect[1] == 0xC3 - 0x40") (e 1) (0xC3 - 0x40);
    int_eq 143 (str "expect[2] == 0xE0 | (0x20AC >> 12)") (e 2) (Z.lor 0xE0 (Z.shiftr 0x20AC 12));
    int_eq 144 (str "expect[3] == 0x80 | ((0x20AC >> 6) & 0x3F)") (e 3)
      (Z.lor 0x80 (Z.land (Z.shiftr 0x20AC 6) 0x3F));
    int_eq 145 (str "expect[4] == 0x80 | (0x20AC & 0x3F)") (e 4) (Z.lor 0x80 (Z.land 0x20AC 0x3F));
    int_eq 148 (str "expect[5] == 0xC3") (e 5) 0xC3;
    int_eq 149 (str "expect[6] == 0xE3 - 0x40") (e 6) (0xE3 - 0x40);
    int_eq 152 (str "expect[7] == 0xE0 | (0x201A >> 12)") (e 7) (Z.lor 0xE0 (Z.shiftr 0x201A 12));
    int_eq 153 (str "expect[8] == 0x80 | ((0x201A >> 6) & 0x3F)") (e 8)
      (Z.lor 0x80 (Z.land (Z.shiftr 0x201A 6) 0x3F));
    int_eq 154 (str "expect[9] == 0x80 | (0x201A & 0x3F)") (e 9) (Z.lor 0x80 (Z.land 0x201A 0x3F));
    int_eq 158 (str "expect[10] == 0xC0 | (0xA2 >> 6)") (e 10) (Z.lor 0xC0 (Z.shiftr 0xA2 6));
    int_eq 159 (str "expect[11] == 0xA2") (e 11) 0xA2].

(** The result and the buffer, which is compared as a C string. *)
Definition test_quote : test :=
  let q s := apreq_quote s in
  let eq l1 n l2 label s expect :=
    [int_eq l1 (str "len == " ++ print_int n) (Z.of_nat (length (q s))) n;
     str_eq l2 (str "dst == " ++ label) (Some (q s)) expect] in
  checks (
    eq 169%Z 5%Z 170%Z (qstr "`\`foo\``") (str "foo") (qstr "`foo`") ++
    eq 173%Z 7%Z 174%Z (qstr "`\`\\\`foo\``") (qstr "`foo") (qstr "`\`foo`") ++
    eq 177%Z 10%Z 178%Z (qstr "`\`foo\\\\bar\``") (str "foo\bar") (qstr "`foo\\bar`") ++
    eq 181%Z 10%Z 182%Z (qstr "`\`foo\\0bar\``") (str "foo" ++ [x00] ++ str "bar") (qstr "`foo\0bar`")).

Definition test_quote_once : test :=
  let q s := apreq_quote_once s in
  let eq l1 n l2 label s expect :=
    [int_eq l1 (str "len == " ++ print_int n) (Z.of_nat (length (q s))) n;
     str_eq l2 (str "dst == " ++ label) (Some (q s)) expect] in
  checks (
    eq 191%Z 5%Z 192%Z (qstr "`\`foo\``") (str "foo") (qstr "`foo`") ++
    eq 195%Z 7%Z 196%Z (qstr "`\`\\\`foo\``") (qstr "`foo") (qstr "`\`foo`") ++
    eq 199%Z 7%Z 200%Z (qstr "`\`foo\\\`\``") (qstr "foo`") (qstr "`foo\``") ++
    eq 203%Z 10%Z 204%Z (qstr "`\`foo\\0bar\``") (str "foo" ++ [x00] ++ str "bar") (qstr "`foo\0bar`") ++
    eq 209%Z 14%Z 210%Z (qstr "`\`\\\`foo\\0bar\\\`\``") (qstr "`foo" ++ [x00] ++ qstr "bar`")
      (qstr "`\`foo\0bar\``") ++
    eq 213%Z 5%Z 214%Z (qstr "`\`foo\``") (qstr "`foo`") (qstr "`foo`") ++
    eq 217%Z 7%Z 218%Z (qstr "`\`'foo'\``") (str "'foo'") (qstr "`'foo'`") ++
    eq 221%Z 6%Z 222%Z (qstr "`\`fo\\o\``") (qstr "`fo\o`") (qstr "`fo\o`") ++
    eq 225%Z 14%Z 226%Z (qstr "`\`\\\`foo\\\`bar\\\`\``") (qstr "`foo`bar`") (qstr "`\`foo\`bar\``")).

(** The tests that check nothing. *)
Definition test_encode : test := checks [].
Definition test_join : test := checks [].
Definition test_brigade_fwrite : test := checks [].
Definition test_file_mktemp : test := checks [].
Definition test_header_attribute : test := checks [].
Definition test_brigade_concat : test := checks [].

Definition util_tests : list (at_test_t Out) := [
  dT (str "test_atoi64f") test_atoi64f 9 None;
  dT (str "test_atoi64t") test_atoi64t 9 None;
  dT (str "test_index") test_index 6 None;
  dT (str "test_decode") test_decode 7 None;
  dT (str "test_decodev") test_decodev 6 None;
  dT (str "test_encode") test_encode 0 None;
  dT (str "test_cp1252_to_utf8") test_cp1252_to_utf8 14 None;
  dT (str "test_quote") test_quote 8 None;
  dT (str "test_quote_once") test_quote_once 18 None;
  dT (str "test_join") test_join 0 None;
  dT (str "test_brigade_fwrite") test_brigade_fwrite 0 None;
  dT (str "test_file_mktemp") test_file_mktemp 0 None;
  dT (str "test_header_attribute") test_header_attribute 0 None;
  dT (str "test_brigade_concat") test_brigade_concat 0 None].

Definition util_main (apr_strtoi64 : bytes -> Z * bytes) (APR_EGENERAL : Z) (fuel : nat)
    (stack : nat -> Z) (out : Out) :=
  test_main apr_strtoi64 APR_EGENERAL fuel stack false util_tests out.

End UtilTests.

(** ** params.c *)

Section ParamTests.
Context {E : AprErrno} {P : AprPrintf} {Out : Type} {F : AprStream Out} {T : AprTable}.
(** [before]: what lies in memory before a header string, which the search for an
    attribute reads when its name is longer than what precedes the equals sign. *)
Context (hole : nat -> Byte.byte) (before pp : bytes).
Abbreviation test := (at_m Out unit).
#[local] Definition params_c : bytes := str "params.c".
Abbreviation int_eq := (AT_int_eq params_c).
Abbreviation str_eq := (AT_str_eq params_c).
Abbreviation mem_eq := (AT_mem_eq params_c).

Definition query_string_text : bytes :=
  str "a=1;quux=foo+bar&a=2&plus=%2B;uplus=%U002b;okie=dokie;novalue1;novalue2=".

(** The static table, which the first test fills. *)
Definition static_args : Z * apr_table apreq_param_t :=
  apreq_parse_query_string hole apr_table_make query_string_text.
Definition arg (name : bytes) : option apreq_param_t := apr_table_get static_args.2 name.

Definition request_make : test :=
  let '(s, args) := static_args in
  checks [
    AT_not_null pp params_c 35 (str "args") (Some args);
    int_eq 37 (str "s == APR_SUCCESS") s APR_SUCCESS;
    int_eq 38 (str "apr_table_elts(args)->nelts == 8") (Z.of_nat (length (apr_table_elts args))) 8].

Definition request_args_get : test :=
  let get name := p_data <$> arg name in
  checks [
    str_eq 47 (qstr "apr_table_get(args,`a`) == `1`") (get (str "a")) (str "1");
    str_eq 50 (qstr "val == `foo bar`") (get (str "quux")) (str "foo bar");
    with_value (arg (str "quux")) (fun param =>
      int_eq 52 (str "param->v.dlen == 7") (Z.of_nat (length (p_data param))) 7);
    str_eq 54 (qstr "apr_table_get(args,`plus`) == `+`") (get (str "plus")) (str "+");
    str_eq 55 (qstr "apr_table_get(args,`uplus`) == `+`") (get (str "uplus")) (str "+");
    str_eq 56 (qstr "apr_table_get(args,`okie`) == `dokie`") (get (str "okie")) (str "dokie");
    str_eq 57 (qstr "apr_table_get(args,`novalue1`) == ``") (get (str "novalue1")) [];
    str_eq 58 (qstr "apr_table_get(args,`novalue2`) == ``") (get (str "novalue2")) []].

Definition params_as : test :=
  let as_string name := resolve hole 0 <$>
    apreq_params_as_string static_args.2 name APREQ_JOIN_AS_IS in
  checks [
    int_eq 66 (str "arr->nelts == 2")
      (Z.of_nat (length (apreq_params_as_array static_args.2 (str "a")))) 2;
    str_eq 68 (qstr "val == `1, 2`") (as_string (str "a")) (str "1, 2");
    str_eq 70 (qstr "val == ``") (as_string (str "does_not_exist")) []].

(** The strings, decoded in place, encoded into a new one, and decoded there. *)
Definition string_decoding_in_place : test :=
  let s1 := str "bend it like beckham" in
  let s1' := (apreq_unescape s1).2 in
  let s3 := apreq_escape (Some (take 20 s1')) in
  let s2 := str "dandy %3Edons" in
  let s2' := (apreq_unescape s2).2 in
  let s4 := apreq_escape (Some (take 11 s2')) in
  let back s := (fun s => (apreq_unescape s).2) <$> s in
  checks [
    str_eq 82 (qstr "s1 == `bend it like beckham`") (Some s1) (str "bend it like beckham");
    str_eq 84 (qstr "s1 == `bend it like beckham`") (Some s1') (str "bend it like beckham");
    str_eq 86 (qstr "s3 == `bend+it+like+beckham`") s3 (str "bend+it+like+beckham");
    str_eq 88 (qstr "s3 == `bend it like beckham`") (back s3) (str "bend it like beckham");
    str_eq 90 (qstr "s2 == `dandy %3Edons`") (Some s2) (str "dandy %3Edons");
    str_eq 92 (qstr "s2 == `dandy >dons`") (Some s2') (str "dandy >dons");
    str_eq 94 (qstr "s3 == `dandy+%3Edons`") s4 (str "dandy+%3Edons");
    str_eq 96 (qstr "s3 == `dandy >dons`") (back s4) (str "dandy >dons")].

(** The status of the search and, when it succeeds, the value; [None] when it reads
    before the string and what [before] says of the memory there. *)
Definition attribute_text (hdr name : bytes) : option (Z * bytes) :=
  let obj := before ++ hdr ++ [x00] in
  match apreq_header_attribute obj (length before) name with
  | AttrFound val vlen => Some (APR_SUCCESS, take vlen (drop val obj))
  | AttrNone s => Some (s, [])
  | AttrOutOfBounds | AttrNoFuel => None
  end.

Definition header_attributes : test :=
  let get := attribute_text (qstr "text/plain; boundary=`-foo-`, charset=ISO-8859-1") in
  let get' := attribute_text (qstr "max-age=20; no-quote=`...") in
  let is_status line s label expect := int_eq line (str "s == " ++ label) s expect in
  let fails line r label expect :=
    with_value r (fun r : Z * bytes => is_status line r.1 label expect) in
  let found l1 l2 l3 r n v label := with_value r (fun r : Z * bytes => checks
    [is_status l1 r.1 (str "APR_SUCCESS") APR_SUCCESS;
     int_eq l2 (str "vlen == " ++ print_int (Z.of_nat n)) (Z.of_nat (length r.2)) (Z.of_nat n);
     mem_eq l3 (str "val == " ++ label) r.2 v n]) in
  checks [
    fails 107%Z (get (str "none")) (str "APREQ_ERROR_NOATTR") APREQ_ERROR_NOATTR;
    fails 110%Z (get (str "set")) (str "APREQ_ERROR_NOATTR") APREQ_ERROR_NOATTR;
    found 113%Z 114%Z 115%Z (get (str "boundary")) 5 (str "-foo-") (qstr "`-foo-`");
    found 118%Z 119%Z 120%Z (get (str "charset")) 10 (str "ISO-8859-1") (qstr "`ISO-8859-1`");
    found 125%Z 126%Z 127%Z (get' (str "max-age")) 2 (str "20") (qstr "`20`");
    fails 130%Z (get' (str "age")) (str "APREQ_ERROR_BADSEQ") APREQ_ERROR_BADSEQ;
    fails 133%Z (get' (str "no-quote")) (str "APREQ_ERROR_BADSEQ") APREQ_ERROR_BADSEQ].

Definition make_param : test :=
  let name := str "foo" in let val := str "bar > alpha" in
  let param := apreq_param_make name val in
  let encode := apreq_param_encode param in
  let '(s, decode) := apreq_param_decode hole encode 3 13 in
  checks [
    str_eq 150 (str "param->v.name == name") (Some (p_name param)) name;
    int_eq 151 (str "param->v.dlen == vlen") (Z.of_nat (length (p_data param))) 11;
    str_eq 152 (str "param->v.data == val") (Some (p_data param)) val;
    str_eq 155 (qstr "encode == `foo=bar+%3E+alpha`") (Some encode) (str "foo=bar+%3E+alpha");
    int_eq 158 (str "s == APR_SUCCESS") s APR_SUCCESS;
    str_eq 159 (str "decode->v.name == name") (p_name <$> decode) name;
    with_value decode (fun d =>
      int_eq 160 (str "decode->v.dlen == vlen") (Z.of_nat (length (p_data d))) 11);
    str_eq 161 (str "decode->v.data == val") (p_data <$> decode) val].

(** The loop over the four strings; the last one is quoted already. *)
Definition quote_string (s quoted once : bytes) : list test :=
  let n l := Z.of_nat (length l) in
  let res := apreq_quote s in
  let res_quote := apreq_quote_once res in
  let res' := apreq_quote_once s in [
    int_eq 179 (str "res_len == arr_quote_len[i]") (n res) (n quoted);
    mem_eq 180 (str "res == arr_quote[i]") res quoted (length res);
    int_eq 182 (str "res_quote_len == res_len") (n res_quote) (n res);
    mem_eq 183 (str "res_quote == res") res_quote res (length res);
    int_eq 187 (str "res_len == exp_len") (n res') (n once);
    mem_eq 188 (str "res == expr") res' once (length once)].

Definition quote_strings : test :=
  let q1 := qstr "`cest`" in let q2 := qstr "`\`cest`" in let q3 := qstr "`ce\`st`" in
  checks (quote_string (str "cest") q1 q1 ++ quote_string (qstr "`cest") q2 q2 ++
          quote_string (qstr "ce`st") q3 q3 ++
          quote_string (qstr "`cest`") (qstr "`\`cest\``") (qstr "`cest`")).

Definition params_tests : list (at_test_t Out) := [
  dT (str "request_make") request_make 3 None;
  dT (str "request_args_get") request_args_get 8 None;
  dT (str "params_as") params_as 3 None;
  dT (str "string_decoding_in_place") string_decoding_in_place 8 None;
  dT (str "header_attributes") header_attributes 13 None;
  dT (str "make_param") make_param 8 None;
  dT (str "quote_strings") quote_strings 24 None].

Definition params_main (apr_strtoi64 : bytes -> Z * bytes) (APR_EGENERAL : Z) (fuel : nat)
    (stack : nat -> Z) (out : Out) :=
  test_main apr_strtoi64 APR_EGENERAL fuel stack true params_tests out.

End ParamTests.

(** ** cookie.c *)

Section CookieTests.
Context {E : AprErrno} {P : AprPrintf} {Out : Type} {F : AprStream Out} {T : AprTable}.
(** APR's functions, the clock, and the bytes behind a fresh allocation. *)
Context (strtoi64_0 : bytes -> Z * bytes) (apr_date_parse_rfc : bytes -> Z)
        (apr_rfc822_date : Z -> bytes) (now : Z) (junk pp : bytes).
Abbreviation test := (at_m Out unit).
#[local] Definition cookie_c : bytes := str "cookie.c".
Abbreviation str_eq := (AT_str_eq cookie_c).
Abbreviation int_eq := (AT_int_eq cookie_c).

Definition nscookies : bytes :=
  str "a=1; foo=bar; fl=left; fr=right;bad; ns=foo=1&bar=2,frl=right-left; flr=left-right; fll=left-left; good_one=1;=;bad".
Definition rfccookies : bytes :=
  str "$Version=1; first=a;$domain=quux;second=be,$Version=1;third=cie".

(** The static jars, which the first test fills. *)
Definition parse_jar (hdr : bytes) : Z * apr_table apreq_cookie_t :=
  apreq_parse_cookie_header strtoi64_0 apr_date_parse_rfc now junk apr_table_make hdr.
Definition in_jar (name : bytes) : option apreq_cookie_t := apr_table_get (parse_jar nscookies).2 name.
Definition in_jar2 (name : bytes) : option apreq_cookie_t := apr_table_get (parse_jar rfccookies).2 name.

Definition jar_make : test :=
  checks [
    AT_not_null pp cookie_c 38 (str "jar") (Some (parse_jar nscookies).2);
    int_eq 39 (str "apreq_parse_cookie_header(p, jar, nscookies) == APREQ_ERROR_NOTOKEN")
      (parse_jar nscookies).1 APREQ_ERROR_NOTOKEN;
    AT_not_null pp cookie_c 41 (str "jar2") (Some (parse_jar rfccookies).2);
    int_eq 42 (str "apreq_parse_cookie_header(p, jar2, rfccookies) == APR_SUCCESS")
      (parse_jar rfccookies).1 APR_SUCCESS].

Definition jar_get_rfc : test :=
  let get := fun name => c_data <$> in_jar2 name in
  checks [
    AT_not_null pp cookie_c 48 (qstr "val = apr_table_get(jar2, `first`)") (in_jar2 (str "first"));
    str_eq 49 (qstr "val == `a`") (get (str "first")) (str "a");
    AT_not_null pp cookie_c 50 (qstr "val = apr_table_get(jar2, `second`)") (in_jar2 (str "second"));
    str_eq 51 (qstr "val == `be`") (get (str "second")) (str "be");
    AT_not_null pp cookie_c 52 (qstr "val = apr_table_get(jar2, `third`)") (in_jar2 (str "third"));
    str_eq 53 (qstr "val == `cie`") (get (str "third")) (str "cie")].

Definition jar_get_ns : test :=
  let get := fun name => c_data <$> in_jar name in
  checks [
    str_eq 59 (qstr "apr_table_get(jar, `a`) == `1`") (get (str "a")) (str "1");
    AT_is_null pp cookie_c 62 (qstr "apr_table_get(jar, `bad`)") (in_jar (str "bad"));
    str_eq 65 (qstr "apr_table_get(jar, `ns`) == `foo=1&bar=2`") (get (str "ns")) (str "foo=1&bar=2");
    str_eq 67 (qstr "apr_table_get(jar,`foo`) == `bar`") (get (str "foo")) (str "bar");
    str_eq 68 (qstr "apr_table_get(jar,`fl`) == `left`") (get (str "fl")) (str "left");
    str_eq 69 (qstr "apr_table_get(jar,`fr`) == `right`") (get (str "fr")) (str "right");
    str_eq 70 (qstr "apr_table_get(jar,`frl`) == `right-left`") (get (str "frl")) (str "right-left");
    str_eq 71 (qstr "apr_table_get(jar,`flr`) == `left-right`") (get (str "flr")) (str "left-right");
    str_eq 72 (qstr "apr_table_get(jar,`fll`) == `left-left`") (get (str "fll")) (str "left-left");
    AT_is_null pp cookie_c 73 (qstr "apr_table_get(jar,``)") (in_jar [])].

(** [c->domain = ...], [c->path = ...]. *)
Definition set_domain (d : bytes) (c : apreq_cookie_t) : apreq_cookie_t :=
  set_attrs (c_path c) (Some d) (c_port c) (c_comment c) (c_commentURL c) c.
Definition set_path (d : bytes) (c : apreq_cookie_t) : apreq_cookie_t :=
  set_attrs (Some d) (c_domain c) (c_port c) (c_comment c) (c_commentURL c) c.

Abbreviation as_string := (apreq_cookie_as_string apr_rfc822_date now).
Abbreviation expires := (apreq_cookie_expires strtoi64_0 apr_date_parse_rfc now).

Definition netscape_cookie : test :=
  at_bind (AT_not_null pp cookie_c 84 (str "val") (in_jar (str "foo"))) (fun _ =>
  with_value (in_jar (str "foo")) (fun c =>
    let c1 := set_domain (str "example.com") c in
    let c2 := set_path (str "/quux") c1 in
    let c3 := expires c2 (Some (str "+1y")) in
    let year := default 0%Z (apreq_atoi64t strtoi64_0 (Some (str "+1y"))) in
    let expires_text := <[11 := "-"]> (<[7 := "-"]> (apr_rfc822_date (now + year * 1000000)%Z)) in
    let val := str "foo=bar; path=/quux; domain=example.com; expires=" ++ expires_text in
    checks [
      str_eq 88 (qstr "c->v.data == `bar`") (Some (c_data c)) (str "bar");
      int_eq 89 (str "apreq_cookie_version(c) == 0") (apreq_cookie_version c) 0;
      str_eq 90 (qstr "apreq_cookie_as_string(c, p) == `foo=bar`") (Some (as_string c)) (str "foo=bar");
      str_eq 93 (qstr "apreq_cookie_as_string(c, p) == `foo=bar; domain=example.com`")
        (Some (as_string c1)) (str "foo=bar; domain=example.com");
      str_eq 96 (qstr "apreq_cookie_as_string(c, p) == `foo=bar; path=/quux; domain=example.com`")
        (Some (as_string c2)) (str "foo=bar; path=/quux; domain=example.com");
      str_eq 107 (str "apreq_cookie_as_string(c, p) == val") (Some (as_string c3)) val])).

Definition rfc_cookie : test :=
  let c := apreq_cookie_make (str "rfc") (str "out") in
  let c1 := apreq_cookie_version_set 1 c in
  let c2 := set_domain (str "example.com") c1 in
  let c3 := set_path (str "/quux") c2 in
  let c4 := expires c3 (Some (str "+3m")) in
  let months := default 0%Z (apreq_atoi64t strtoi64_0 (Some (str "+3m"))) in
  let t2 := qstr "rfc=out; Version=1; domain=`example.com`" in
  let t3 := qstr "rfc=out; Version=1; path=`/quux`; domain=`example.com`" in
  checks [
    str_eq 117 (qstr "c->v.data == `out`") (Some (c_data c)) (str "out");
    int_eq 120 (str "apreq_cookie_version(c) == 1") (apreq_cookie_version c1) 1;
    str_eq 121 (qstr "apreq_cookie_as_string(c,p) == `rfc=out; Version=1`")
      (Some (as_string c1)) (str "rfc=out; Version=1");
    str_eq 127 (qstr "apreq_cookie_as_string(c,p) == `rfc=out; Version=1; domain=\`example.com\``")
      (Some (as_string c2)) t2;
    str_eq 130 (qstr "apreq_cookie_as_string(c,p) == `rfc=out; Version=1; path=\`/quux\`; domain=\`example.com\``")
      (Some (as_string c3)) t3;
    str_eq 138 (str "apreq_cookie_as_string(c,p) == expected") (Some (as_string c4))
      (t3 ++ str "; max-age=" ++ print_int months)].

Definition cookie_tests : list (at_test_t Out) := [
  dT (str "jar_make") jar_make 4 None;
  dT (str "jar_get_rfc") jar_get_rfc 6 (Some (str "1 3 5"));
  dT (str "jar_get_ns") jar_get_ns 10 None;
  dT (str "netscape_cookie") netscape_cookie 7 None;
  dT (str "rfc_cookie") rfc_cookie 6 None].

Definition cookie_main (apr_strtoi64 : bytes -> Z * bytes) (APR_EGENERAL : Z) (fuel : nat)
    (stack : nat -> Z) (out : Out) :=
  test_main apr_strtoi64 APR_EGENERAL fuel stack false cookie_tests out.

End CookieTests.

(** ** error.c *)

Section ErrorTests.
Context {E : AprErrno} {P : AprPrintf} {Out : Type} {F : AprStream Out}.
Context (APR_OS_START_EAIERR : Z) (apr_strerror : Z -> nat -> bytes) (pp : bytes).
Abbreviation test := (at_m Out unit).
#[local] Definition error_c : bytes := str "error.c".

(** The functions return the buffer they fill, which [apreq_strerror] stands for. *)
Definition test_strerror : test :=
  let says line label code := AT_str_eq error_c line (str "str == " ++ label)
    (Some (apreq_strerror APR_OS_START_EAIERR apr_strerror code 256)) in
  checks [
    at_check true (str "str == buf, as pointers") error_c 27 (Some (str "%pp", pp, pp));
    says 28%Z (qstr "`Internal apreq error`") APREQ_ERROR_GENERAL (str "Internal apreq error");
    says 31%Z (qstr "`Attempt to perform unsafe action with tainted data`") APREQ_ERROR_TAINTED
      (str "Attempt to perform unsafe action with tainted data");
    says 34%Z (qstr "`Invalid byte sequence`") APREQ_ERROR_BADSEQ (str "Invalid byte sequence");
    says 37%Z (qstr "`Missing input data`") APREQ_ERROR_NODATA (str "Missing input data");
    says 40%Z (qstr "`Error string not yet specified by apreq`") (APREQ_ERROR_GENERAL + 99)%Z
      (str "Error string not yet specified by apreq");
    says 48%Z (qstr "`There is no error, this value signifies an initialized ` `error code`") APR_EINIT
      (str "There is no error, this value signifies an initialized error code");
    says 52%Z (qstr "`Partial results are valid but processing is incomplete`") APR_INCOMPLETE
      (str "Partial results are valid but processing is incomplete");
    says 55%Z (qstr "`End of file found`") APR_EOF (str "End of file found");
    says 58%Z (qstr "`This function has not been implemented on this platform`") APR_ENOTIMPL
      (str "This function has not been implemented on this platform")].

Definition error_tests : list (at_test_t Out) :=
  [dT (str "test_strerror") test_strerror 10 (Some (str "1"))].

Definition error_main (apr_strtoi64 : bytes -> Z * bytes) (APR_EGENERAL : Z) (fuel : nat)
    (stack : nat -> Z) (out : Out) :=
  test_main apr_strtoi64 APR_EGENERAL fuel stack false error_tests out.

End ErrorTests.

(** ** version.c *)

Section VersionTests.
Context {P : AprPrintf} {Out : Type} {F : AprStream Out} (pp : bytes).
Abbreviation test := (at_m Out unit).
#[local] Definition version_c : bytes := str "version.c".

Definition version_string : test :=
  checks [
    AT_not_null pp version_c 23 (str "vstring") (Some apreq_version_string);
    AT_str_eq version_c 24 (str "vstring == APREQ_VERSION_STRING") (Some apreq_version_string)
      APREQ_VERSION_STRING].

Definition version_type : test :=
  let '(major, minor, patch, is_dev) := apreq_version in
  checks [
    AT_int_eq version_c 30 (str "v.major == APREQ_MAJOR_VERSION") (Z.of_nat major) (Z.of_nat APREQ_MAJOR_VERSION);
    AT_int_eq version_c 31 (str "v.minor == APREQ_MINOR_VERSION") (Z.of_nat minor) (Z.of_nat APREQ_MINOR_VERSION);
    AT_int_eq version_c 32 (str "v.patch == APREQ_PATCH_VERSION") (Z.of_nat patch) (Z.of_nat APREQ_PATCH_VERSION);
    AT_int_eq version_c 34 (str "v.is_dev == 1") (Z.b2z is_dev) 1].

Definition version_tests : list (at_test_t Out) := [
  dT (str "version_string") version_string 2 (Some (str "1"));
  dT (str "version_type") version_type 4 None].

Definition version_main (apr_strtoi64 : bytes -> Z * bytes) (APR_EGENERAL : Z) (fuel : nat)
    (stack : nat -> Z) (out : Out) :=
  test_main apr_strtoi64 APR_EGENERAL fuel stack false version_tests out.

End VersionTests.

(** * Properties *)

(** ** The parameters of a run *)

(** [apr_strtoi64] in base 0, as [strtol] reads a number. *)
Fixpoint hexadecimal (acc : Z) (s : bytes) : Z * bytes :=
  match s with
  | c :: rest => if isxdigit c then hexadecimal (acc * 16 + hex_digit c) rest else (acc, s)
  | [] => (acc, [])
  end.

Definition strtoi64_base0 (s : bytes) : Z * bytes :=
  let p := skip_space s in
  let '(sign, p) := match p with
                    | c :: q => if c =b? "-" then ((-1)%Z, q) else if c =b? "+" then (1%Z, q) else (1%Z, p)
                    | [] => (1%Z, p) end in
  let number r := let '(n, rest) := r : Z * bytes in ((sign * n)%Z, rest) in
  match p with
  | [] => (0%Z, s)
  | c :: q =>
      match q with
      | x :: h :: _ =>
          if (c =b? "0") && (tolower x =b? "x") && isxdigit h then number (hexadecimal 0 (drop 1 q))
          else if isdigit c then number (decimal 0 p) else (0%Z, s)
      | _ => if isdigit c then number (decimal 0 p) else (0%Z, s)
      end
  end.

(** The messages [apr_strerror] has for the codes of the test. *)
Definition some_strerror (code : Z) (bufsize : nat) : bytes :=
  stuffbuffer bufsize
    (if (code =? APR_EINIT)%Z
     then str "There is no error, this value signifies an initialized error code"
     else if (code =? APR_INCOMPLETE)%Z
     then str "Partial results are valid but processing is incomplete"
     else if (code =? APR_EOF)%Z then str "End of file found"
     else if (code =? APR_ENOTIMPL)%Z
     then str "This function has not been implemented on this platform"
     else str "unknown").

(** What a program of tests has printed when it ends as it should. *)
Definition printed (r : option (outcome (Out := bytes) Z)) : option bytes :=
  match r with Some (Done _ t) => Some (stream t) | _ => None end.

Definition run_main
    (main : (bytes -> Z * bytes) -> Z -> nat -> (nat -> Z) -> bytes -> option (outcome (Out := bytes) Z))
  : option bytes :=
  printed (main (decimal 0) 20014%Z 9 (fun _ => 0%Z) []).

(** The numbers of the lines that report a passed check, in order; [None] when a line
    is neither that nor a comment. *)
Fixpoint split_lines (line : bytes) (s : bytes) : list bytes :=
  match s with
  | [] => []
  | c :: s => if c =b? x0a then line :: split_lines [] s else split_lines (line ++ [c]) s
  end.

Fixpoint passed_up_to (n : Z) (plan : nat) (ls : list bytes) : bool :=
  match ls with
  | [] => false
  | l :: ls =>
      if starts_with (str "# ") l then passed_up_to n plan ls
      else match plan with
           | O => bool_decide (l = str "END") && bool_decide (ls = [])
           | S plan => starts_with (str "ok " ++ print_int n ++ str " - ") l
                       && passed_up_to (n + 1) plan ls
           end
  end.

Definition all_pass (plan : nat) (out : option bytes) : bool :=
  match out with
  | None => false
  | Some out =>
      match split_lines [] out with
      | l :: ls => bool_decide (l = str "1.." ++ print_int (Z.of_nat plan)) && passed_up_to 1 plan ls
      | [] => false
      end
  end.

(** ** Runs *)

(** The unit tests of the library pass on its model: of the programs [util],
    [params], [cookie], [error] and [version] each prints its plan, then a line [ok]
    for every check it has planned, with their numbers in order, and the end of the
    run, whatever uninitialised memory holds. *)
Theorem unit_tests_pass (hole : nat -> Byte.byte) (junk : bytes) :
  let date t := str "Sun, 06 Nov 1994 08:49:37 GMT" in
  let pp := str "0x1" in
  all_pass 77 (run_main (util_main strtoi64_base0 hole)) = true /\
  all_pass 67 (run_main (params_main hole (replicate 8 x00) pp)) = true /\
  all_pass 33 (run_main (cookie_main strtoi64_base0 (fun _ => 0%Z) date 0 junk pp)) = true /\
  all_pass 10 (run_main (error_main 670000 some_strerror pp)) = true /\
  all_pass 6 (run_main (version_main pp)) = true.
Proof. vm_compute. by split_and!. Qed.

(** ** What decoding in place says *)

(** Text that is not ASCII is decoded, and reported as an error: the status of
    [apreq_decode] carries the charset. *)
Example unescape_utf8_fails :
  apreq_unescape (str "%C3%A9") = ((-1)%Z, [xc3; xa9]) /\
  apreq_unescape (str "%41b") = (2%Z, str "Ab").
Proof. by vm_compute. Qed.

(** The header test looks for an attribute whose name is longer than what precedes
    the first equals sign: it reads before its string. *)
Example header_test_out_of_bounds :
  attribute_text [] (qstr "max-age=20; no-quote=`...") (str "no-quote") = None.
Proof. by vm_compute. Qed.
