(* ===== verification/ParserTests.v ===== *)
(** * The tests of the parsers ([src/libapreq2/library/t/parsers.c])

    The parsers, run on the bodies of the test program through
    [apreq_parser_run]. *)
From S2P Require Import Prelude Apr Url Brigade Param Parser Header Boundary Multipart.
From S2P Require Import FormData StreamEnd ParserRun.
From S2P Require Import At UnitTests.

(** ** The bodies *)

Definition url_data : bytes := str "alpha=one&beta=two;omega=last%2".

Definition form_data : bytes :=
  str "--AaB03x" ++ CRLF ++
  qstr "content-disposition: form-data; name=`field1`" ++ CRLF ++
  str "content-type: text/plain;charset=windows-1250" ++ CRLF ++
  str "content-transfer-encoding: quoted-printable" ++ CRLF ++ CRLF ++
  str "Joe owes =80100." ++ CRLF ++
  str "--AaB03x" ++ CRLF ++
  qstr "content-disposition: form-data; name=`pics`; filename=`file1.txt`" ++ CRLF ++
  str "Content-Type: text/plain" ++ CRLF ++ CRLF ++
  str "... contents of file1.txt ..." ++ CRLF ++ CRLF ++
  str "--AaB03x" ++ CRLF ++
  qstr "content-disposition: form-data; name=``" ++ CRLF ++
  str "content-type: text/plain;charset=windows-1250" ++ CRLF ++
  str "content-transfer-encoding: quoted-printable" ++ CRLF ++ CRLF ++
  str "Joe owes =80100." ++ CRLF ++
  str "--AaB03x--" ++ CRLF.

Definition xml_data : bytes :=
  qstr "<?xml version=`1.0` encoding=`ISO-8859-1`?>" ++
  str "<methodCall>" ++
  str "  <methodName>foo.bar</methodName>" ++
  str "  <params>" ++
  str "    <param><value><int>1</int></value></param>" ++
  str "  </params>" ++
  str "</methodCall>".

Definition rel_data : bytes :=
  str "--f93dcbA3" ++ CRLF ++
  str "Content-Type: application/xml; charset=UTF-8" ++ CRLF ++
  str "Content-Length: 400" ++ CRLF ++
  str "Content-ID: <980119.X53GGT@example.com>" ++ CRLF ++ CRLF ++
  qstr "<?xml version=`1.0`?>" ++ CRLF ++
  str "<uploadDocument>" ++
  str "  <title>My Proposal</title>" ++
  str "  <author>E. X. Ample</author>" ++
  str "  <summary>A proposal for a new project.</summary>" ++
  qstr "  <notes image=`cid:980119.X17AXM@example.com`>(see handwritten region)</notes>" ++
  str "  <keywords>project proposal funding</keywords>" ++
  str "  <readonly>false</readonly>" ++
  str "  <filename>image.png</filename>" ++
  str "  <content>cid:980119.X25MNC@example.com</content>" ++
  str "</uploadDocument>" ++ CRLF ++
  str "--f93dcbA3" ++ CRLF ++
  str "Content-Type: image/png" ++ CRLF ++
  str "Content-Transfer-Encoding: binary" ++ CRLF ++
  str "Content-ID: <980119.X25MNC@example.com>" ++ CRLF ++ CRLF ++
  str "...Binary data here..." ++ CRLF ++
  str "--f93dcbA3" ++ CRLF ++
  str "Content-Type: image/png" ++ CRLF ++
  str "Content-Transfer-Encoding: binary" ++ CRLF ++
  str "Content-ID: <980119.X17AXM@example.com>" ++ CRLF ++ CRLF ++
  str "...Binary data here..." ++ CRLF ++
  str "--f93dcbA3--" ++ CRLF.

Definition mix_data : bytes :=
  str "--AaB03x" ++ CRLF ++
  qstr "Content-Disposition: form-data; name=`submit-name`" ++ CRLF ++ CRLF ++
  str "Larry" ++ CRLF ++
  str "--AaB03x" ++ CRLF ++
  qstr "Content-Disposition: form-data; name=`files`" ++ CRLF ++
  str "Content-Type: multipart/mixed; boundary=BbC04y" ++ CRLF ++ CRLF ++
  str "--BbC04y" ++ CRLF ++
  qstr "Content-Disposition: file; filename=`file1.txt`" ++ CRLF ++
  str "Content-Type: text/plain" ++ CRLF ++ CRLF ++
  str "... contents of file1.txt ..." ++ CRLF ++
  str "--BbC04y" ++ CRLF ++
  qstr "Content-Disposition: file; filename=`file2.gif`" ++ CRLF ++
  str "Content-Type: image/gif" ++ CRLF ++
  str "Content-Transfer-Encoding: binary" ++ CRLF ++ CRLF ++
  str "...contents of file2.gif..." ++ CRLF ++
  str "--BbC04y--" ++ CRLF ++
  str "--AaB03x" ++ CRLF ++
  qstr "content-disposition: form-data; name=`field1`" ++ CRLF ++
  str "content-type: text/plain;charset=windows-1250" ++ CRLF ++
  str "content-transfer-encoding: quoted-printable" ++ CRLF ++ CRLF ++
  str "Joe owes =80100." ++ CRLF ++
  str "--AaB03x--" ++ CRLF.

Definition URL_ENCTYPE : bytes := str "application/x-www-form-urlencoded".
Definition MFD_ENCTYPE : bytes := str "multipart/form-data".
Definition MR_ENCTYPE : bytes := str "multipart/related".
Definition XML_ENCTYPE : bytes := str "application/xml".

(** ** The tests *)

(** [apr_xml_to_text] of the document a parser has built: the length it reports
    and the text. *)
Class AprXmlText (X : Type) := { apr_xml_to_text : X -> nat * bytes }.

Section ParserTests.
Context {E : AprErrno} {T : AprTable} {X : Type} {XP : AprXml X} {XT : AprXmlText X}
        {H : HookEnv X} {W : Type} {F : AprFile W} {SM : AprStrmatch}
        {U : Type} {UP : UserParsers (T := T) (X := X) (W := W) U}
        {P : AprPrintf} {Out : Type} {S : AprStream Out}.
Context (FILE_BUCKET_LIMIT : nat) (hole : nat -> Byte.byte) (stack : nat -> Z) (w0 : W) (pp : bytes).
Abbreviation test := (at_m Out unit).
Abbreviation table := (apr_table apreq_param_t).
Abbreviation parser := (apreq_parser_t (T := T) (X := X) (parser_ctx (T := T) (X := X) U)).
#[local] Definition file : bytes := str "parsers.c".
Abbreviation int_eq := (AT_int_eq file).
Abbreviation str_eq := (AT_str_eq file).
Abbreviation mem_eq := (AT_mem_eq file).
Abbreviation not_null := (AT_not_null pp file).

(** What a run leaves behind, for the checks that follow; a run that crashes ends
    the program. *)
Definition run_parser (w : W) (psr : parser) (body : table) (bb : brigade)
    (f : Z -> W -> parser -> table -> brigade -> test) : test :=
  match apreq_parser_run FILE_BUCKET_LIMIT hole w psr body (Some bb) with
  | Ok (s, w, psr, body, bb) => f s w psr body (default [] bb)
  | _ => at_crash
  end.

(** [apreq_value_to_param] of an entry of the body, its info and its upload. *)
Definition value_of (body : table) (name : bytes) : option bytes :=
  p_data <$> apr_table_get body name.
Definition info_of (body : table) (name key : bytes) : option bytes :=
  p ← apr_table_get body name; t ← p_info p; apr_table_get t key.
Definition upload_of (body : table) (name : bytes) : option brigade :=
  p ← apr_table_get body name; p_upload p.

Definition same_function (f : option apreq_parser_function_t) (g : apreq_parser_function_t)
    (line : Z) (label : bytes) : test :=
  at_check (bool_decide (f = Some g)) (str "f == (apreq_parser_function_t)" ++ label) file line
    (Some (str "%pp", pp, pp)).

(** [apreq_initialize(p)] of [main] has filled the registry. *)
Definition locate_default_parsers (g : registry) : test :=
  checks [
    AT_trace_on;
    same_function (apreq_parser g (Some URL_ENCTYPE)) apreq_parse_urlencoded_f 123
      (str "apreq_parse_urlencoded");
    same_function (apreq_parser g (Some MFD_ENCTYPE)) apreq_parse_multipart_f 126
      (str "apreq_parse_multipart");
    same_function (apreq_parser g (Some MR_ENCTYPE)) apreq_parse_multipart_f 129
      (str "apreq_parse_multipart");
    AT_trace_off].

Definition parse_urlencoded : test :=
  let psr := apreq_parser_make URL_ENCTYPE apreq_parse_urlencoded_f 100 None [] None in
  run_parser w0 psr apr_table_make [BData url_data] (fun rv w psr body bb =>
    at_bind (int_eq 157 (str "rv == APR_INCOMPLETE") rv APR_INCOMPLETE) (fun _ =>
    run_parser w psr body (BData (str "blast") :: bb ++ [BEos]) (fun rv w psr body bb =>
      checks [
        int_eq 166 (str "rv == APR_SUCCESS") rv APR_SUCCESS;
        str_eq 168 (qstr "apr_table_get(body,`alpha`) == `one`") (value_of body (str "alpha")) (str "one");
        str_eq 169 (qstr "apr_table_get(body,`beta`) == `two`") (value_of body (str "beta")) (str "two");
        str_eq 170 (qstr "apr_table_get(body,`omega`) == `last+last`")
          (value_of body (str "omega")) (str "last+last")]))).

(** The buckets of the form, split at [j] and at [i]: those before the second half
    of the first split, and the others. *)
Definition split_form (j i : nat) : brigade * brigade :=
  let '(e, f) := apr_bucket_split (BData form_data) j in
  if i <? j then
    let '(e1, e2) := apr_bucket_split e i in ([e1; e2], [f; BEos])
  else
    let '(f1, f2) := apr_bucket_split f (i - j) in ([e], [f1; f2; BEos]).

Definition form_content_type : bytes :=
  MFD_ENCTYPE ++ qstr "; charset=`iso-8859-1`" ++ qstr "; boundary=`AaB03x`".

Definition multipart_checks (j i : nat) : test :=
  let psr := apreq_parser_make form_content_type apreq_parse_multipart_f 1000 None [] None in
  let '(bb, tail) := split_form j i in
  let pics := str "... contents of file1.txt ..." ++ CRLF in
  run_parser w0 psr apr_table_make bb (fun rv w psr body _ =>
    at_bind (int_eq 226 (str "rv == (j < strlen(form_data)) ? APR_INCOMPLETE : APR_SUCCESS") rv
               (if j <? length form_data then APR_INCOMPLETE else APR_SUCCESS)) (fun _ =>
    run_parser w psr body tail (fun rv w psr body _ =>
      let pflatten := from_option brigade_data [] (upload_of body (str "pics")) in
      checks [
        int_eq 228 (str "rv == APR_SUCCESS") rv APR_SUCCESS;
        int_eq 229 (str "apr_table_elts(body)->nelts == 3") (Z.of_nat (length (apr_table_elts body))) 3;
        str_eq 232 (qstr "val == `Joe owes =80100.`") (value_of body (str "field1"))
          (str "Joe owes =80100.");
        str_eq 235 (qstr "val == `quoted-printable`")
          (info_of body (str "field1") (str "content-transfer-encoding")) (str "quoted-printable");
        str_eq 238 (qstr "val == `file1.txt`") (value_of body (str "pics")) (str "file1.txt");
        with_value (upload_of body (str "pics")) (fun _ =>
          int_eq 242 (qstr "len == strlen(`... contents of file1.txt ...` CRLF)")
            (Z.of_nat (length pflatten)) (Z.of_nat (length pics)));
        mem_eq 243 (qstr "val2 == `... contents of file1.txt ...` CRLF") pflatten pics (length pflatten);
        str_eq 245 (qstr "val == `text/plain`") (info_of body (str "pics") (str "content-type"))
          (str "text/plain")]))).

Definition up_to (n : nat) : list nat := seq 0 (1 + n).

Definition parse_multipart : test :=
  checks (map (fun j => localized stack file 190
                          (checks (map (multipart_checks j) (up_to (length form_data)))))
              (up_to (length form_data))).

Definition parse_disable_uploads : test :=
  let hook := apreq_hook_make HookDisableUploads [] CtxNull in
  let psr := apreq_parser_make form_content_type apreq_parse_multipart_f 1000 None hook None in
  run_parser w0 psr apr_table_make [BData form_data; BEos] (fun rv w psr body bb =>
    checks [
      int_eq 286 (str "rv == APREQ_ERROR_GENERAL") rv APREQ_ERROR_GENERAL;
      int_eq 287 (str "apr_table_elts(body)->nelts == 1") (Z.of_nat (length (apr_table_elts body))) 1;
      str_eq 290 (qstr "val == `Joe owes =80100.`") (value_of body (str "field1")) (str "Joe owes =80100.");
      str_eq 293 (qstr "val == `quoted-printable`")
        (info_of body (str "field1") (str "content-transfer-encoding")) (str "quoted-printable");
      AT_is_null pp file 296 (str "val") (value_of body (str "pics"))]).

(** What [parser->ctx] of the generic parser points to. *)
Definition dummy_of (psr : parser) : option apreq_param_t := g_param <$> (ps_ctx psr ≫= as_body).

Definition parse_generic : test :=
  let psr := apreq_parser_make XML_ENCTYPE apreq_parse_generic_f 1000 None [] None in
  run_parser w0 psr apr_table_make [BData xml_data; BEos] (fun rv w psr body bb =>
    let val := from_option brigade_data [] (dummy_of psr ≫= p_upload) in
    checks [
      int_eq 323 (str "rv == APR_SUCCESS") rv APR_SUCCESS;
      not_null 325 (str "dummy") (dummy_of psr);
      with_value (dummy_of psr ≫= p_upload) (fun _ =>
        int_eq 328 (str "vlen == strlen(xml_data)") (Z.of_nat (length val)) (Z.of_nat (length xml_data)));
      mem_eq 329 (str "val == xml_data") val xml_data (length val)]).

Definition hook_discard : test :=
  let hook := apreq_hook_make HookDiscardBrigade [] CtxNull in
  let psr := apreq_parser_make XML_ENCTYPE apreq_parse_generic_f 1000 None hook None in
  run_parser w0 psr apr_table_make [BData xml_data; BEos] (fun rv w psr body bb =>
    checks [
      int_eq 356 (str "rv == APR_SUCCESS") rv APR_SUCCESS;
      not_null 358 (str "dummy") (dummy_of psr);
      not_null 359 (str "dummy->upload") (dummy_of psr ≫= p_upload);
      with_value (dummy_of psr ≫= p_upload) (fun bb =>
        AT_ok file 360 (str "brigade has no contents") (bool_decide (bb = [])))]).

(** The document in the context of the XML hook. *)
Definition document_of (psr : parser) : option X :=
  match ps_hook psr with
  | h :: _ => match h_ctx h with CtxXml x XML_COMPLETE => Some x | _ => None end
  | [] => None
  end.

(** The entry of a part, and the bytes of its upload. *)
Definition binary_part (body : table) (l1 l2 l3 l4 l5 : Z) (name : bytes) : test :=
  let data := str "...Binary data here..." in
  let val2 := from_option brigade_data [] (upload_of body name) in
  checks [
    not_null l1 (str "val") (value_of body name);
    not_null l2 (str "param") (apr_table_get body name);
    not_null l3 (str "param->upload") (upload_of body name);
    int_eq l4 (str "vlen == dlen") (Z.of_nat (length val2)) (Z.of_nat (length data));
    mem_eq l5 (str "val2 == data") val2 data (length val2)].

Definition related_content_type : bytes :=
  qstr "multipart/related; boundary=f93dcbA3; type=application/xml; start=`<980119.X53GGT@example.com>`".

Definition parse_related : test :=
  let xml_hook := apreq_hook_make HookXmlParser [] CtxNull in
  let psr := apreq_parser_make related_content_type apreq_parse_multipart_f 1000 None xml_hook None in
  let root := str "<980119.X53GGT@example.com>" in
  run_parser w0 psr apr_table_make [BData rel_data; BEos] (fun rv w psr body bb =>
    let val2 := from_option brigade_data [] (upload_of body root) in
    checks [
      int_eq 395 (str "rv == APR_SUCCESS") rv APR_SUCCESS;
      not_null 398 (str "val") (value_of body root);
      not_null 401 (str "param") (apr_table_get body root);
      not_null 402 (str "param->info") (apr_table_get body root ≫= p_info);
      str_eq 404 (qstr "val == `400`") (info_of body root (str "Content-Length")) (str "400");
      not_null 405 (str "param->upload") (upload_of body root);
      int_eq 407 (str "vlen == 400") (Z.of_nat (length val2)) 400;
      mem_eq 408 (str "val2 == rel_data + 122") val2 (drop 122 rel_data) 400;
      with_value (document_of psr) (fun doc =>
        let '(vlen, val) := apr_xml_to_text doc in
        checks [
          int_eq 413 (str "vlen == 400 - 22") (Z.of_nat vlen) (400 - 22);
          mem_eq 414 (str "val == rel_data + 122 + 23") val (drop (122 + 23) rel_data) (400 - 23)]);
      binary_part body 418 420 421 423 424 (str "<980119.X25MNC@example.com>");
      binary_part body 427 429 430 432 433 (str "<980119.X17AXM@example.com>")]).

Definition parse_mixed : test :=
  let psr := apreq_parser_make form_content_type apreq_parse_multipart_f 1000 None [] None in
  run_parser w0 psr apr_table_make [BData mix_data; BEos] (fun rv w psr body bb =>
    let files := str "files" in
    let file1 := from_option brigade_data [] (upload_of body files) in
    let elt := apr_table_elts body !! 2 in
    let file2 := from_option brigade_data [] (elt ≫= fun e => p_upload e.2) in
    let t1 := str "... contents of file1.txt ..." in let t2 := str "...contents of file2.gif..." in
    checks [
      int_eq 467 (str "rv == APR_SUCCESS") rv APR_SUCCESS;
      not_null 470 (str "val") (value_of body (str "submit-name"));
      str_eq 471 (qstr "val == `Larry`") (value_of body (str "submit-name")) (str "Larry");
      str_eq 474 (qstr "val == `Joe owes =80100.`") (value_of body (str "field1")) (str "Joe owes =80100.");
      not_null 477 (str "val") (value_of body files);
      str_eq 478 (qstr "val == `file1.txt`") (value_of body files) (str "file1.txt");
      not_null 481 (str "param->upload") (upload_of body files);
      int_eq 483 (qstr "vlen == strlen(`... contents of file1.txt ...`)")
        (Z.of_nat (length file1)) (Z.of_nat (length t1));
      mem_eq 484 (qstr "val2 == `... contents of file1.txt ...`") file1 t1 (length file1);
      int_eq 487 (str "arr->nelts == 4") (Z.of_nat (length (apr_table_elts body))) 4;
      str_eq 490 (qstr "elt->key == `files`") (fst <$> elt) files;
      str_eq 491 (qstr "elt->val == `file2.gif`") ((fun e => p_data e.2) <$> elt) (str "file2.gif");
      not_null 494 (str "param->upload") (elt ≫= fun e => p_upload e.2);
      int_eq 496 (qstr "vlen == strlen(`...contents of file2.gif...`)")
        (Z.of_nat (length file2)) (Z.of_nat (length t2));
      mem_eq 497 (qstr "val2 == `...contents of file2.gif...`") file2 t2 (length file2)]).

(** The list of [main]: two tests, the one that splits the form in every way, and
    the others. *)
Definition first_tests (pool_status : Z) : list (at_test_t Out) :=
  let g := (apreq_initialize pool_status registry_start).2 in [
  dT (str "locate_default_parsers") (locate_default_parsers g) 3 None;
  dT (str "parse_urlencoded") parse_urlencoded 5 None].

Definition multipart_test : at_test_t Out :=
  dT (str "parse_multipart") parse_multipart (Z.of_nat (1 + length form_data)) None.

Definition last_tests : list (at_test_t Out) := [
  dT (str "parse_disable_uploads") parse_disable_uploads 5 None;
  dT (str "parse_generic") parse_generic 4 None;
  dT (str "hook_discard") hook_discard 4 None;
  dT (str "parse_related") parse_related 20 None;
  dT (str "parse_mixed") parse_mixed 15 None].

Definition parser_tests (pool_status : Z) : list (at_test_t Out) :=
  first_tests pool_status ++ [multipart_test] ++ last_tests.

(** [pool_status]: what [apr_pool_create] tells [apreq_initialize]. *)
Definition parsers_main (pool_status : Z) (apr_strtoi64 : bytes -> Z * bytes) (APR_EGENERAL : Z)
    (fuel : nat) (st : nat -> Z) (out : Out) :=
  test_main apr_strtoi64 APR_EGENERAL fuel st false (parser_tests pool_status) out.

End ParserTests.

(** * Properties *)

(** ** The form, however it is split *)

Section Splits.
Context {E : AprErrno} {X : Type} {XP : AprXml X} {H : HookEnv (T := list_table) X}
        {W : Type} {F : AprFile W} {SM : AprStrmatch}
        {U : Type} {UP : UserParsers (T := list_table) (X := X) (W := W) U}
        {P : AprPrintf} {Out : Type} {S : AprStream Out} {WS : WorkingStream Out}.
Context (FILE_BUCKET_LIMIT : nat) (hole : nat -> Byte.byte) (stack : nat -> Z) (w0 : W).
Context (Hlimit : 0 < FILE_BUCKET_LIMIT) (Hos : os_reliable (W := W)).
Abbreviation parser := (apreq_parser_t (T := list_table) (X := X) (parser_ctx (T := list_table) (X := X) U)).
Abbreviation form_parser :=
  (apreq_parser_t (T := list_table) (X := X) (mfd_ctx list_table X (mixed_parser list_table X))).
Abbreviation table := (list (bytes * apreq_param_t (T := list_table))).

(** The three parts of the form. *)
Definition header_line (name value : bytes) : hdr_line := HLine name (str " ") value true.
Definition field_part (name : bytes) : part :=
  Part [header_line (str "content-disposition") (str "form-data; name=" ++ name);
        header_line (str "content-type") (str "text/plain;charset=windows-1250");
        header_line (str "content-transfer-encoding") (str "quoted-printable")]
    [x0d] (str "Joe owes =80100.").
Definition form_parts : list part :=
  [field_part (qstr "`field1`");
   Part [header_line (str "content-disposition") (qstr "form-data; name=`pics`; filename=`file1.txt`");
         header_line (str "Content-Type") (str "text/plain")]
     [x0d] (str "... contents of file1.txt ..." ++ CRLF);
   field_part (qstr "``")].

Lemma form_data_parts : form_data = form_text (str "AaB03x") form_parts [].
Proof. vm_compute. reflexivity. Qed.

Lemma form_parts_ok : forallb (pt_ok (T := list_table) (str "AaB03x")) form_parts = true.
Proof. vm_compute. reflexivity. Qed.

(** A parser object keeps its function. *)
Lemma parse_keeps_function w (psr : form_parser) t bb s w' psr' t' bb' :
  apreq_parse_multipart (T := list_table) (X := X) FILE_BUCKET_LIMIT w psr t bb = Ok (s, w', psr', t', bb') ->
  ps_parser psr' = ps_parser psr.
Proof.
  unfold apreq_parse_multipart. cbn zeta.
  destruct (match ps_ctx psr with Some c => _ | None => _ end) as [[c|]| |]; cbn [obind]; [|congruence|done..].
  destruct (multipart_run _ _ _ _ _ _ _ _ _) as [[s1 r]| |]; cbn [obind]; [|done..]. by intros [= _ _ <- _ _].
Qed.

(** A parser of forms in the parser object of the test. *)
Lemma run_form w (p : form_parser) (t : table) bb s w' p' t' bb' :
  ps_parser p = apreq_parse_multipart_f ->
  apreq_parse_multipart (T := list_table) (X := X) FILE_BUCKET_LIMIT w p t (Some bb) = Ok (s, w', p', t', Some bb') ->
  forall psr : parser, ps_parser psr = ps_parser p -> seen_as as_form psr = p ->
  apreq_parser_run FILE_BUCKET_LIMIT hole w psr t (Some bb) =
    Ok (s, w', stored_as (U := U) FormParser p', t', Some bb') /\
  ps_parser (stored_as (U := U) FormParser p') = apreq_parse_multipart_f /\
  seen_as as_form (stored_as (U := U) FormParser p') = p'.
Proof.
  intros Hp Hr psr Hpsr Hs. split_and!.
  - unfold apreq_parser_run. by rewrite Hpsr, Hp, Hs, Hr.
  - rewrite <- Hp. by eapply parse_keeps_function.
  - unfold seen_as, stored_as. cbn. destruct p' as [ct pf hk bl td [c|]]; done.
Qed.

(** What the buckets of a split hold. *)
Lemma split_form_data j i bb tail : split_form j i = (bb, tail) ->
  exists cl, tail = cl ++ [BEos] /\ forallb clean bb = true /\ forallb clean cl = true /\
    brigade_data bb = take j form_data /\ brigade_data cl = drop j form_data.
Proof.
  unfold split_form. cbn [apr_bucket_split].
  destruct (i <? j); cbn [apr_bucket_split]; intros [= <- <-].
  - exists [BData (drop j form_data)]. split_and!; try done; cbn [brigade_data flat_map apr_bucket_read snd];
      rewrite ?app_nil_r; [by rewrite take_drop|done].
  - exists [BData (take (i - j) (drop j form_data)); BData (drop (i - j) (drop j form_data))].
    split_and!; try done; cbn [brigade_data flat_map apr_bucket_read snd]; rewrite ?app_nil_r; [done|].
    by rewrite take_drop.
Qed.

Definition form_parser_object : parser :=
  apreq_parser_make form_content_type apreq_parse_multipart_f 1000 None [] None.

(** Both calls of the test: the first is successful only when it has seen all of
    the form. *)
Lemma form_runs j i bb tail : split_form j i = (bb, tail) -> j <= length form_data ->
  exists w1 psr1 t1 bb1 w2 psr2 t2 bb2,
    apreq_parser_run FILE_BUCKET_LIMIT hole w0 form_parser_object [] (Some bb) =
      Ok ((if j <? length form_data then APR_INCOMPLETE else APR_SUCCESS), w1, psr1, t1, Some bb1) /\
    apreq_parser_run FILE_BUCKET_LIMIT hole w1 psr1 t1 (Some tail) =
      Ok (APR_SUCCESS, w2, psr2, t2, Some bb2) /\
    Forall2 part_gives form_parts t2.
Proof.
  intros Hsplit Hj. destruct (split_form_data _ _ _ _ Hsplit) as (cl & -> & Hbb & Hcl & Hd1 & Hd2).
  set (b := str "AaB03x"). set (p0 := seen_as as_form form_parser_object).
  assert (Hb : x0d ∉ b) by by apply (bool_decide_eq_true_1 (x0d ∉ str "AaB03x")).
  assert (Hct : boundary_of (ps_content_type p0) = Attr b) by (vm_compute; reflexivity).
  assert (Hpd : form_pending (T := list_table) (X := X) FILE_BUCKET_LIMIT b (set_ctx p0 (first_ctx b p0)) w0 []
            (brigade_data bb ++ drop j form_data) form_parts []).
  { rewrite Hd1, take_drop, form_data_parts. by apply (first_pending (T := list_table)). }
  destruct (parse_pending (T := list_table) (X := X) FILE_BUCKET_LIMIT b Hlimit Hos Hb _ w0 [] bb (drop j form_data) form_parts []
    Hpd Hbb form_parts_ok) as (s1 & w1 & p1 & t1 & bb1 & ps1 & ps2 & es1 & Hr1 & Hps & Hf1 & He1 & Hs1).
  rewrite <- (first_parse (T := list_table) (X := X) FILE_BUCKET_LIMIT b p0 w0 [] bb eq_refl Hct) in Hr1.
  destruct (run_form w0 p0 [] bb s1 w1 p1 t1 bb1 eq_refl Hr1 form_parser_object eq_refl eq_refl)
    as (Hrun1 & Hfun & Hseen).
  assert (Hp1 : ps_parser p1 = apreq_parse_multipart_f) by (by eapply parse_keeps_function in Hr1).
  cbn [apr_table_elts list_table app] in He1. rewrite Hrun1.
  destruct Hs1 as [(-> & Hy & _ & Hpd1)|(-> & -> & Hd & c & Hc & Hst)].
  - assert (Hlt : j < length form_data).
    { destruct (Nat.lt_ge_cases j (length form_data)) as [|Hge]; [done|].
      destruct Hy. by apply drop_ge. }
    rewrite (proj2 (Nat.ltb_lt _ _) Hlt).
    rewrite <- (app_nil_r (drop j form_data)), <- Hd2 in Hpd1.
    assert (Hok2 : forallb (pt_ok (T := list_table) b) ps2 = true).
    { pose proof form_parts_ok as Hok. rewrite Hps, forallb_app in Hok. by apply andb_true_iff in Hok as [_ ?]. }
    destruct (parse_pending (T := list_table) (X := X) FILE_BUCKET_LIMIT b Hlimit Hos Hb p1 w1 t1 cl [] ps2 [] Hpd1 Hcl Hok2)
      as (s2 & w2 & p2 & t2 & bb2 & ps3 & ps4 & es2 & Hr2 & -> & Hf2 & He2 & Hs2).
    destruct Hs2 as [(_ & Hne & _)|(-> & -> & _ & _)]; [destruct (Hne eq_refl)|].
    apply (parse_multipart_behind (T := list_table) (X := X) [BEos] eq_refl FILE_BUCKET_LIMIT w1 p1 t1 cl w2 p2 t2 bb2) in Hr2.
    destruct (run_form _ _ _ _ _ _ _ _ _ Hp1 Hr2 (stored_as FormParser p1)) as (Hrun2 & _ & _);
      [done|done|].
    eexists _, _, _, _, _, _, _, _. split_and!; [reflexivity|exact Hrun2|].
    cbn [apr_table_elts list_table] in He2. rewrite He2, He1, Hps, app_nil_r.
    by apply Forall2_app.
  - apply app_eq_nil in Hd as [_ Hd].
    assert (Hge : length form_data <= j).
    { apply (f_equal length) in Hd. rewrite length_drop in Hd. cbn [length] in Hd. lia. }
    rewrite (proj2 (Nat.ltb_ge _ _) Hge).
    assert (Hr2 : apreq_parse_multipart (T := list_table) (X := X) FILE_BUCKET_LIMIT w1 p1 t1 (Some (cl ++ [BEos])) =
              Ok (APR_SUCCESS, w1, set_ctx (set_hook p1 (ps_hook p1)) c, t1, Some (cl ++ [BEos]))).
    { unfold apreq_parse_multipart. rewrite Hc. cbn [obind]. unfold multipart_run. rewrite Hst.
      reflexivity. }
    destruct (run_form _ _ _ _ _ _ _ _ _ Hp1 Hr2 (stored_as FormParser p1)) as (Hrun2 & _ & _);
      [done|done|].
    eexists _, _, _, _, _, _, _, _. split_and!; [reflexivity|exact Hrun2|].
    rewrite He1, Hps, app_nil_r. exact Hf1.
Qed.

(** What the checks look at in the table of the form. *)
Lemma form_table (t : table) : Forall2 part_gives form_parts t ->
  length t = 3 /\
  value_of t (str "field1") = Some (str "Joe owes =80100.") /\
  info_of t (str "field1") (str "content-transfer-encoding") = Some (str "quoted-printable") /\
  value_of t (str "pics") = Some (str "file1.txt") /\
  info_of t (str "pics") (str "content-type") = Some (str "text/plain") /\
  exists bb, upload_of t (str "pics") = Some bb /\
    brigade_data bb = str "... contents of file1.txt ..." ++ CRLF.
Proof.
  intros Ht. inversion Ht as [|? [k1 p1] ? t1 H1 Ht1]; subst.
  inversion Ht1 as [|? [k2 p2] ? t2 H2 Ht2]; subst.
  inversion Ht2 as [|? [k3 p3] ? t3 H3 Ht3]; subst. inversion Ht3; subst. clear Ht Ht1 Ht2 Ht3 H3.
  destruct H1 as (Hk1 & Hi1 & _ & H1). destruct H2 as (Hk2 & Hi2 & _ & H2).
  assert (A1 : pt_action (T := list_table) (field_part (qstr "`field1`")) = PartParam (Some (str "field1")))
    by (vm_compute; reflexivity).
  rewrite A1 in H1. destruct H1 as (Hn1 & Hd1 & _).
  match type of H2 with match pt_action ?p with _ => _ end =>
    assert (A2 : pt_action (T := list_table) p = PartUpload (str "pics") (str "file1.txt"))
      by (vm_compute; reflexivity) end.
  rewrite A2 in H2. destruct H2 as (Hn2 & Hd2 & bb & Hu & Hbb). cbn [fst snd] in *.
  assert (G1 : apr_table_get (AprTable := list_table) [(k1, p1); (k2, p2); (k3, p3)] (str "field1") = Some p1).
  { rewrite Hk1, Hn1. reflexivity. }
  assert (G2 : apr_table_get (AprTable := list_table) [(k1, p1); (k2, p2); (k3, p3)] (str "pics") = Some p2).
  { rewrite Hk1, Hn1, Hk2, Hn2. reflexivity. }
  unfold value_of, info_of, upload_of. rewrite G1, G2. cbn [fmap option_fmap option_map mbind option_bind].
  rewrite Hd1, Hi1, Hd2, Hi2.
  do 5 (split; [vm_compute; reflexivity|]). exists bb. split; [exact Hu|exact Hbb].
Qed.

(** ** Checks that pass *)

Lemma int_eq_passes file line label z : one_line file = true -> one_line label = true ->
  simple [true] (AT_int_eq (Out := Out) file line label z z).
Proof.
  intros Hf Hl. unfold AT_int_eq. rewrite Z.eqb_refl. constructor; [|done].
  by rewrite one_line_app, Hl.
Qed.

Lemma str_eq_passes file line label v : one_line file = true -> one_line label = true ->
  simple [true] (AT_str_eq (Out := Out) file line label (Some v) v).
Proof.
  intros Hf Hl. unfold AT_str_eq, with_value. rewrite bool_decide_eq_true_2 by done.
  constructor; [|done]. by rewrite one_line_app, Hl.
Qed.

Lemma mem_eq_passes file line label v n : one_line file = true -> one_line label = true ->
  simple [true] (AT_mem_eq (Out := Out) file line label v v n).
Proof.
  intros Hf Hl. unfold AT_mem_eq. rewrite bool_decide_eq_true_2 by done.
  constructor; [|done]. by rewrite !one_line_app, Hl, print_int_line.
Qed.

Lemma checks_pass (l : list (at_m Out unit)) :
  Forall (simple [true]) l -> simple (replicate (length l) true) (checks l).
Proof.
  induction 1 as [|m l Hm _ IH]; [constructor|].
  change (replicate (length (m :: l)) true) with ([true] ++ replicate (length l) true).
  by apply (simple_bind _ _ m (fun _ => checks l)).
Qed.

Lemma multipart_checks_pass j i : j <= length form_data ->
  simple (replicate 9 true) (multipart_checks (U := U) FILE_BUCKET_LIMIT hole w0 j i).
Proof.
  intros Hj. unfold multipart_checks. destruct (split_form j i) as [bb tail] eqn:Hsplit.
  destruct (form_runs j i bb tail Hsplit Hj)
    as (w1 & psr1 & t1 & bb1 & w2 & psr2 & t2 & bb2 & Hrun1 & Hrun2 & Ht).
  unfold run_parser. change (apreq_parser_make _ _ _ _ _ _) with form_parser_object.
  change apr_table_make with ([] : table). rewrite Hrun1.
  apply (simple_bind [true] (replicate 8 true)); [by apply int_eq_passes|].
  rewrite Hrun2. destruct (form_table t2 Ht) as (H1 & H2 & H3 & H4 & H5 & bbu & H6 & H7).
  rewrite H2, H3, H4, H5, H6. cbn [from_option with_value]. rewrite H7.
  change (apr_table_elts t2) with t2. rewrite H1.
  apply (checks_pass [_; _; _; _; _; _; _; _]).
  repeat constructor; auto using int_eq_passes, str_eq_passes, mem_eq_passes.
Qed.

(** Any number of checks, all of which pass. *)
Definition passes (m : at_m Out unit) : Prop := exists rs, forallb id rs = true /\ simple rs m.

Lemma passes_checks (l : list (at_m Out unit)) : Forall passes l -> passes (checks l).
Proof.
  induction 1 as [|m l (a & Ha & Hm) _ (b & Hb & Hl)]; [exists []; by repeat constructor|].
  exists (a ++ b). split; [by rewrite forallb_app, Ha, Hb|].
  by apply (simple_bind _ _ m (fun _ => checks l)).
Qed.

Lemma body_checks (l : list (at_m Out unit)) :
  Forall (body [true]) l -> body (replicate (length l) true) (checks l).
Proof.
  induction 1 as [|m l Hm _ IH]; [apply body_simple; constructor|].
  change (replicate (length (m :: l)) true) with ([true] ++ replicate (length l) true).
  by apply (body_bind _ _ m (fun _ => checks l)).
Qed.

Lemma body_passes file line m : one_line file = true -> passes m ->
  body [true] (localized stack file line m).
Proof. intros Hf (rs & Hrs & Hm). rewrite <- Hrs. by constructor. Qed.

Lemma parse_multipart_body :
  body (replicate (1 + length form_data) true)
    (parse_multipart (U := U) (Out := Out) FILE_BUCKET_LIMIT hole stack w0).
Proof.
  unfold parse_multipart.
  replace (replicate (1 + length form_data) true) with (replicate (length (map (fun j => localized stack file 190
      (checks (map (multipart_checks (U := U) (Out := Out) FILE_BUCKET_LIMIT hole w0 j) (up_to (length form_data)))))
      (up_to (length form_data)))) true)
    by (rewrite length_map; unfold up_to; by rewrite length_seq).
  apply body_checks, Forall_map, List.Forall_forall. intros j Hj.
  apply body_passes; [reflexivity|].
  apply passes_checks, Forall_map, List.Forall_forall. intros i _.
  exists (replicate 9 true). split; [reflexivity|]. apply multipart_checks_pass.
  unfold up_to in Hj. apply in_seq in Hj. lia.
Qed.

(** C27: the form of the test is parsed in the same way however it is split: run on a
    stream that works, the test that splits it into three buckets at any two points
    and parses them with two calls, about a quarter of a million times, reports 483
    passed checks, one for every first point, with their numbers in order. *)
Theorem parse_multipart_passes apr_strtoi64 APR_EGENERAL fuel st (t : at_t Out) :
  report t = ReportFile -> cleanups t = [] ->
  exists t' ls,
    at_run apr_strtoi64 APR_EGENERAL (Datatypes.S fuel) st
      (multipart_test (U := U) FILE_BUCKET_LIMIT hole stack w0) t = Some (Done APR_SUCCESS t') /\
    written (stream t') = written (stream t) ++ flat_map nl ls /\
    tap_lines (prior t + plan t + 1) (replicate 483 true) ls.
Proof.
  intros Hr Hc.
  destruct (run_starts apr_strtoi64 APR_EGENERAL fuel st
    (multipart_test (U := U) FILE_BUCKET_LIMIT hole stack w0) t)
    as (t1 & H1 & C1 & P1 & _ & L1 & S1 & ->); try done.
  pose proof (body_works _ _ parse_multipart_body t1 H1) as Hran.
  rewrite C1, L1, length_replicate in Hran. specialize (Hran ltac:(cbn [t_plan dT multipart_test]; lia)).
  cbn [t_func dT multipart_test] in *. destruct (parse_multipart _ _ _ _ t1) as [[] t2|t2|t2]; cbn [ran] in Hran; [| |done].
  - destruct Hran as (_ & ls & (_ & _ & Hp) & Hls). exists t2, ls.
    unfold prints in Hp. rewrite S1 in Hp. rewrite P1, C1, Z.add_0_r in Hls. by split_and!.
  - destruct Hran as (k & ls & Hk & _). apply lookup_replicate_1 in Hk as [? _]. done.
Qed.

End Splits.

(** ** Runs *)

(** An XML parser that keeps the document, which it prints without its prologue;
    the length it reports counts the NUL. *)
#[export] Instance document_xml : AprXml bytes := {|
  xml_create := [];
  xml_feed d x := (APR_SUCCESS, d ++ x);
  xml_done d := (APR_SUCCESS, d)
|}.
#[export] Instance document_text : AprXmlText bytes := {|
  apr_xml_to_text d := (S (length (drop 23 d)), drop 23 d)
|}.
#[export] Instance no_document_hooks : HookEnv (T := list_table) bytes := {|
  user_hook n c rest p bb := (c, rest p bb);
  struct_bytes p := []
|}.
#[export] Program Instance no_document_parsers :
  UserParsers (T := list_table) (X := bytes) (W := unit) unit := {|
  user_parse n w psr t bb := Aborts
|}.
Next Obligation. done. Qed.

(** The other tests of the parsers pass, one after the other: the registry finds
    the parsers, an urlencoded body is resumed in the middle of an escape, a hook that
    refuses uploads stops a form after its first field, the generic parser keeps a
    body and gives it to its hook, a multipart/related body is read with its XML root
    fed to the XML parser, and a mixed part gives an entry per file. *)
Theorem parser_tests_pass (hole : nat -> Byte.byte) :
  all_pass 56 (run_main (fun strtoi64 general fuel stack => test_main strtoi64 general fuel stack false
    (first_tests (T := list_table) (X := bytes) (U := unit) 1000 hole tt (str "0x1") APR_SUCCESS ++
     last_tests (T := list_table) (X := bytes) (U := unit) 1000 hole tt (str "0x1")))) = true.
Proof. vm_compute. reflexivity. Qed.

Lemma parse_multipart_passes_witness :
  exists t' ls,
    at_run (decimal 0) 20014 9 (fun _ => 0%Z)
      (multipart_test (T := list_table) (X := bytes) (U := unit) 1000 (fun _ => x00) (fun _ => 0%Z) tt)
      a_harness = Some (Done APR_SUCCESS t') /\
    written (stream t') = [] ++ flat_map nl ls /\ tap_lines 1 (replicate 483 true) ls.
Proof.
  pose proof (parse_multipart_passes (X := bytes) (U := unit) 1000 (fun _ => x00) (fun _ => 0%Z) tt
    ltac:(lia) short_writes_reliable (decimal 0) 20014 8 (fun _ => 0%Z) a_harness eq_refl eq_refl) as H.
  exact H.
Defined.
